(* ===== verification/_CoqProject ===== *)
-Q . S2P
Prelude.v
Bytes.v
Platform.v
MetricsData.v
World.v
Sampling.v
Metrics.v
Errors.v
Traits.v
Rocks.v
MetricsTask.v
RocksIter.v
RocksMap.v
RocksSpec.v
MapTheorems.v
BatchTheorems.v
IterTheorems.v
MapContract.v
Isolation.v
Threads.v
Derive.v
DeriveTheorems.v
DeriveMacro.v
Multiaddr.v
Network.v
NetworkTheorems.v
ServerLife.v
MallocSize.v
MallocTheorems.v
MallocMore.v
Rccheck.v
Certgen.v
Component.v
ComponentTheorems.v
Store.v
StoreTheorems.v
StoreHistory.v
StoreGroup.v
StoreLife.v
Telemetry.v
TelemetryTheorems.v
HttpLayers.v
Codec.v
ClosureMetric.v
StreamExample.v
NameVariant.v
Lints.v
MemPlatform.v
Witnesses.v
GroupWitnesses.v
LifeWitnesses.v
Codecs.v
Assertions.v
RocksTests.v
StoreTests.v
DeriveTests.v
SizeTests.v
NetworkWitnesses.v
MallocWitnesses.v
RccheckWitnesses.v
TelemetryWitnesses.v
HttpWitnesses.v
OtherTests.v
