(* ===== verification/Prelude.v ===== *)
(** * A verification library for mysten-infra

    mysten-infra is a workspace of Rust crates.  This library models the crates
    that carry its logic and proves what makes them correct:

    - typed-store: typed column families over RocksDB, with batches, iterators,
      sampled metrics, and an asynchronous store on top (crates/typed-store);
    - typed-store-derive: the macro that turns a struct of tables into code that
      opens, lists and dumps a database (crates/typed-store-derive);
    - component: a supervisor that restarts a task (crates/component);
    - mysten-network: multiaddresses, client endpoints and servers
      (crates/mysten-network);
    - mysten-util-mem and its derive macro: the heap size of values
      (crates/mysten-util-mem, crates/mysten-util-mem-derive);
    - rccheck: TLS certificates generated for and verified against pre-shared
      keys (crates/rccheck);
    - telemetry-subscribers: the set-up of tracing, with the latencies of spans
      (crates/telemetry-subscribers);
    - prometheus-closure-metric and name-variant: a metric computed when it is
      collected, a macro that names the variants of an enum;
    - x: the lint command of the workspace (crates/x).

    ** How the parts interact

    [DBMap] (src/rocks/mod.rs) implements the [Map] trait (src/traits.rs) with
    RocksDB, reading through the iterators of src/rocks/iter.rs, keys.rs and
    values.rs, converting with bincode, turning errors into those of
    src/rocks/errors.rs, and counting with src/metrics.rs, where a
    [SamplingInterval] decides which calls are measured.  [Store] (src/lib.rs)
    serves commands from a channel over a map.  The derive macro generates calls
    of [open_cf_opts], [DBMap::reopen] and [iter].  The layers around a server's
    services count its requests with the handler of metrics.rs and with
    [RequestLifetime]; certificates made by ed25519_certgen.rs are those that
    the key sets of rccheck accept; the example of the component crate runs
    under its supervisor.  The other crates stand alone.

    ** Layout

    - Prelude: results, panics, the state monad [comp] with its notation, weakest
      preconditions, loops, machine integers.  A [?] is [<-?], a panic keeps the
      state reached.
    - Bytes: byte strings and their order, the ordered entries of a map.
    - Platform: what is not in the repository, as type classes: [Platform] has
      RocksDB, bincode, Prometheus, files and the build profile as operations,
      [Serde] a serializable type, and [RocksLaws] and [PromLaws] the documented
      behaviour that the theorems use.
    - World: what the code shares: open databases behind [Arc]s, counters,
      registries, spawned tasks, files, environment, and the calls to metrics
      libraries.
    - MetricsData, Sampling, Metrics: src/metrics.rs.
    - Errors: src/rocks/errors.rs.  Traits: src/traits.rs, with [MapLaws], the
      contract a map keeps, and what the provided methods do under it.
    - Rocks: the free functions and the handles of src/rocks/mod.rs; RocksIter
      the iterators; RocksMap the batches and the implementation of [Map].
    - RocksSpec, MapTheorems, BatchTheorems, IterTheorems: their theorems;
      MapContract: [DBMap] keeps [MapLaws]; Isolation: what an operation leaves
      alone.
    - MetricsTask: the task that [DBMap::new] spawns and the owners of the
      database, as moves on their number; Threads: the provided methods of the
      trait as the calls they make, for threads that interleave, and iterators
      among other threads.
    - Derive, DeriveTheorems: the macro and the code it generates.
    - DeriveMacro: the macro function as a whole, over Derive.
    - Multiaddr, Network, NetworkTheorems: src/multiaddr.rs, client.rs,
      config.rs and server.rs of mysten-network; ServerLife: the cancel handle
      and the phases of a server.
    - HttpLayers: src/metrics.rs of mysten-network and the layers of server.rs;
      Codec: its src/codec.rs.
    - MallocSize, MallocTheorems: src/malloc_size.rs, sizeof.rs, allocators.rs
      and external_impls.rs of mysten-util-mem, lib.rs of its derive macro;
      MallocMore: the implementations behind its features and its lib.rs.
    - Rccheck: src/lib.rs of rccheck; Certgen: its src/ed25519_certgen.rs.
    - Component, ComponentTheorems: src/lib.rs of component; StreamExample:
      its examples/stream_example.rs.
    - Telemetry, TelemetryTheorems: src/lib.rs and span_latency_prom.rs of
      telemetry-subscribers.
    - ClosureMetric, NameVariant: the crates of these names; Lints: crate x.
    - Store, StoreTheorems: src/lib.rs of typed-store; StoreHistory: the calls
      and replies that clients see; StoreGroup: the stores that the generated
      code opens for a struct, side by side over one database; StoreLife: a store
      with its clones, its shutdown, and infinite runs.
    - MemPlatform, Witnesses, GroupWitnesses, LifeWitnesses: an in-memory database
      that keeps all the laws and the theorems at work on it; NetworkWitnesses,
      MallocWitnesses, RccheckWitnesses, TelemetryWitnesses and HttpWitnesses the
      same for lists of protocols, small values, keys with DER headers, a small
      tracing, and requests that are a path with headers.
    - Codecs: bincode's format for the types that the tests store.
    - Assertions, RocksTests, StoreTests, DeriveTests, SizeTests, OtherTests: the
      repository's own tests as programs over the model, each run on the
      platform in memory or on the small crates of the witnesses.

    ** What is proved

    - Maps: every method of [DBMap] on every branch, errors included; what an
      insert stores is what a get returns; the batched [multi_*] against the
      sequential methods of the trait; [contains_key] in spite of false
      positives; [DBMap] refines the map contract, so that
      [get_or_insert_unsafe] and the store are verified against the contract.
    - Batches: a write is all or nothing, in order; ranges; foreign databases
      are refused.
    - Iterators: what a loop yields, where [skip_to], [skip_prior_to],
      [skip_to_last] and [reverse] stand, keys and values, [is_empty].
    - Opening: every family that exists or is asked for gets a handle with the
      right options; sizes read from the environment do not overflow below a
      bound; [reopen] reports a missing family.  A database is open as long as
      somebody owns it, and a map's metrics task lives as long as the map.
    - Threads: what [get_or_insert_unsafe] may answer and leave when several
      threads call it, by an invariant of the pool; two concrete runs show the
      race and the panic that its documentation warns of.  An iterator yields
      the table of the moment it was made, whatever others do meanwhile.
    - Metrics: sampling counts at the rate asked for, or at most once per reset
      under every interleaving; gauges; the process-wide registration happens
      once.
    - Store: in every interleaving of clients and task each request is answered
      at most once and, while the task runs, is answered, queued or parked; every
      command whose update the map accepts is an atomic operation of a
      mathematical map, so that the histories clients see without a refused
      update are linearizable; waiting readers are answered first come first
      served; who is told of a refused update, and who is not.  Under a fair
      scheduler every request but [notify_read] is answered, a [notify_read] at
      the latest by a later write to its key that succeeds, and the task ends
      when the last clone is dropped and the channel is empty.
    - Structs of tables: whatever is done to one table, but to catch up with a
      primary, the others stay what they are; so the stores of a struct, however
      their tasks interleave, are atomic maps each while their updates are
      accepted.
    - Derive: which structs are expanded, to what types; opening; paging;
      counting.
    - Network: which addresses can be dialled and bound, and that the address a
      server reports is the one that reaches it; when a server can be stopped;
      request lifetimes balance; requests are reported through the layers, where
      none limits or sheds load; messages are read back from what the codec
      wrote, and decoding ends.
    - Heap sizes: containers return the estimate of their own allocation plus
      the sizes of their elements, by whatever shortcut, and shared values are
      counted once; where one counts twice.
    - Keys: a set of keys accepts exactly certificates verified under one of its
      members; keys are determined by their bytes; ed25519 keys are trusted as
      they are, and making certificates never panics.
    - Supervisor: the invariant of supervision, and that no failure is missed;
      the life of the example, state by state, and that every fair run of it
      recovers and listens for ever.
    - Telemetry: what the environment adds to a configuration; what [init]
      installs, and once; the filter follows its handle; every span is observed
      once with its own latency.
    - Small crates: label pairs are complete and sorted; a variant's name is its
      name.
    - Tests: the model passes the tests that can be run on it, with the same
      inputs; unsigned keys are kept in the order of their numbers.

    ** Fuel and bounds

    Only loops over an iterator take fuel ([World.drain]): theorems give a bound,
    one more than the number of entries, from which the result is the one stated.
    A turn of the store without enough ends the modelled task, which the code has
    no bound for: theorems that need it say how much is enough.
    The decoding of a buffer ([Codec.decode_all]) needs one more than its bytes.
    [usize] and [u64] are 64 bits wide: where the code can overflow, the model
    panics or wraps by the profile ([overflow_checks]).

    ** What is not modelled

    Help texts of metrics; the body of a component's task, which is arbitrary
    but in the example; token streams of the macros; what the future that
    [Server::serve] awaits does, which is tonic's; the layers that limit and shed
    load, which are parameters without laws; what libraries do beyond their
    documentation; the linters that x runs, which are nexlint's.  Threads that
    share a [DBMap] are interleaved at whole calls of it, each of which RocksDB
    serves atomically; the sampling and metrics around a call are not split.
    A raw iterator is taken to become invalid only at an end of the table, not by
    a failed read.
    Of the tests: those that open a secondary database, whose files the platform
    in memory does not share, that ask for memory usage, or that run servers over
    sockets; those of rccheck quantify over keys and are theorems of Certgen. *)

From stdpp Require Export base tactics option list numbers functions gmap strings.
From Stdlib Require Export ZArith Lia.

#[export] Set Default Proof Using "Type".
#[export] Set Default Goal Selector "!".

(** ** Results, panics and stateful computations *)

(** Rust's [Result<T, E>]: a value the program matches on. *)
Inductive result (A E : Type) : Type :=
| Ok (a : A)
| Err (e : E).
Arguments Ok {A E} a.
Arguments Err {A E} e.

(** How a call ends: it returns a value, or it panics ([unwrap], [expect],
    [panic!], arithmetic checks) with the message of the panic. *)
Inductive outcome (A : Type) : Type :=
| Ret (a : A)
| Panicked (msg : string).
Arguments Ret {A} a.
Arguments Panicked {A} msg.

(** A computation over a state [W]: a panic keeps the state reached so far. *)
Definition comp (W A : Type) : Type := W -> outcome A * W.

Declare Scope rust_scope.
Delimit Scope rust_scope with rust.

Section combinators.
Context {W : Type}.

Definition ret {A} (a : A) : comp W A := fun w => (Ret a, w).

Definition panic {A} (msg : string) : comp W A := fun w => (Panicked msg, w).

Definition bind {A B} (m : comp W A) (k : A -> comp W B) : comp W B :=
  fun w =>
    match m w with
    | (Ret a, w') => k a w'
    | (Panicked msg, w') => (Panicked msg, w')
    end.

(** [let x = m?; k]: an [Err] is returned at once. *)
Definition try_bind {A B E} (m : comp W (result A E)) (k : A -> comp W (result B E)) :
    comp W (result B E) :=
  bind m (fun r => match r with Ok a => k a | Err e => ret (Err e) end).

Definition get_state : comp W W := fun w => (Ret w, w).

Definition gets {A} (f : W -> A) : comp W A := fun w => (Ret (f w), w).

Definition modify (f : W -> W) : comp W unit := fun w => (Ret tt, f w).

(** [o.expect(msg)] and [r.unwrap()]. *)
Definition expect {A} (msg : string) (o : option A) : comp W A :=
  match o with Some a => ret a | None => panic msg end.

Definition unwrap {A E} (msg : string) (r : result A E) : comp W A :=
  match r with Ok a => ret a | Err _ => panic msg end.

(** Run [m] and then, however it ended, the destructors [d] of what it owns. *)
Definition dropping {A} (d : W -> W) (m : comp W A) : comp W A :=
  fun w => let (o, w') := m w in (o, d w').

(** The same when only a panic reaches them: otherwise they are moved out. *)
Definition on_panic {A} (d : W -> W) (m : comp W A) : comp W A :=
  fun w =>
    match m w with
    | (Ret a, w') => (Ret a, w')
    | (Panicked msg, w') => (Panicked msg, d w')
    end.

End combinators.

Notation "x <- m ;; k" := (bind m (fun x => k))
  (at level 100, m at next level, k at level 200, right associativity) : rust_scope.
Notation "m ;; k" := (bind m (fun _ => k))
  (at level 100, k at level 200, right associativity) : rust_scope.
Notation "x <-? m ;; k" := (try_bind m (fun x => k))
  (at level 100, m at next level, k at level 200, right associativity) : rust_scope.
Open Scope rust_scope.

Definition when {W} (b : bool) (m : comp W unit) : comp W unit :=
  if b then m else ret tt.

Definition map_err {A E F} (f : E -> F) (r : result A E) : result A F :=
  match r with Ok a => Ok a | Err e => Err (f e) end.

Definition map_ok {A B E} (f : A -> B) (r : result A E) : result B E :=
  match r with Ok a => Ok (f a) | Err e => Err e end.

(** Option's [and_then], [ok_or], [transpose]; [Result::ok]. *)
Definition ok_or {A E} (o : option A) (e : E) : result A E :=
  match o with Some a => Ok a | None => Err e end.

Definition res_ok {A E} (r : result A E) : option A :=
  match r with Ok a => Some a | Err _ => None end.

Definition is_ok {A E} (r : result A E) : bool :=
  match r with Ok _ => true | Err _ => false end.

Definition transpose {A E} (r : result (option A) E) : option (result A E) :=
  match r with
  | Ok (Some a) => Some (Ok a)
  | Ok None => None
  | Err e => Some (Err e)
  end.

(** Pure [?]-chaining. *)
Definition res_bind {A B E} (r : result A E) (k : A -> result B E) : result B E :=
  match r with Ok a => k a | Err e => Err e end.

(** [iter.map(f).collect::<Result<Vec<_>, _>>()]: the first error wins. *)
Fixpoint collect {A B E} (f : A -> result B E) (l : list A) : result (list B) E :=
  match l with
  | [] => Ok []
  | x :: l' => res_bind (f x) (fun y => res_bind (collect f l') (fun ys => Ok (y :: ys)))
  end.

(** [iter.try_for_each(f)] with an accumulator threaded by the closure. *)
Fixpoint try_fold {S A E} (f : S -> A -> result S E) (s : S) (l : list A) : result S E :=
  match l with
  | [] => Ok s
  | x :: l' => res_bind (f s x) (fun s' => try_fold f s' l')
  end.

(** [iter.try_for_each(f)] for an effectful closure. *)
Fixpoint try_for_each {W A E} (f : A -> comp W (result unit E)) (l : list A) :
    comp W (result unit E) :=
  match l with
  | [] => ret (Ok tt)
  | x :: l' => _ <-? f x ;; try_for_each f l'
  end.

(** A [for] loop whose body returns nothing. *)
Fixpoint for_each {W A} (f : A -> comp W unit) (l : list A) : comp W unit :=
  match l with
  | [] => ret tt
  | x :: l' => f x ;; for_each f l'
  end.

(** ** Machine integers *)

(** Unsigned 64-bit wrap-around; [usize] is 64 bits wide on the targets the
    crates are built for. *)
Definition u64_modulus : Z := 2 ^ 64.
Definition wrap64 (z : Z) : Z := z mod u64_modulus.
Definition u64 (z : Z) : Prop := (0 <= z < u64_modulus)%Z.
Definition i64_max : Z := 2 ^ 63 - 1.

(** [x as i64] for a [u64] x: two's complement reinterpretation. *)
Definition as_i64 (z : Z) : Z := if (z <=? i64_max)%Z then z else (z - u64_modulus)%Z.

(** ** Weakest preconditions *)

Definition wp {W A} (m : comp W A) (Q : outcome A -> W -> Prop) (w : W) : Prop :=
  Q (m w).1 (m w).2.

Section wp_rules.
Context {W : Type}.
Implicit Types w : W.

Lemma wp_ret {A} (a : A) Q w : Q (Ret a) w -> wp (ret a) Q w.
Proof. done. Qed.

Lemma wp_panic {A} msg (Q : outcome A -> W -> Prop) w : Q (Panicked msg) w -> wp (panic msg) Q w.
Proof. done. Qed.

Lemma wp_bind {A B} (m : comp W A) (k : A -> comp W B) Q w :
  wp m (fun o w' =>
    match o with
    | Ret a => wp (k a) Q w'
    | Panicked msg => Q (Panicked msg) w'
    end) w ->
  wp (bind m k) Q w.
Proof. unfold wp, bind. by destruct (m w) as [[a|msg] w']. Qed.

Lemma wp_try_bind {A B E} (c : comp W (result A E)) (k : A -> comp W (result B E)) Q w :
  wp c (fun o w' =>
    match o with
    | Ret (Ok a) => wp (k a) Q w'
    | Ret (Err e) => Q (Ret (Err e)) w'
    | Panicked msg => Q (Panicked msg) w'
    end) w ->
  wp (try_bind c k) Q w.
Proof. unfold wp, try_bind, bind. by destruct (c w) as [[[a|e]|msg] w']. Qed.

Lemma wp_mono {A} (m : comp W A) (P Q : outcome A -> W -> Prop) w :
  wp m P w -> (forall o w', P o w' -> Q o w') -> wp m Q w.
Proof. unfold wp. auto. Qed.

Lemma wp_gets {A} (f : W -> A) Q w : Q (Ret (f w)) w -> wp (gets f) Q w.
Proof. done. Qed.

Lemma wp_modify (f : W -> W) Q w : Q (Ret tt) (f w) -> wp (modify f) Q w.
Proof. done. Qed.

Lemma wp_dropping {A} (d : W -> W) (m : comp W A) Q w :
  wp m (fun o w' => Q o (d w')) w -> wp (dropping d m) Q w.
Proof. unfold wp, dropping. by destruct (m w). Qed.

Lemma wp_on_panic {A} (d : W -> W) (m : comp W A) Q w :
  wp m (fun o w' => match o with Ret a => Q (Ret a) w' | Panicked e => Q (Panicked e) (d w') end) w ->
  wp (on_panic d m) Q w.
Proof. unfold wp, on_panic. by destruct (m w) as [[|] ?]. Qed.

Lemma wp_eq {A} (m : comp W A) o w' w : m w = (o, w') -> wp m (fun o1 w1 => o1 = o /\ w1 = w') w.
Proof. unfold wp. by intros ->. Qed.

(** Run the first of two computations. *)
Lemma bind_run {A B} (m : comp W A) (k : A -> comp W B) w a w' :
  m w = (Ret a, w') -> bind m k w = k a w'.
Proof. unfold bind. by intros ->. Qed.

Lemma bind_panic {A B} (m : comp W A) (k : A -> comp W B) w msg w' :
  m w = (Panicked msg, w') -> bind m k w = (Panicked msg, w').
Proof. unfold bind. by intros ->. Qed.

End wp_rules.

(** ** Lists, options and results *)

Lemma res_bind_ok {A B E} (r : result A E) (k : A -> result B E) b :
  res_bind r k = Ok b -> exists a, r = Ok a /\ k a = Ok b.
Proof. destruct r; naive_solver. Qed.

Lemma collect_ok {A B E} (f : A -> result B E) l ys :
  collect f l = Ok ys <-> Forall2 (fun x y => f x = Ok y) l ys.
Proof.
  revert ys. induction l as [|x l IH]; intros ys; simpl.
  - split; [intros [= <-]; constructor | by inversion 1].
  - split.
    + intros (y & Hy & (ys' & Hl & [= <-])%res_bind_ok)%res_bind_ok.
      constructor; [done | by apply IH].
    + inversion 1 as [|? y ? ys' Hy Hl]; subst. apply IH in Hl.
      by rewrite Hy; simpl; rewrite Hl.
Qed.

Lemma collect_fst_err {A B E} (f : A -> result B E) l e :
  collect f l = Err e <->
  exists l1 x l2, l = l1 ++ x :: l2 /\ (exists ys, collect f l1 = Ok ys) /\ f x = Err e.
Proof.
  induction l as [|x l IH]; simpl.
  - split; [done | intros (l1 & x & l2 & H & _); by destruct l1].
  - split.
    + destruct (f x) as [y|e'] eqn:Hx; simpl.
      * destruct (collect f l) as [ys|e'] eqn:Hl; simpl; [done|]. intros [= ->].
        destruct (proj1 IH eq_refl) as (l1 & z & l2 & -> & [ys Hys] & Hz).
        exists (x :: l1), z, l2. split_and!; [done| |done].
        exists (y :: ys). simpl. by rewrite Hx, Hys.
      * intros [= ->]. exists [], x, l. split_and!; [done| by exists [] |done].
    + intros (l1 & z & l2 & Heq & [ys Hys] & Hz).
      destruct l1 as [|x' l1]; simplify_eq/=; [by rewrite Hz|].
      destruct (f x') as [y|] eqn:Hx; simplify_eq/=.
      destruct (collect f l1) as [ys'|] eqn:Hl1; simplify_eq/=.
      rewrite (proj2 IH); [done|]. exists l1, z, l2. eauto.
Qed.

Lemma list_filter_all {A} (P : A -> Prop) `{!forall x, Decision (P x)} (l : list A) :
  Forall P l -> filter P l = l.
Proof.
  induction 1 as [|x l Hx _ IH]; [done|]. rewrite filter_cons.
  by rewrite decide_True, IH.
Qed.

Lemma list_filter_none {A} (P : A -> Prop) `{!forall x, Decision (P x)} (l : list A) :
  Forall (fun x => ~ P x) l -> filter P l = [].
Proof.
  induction 1 as [|x l Hx _ IH]; [done|]. rewrite filter_cons.
  by rewrite decide_False, IH.
Qed.

Lemma wrap64_small z : u64 z -> wrap64 z = z.
Proof. unfold u64, wrap64. intros. by apply Z.mod_small. Qed.

Lemma wrap64_range z : u64 (wrap64 z).
Proof. unfold u64, wrap64, u64_modulus. by apply Z.mod_pos_bound. Qed.

Lemma wrap64_add_l a b : wrap64 (wrap64 a + b) = wrap64 (a + b).
Proof. unfold wrap64. by rewrite Zplus_mod_idemp_l. Qed.

Lemma wrap64_add_r a b : wrap64 (a + wrap64 b) = wrap64 (a + b).
Proof. unfold wrap64. by rewrite Zplus_mod_idemp_r. Qed.

Create HintDb rust.
Create Rewrite HintDb rust.
#[export] Hint Resolve wp_ret wp_gets wp_modify wp_dropping wrap64_range : rust.
#[export] Hint Rewrite @wrap64_add_l @wrap64_add_r : rust.

(** One step of symbolic execution on a goal [wp m Q w]. *)
Ltac wp_step :=
  lazymatch goal with
  | |- wp (bind _ _) _ _ => apply wp_bind
  | |- wp (try_bind _ _) _ _ => apply wp_try_bind
  | |- wp (ret _) _ _ => apply wp_ret
  | |- wp (panic _) _ _ => apply wp_panic
  | |- wp (gets _) _ _ => apply wp_gets
  | |- wp (modify _) _ _ => apply wp_modify
  | |- wp (dropping _ _) _ _ => apply wp_dropping
  | |- wp (on_panic _ _) _ _ => apply wp_on_panic
  end.
Ltac wp_steps := repeat (wp_step; cbn beta iota).

(** Identify the results of one fallible computation met twice. *)
Ltac same_ok :=
  repeat match goal with
  | H1 : ?t = Ok ?a, H2 : ?t = Ok ?b |- _ =>
      assert (a = b) by congruence; clear H2; simplify_eq
  end.
