(* ===== verification/Bytes.v ===== *)
(** * Byte strings, their lexicographic order and sorted tables

    Keys and values reach RocksDB as byte strings, and RocksDB orders keys
    bytewise.  This file has that order, and the ordered list of entries of a
    finite map, which the iterator interface is specified with. *)
From stdpp Require Import sorting.
From S2P Require Import Prelude.

Abbreviation byte := Byte.byte.
Definition bytes : Type := list byte.

#[export] Instance byte_eq_dec : EqDecision byte := Byte.byte_eq_dec.
#[export] Instance byte_countable : Countable byte.
Proof.
  refine (inj_countable Byte.to_N Byte.of_N _).
  intros b. apply Byte.of_to_N.
Defined.
#[export] Instance bytes_eq_dec : EqDecision bytes := _.
#[export] Instance bytes_countable : Countable bytes := _.

(** ** The bytewise order *)

Fixpoint bytes_compare (a b : bytes) : comparison :=
  match a, b with
  | [], [] => Eq
  | [], _ :: _ => Lt
  | _ :: _, [] => Gt
  | x :: a', y :: b' =>
      match N.compare (Byte.to_N x) (Byte.to_N y) with
      | Eq => bytes_compare a' b'
      | c => c
      end
  end.

Definition bytes_lt (a b : bytes) : Prop := bytes_compare a b = Lt.
Definition bytes_le (a b : bytes) : Prop := bytes_compare a b <> Gt.

#[export] Instance bytes_lt_dec a b : Decision (bytes_lt a b).
Proof. unfold bytes_lt. apply _. Defined.
#[export] Instance bytes_le_dec a b : Decision (bytes_le a b).
Proof. unfold bytes_le. destruct (bytes_compare a b); [left|left|right]; congruence. Defined.

Lemma to_N_inj x y : Byte.to_N x = Byte.to_N y -> x = y.
Proof. intros H. apply (f_equal Byte.of_N) in H. rewrite !Byte.of_to_N in H. congruence. Qed.

Lemma bytes_compare_eq a b : bytes_compare a b = Eq <-> a = b.
Proof.
  revert b. induction a as [|x a IH]; intros [|y b]; simpl; try (split; congruence).
  destruct (N.compare_spec (Byte.to_N x) (Byte.to_N y)) as [H|H|H].
  - apply to_N_inj in H as ->. rewrite IH. split; congruence.
  - split; [done|]. intros [= -> _]. lia.
  - split; [done|]. intros [= -> _]. lia.
Qed.

Lemma bytes_compare_refl a : bytes_compare a a = Eq.
Proof. by apply bytes_compare_eq. Qed.

Lemma bytes_compare_antisym a b : bytes_compare b a = CompOpp (bytes_compare a b).
Proof.
  revert b. induction a as [|x a IH]; intros [|y b]; simpl; try done.
  rewrite (N.compare_antisym (Byte.to_N x)). destruct (N.compare _ _); simpl; auto.
Qed.

Lemma bytes_lt_trans a b c : bytes_lt a b -> bytes_lt b c -> bytes_lt a c.
Proof.
  unfold bytes_lt. revert b c.
  induction a as [|x a IH]; intros [|y b] [|z c]; simpl; try done.
  destruct (N.compare_spec (Byte.to_N x) (Byte.to_N y)) as [H|H|H]; [|intros _|done].
  - rewrite H. destruct (N.compare _ _); eauto.
  - destruct (N.compare_spec (Byte.to_N y) (Byte.to_N z)) as [H'|H'|H']; [intros _|intros _|done].
    + rewrite <- H'. by rewrite (proj2 (N.compare_lt_iff _ _) H).
    + by rewrite (proj2 (N.compare_lt_iff (Byte.to_N x) (Byte.to_N z))) by lia.
Qed.

Lemma bytes_lt_irrefl a : ~ bytes_lt a a.
Proof. unfold bytes_lt. by rewrite bytes_compare_refl. Qed.

Lemma bytes_le_lteq a b : bytes_le a b <-> bytes_lt a b \/ a = b.
Proof.
  unfold bytes_le, bytes_lt. rewrite <- bytes_compare_eq.
  destruct (bytes_compare a b); naive_solver.
Qed.

Lemma bytes_lt_ge a b : ~ bytes_lt a b <-> bytes_le b a.
Proof.
  unfold bytes_lt, bytes_le. rewrite (bytes_compare_antisym a b).
  destruct (bytes_compare a b); simpl; naive_solver.
Qed.

Lemma bytes_le_lt_trans a b c : bytes_le a b -> bytes_lt b c -> bytes_lt a c.
Proof. intros [H| ->]%bytes_le_lteq H2; [|done]; eauto using bytes_lt_trans. Qed.

Lemma bytes_lt_le_trans a b c : bytes_lt a b -> bytes_le b c -> bytes_lt a c.
Proof. intros H1 [H| ->]%bytes_le_lteq; [|done]; eauto using bytes_lt_trans. Qed.

#[export] Instance bytes_le_trans : Transitive bytes_le.
Proof.
  intros a b c [H| ->]%bytes_le_lteq H2; [|done].
  apply bytes_le_lteq. left. by eapply bytes_lt_le_trans.
Qed.

#[export] Instance bytes_le_refl : Reflexive bytes_le.
Proof. intros a. unfold bytes_le. by rewrite bytes_compare_refl. Qed.

#[export] Instance bytes_le_total : Total bytes_le.
Proof.
  intros a b. destruct (decide (bytes_lt a b)) as [H|H].
  - left. apply bytes_le_lteq. auto.
  - right. by apply bytes_lt_ge.
Qed.

#[export] Instance bytes_le_antisymm : AntiSymm (=) bytes_le.
Proof.
  intros a b [H| ->]%bytes_le_lteq; [|done]. intros Hba.
  apply bytes_lt_ge in Hba. done.
Qed.

#[export] Hint Resolve bytes_lt_trans bytes_lt_irrefl bytes_le_lt_trans bytes_lt_le_trans : rust.

(** ** Ordered entries of a table *)

Abbreviation entry := (bytes * bytes)%type.

Definition entry_le (x y : entry) : Prop := bytes_le x.1 y.1.
Definition entry_lt (x y : entry) : Prop := bytes_lt x.1 y.1.
#[export] Instance entry_le_dec x y : Decision (entry_le x y) := bytes_le_dec _ _.
#[export] Instance entry_le_total : Total entry_le.
Proof. intros x y. apply bytes_le_total. Qed.
#[export] Instance entry_le_trans : Transitive entry_le.
Proof. intros x y z. unfold entry_le. apply bytes_le_trans. Qed.

(** The entries of a table in key order. *)
Definition entries (m : gmap bytes bytes) : list entry :=
  merge_sort entry_le (map_to_list m).

Lemma entries_perm m : entries m ≡ₚ map_to_list m.
Proof. apply merge_sort_Permutation. Qed.

Lemma elem_of_entries m k v : (k, v) ∈ entries m <-> m !! k = Some v.
Proof. by rewrite entries_perm, elem_of_map_to_list. Qed.

Lemma entries_nodup_keys m : NoDup (entries m).*1.
Proof. rewrite entries_perm. apply NoDup_fst_map_to_list. Qed.

Lemma strongly_sorted_strict (l : list entry) :
  NoDup l.*1 -> StronglySorted entry_le l -> StronglySorted entry_lt l.
Proof.
  intros Hnd Hs. induction Hs as [|x l Hs IH Hall]; [constructor|].
  rewrite fmap_cons in Hnd. apply NoDup_cons in Hnd as [Hx Hnd].
  constructor; [by apply IH|].
  rewrite Forall_forall in Hall. apply Forall_forall. intros y Hy.
  specialize (Hall y Hy). apply bytes_le_lteq in Hall as [|Heq]; [done|].
  destruct Hx. rewrite Heq. by apply list_elem_of_fmap_2.
Qed.

(** Keys come out strictly increasing. *)
Lemma entries_sorted m : StronglySorted entry_lt (entries m).
Proof.
  apply strongly_sorted_strict; [apply entries_nodup_keys|].
  apply StronglySorted_merge_sort; apply _.
Qed.

Lemma entries_empty : entries ∅ = [].
Proof. unfold entries. by rewrite map_to_list_empty. Qed.

(** A strictly increasing list is determined by its elements. *)
Lemma strict_sorted_ext (l1 l2 : list entry) :
  StronglySorted entry_lt l1 -> StronglySorted entry_lt l2 ->
  (forall x, x ∈ l1 <-> x ∈ l2) -> l1 = l2.
Proof.
  intros H1. revert l2. induction H1 as [|x l1 Hs IH Hall]; intros l2 H2 Heq.
  - destruct l2 as [|y l2]; [done|]. exfalso.
    assert (y ∈ @nil entry) as Hy by (apply Heq; left). by apply not_elem_of_nil in Hy.
  - destruct l2 as [|y l2].
    { exfalso. assert (x ∈ @nil entry) as Hx by (apply Heq; left). by apply not_elem_of_nil in Hx. }
    inversion_clear H2 as [|? ? Hs2 Hall2].
    rewrite Forall_forall in Hall. rewrite Forall_forall in Hall2.
    assert (x = y) as ->.
    { assert (x ∈ y :: l2) as Hx by (apply Heq; left).
      assert (y ∈ x :: l1) as Hy by (apply Heq; left).
      apply elem_of_cons in Hx as [|Hx]; [done|].
      apply elem_of_cons in Hy as [|Hy]; [done|].
      specialize (Hall _ Hy). specialize (Hall2 _ Hx). unfold entry_lt in *.
      exfalso. eapply bytes_lt_irrefl, bytes_lt_trans; eauto. }
    f_equal. apply IH; [done|]. intros z. split; intros Hz.
    + assert (z ∈ y :: l2) as Hz2 by (apply Heq; by right).
      apply elem_of_cons in Hz2 as [->|]; [|done].
      specialize (Hall _ Hz). by apply bytes_lt_irrefl in Hall.
    + assert (z ∈ y :: l1) as Hz2 by (apply Heq; by right).
      apply elem_of_cons in Hz2 as [->|]; [|done].
      specialize (Hall2 _ Hz). by apply bytes_lt_irrefl in Hall2.
Qed.

(** ** Positions in a sorted table *)

(** First position whose key is at least [k]. *)
Fixpoint first_ge (k : bytes) (l : list entry) : nat :=
  match l with
  | [] => 0
  | x :: l' => if decide (bytes_lt x.1 k) then S (first_ge k l') else 0
  end.

Definition below (k : bytes) (l : list entry) : list entry :=
  filter (fun x : entry => bytes_lt x.1 k) l.
Definition at_least (k : bytes) (l : list entry) : list entry :=
  filter (fun x : entry => ~ bytes_lt x.1 k) l.

Lemma drop_first_ge k l :
  StronglySorted entry_lt l -> drop (first_ge k l) l = at_least k l.
Proof.
  unfold at_least. induction 1 as [|x l Hs IH Hall]; [done|]; simpl.
  rewrite filter_cons. destruct (decide (bytes_lt x.1 k)) as [Hlt|Hge]; simpl.
  - rewrite decide_False by auto. apply IH.
  - rewrite decide_True by auto. f_equal. symmetry. apply list_filter_all.
    rewrite Forall_forall in Hall. apply Forall_forall. intros y Hy Hlt.
    apply Hge. eapply bytes_lt_trans; [apply Hall, Hy|done].
Qed.

Lemma take_first_ge k l :
  StronglySorted entry_lt l -> take (first_ge k l) l = below k l.
Proof.
  unfold below. induction 1 as [|x l Hs IH Hall]; [done|]; simpl.
  rewrite filter_cons. destruct (decide (bytes_lt x.1 k)) as [Hlt|Hge]; simpl.
  - by rewrite IH.
  - symmetry. apply list_filter_none. rewrite Forall_forall in Hall.
    apply Forall_forall. intros y Hy Hlt.
    apply Hge. eapply bytes_lt_trans; [apply Hall, Hy|done].
Qed.

Lemma first_ge_le_length k l : first_ge k l <= length l.
Proof. induction l as [|x l IH]; simpl; [lia|]. case_decide; lia. Qed.
