(* ===== verification/Platform.v ===== *)
(** * What the crates call but do not contain

    Interfaces of the third-party code typed-store is written against:
    RocksDB (with its write batches and raw iterators), bincode, Prometheus and
    the RocksDB perf context.  [Platform] is the record of operations the
    models take as an argument; [RocksLaws], [PromLaws] and [SerdeLaws] are the
    documented behaviour the theorems rely on.  [MemPlatform] has a concrete
    platform that satisfies all of them.  The parts of the Rust standard
    library that the code uses (paths, floats converted from integers) are
    defined here. *)
From Stdlib Require Import QArith SpecFloat.
From S2P Require Import Prelude Bytes.
Open Scope Z_scope.

(** ** Standard library: OS strings, paths, floats *)

(** An [OsStr]: valid UTF-8 or not. *)
Inductive os_str : Type :=
| Utf8 (s : string)
| NonUtf8 (raw : bytes).

Definition to_str (s : os_str) : option string :=
  match s with Utf8 s => Some s | NonUtf8 _ => None end.

Inductive path_component : Type :=
| RootDir
| CurDir
| ParentDir
| Normal (s : os_str).

(** A [Path] by its components. *)
Definition path : Type := list path_component.

Definition file_name (p : path) : option os_str :=
  match last p with Some (Normal s) => Some s | _ => None end.

(** [PathBuf::pop]: truncate to the parent; the root and the empty path have none. *)
Definition path_pop (p : path) : path :=
  match last p with
  | Some RootDir | None => p
  | Some _ => take (length p - 1) p
  end.

(** [PathBuf::push] of a relative name. *)
Definition path_push (p : path) (name : string) : path := p ++ [Normal (Utf8 name)].

(** [f64] values; [n as f64] for an unsigned [n] rounds to nearest even. *)
Definition f64 : Type := spec_float.
Definition f64_of_Z (n : Z) : f64 := binary_normalize 53 1024 n 0 false.
Definition f64_zero : f64 := S754_zero false.
Definition f64_add (a b : f64) : f64 := SFadd 53 1024 a b.

(** ** bincode *)

(** The error kinds of bincode 1.3, as its documentation lists them. *)
Inductive bincode_error : Type :=
| BkIo (msg : string)
| BkInvalidUtf8Encoding (msg : string)
| BkInvalidBoolEncoding (b : byte)
| BkInvalidCharEncoding
| BkInvalidTagEncoding (tag : Z)
| BkDeserializeAnyNotSupported
| BkSizeLimit
| BkSequenceMustHaveLength
| BkCustom (msg : string).

(** A type with serde's [Serialize] and [DeserializeOwned], through bincode:
    [ser_key]/[de_key] with the big-endian fixed-width options used for keys,
    [ser_val]/[de_val] with the default functions used for values. *)
Class Serde (T : Type) : Type := {
  ser_key : T -> result bytes bincode_error;
  de_key : bytes -> result T bincode_error;
  ser_val : T -> result bytes bincode_error;
  de_val : bytes -> result T bincode_error;
}.

(** bincode reads back what it wrote. *)
Class SerdeLaws (T : Type) `{!Serde T} : Prop := {
  de_ser_key (t : T) b : ser_key t = Ok b -> de_key b = Ok t;
  de_ser_val (t : T) b : ser_val t = Ok b -> de_val b = Ok t;
}.

Lemma ser_key_inj {T} `{SerdeLaws T} (x y : T) b : ser_key x = Ok b -> ser_key y = Ok b -> x = y.
Proof. intros Hx%de_ser_key Hy%de_ser_key. congruence. Qed.

(** ** Prometheus *)

Inductive metric_kind : Type := IntGaugeKind | IntCounterKind | HistogramKind.

(** A metric vector handle: its registered name, kind, label names and, for a
    histogram, the arguments of [exponential_buckets] when it is called. *)
Record MetricVec : Type := mkVec {
  vec_name : string;
  vec_kind : metric_kind;
  vec_labels : list string;
  vec_buckets : option (Q * Q * nat);
}.

(** ** RocksDB perf counters *)

Inductive PerfStatsLevel : Type := EnableTime | Disable.

Inductive PerfMetric : Type :=
| UserKeyComparisonCount | BlockCacheHitCount | BlockReadCount | BlockReadByte
| BlockReadTime | BlockChecksumTime | BlockDecompressTime | GetReadBytes
| MultigetReadBytes | GetSnapshotTime | GetFromMemtableTime | GetFromMemtableCount
| GetPostProcessTime | GetFromOutputFilesTime | DbMutexLockNanos
| DbConditionWaitNanos | MergeOperatorTimeNanos | ReadIndexBlockNanos
| ReadFilterBlockNanos | NewTableBlockIterNanos | BlockSeekNanos | FindTableNanos
| BloomMemtableHitCount | BloomMemtableMissCount | BloomSstHitCount
| BloomSstMissCount | KeyLockWaitTime | KeyLockWaitCount | WriteWalTime
| WriteMemtableTime | WriteDelayTime | WritePreAndPostProcessTime.

(** ** The observable calls into metrics libraries, in order *)

Inductive event : Type :=
| TimerStarted (h : MetricVec) (label : string)
| TimerObserved (h : MetricVec) (label : string)
| Observed (h : MetricVec) (label : string) (v : f64)
| CounterAdded (c : MetricVec) (label : string) (n : Z)
| GaugeSet (g : MetricVec) (label : string) (v : Z)
| PerfLevelSet (l : PerfStatsLevel)
| PerfReset
| FdLimitRaised.

(** ** RocksDB *)

(** The integer properties the metrics task reads. *)
Inductive cf_property : Type :=
| TOTAL_SST_FILES_SIZE | SIZE_ALL_MEM_TABLES | NUM_SNAPSHOTS | OLDEST_SNAPSHOT_TIME
| ACTUAL_DELAYED_WRITE_RATE | IS_WRITE_STOPPED | BLOCK_CACHE_CAPACITY
| BLOCK_CACHE_USAGE | BLOCK_CACHE_PINNED_USAGE | ESTIMATE_TABLE_READERS_MEM
| ESTIMATE_NUM_KEYS | MEM_TABLE_FLUSH_PENDING | COMPACTION_PENDING
| NUM_RUNNING_COMPACTIONS | NUM_RUNNING_FLUSHES | ESTIMATE_OLDEST_KEY_TIME
| BACKGROUND_ERRORS.

(** What a [WriteBatch] holds: the updates added to it, in order. *)
Inductive batch_op : Type :=
| BatchPut (cf : string) (k v : bytes)
| BatchDelete (cf : string) (k : bytes)
| BatchDeleteRange (cf : string) (from to : bytes).

Record mem_stats : Type := {
  mem_table_total : Z;
  mem_table_unflushed : Z;
  mem_table_readers_total : Z;
  cache_total : Z;
}.

(** The operations of the third-party libraries.  Errors of RocksDB are their
    message.  A mutating operation returns the new state of the database
    object, also when it fails. *)
Class Platform : Type := {
  (* the build profile: whether arithmetic overflow panics or wraps *)
  overflow_checks : bool;
  (* bincode's and Prometheus' error and registry *)
  bincode_display : bincode_error -> string;
  registry : Type;
  prom_register : string -> registry -> result unit string * registry;
  (* perf context: the value of a counter after a history of calls *)
  perf_metric : list event -> PerfMetric -> Z;
  (* options *)
  options : Type;
  options_default : options;
  set_db_write_buffer_size : Z -> options -> options;
  set_max_total_wal_size : Z -> options -> options;
  create_if_missing : bool -> options -> options;
  create_missing_column_families : bool -> options -> options;
  set_max_open_files : Z -> options -> options;
  (* files *)
  fs : Type;
  db : Type;
  list_cf : options -> path -> fs -> result (list string) string;
  open_cf_descriptors :
    options -> path -> list (string * options) -> fs -> result db string * fs;
  open_cf_descriptors_as_secondary :
    options -> path -> path -> list (string * options) -> fs -> result db string * fs;
  tempdir : fs -> result path string * fs;
  (* an open database *)
  db_path : db -> path;
  cf_handle : db -> string -> bool;
  property_int_value_cf : db -> string -> cf_property -> result (option Z) string;
  get_memory_usage_stats : db -> result mem_stats string;
  key_may_exist_cf : db -> string -> bytes -> bool;
  get_pinned_cf : db -> string -> bytes -> result (option bytes) string;
  multi_get_cf : db -> list (string * bytes) -> list (result (option bytes) string);
  put_cf : string -> bytes -> bytes -> db -> result unit string * db;
  delete_cf : string -> bytes -> db -> result unit string * db;
  write_batch : list batch_op -> db -> result unit string * db;
  batch_size_in_bytes : list batch_op -> Z;
  drop_cf : string -> db -> result unit string * db;
  create_cf : string -> options -> db -> result unit string * db;
  db_try_catch_up_with_primary : db -> result unit string * db;
  (* raw iterators *)
  raw_iter : Type;
  raw_iterator_cf : db -> string -> raw_iter;
  seek_to_first : raw_iter -> raw_iter;
  seek_to_last : raw_iter -> raw_iter;
  seek : bytes -> raw_iter -> raw_iter;
  seek_for_prev : bytes -> raw_iter -> raw_iter;
  raw_next : raw_iter -> raw_iter;
  raw_prev : raw_iter -> raw_iter;
  raw_valid : raw_iter -> bool;
  raw_key : raw_iter -> option bytes;
  raw_value : raw_iter -> option bytes;
}.

(** ** Documented behaviour *)

(** The contents of a database: its column families and their entries. *)
Abbreviation contents := (gmap string (gmap bytes bytes)).

(** The effect of one update of a batch, range ends as in RocksDB:
    [from] inclusive, [to] exclusive. *)
Definition apply_op (v : contents) (op : batch_op) : contents :=
  match op with
  | BatchPut cf k x => alter <[k := x]> cf v
  | BatchDelete cf k => alter (delete k) cf v
  | BatchDeleteRange cf from to =>
      alter (filter (fun kx : bytes * bytes => ~ (bytes_le from kx.1 /\ bytes_lt kx.1 to))) cf v
  end.

Definition apply_ops (v : contents) (ops : list batch_op) : contents := foldl apply_op v ops.

(** A cursor over a snapshot: the entries in key order and the current one. *)
Definition cursor : Type := list entry * option nat.

Definition valid_pos (l : list entry) (i : nat) : option nat :=
  if decide (i < length l)%nat then Some i else None.

Class RocksLaws {PF : Platform} : Type := {
  db_contents : db -> contents;
  cf_handle_spec d cf : cf_handle d cf = true <-> is_Some (db_contents d !! cf);
  key_may_exist_spec d cf k :
    key_may_exist_cf d cf k = false -> (db_contents d !!! cf) !! k = None;
  get_pinned_spec d cf k r :
    cf_handle d cf = true -> get_pinned_cf d cf k = Ok r -> r = (db_contents d !!! cf) !! k;
  multi_get_spec d ks : multi_get_cf d ks = map (fun ck => get_pinned_cf d ck.1 ck.2) ks;
  put_spec cf k v d d' :
    put_cf cf k v d = (Ok tt, d') -> db_contents d' = apply_op (db_contents d) (BatchPut cf k v);
  delete_spec cf k d d' :
    delete_cf cf k d = (Ok tt, d') -> db_contents d' = apply_op (db_contents d) (BatchDelete cf k);
  (* whatever it answers, an update of one family leaves the others alone and
     its own in place *)
  put_frame cf k v r d d' :
    put_cf cf k v d = (r, d') -> delete cf (db_contents d') = delete cf (db_contents d) /\
      (is_Some (db_contents d !! cf) -> is_Some (db_contents d' !! cf));
  delete_frame cf k r d d' :
    delete_cf cf k d = (r, d') -> delete cf (db_contents d') = delete cf (db_contents d) /\
      (is_Some (db_contents d !! cf) -> is_Some (db_contents d' !! cf));
  write_spec ops d d' :
    write_batch ops d = (Ok tt, d') -> db_contents d' = apply_ops (db_contents d) ops;
  write_err_spec ops d d' e :
    write_batch ops d = (Err e, d') -> db_contents d' = db_contents d;
  drop_spec cf d r d' :
    drop_cf cf d = (r, d') -> delete cf (db_contents d') = delete cf (db_contents d);
  create_spec cf o d d' :
    create_cf cf o d = (Ok tt, d') -> db_contents d' = <[cf := ∅]> (db_contents d);
  create_err_spec cf o d d' e :
    create_cf cf o d = (Err e, d') -> db_contents d' = db_contents d;
  (* opening gives a handle for every descriptor *)
  open_handles o p descs f d f' name opt :
    open_cf_descriptors o p descs f = (Ok d, f') -> (name, opt) ∈ descs -> cf_handle d name = true;
  (* iterators *)
  iter_cursor : raw_iter -> cursor;
  raw_iterator_spec d cf : (iter_cursor (raw_iterator_cf d cf)).1 = entries (db_contents d !!! cf);
  seek_to_first_spec it :
    let c := iter_cursor it in iter_cursor (seek_to_first it) = (c.1, valid_pos c.1 0);
  seek_to_last_spec it :
    let c := iter_cursor it in
    iter_cursor (seek_to_last it) =
      (c.1, match length c.1 with O => None | S n => Some n end);
  seek_spec k it :
    let c := iter_cursor it in
    iter_cursor (seek k it) = (c.1, valid_pos c.1 (first_ge k c.1));
  seek_for_prev_spec k it :
    let c := iter_cursor it in
    iter_cursor (seek_for_prev k it) =
      (c.1,
       match length (filter (fun x : entry => bytes_le x.1 k) c.1) with
       | O => None
       | S n => Some n
       end);
  raw_next_spec it i :
    (iter_cursor it).2 = Some i ->
    iter_cursor (raw_next it) = ((iter_cursor it).1, valid_pos (iter_cursor it).1 (S i));
  raw_prev_spec it i :
    (iter_cursor it).2 = Some i ->
    iter_cursor (raw_prev it) = ((iter_cursor it).1, match i with O => None | S j => Some j end);
  raw_valid_spec it : raw_valid it = bool_decide (is_Some (iter_cursor it).2);
  raw_key_spec it :
    raw_key it = (i ← (iter_cursor it).2; fst <$> (iter_cursor it).1 !! i);
  raw_value_spec it :
    raw_value it = (i ← (iter_cursor it).2; snd <$> (iter_cursor it).1 !! i);
}.

(** A registry accepts a name exactly once. *)
Class PromLaws {PF : Platform} : Type := {
  registered : registry -> gset string;
  register_fresh n r :
    n ∉ registered r ->
    exists r', prom_register n r = (Ok tt, r') /\ registered r' = {[n]} ∪ registered r;
  register_taken n r : n ∈ registered r -> exists e, prom_register n r = (Err e, r);
}.
