(* ===== verification/MetricsData.v ===== *)
(** * The metric handles of typed-store (typed-store/src/metrics.rs)

    The structs of the metrics module, field by field: every field is the
    handle of one registered metric vector. *)
From S2P Require Import Prelude Bytes Platform.

Record ColumnFamilyMetrics : Type := mkColumnFamilyMetrics {
  rocksdb_total_sst_files_size : MetricVec;
  rocksdb_size_all_mem_tables : MetricVec;
  rocksdb_num_snapshots : MetricVec;
  rocksdb_oldest_snapshot_time : MetricVec;
  rocksdb_actual_delayed_write_rate : MetricVec;
  rocksdb_is_write_stopped : MetricVec;
  rocksdb_block_cache_capacity : MetricVec;
  rocksdb_block_cache_usage : MetricVec;
  rocksdb_block_cache_pinned_usage : MetricVec;
  rocskdb_estimate_table_readers_mem : MetricVec;
  rocksdb_mem_table_flush_pending : MetricVec;
  rocskdb_compaction_pending : MetricVec;
  rocskdb_num_running_compactions : MetricVec;
  rocksdb_num_running_flushes : MetricVec;
  rocksdb_estimate_oldest_key_time : MetricVec;
  rocskdb_background_errors : MetricVec;
  rocksdb_estimated_num_keys : MetricVec;
}.

Record OperationMetrics : Type := mkOperationMetrics {
  rocksdb_iter_latency_seconds : MetricVec;
  rocksdb_iter_bytes : MetricVec;
  rocksdb_get_latency_seconds : MetricVec;
  rocksdb_get_bytes : MetricVec;
  rocksdb_multiget_latency_seconds : MetricVec;
  rocksdb_multiget_bytes : MetricVec;
  rocksdb_put_latency_seconds : MetricVec;
  rocksdb_put_bytes : MetricVec;
  rocksdb_delete_latency_seconds : MetricVec;
  rocksdb_deletes : MetricVec;
  rocksdb_batch_commit_latency_seconds : MetricVec;
  rocksdb_batch_commit_bytes : MetricVec;
}.

Record ReadPerfContextMetrics : Type := mkReadPerfContextMetrics {
  user_key_comparison_count : MetricVec;
  block_cache_hit_count : MetricVec;
  block_read_count : MetricVec;
  block_read_byte : MetricVec;
  block_read_nanos : MetricVec;
  block_checksum_nanos : MetricVec;
  block_decompress_nanos : MetricVec;
  get_read_bytes : MetricVec;
  multiget_read_bytes : MetricVec;
  get_snapshot_nanos : MetricVec;
  get_from_memtable_nanos : MetricVec;
  get_from_memtable_count : MetricVec;
  get_post_process_nanos : MetricVec;
  get_from_output_files_nanos : MetricVec;
  db_mutex_lock_nanos : MetricVec;
  db_condition_wait_nanos : MetricVec;
  merge_operator_nanos : MetricVec;
  read_index_block_nanos : MetricVec;
  read_filter_block_nanos : MetricVec;
  new_table_block_iter_nanos : MetricVec;
  block_seek_nanos : MetricVec;
  find_table_nanos : MetricVec;
  bloom_memtable_hit_count : MetricVec;
  bloom_memtable_miss_count : MetricVec;
  bloom_sst_hit_count : MetricVec;
  bloom_sst_miss_count : MetricVec;
  key_lock_wait_time : MetricVec;
  key_lock_wait_count : MetricVec;
}.

Record WritePerfContextMetrics : Type := mkWritePerfContextMetrics {
  write_wal_nanos : MetricVec;
  write_memtable_nanos : MetricVec;
  write_delay_nanos : MetricVec;
  write_pre_and_post_process_nanos : MetricVec;
  write_db_mutex_lock_nanos : MetricVec;
  write_db_condition_wait_nanos : MetricVec;
  write_key_lock_wait_nanos : MetricVec;
  write_key_lock_wait_count : MetricVec;
}.

Record DBMetrics : Type := mkDBMetrics {
  op_metrics : OperationMetrics;
  cf_metrics : ColumnFamilyMetrics;
  read_perf_ctx_metrics : ReadPerfContextMetrics;
  write_perf_ctx_metrics : WritePerfContextMetrics;
  rocksdb_mem_table_usage : MetricVec;
  rocksdb_unflushed_mem_table_usage : MetricVec;
  rocksdb_table_readers_usage : MetricVec;
}.
