(* ===== verification/World.v ===== *)
(** * The state the typed-store code runs in

    What the code shares through [Arc]s, statics and the operating system: open
    databases, sampling counters, metrics registries, spawned tasks, the file
    system and the environment, with the history of calls into the metrics
    libraries.  [quiet] computations are those that only sample and report. *)
From S2P Require Import Prelude Bytes Platform MetricsData.
Open Scope Z_scope.

(** Identity of an [Arc]: [Arc::ptr_eq] compares it, [Arc::clone] copies it. *)
Definition arc : Type := nat.

(** Tasks handed to [tokio::spawn]. *)
Inductive task : Type :=
| SamplingTask (counter : arc) (after_num_ops : Z) (period : Z)
| CfMetricsTask (rocksdb : arc) (cf : string) (cancel : arc).

Section world.
Context {PF : Platform}.

Record World : Type := mkWorld {
  w_fs : fs;
  w_env : gmap string os_str;
  w_dbs : gmap arc db;
  w_next_arc : arc;
  w_counters : gmap arc Z;
  w_registries : gmap arc registry;
  w_once : option DBMetrics;
  w_tasks : list task;
  w_trace : list event;
}.

Definition M (A : Type) : Type := comp World A.

Definition set_fs (x : fs) (w : World) : World :=
  mkWorld x (w_env w) (w_dbs w) (w_next_arc w) (w_counters w) (w_registries w) (w_once w)
    (w_tasks w) (w_trace w).
Definition set_dbs (x : gmap arc db) (w : World) : World :=
  mkWorld (w_fs w) (w_env w) x (w_next_arc w) (w_counters w) (w_registries w) (w_once w)
    (w_tasks w) (w_trace w).
Definition set_next_arc (x : arc) (w : World) : World :=
  mkWorld (w_fs w) (w_env w) (w_dbs w) x (w_counters w) (w_registries w) (w_once w)
    (w_tasks w) (w_trace w).
Definition set_counters (x : gmap arc Z) (w : World) : World :=
  mkWorld (w_fs w) (w_env w) (w_dbs w) (w_next_arc w) x (w_registries w) (w_once w)
    (w_tasks w) (w_trace w).
Definition set_registries (x : gmap arc registry) (w : World) : World :=
  mkWorld (w_fs w) (w_env w) (w_dbs w) (w_next_arc w) (w_counters w) x (w_once w)
    (w_tasks w) (w_trace w).
Definition set_once (x : option DBMetrics) (w : World) : World :=
  mkWorld (w_fs w) (w_env w) (w_dbs w) (w_next_arc w) (w_counters w) (w_registries w) x
    (w_tasks w) (w_trace w).
Definition set_tasks (x : list task) (w : World) : World :=
  mkWorld (w_fs w) (w_env w) (w_dbs w) (w_next_arc w) (w_counters w) (w_registries w) (w_once w)
    x (w_trace w).
Definition set_trace (x : list event) (w : World) : World :=
  mkWorld (w_fs w) (w_env w) (w_dbs w) (w_next_arc w) (w_counters w) (w_registries w) (w_once w)
    (w_tasks w) x.

(** A call into a metrics library. *)
Definition emit_pure (e : event) (w : World) : World := set_trace (w_trace w ++ [e]) w.
Definition emit (e : event) : M unit := modify (emit_pure e).

(** [Arc::new]: a fresh identity. *)
Definition new_arc : M arc :=
  fun w => (Ret (w_next_arc w), set_next_arc (S (w_next_arc w)) w).

Definition spawn (t : task) : M unit := modify (fun w => set_tasks (w_tasks w ++ [t]) w).

(** Call an operation of the database behind an [Arc]. *)
Definition dangling : string := "dangling Arc".

Definition with_db {A} (a : arc) (f : db -> A * db) : M A :=
  fun w =>
    match w_dbs w !! a with
    | Some d => let (x, d') := f d in (Ret x, set_dbs (<[a := d']> (w_dbs w)) w)
    | None => (Panicked dangling, w)
    end.

Definition read_db {A} (a : arc) (f : db -> A) : M A :=
  fun w =>
    match w_dbs w !! a with
    | Some d => (Ret (f d), w)
    | None => (Panicked dangling, w)
    end.

(** Call an operation on the file system. *)
Definition with_fs {A} (f : fs -> A * fs) : M A :=
  fun w => let (x, fs') := f (w_fs w) in (Ret x, set_fs fs' w).

(** [Arc::new] of an open database. *)
Definition new_db (d : db) : M arc :=
  a <- new_arc ;; modify (fun w => set_dbs (<[a := d]> (w_dbs w)) w) ;; ret a.

(** [usize] multiplication: overflow panics or wraps, by build profile. *)
Definition mul_usize (a b : Z) : M Z :=
  if a * b <? u64_modulus then ret (a * b)
  else if overflow_checks then panic "attempt to multiply with overflow"
  else ret (wrap64 (a * b)).

(** [for x in iter] collecting into a list: up to the first [None] that [next]
    answers.  [None] as the result is out of fuel. *)
Fixpoint drain {I A} (next : I -> M (option A * I)) (fuel : nat) (it : I) : M (option (list A)) :=
  match fuel with
  | O => ret None
  | S fuel' =>
      r <- next it ;;
      match r with
      | (None, _) => ret (Some [])
      | (Some a, it') => rest <- drain next fuel' it' ;; ret (cons a <$> rest)
      end
  end.

(** ** Quiet computations: they touch only sampling counters and the trace *)

Definition same_store (w w' : World) : Prop :=
  w_fs w = w_fs w' /\ w_env w = w_env w' /\ w_dbs w = w_dbs w' /\
  w_next_arc w = w_next_arc w' /\ w_registries w = w_registries w' /\
  w_once w = w_once w' /\ w_tasks w = w_tasks w'.

#[export] Instance same_store_equiv : Equivalence same_store.
Proof.
  split; unfold same_store.
  - by intros w.
  - intros w1 w2 H. destruct_and! H. by split_and!.
  - intros w1 w2 w3 H1 H2. destruct_and! H1. destruct_and! H2. split_and!; congruence.
Qed.

Lemma same_store_dbs w w' : same_store w w' -> w_dbs w' = w_dbs w.
Proof. intros H. unfold same_store in H. by destruct_and! H. Qed.

#[export] Instance w_dbs_proper : Proper (same_store ==> eq) w_dbs.
Proof. intros w w' H. by rewrite (same_store_dbs w w'). Qed.

#[export] Instance set_dbs_proper x : Proper (same_store ==> same_store) (set_dbs x).
Proof. intros w w' H. unfold same_store in *. destruct_and! H. by split_and!. Qed.

Lemma same_store_trace t w : same_store w (set_trace t w).
Proof. by unfold same_store. Qed.

Lemma same_store_counters c w : same_store w (set_counters c w).
Proof. by unfold same_store. Qed.

Lemma emit_pure_same e w : same_store w (emit_pure e w).
Proof. apply same_store_trace. Qed.

Definition quiet {A} (m : M A) : Prop :=
  forall w, exists a, (m w).1 = Ret a /\ same_store w (m w).2.

Lemma quiet_ret {A} (a : A) : quiet (ret a).
Proof. intros w. by exists a. Qed.

Lemma quiet_bind {A B} (m : M A) (k : A -> M B) :
  quiet m -> (forall a, quiet (k a)) -> quiet (bind m k).
Proof.
  intros Hm Hk w. destruct (Hm w) as (a & Ha & Hs). unfold bind.
  destruct (m w) as [o w1]; simpl in *; subst o.
  destruct (Hk a w1) as (b & Hb & Hs'). exists b. split; [done|]. by etrans.
Qed.

Lemma quiet_modify (f : World -> World) : (forall w, same_store w (f w)) -> quiet (modify f).
Proof. intros H w. exists tt. auto. Qed.

Lemma quiet_emit e : quiet (emit e).
Proof. apply quiet_modify. apply emit_pure_same. Qed.

Lemma quiet_gets {A} (f : World -> A) : quiet (gets f).
Proof. intros w. by exists (f w). Qed.

Lemma quiet_when b m : quiet m -> quiet (when b m).
Proof. destruct b; [done|]. intros _. apply quiet_ret. Qed.

Lemma quiet_if {A} (b : bool) (m1 m2 : M A) : quiet m1 -> quiet m2 -> quiet (if b then m1 else m2).
Proof. by destruct b. Qed.

Lemma quiet_for_each {A} (f : A -> M unit) l : (forall a, quiet (f a)) -> quiet (for_each f l).
Proof.
  intros Hf. induction l as [|x l IH]; simpl; [apply quiet_ret|].
  apply quiet_bind; auto.
Qed.

Lemma wp_quiet {A} (m : M A) Q w :
  quiet m -> (forall a w', same_store w w' -> Q (Ret a) w') -> wp m Q w.
Proof.
  intros Hm HQ. destruct (Hm w) as (a & Ha & Hs). unfold wp. rewrite Ha. auto.
Qed.

Lemma wp_with_db {A} a (f : db -> A * db) Q w d :
  w_dbs w !! a = Some d ->
  Q (Ret (f d).1) (set_dbs (<[a := (f d).2]> (w_dbs w)) w) ->
  wp (with_db a f) Q w.
Proof. intros H HQ. unfold wp, with_db. rewrite H. by destruct (f d). Qed.

Lemma wp_read_db {A} a (f : db -> A) Q w d :
  w_dbs w !! a = Some d -> Q (Ret (f d)) w -> wp (read_db a f) Q w.
Proof. intros H HQ. unfold wp, read_db. by rewrite H. Qed.

End world.

#[export] Hint Resolve quiet_ret quiet_emit quiet_gets
  same_store_trace same_store_counters emit_pure_same : rust.

(** Prove that a computation is quiet by following its structure. *)
Ltac solve_quiet :=
  repeat lazymatch goal with
  | |- forall _, _ => intro
  | |- quiet (bind _ _) => apply quiet_bind
  | |- quiet (ret _) => apply quiet_ret
  | |- quiet (emit _) => apply quiet_emit
  | |- quiet (gets _) => apply quiet_gets
  | |- quiet (when _ _) => apply quiet_when
  | |- quiet (for_each _ _) => apply quiet_for_each
  | |- quiet (modify _) => apply quiet_modify
  | |- quiet (match ?x with _ => _ end) => destruct x
  | |- quiet ((fun _ => _) _) => cbn beta
  | |- _ => solve [eauto with rust]
  end.
