(* ===== verification/Sampling.v ===== *)
(** * Sampling of metrics (typed-store/src/metrics.rs, [SamplingInterval])

    The interval with its shared counter, the [sample] test, and the task that
    [new] spawns to reset the counter: its load and its store are separate
    atomic accesses, so calls of [sample] may fall between them. *)
From S2P Require Import Prelude Bytes Platform World.
Open Scope Z_scope.

(** A [Duration], in nanoseconds. *)
Definition Duration : Type := Z.
Definition from_secs (s : Z) : Duration := s * 1000000000.
Definition from_millis (ms : Z) : Duration := ms * 1000000.
Definition is_zero (d : Duration) : bool := d =? 0.

Record SamplingInterval : Type := mkSamplingInterval {
  once_every_duration : Duration;
  after_num_ops : Z;
  counter : arc;
}.

Definition counter_at (c : gmap arc Z) (a : arc) : Z := default 0 (c !! a).

(** [counter.fetch_add(1, Relaxed)]: the old value, and the new one. *)
Definition fetch_add_1 (c : Z) : Z * Z := (c, wrap64 (c + 1)).

(** The test of [sample] on the value [fetch_add] returned; [None] is the
    panic on the zero divisor that [u64::MAX + 1] wraps to. *)
Definition sample_test (once_every_duration : Duration) (after_num_ops old : Z) : option bool :=
  if is_zero once_every_duration then
    let divisor := wrap64 (after_num_ops + 1) in
    if divisor =? 0 then None else Some (old mod divisor =? 0)
  else Some (old =? 0).

Section sampling.
Context {PF : Platform}.

Definition fetch_add (a : arc) : M Z :=
  fun w =>
    let (old, new) := fetch_add_1 (counter_at (w_counters w) a) in
    (Ret old, set_counters (<[a := new]> (w_counters w)) w).

Definition SamplingInterval_new (d : Duration) (n : Z) : M SamplingInterval :=
  c <- new_arc ;;
  modify (fun w => set_counters (<[c := 1]> (w_counters w)) w) ;;
  when (negb (is_zero d)) (spawn (SamplingTask c n d)) ;;
  ret (mkSamplingInterval d n c).

Definition SamplingInterval_default : M SamplingInterval := SamplingInterval_new (from_secs 60) 0.

Definition sample (self : SamplingInterval) : M bool :=
  old <- fetch_add (counter self) ;;
  expect "attempt to calculate the remainder with a divisor of zero"
    (sample_test (once_every_duration self) (after_num_ops self) old).

(** Intervals on which [sample] never panics. *)
Definition sampling_ok (s : SamplingInterval) : Prop :=
  once_every_duration s <> 0 \/ 0 <= after_num_ops s < u64_modulus - 1.

#[export] Instance sampling_ok_dec s : Decision (sampling_ok s).
Proof. unfold sampling_ok. apply _. Defined.

Lemma sample_test_total d n old :
  d <> 0 \/ 0 <= n < u64_modulus - 1 -> exists b, sample_test d n old = Some b.
Proof.
  unfold sample_test, is_zero. intros H. destruct (d =? 0) eqn:Hd; [|eauto].
  assert (0 <= n < u64_modulus - 1) as Hn by lia.
  rewrite wrap64_small by (unfold u64; lia).
  destruct (n + 1 =? 0) eqn:?; [lia|eauto].
Qed.

Lemma sample_quiet s : sampling_ok s -> quiet (sample s).
Proof.
  intros Hok. unfold sample. apply quiet_bind.
  - intros w. eexists. split; [done|]. apply same_store_counters.
  - intros old. destruct (sample_test_total _ _ old Hok) as [b ->]. apply quiet_ret.
Qed.

End sampling.

#[export] Hint Resolve sample_quiet : rust.

(** ** The interval and its task as a transition system *)

(** Where the spawned loop stands: about to load, about to store after a load
    that exceeded [after_num_ops], or asleep. *)
Inductive task_pc : Type := AtLoad | AtStore | Asleep.

Record sampler : Type := mkSampler { s_counter : Z; s_pc : task_pc }.

Inductive sampler_label : Type := Sampled (b : bool) | Loaded | Stored | Woken.

(** [new] leaves the counter at 1 and, for a non-zero duration, the task
    about to run its first iteration. *)
Definition sampler_init : sampler := mkSampler 1 AtLoad.

Inductive sampler_step (d : Duration) (n : Z) : sampler -> sampler_label -> sampler -> Prop :=
| step_sample s b :
    sample_test d n (s_counter s) = Some b ->
    sampler_step d n s (Sampled b) (mkSampler (fetch_add_1 (s_counter s)).2 (s_pc s))
| step_load c :
    sampler_step d n (mkSampler c AtLoad) Loaded
      (mkSampler c (if n <? c then AtStore else Asleep))
| step_store c :
    sampler_step d n (mkSampler c AtStore) Stored (mkSampler 0 Asleep)
| step_wake c :
    sampler_step d n (mkSampler c Asleep) Woken (mkSampler c AtLoad).

(** Runs, newest label last. *)
Inductive sampler_run (d : Duration) (n : Z) (s0 : sampler) : list sampler_label -> sampler -> Prop :=
| run_nil : sampler_run d n s0 [] s0
| run_snoc ls s l s' :
    sampler_run d n s0 ls s -> sampler_step d n s l s' -> sampler_run d n s0 (ls ++ [l]) s'.

Definition count_label (p : sampler_label -> bool) (ls : list sampler_label) : Z :=
  Z.of_nat (length (filter (fun l => p l = true) ls)).
Definition is_hit (l : sampler_label) : bool := match l with Sampled b => b | _ => false end.
Definition is_call (l : sampler_label) : bool := match l with Sampled _ => true | _ => false end.
Definition is_store (l : sampler_label) : bool := match l with Stored => true | _ => false end.

Lemma count_label_snoc p ls l :
  count_label p (ls ++ [l]) = count_label p ls + (if p l then 1 else 0).
Proof.
  unfold count_label. rewrite filter_app, length_app, filter_cons, filter_nil.
  destruct (p l); simpl; lia.
Qed.

Lemma count_label_nonneg p ls : 0 <= count_label p ls.
Proof. unfold count_label. lia. Qed.

(** In timed mode a positive sample uses up the zero that a store left. *)
Lemma sampler_credit d n ls s :
  d <> 0 -> sampler_run d n sampler_init ls s ->
  count_label is_call ls < u64_modulus - 2 ->
  0 <= s_counter s <= 1 + count_label is_call ls /\
  count_label is_hit ls + (if s_counter s =? 0 then 1 else 0) <= count_label is_store ls.
Proof.
  intros Hd Hrun. induction Hrun as [|ls s l s' Hrun IH Hstep]; [by unfold count_label|].
  rewrite !count_label_snoc. intros Hb.
  assert (count_label is_call ls < u64_modulus - 2) as Hb'
    by (destruct (is_call l); lia).
  specialize (IH Hb') as [Hc Hh].
  pose proof (count_label_nonneg is_call ls).
  destruct Hstep as [s b Ht|c|c|c]; cbn [s_counter s_pc is_call is_hit is_store] in *.
  - unfold sample_test, is_zero in Ht. rewrite (proj2 (Z.eqb_neq d 0) Hd) in Ht.
    injection Ht as <-. unfold fetch_add_1; cbn [fst snd].
    rewrite wrap64_small by (unfold u64; lia). split; [lia|].
    rewrite (proj2 (Z.eqb_neq (s_counter s + 1) 0)) by lia.
    destruct (s_counter s =? 0); lia.
  - split; [lia|]. lia.
  - split; [lia|]. cbn. destruct (c =? 0); lia.
  - split; lia.
Qed.

(** C35: timed sampling is bounded by its task.  However the calls of [sample]
    interleave with the loads and stores of the reset task, from the state
    [new] leaves, each positive sample uses up one store: there are never more
    positive samples than resets (for fewer than 2^64 - 2 calls). *)
Theorem timed_hits_bounded (d : Duration) (n : Z) ls s :
  d <> 0 -> sampler_run d n sampler_init ls s ->
  count_label is_call ls < u64_modulus - 2 ->
  count_label is_hit ls <= count_label is_store ls.
Proof.
  intros Hd Hrun Hb. destruct (sampler_credit d n ls s Hd Hrun Hb) as [_ Hh].
  destruct (s_counter s =? 0); lia.
Qed.

(** ** The counted mode: consecutive calls of [sample] *)

Lemma count_multiples m k :
  0 < m ->
  Z.of_nat (length (filter (fun b => b = true)
    (map (fun i => (1 + Z.of_nat i) mod m =? 0) (seq 0 k)))) = Z.of_nat k / m.
Proof.
  intros Hm. induction k as [|k IH].
  - simpl. by rewrite Z.div_0_l by lia.
  - rewrite seq_S, map_app, filter_app, length_app, Nat2Z.inj_add, IH.
    cbn [map Nat.add]. rewrite filter_cons, filter_nil.
    pose proof (Z.div_mod (Z.of_nat k) m) as Hk.
    pose proof (Z.mod_pos_bound (Z.of_nat k) m).
    pose proof (Z.div_mod (1 + Z.of_nat k) m) as HSk.
    pose proof (Z.mod_pos_bound (1 + Z.of_nat k) m).
    rewrite Nat2Z.inj_succ, <- Z.add_1_l.
    destruct (_ mod m =? 0) eqn:E; simpl; nia.
Qed.

Section counted.
Context {PF : Platform}.

Fixpoint samples (self : SamplingInterval) (k : nat) : M (list bool) :=
  match k with
  | O => ret []
  | S k' => b <- sample self ;; bs <- samples self k' ;; ret (b :: bs)
  end.

Lemma samples_spec s k w c :
  once_every_duration s = 0 -> 0 <= after_num_ops s < u64_modulus - 1 ->
  counter_at (w_counters w) (counter s) = c -> 0 <= c -> c + Z.of_nat k <= u64_modulus ->
  exists w', samples s k w =
    (Ret (map (fun i => (c + Z.of_nat i) mod (after_num_ops s + 1) =? 0) (seq 0 k)), w').
Proof.
  intros Hd Hn. revert w c. induction k as [|k IH]; intros w c Hc Hc0 Hk; [by eexists|].
  cbn [samples]. unfold bind at 1, sample, bind at 1, fetch_add, fetch_add_1.
  rewrite Hc. unfold sample_test, is_zero. rewrite Hd; cbn [Z.eqb].
  rewrite (wrap64_small (after_num_ops s + 1)) by (unfold u64; lia).
  rewrite (proj2 (Z.eqb_neq (after_num_ops s + 1) 0)) by lia.
  cbn [expect ret]. set (w1 := set_counters _ w).
  assert (exists w', samples s k w1 =
    (Ret (map (fun i => (c + Z.of_nat (S i)) mod (after_num_ops s + 1) =? 0) (seq 0 k)), w'))
    as [w' Hw'].
  { destruct k as [|k]; [by eexists|].
    destruct (IH w1 (c + 1)) as [w' Hw']; [|lia|lia|].
    - unfold counter_at, w1; simpl. rewrite lookup_insert_eq; simpl.
      apply wrap64_small. unfold u64; lia.
    - exists w'. rewrite Hw'. do 2 f_equal. apply list_fmap_ext. intros i x _.
      do 2 f_equal. lia. }
  exists w'. unfold bind; rewrite Hw'. unfold ret. cbn [seq map].
  rewrite Z.add_0_r, <- (fmap_S_seq 0). by rewrite <- list_fmap_compose.
Qed.

(** counted sampling has the documented rate: with a zero duration, of
    the first [k] calls after [new] exactly [k / (after_num_ops + 1)] are
    positive, and none panics. *)
Theorem counted_rate (n : Z) (k : nat) (w : World) :
  0 <= n < u64_modulus - 1 -> Z.of_nat k < u64_modulus ->
  exists bs w',
    (s <- SamplingInterval_new 0 n ;; samples s k) w = (Ret bs, w') /\
    Z.of_nat (length (filter (fun b => b = true) bs)) = Z.of_nat k / (n + 1).
Proof.
  intros Hn Hk. unfold SamplingInterval_new, bind, new_arc, modify, when, is_zero, ret; simpl.
  edestruct (samples_spec (mkSamplingInterval 0 n (w_next_arc w)) k) as [w' Hw'];
    [done|done|..|by rewrite Hw'; eexists _, w'; split; [done|apply count_multiples; simpl; lia]].
  - unfold counter_at; simpl. by rewrite lookup_insert_eq.
  - simpl; lia.
  - simpl; lia.
Qed.

(** [sample] panics exactly for the interval with a zero duration and
    [after_num_ops = u64::MAX], whose divisor wraps to zero; otherwise it
    answers and changes nothing but its counter. *)
Theorem sample_panics_iff (s : SamplingInterval) (w : World) :
  u64 (after_num_ops s) ->
  (exists msg, (sample s w).1 = Panicked msg) <->
  once_every_duration s = 0 /\ after_num_ops s = u64_modulus - 1.
Proof.
  unfold u64. intros Hn. split.
  - intros [msg Hmsg]. destruct (decide (sampling_ok s)) as [Hok|Hbad].
    + destruct (sample_quiet s Hok w) as (b & Hb & _). congruence.
    + unfold sampling_ok in Hbad. lia.
  - intros [Hd Hmax]. unfold sample, bind, fetch_add, fetch_add_1, sample_test, is_zero.
    rewrite Hd, Hmax. cbn. by eexists.
Qed.

End counted.
