(* ===== verification/Metrics.v ===== *)
(** * Metrics of typed-store (typed-store/src/metrics.rs)

    Registration of every metric with a Prometheus registry, the process-wide
    [ONCE] cell, the perf context guard and the reports of perf counters.  The
    help texts of the metrics are not modelled: they only label the output. *)
From Stdlib Require Import QArith.
From S2P Require Import Prelude Bytes Platform MetricsData World.
Open Scope Z_scope.

Section metrics.
Context {PF : Platform}.

(** ** Registration *)

(** [register_*_with_registry!(...)] followed by [.unwrap()]. *)
Definition register (v : MetricVec) (reg : arc) : M MetricVec :=
  fun w =>
    match w_registries w !! reg with
    | None => (Panicked dangling, w)
    | Some r =>
        match prom_register (vec_name v) r with
        | (Ok _, r') => (Ret v, set_registries (<[reg := r']> (w_registries w)) w)
        | (Err e, r') => (Panicked e, set_registries (<[reg := r']> (w_registries w)) w)
        end
    end.

Definition register_int_gauge_vec (name : string) (labels : list string) (reg : arc) : M MetricVec :=
  register (mkVec name IntGaugeKind labels None) reg.
Definition register_int_counter_vec (name : string) (labels : list string) (reg : arc) : M MetricVec :=
  register (mkVec name IntCounterKind labels None) reg.
Definition register_histogram_vec (name : string) (labels : list string)
    (buckets : option (Q * Q * nat)) (reg : arc) : M MetricVec :=
  register (mkVec name HistogramKind labels buckets) reg.

(** [exponential_buckets(1e-6, 2.0, 24)]. *)
Definition latency_buckets : option (Q * Q * nat) := Some (1 # 1000000, 2 # 1, 24%nat)%Q.

Definition ColumnFamilyMetrics_new (reg : arc) : M ColumnFamilyMetrics :=
  rocksdb_total_sst_files_size_ <-
    register_int_gauge_vec "rocksdb_total_sst_files_size" ["cf_name"] reg ;;
  rocksdb_size_all_mem_tables_ <-
    register_int_gauge_vec "rocksdb_size_all_mem_tables" ["cf_name"] reg ;;
  rocksdb_num_snapshots_ <- register_int_gauge_vec "rocksdb_num_snapshots" ["cf_name"] reg ;;
  rocksdb_oldest_snapshot_time_ <-
    register_int_gauge_vec "rocksdb_oldest_snapshot_time" ["cf_name"] reg ;;
  rocksdb_actual_delayed_write_rate_ <-
    register_int_gauge_vec "rocksdb_actual_delayed_write_rate" ["cf_name"] reg ;;
  rocksdb_is_write_stopped_ <-
    register_int_gauge_vec "rocksdb_is_write_stopped" ["cf_name"] reg ;;
  rocksdb_block_cache_capacity_ <-
    register_int_gauge_vec "rocksdb_block_cache_capacity" ["cf_name"] reg ;;
  rocksdb_block_cache_usage_ <-
    register_int_gauge_vec "rocksdb_block_cache_usage" ["cf_name"] reg ;;
  rocksdb_block_cache_pinned_usage_ <-
    register_int_gauge_vec "rocksdb_block_cache_pinned_usage" ["cf_name"] reg ;;
  rocskdb_estimate_table_readers_mem_ <-
    register_int_gauge_vec "rocskdb_estimate_table_readers_mem" ["cf_name"] reg ;;
  rocksdb_mem_table_flush_pending_ <-
    register_int_gauge_vec "rocksdb_mem_table_flush_pending" ["cf_name"] reg ;;
  rocskdb_compaction_pending_ <-
    register_int_gauge_vec "rocskdb_compaction_pending" ["cf_name"] reg ;;
  rocskdb_num_running_compactions_ <-
    register_int_gauge_vec "rocskdb_num_running_compactions" ["cf_name"] reg ;;
  rocksdb_num_running_flushes_ <-
    register_int_gauge_vec "rocksdb_num_running_flushes" ["cf_name"] reg ;;
  rocksdb_estimate_oldest_key_time_ <-
    register_int_gauge_vec "rocksdb_estimate_oldest_key_time" ["cf_name"] reg ;;
  rocksdb_estimated_num_keys_ <-
    register_int_gauge_vec "rocksdb_estimated_num_keys" ["cf_name"] reg ;;
  rocskdb_background_errors_ <-
    register_int_gauge_vec "rocskdb_background_errors" ["cf_name"] reg ;;
  ret (mkColumnFamilyMetrics
    rocksdb_total_sst_files_size_ rocksdb_size_all_mem_tables_ rocksdb_num_snapshots_
    rocksdb_oldest_snapshot_time_ rocksdb_actual_delayed_write_rate_
    rocksdb_is_write_stopped_ rocksdb_block_cache_capacity_ rocksdb_block_cache_usage_
    rocksdb_block_cache_pinned_usage_ rocskdb_estimate_table_readers_mem_
    rocksdb_mem_table_flush_pending_ rocskdb_compaction_pending_
    rocskdb_num_running_compactions_ rocksdb_num_running_flushes_
    rocksdb_estimate_oldest_key_time_ rocskdb_background_errors_
    rocksdb_estimated_num_keys_).

Definition OperationMetrics_new (reg : arc) : M OperationMetrics :=
  rocksdb_iter_latency_seconds_ <-
    register_histogram_vec "rocksdb_iter_latency_seconds" ["cf_name"] latency_buckets reg ;;
  rocksdb_iter_bytes_ <- register_histogram_vec "rocksdb_iter_bytes" ["cf_name"] None reg ;;
  rocksdb_get_latency_seconds_ <-
    register_histogram_vec "rocksdb_get_latency_seconds" ["cf_name"] latency_buckets reg ;;
  rocksdb_get_bytes_ <- register_histogram_vec "rocksdb_get_bytes" ["cf_name"] None reg ;;
  rocksdb_multiget_latency_seconds_ <-
    register_histogram_vec "rocksdb_multiget_latency_seconds" ["cf_name"] latency_buckets reg ;;
  rocksdb_multiget_bytes_ <-
    register_histogram_vec "rocksdb_multiget_bytes" ["cf_name"] None reg ;;
  rocksdb_put_latency_seconds_ <-
    register_histogram_vec "rocksdb_put_latency_seconds" ["cf_name"] latency_buckets reg ;;
  rocksdb_put_bytes_ <- register_histogram_vec "rocksdb_put_bytes" ["cf_name"] None reg ;;
  rocksdb_delete_latency_seconds_ <-
    register_histogram_vec "rocksdb_delete_latency_seconds" ["cf_name"] latency_buckets reg ;;
  rocksdb_deletes_ <- register_int_counter_vec "rocksdb_deletes" ["cf_name"] reg ;;
  rocksdb_batch_commit_latency_seconds_ <-
    register_histogram_vec "rocksdb_write_batch_commit_latency_seconds" ["db_name"] latency_buckets reg ;;
  rocksdb_batch_commit_bytes_ <-
    register_histogram_vec "rocksdb_batch_commit_bytes" ["db_name"] None reg ;;
  ret (mkOperationMetrics
    rocksdb_iter_latency_seconds_ rocksdb_iter_bytes_ rocksdb_get_latency_seconds_
    rocksdb_get_bytes_ rocksdb_multiget_latency_seconds_ rocksdb_multiget_bytes_
    rocksdb_put_latency_seconds_ rocksdb_put_bytes_ rocksdb_delete_latency_seconds_
    rocksdb_deletes_ rocksdb_batch_commit_latency_seconds_ rocksdb_batch_commit_bytes_).

Definition ReadPerfContextMetrics_new (reg : arc) : M ReadPerfContextMetrics :=
  user_key_comparison_count_ <-
    register_int_counter_vec "user_key_comparison_count" ["cf_name"] reg ;;
  block_cache_hit_count_ <- register_int_counter_vec "block_cache_hit_count" ["cf_name"] reg ;;
  block_read_count_ <- register_int_counter_vec "block_read_count" ["cf_name"] reg ;;
  block_read_byte_ <- register_int_counter_vec "block_read_byte" ["cf_name"] reg ;;
  block_read_nanos_ <- register_int_counter_vec "block_read_nanos" ["cf_name"] reg ;;
  block_checksum_nanos_ <- register_int_counter_vec "block_checksum_nanos" ["cf_name"] reg ;;
  block_decompress_nanos_ <-
    register_int_counter_vec "block_decompress_nanos" ["cf_name"] reg ;;
  get_read_bytes_ <- register_int_counter_vec "get_read_bytes" ["cf_name"] reg ;;
  multiget_read_bytes_ <- register_int_counter_vec "multiget_read_bytes" ["cf_name"] reg ;;
  get_snapshot_nanos_ <- register_int_counter_vec "get_snapshot_nanos" ["cf_name"] reg ;;
  get_from_memtable_nanos_ <-
    register_int_counter_vec "get_from_memtable_nanos" ["cf_name"] reg ;;
  get_from_memtable_count_ <-
    register_int_counter_vec "get_from_memtable_count" ["cf_name"] reg ;;
  get_post_process_nanos_ <-
    register_int_counter_vec "get_post_process_nanos" ["cf_name"] reg ;;
  get_from_output_files_nanos_ <-
    register_int_counter_vec "get_from_output_files_nanos" ["cf_name"] reg ;;
  db_mutex_lock_nanos_ <- register_int_counter_vec "db_mutex_lock_nanos" ["cf_name"] reg ;;
  db_condition_wait_nanos_ <-
    register_int_counter_vec "db_condition_wait_nanos" ["cf_name"] reg ;;
  merge_operator_nanos_ <- register_int_counter_vec "merge_operator_nanos" ["cf_name"] reg ;;
  read_index_block_nanos_ <-
    register_int_counter_vec "read_index_block_nanos" ["cf_name"] reg ;;
  read_filter_block_nanos_ <-
    register_int_counter_vec "read_filter_block_nanos" ["cf_name"] reg ;;
  new_table_block_iter_nanos_ <-
    register_int_counter_vec "new_table_block_iter_nanos" ["cf_name"] reg ;;
  block_seek_nanos_ <- register_int_counter_vec "block_seek_nanos" ["cf_name"] reg ;;
  find_table_nanos_ <- register_int_counter_vec "find_table_nanos" ["cf_name"] reg ;;
  bloom_memtable_hit_count_ <-
    register_int_counter_vec "bloom_memtable_hit_count" ["cf_name"] reg ;;
  bloom_memtable_miss_count_ <-
    register_int_counter_vec "bloom_memtable_miss_count" ["cf_name"] reg ;;
  bloom_sst_hit_count_ <- register_int_counter_vec "bloom_sst_hit_count" ["cf_name"] reg ;;
  bloom_sst_miss_count_ <- register_int_counter_vec "bloom_sst_miss_count" ["cf_name"] reg ;;
  key_lock_wait_time_ <- register_int_counter_vec "key_lock_wait_time" ["cf_name"] reg ;;
  key_lock_wait_count_ <- register_int_counter_vec "key_lock_wait_count" ["cf_name"] reg ;;
  ret (mkReadPerfContextMetrics
    user_key_comparison_count_ block_cache_hit_count_ block_read_count_ block_read_byte_
    block_read_nanos_ block_checksum_nanos_ block_decompress_nanos_ get_read_bytes_
    multiget_read_bytes_ get_snapshot_nanos_ get_from_memtable_nanos_
    get_from_memtable_count_ get_post_process_nanos_ get_from_output_files_nanos_
    db_mutex_lock_nanos_ db_condition_wait_nanos_ merge_operator_nanos_
    read_index_block_nanos_ read_filter_block_nanos_ new_table_block_iter_nanos_
    block_seek_nanos_ find_table_nanos_ bloom_memtable_hit_count_
    bloom_memtable_miss_count_ bloom_sst_hit_count_ bloom_sst_miss_count_
    key_lock_wait_time_ key_lock_wait_count_).

Definition WritePerfContextMetrics_new (reg : arc) : M WritePerfContextMetrics :=
  write_wal_nanos_ <- register_int_counter_vec "write_wal_nanos" ["cf_name"] reg ;;
  write_memtable_nanos_ <- register_int_counter_vec "write_memtable_nanos" ["cf_name"] reg ;;
  write_delay_nanos_ <- register_int_counter_vec "write_delay_nanos" ["cf_name"] reg ;;
  write_pre_and_post_process_nanos_ <-
    register_int_counter_vec "write_pre_and_post_process_nanos" ["cf_name"] reg ;;
  write_db_mutex_lock_nanos_ <-
    register_int_counter_vec "write_db_mutex_lock_nanos" ["cf_name"] reg ;;
  write_db_condition_wait_nanos_ <-
    register_int_counter_vec "write_db_condition_wait_nanos" ["cf_name"] reg ;;
  write_key_lock_wait_nanos_ <-
    register_int_counter_vec "write_key_lock_wait_time" ["cf_name"] reg ;;
  write_key_lock_wait_count_ <-
    register_int_counter_vec "write_key_lock_wait_count" ["cf_name"] reg ;;
  ret (mkWritePerfContextMetrics
    write_wal_nanos_ write_memtable_nanos_ write_delay_nanos_
    write_pre_and_post_process_nanos_ write_db_mutex_lock_nanos_
    write_db_condition_wait_nanos_ write_key_lock_wait_nanos_ write_key_lock_wait_count_).

Definition DBMetrics_new (reg : arc) : M DBMetrics :=
  op_metrics_ <- OperationMetrics_new reg ;;
  cf_metrics_ <- ColumnFamilyMetrics_new reg ;;
  read_perf_ctx_metrics_ <- ReadPerfContextMetrics_new reg ;;
  write_perf_ctx_metrics_ <- WritePerfContextMetrics_new reg ;;
  rocksdb_mem_table_usage_ <-
    register_int_gauge_vec "rocksdb_mem_table_usage" ["db_name"] reg ;;
  rocksdb_unflushed_mem_table_usage_ <-
    register_int_gauge_vec "rocksdb_unflushed_mem_table_usage" ["db_name"] reg ;;
  rocksdb_table_readers_usage_ <-
    register_int_gauge_vec "rocksdb_table_readers_usage" ["db_name"] reg ;;
  ret (mkDBMetrics op_metrics_ cf_metrics_ read_perf_ctx_metrics_ write_perf_ctx_metrics_
    rocksdb_mem_table_usage_ rocksdb_unflushed_mem_table_usage_ rocksdb_table_readers_usage_).

(** [prometheus::default_registry()]. *)
Definition default_registry : arc := 0%nat.

(** [ONCE.get_or_init(|| Arc::new(DBMetrics::new(registry)))]. *)
Definition DBMetrics_init (reg : arc) : M DBMetrics :=
  once <- gets w_once ;;
  match once with
  | Some m => ret m
  | None =>
      m <- DBMetrics_new reg ;;
      modify (set_once (Some m)) ;;
      ret m
  end.

Definition DBMetrics_get : M DBMetrics :=
  once <- gets w_once ;;
  match once with
  | Some m => ret m
  | None => DBMetrics_init default_registry
  end.

(** ** The perf context guard *)

(** [RocksDBPerfContext::default()]. *)
Definition RocksDBPerfContext_default : M unit :=
  emit (PerfLevelSet EnableTime) ;; emit PerfReset.

(** [Drop for RocksDBPerfContext]. *)
Definition RocksDBPerfContext_drop (w : World) : World := emit_pure (PerfLevelSet Disable) w.

(** ** Reports *)

(** [vec.with_label_values(&[label]).inc_by(perf_context.metric(m) as u64)]. *)
Definition inc_by (v : MetricVec) (label : string) (m : PerfMetric) : M unit :=
  trace <- gets w_trace ;;
  emit (CounterAdded v label (perf_metric trace m)).

Definition ReadPerfContextMetrics_report_metrics (self : ReadPerfContextMetrics) (label : string) : M unit :=
  emit (PerfLevelSet Disable) ;;
  inc_by (user_key_comparison_count self) label UserKeyComparisonCount ;;
  inc_by (block_cache_hit_count self) label BlockCacheHitCount ;;
  inc_by (block_read_count self) label BlockReadCount ;;
  inc_by (block_read_byte self) label BlockReadByte ;;
  inc_by (block_read_nanos self) label BlockReadTime ;;
  inc_by (block_read_count self) label BlockReadCount ;;
  inc_by (block_checksum_nanos self) label BlockChecksumTime ;;
  inc_by (block_decompress_nanos self) label BlockDecompressTime ;;
  inc_by (get_read_bytes self) label GetReadBytes ;;
  inc_by (multiget_read_bytes self) label MultigetReadBytes ;;
  inc_by (get_snapshot_nanos self) label GetSnapshotTime ;;
  inc_by (get_from_memtable_nanos self) label GetFromMemtableTime ;;
  inc_by (get_from_memtable_count self) label GetFromMemtableCount ;;
  inc_by (get_post_process_nanos self) label GetPostProcessTime ;;
  inc_by (get_from_output_files_nanos self) label GetFromOutputFilesTime ;;
  inc_by (db_mutex_lock_nanos self) label DbMutexLockNanos ;;
  inc_by (db_condition_wait_nanos self) label DbConditionWaitNanos ;;
  inc_by (merge_operator_nanos self) label MergeOperatorTimeNanos ;;
  inc_by (read_index_block_nanos self) label ReadIndexBlockNanos ;;
  inc_by (read_filter_block_nanos self) label ReadFilterBlockNanos ;;
  inc_by (new_table_block_iter_nanos self) label NewTableBlockIterNanos ;;
  inc_by (block_seek_nanos self) label BlockSeekNanos ;;
  inc_by (find_table_nanos self) label FindTableNanos ;;
  inc_by (bloom_memtable_hit_count self) label BloomMemtableHitCount ;;
  inc_by (bloom_memtable_miss_count self) label BloomMemtableMissCount ;;
  inc_by (bloom_sst_hit_count self) label BloomSstHitCount ;;
  inc_by (bloom_sst_miss_count self) label BloomSstMissCount ;;
  inc_by (key_lock_wait_time self) label KeyLockWaitTime ;;
  inc_by (key_lock_wait_count self) label KeyLockWaitCount.

Definition WritePerfContextMetrics_report_metrics (self : WritePerfContextMetrics) (label : string) : M unit :=
  emit (PerfLevelSet Disable) ;;
  inc_by (write_wal_nanos self) label WriteWalTime ;;
  inc_by (write_memtable_nanos self) label WriteMemtableTime ;;
  inc_by (write_delay_nanos self) label WriteDelayTime ;;
  inc_by (write_pre_and_post_process_nanos self) label WritePreAndPostProcessTime ;;
  inc_by (write_db_mutex_lock_nanos self) label DbMutexLockNanos ;;
  inc_by (write_db_condition_wait_nanos self) label DbConditionWaitNanos ;;
  inc_by (write_key_lock_wait_nanos self) label KeyLockWaitTime ;;
  inc_by (write_key_lock_wait_count self) label KeyLockWaitCount.

Lemma inc_by_quiet v label m : quiet (inc_by v label m).
Proof. unfold inc_by. solve_quiet. Qed.
Hint Resolve inc_by_quiet : rust.

Lemma read_report_quiet self label : quiet (ReadPerfContextMetrics_report_metrics self label).
Proof. unfold ReadPerfContextMetrics_report_metrics. solve_quiet. Qed.

Lemma write_report_quiet self label : quiet (WritePerfContextMetrics_report_metrics self label).
Proof. unfold WritePerfContextMetrics_report_metrics. solve_quiet. Qed.

Lemma perf_default_quiet : quiet RocksDBPerfContext_default.
Proof. unfold RocksDBPerfContext_default. solve_quiet. Qed.

End metrics.

#[export] Hint Resolve inc_by_quiet read_report_quiet write_report_quiet perf_default_quiet : rust.

(** ** What [DBMetrics::new] registers and returns *)

Definition op_handles : OperationMetrics :=
  mkOperationMetrics
    (mkVec "rocksdb_iter_latency_seconds" HistogramKind ["cf_name"] latency_buckets)
    (mkVec "rocksdb_iter_bytes" HistogramKind ["cf_name"] None)
    (mkVec "rocksdb_get_latency_seconds" HistogramKind ["cf_name"] latency_buckets)
    (mkVec "rocksdb_get_bytes" HistogramKind ["cf_name"] None)
    (mkVec "rocksdb_multiget_latency_seconds" HistogramKind ["cf_name"] latency_buckets)
    (mkVec "rocksdb_multiget_bytes" HistogramKind ["cf_name"] None)
    (mkVec "rocksdb_put_latency_seconds" HistogramKind ["cf_name"] latency_buckets)
    (mkVec "rocksdb_put_bytes" HistogramKind ["cf_name"] None)
    (mkVec "rocksdb_delete_latency_seconds" HistogramKind ["cf_name"] latency_buckets)
    (mkVec "rocksdb_deletes" IntCounterKind ["cf_name"] None)
    (mkVec "rocksdb_write_batch_commit_latency_seconds" HistogramKind ["db_name"] latency_buckets)
    (mkVec "rocksdb_batch_commit_bytes" HistogramKind ["db_name"] None).

Definition op_names : list string :=
  ["rocksdb_iter_latency_seconds"; "rocksdb_iter_bytes"; "rocksdb_get_latency_seconds";
   "rocksdb_get_bytes"; "rocksdb_multiget_latency_seconds"; "rocksdb_multiget_bytes";
   "rocksdb_put_latency_seconds"; "rocksdb_put_bytes"; "rocksdb_delete_latency_seconds";
   "rocksdb_deletes"; "rocksdb_write_batch_commit_latency_seconds";
   "rocksdb_batch_commit_bytes"].

Definition cf_handles : ColumnFamilyMetrics :=
  mkColumnFamilyMetrics
    (mkVec "rocksdb_total_sst_files_size" IntGaugeKind ["cf_name"] None)
    (mkVec "rocksdb_size_all_mem_tables" IntGaugeKind ["cf_name"] None)
    (mkVec "rocksdb_num_snapshots" IntGaugeKind ["cf_name"] None)
    (mkVec "rocksdb_oldest_snapshot_time" IntGaugeKind ["cf_name"] None)
    (mkVec "rocksdb_actual_delayed_write_rate" IntGaugeKind ["cf_name"] None)
    (mkVec "rocksdb_is_write_stopped" IntGaugeKind ["cf_name"] None)
    (mkVec "rocksdb_block_cache_capacity" IntGaugeKind ["cf_name"] None)
    (mkVec "rocksdb_block_cache_usage" IntGaugeKind ["cf_name"] None)
    (mkVec "rocksdb_block_cache_pinned_usage" IntGaugeKind ["cf_name"] None)
    (mkVec "rocskdb_estimate_table_readers_mem" IntGaugeKind ["cf_name"] None)
    (mkVec "rocksdb_mem_table_flush_pending" IntGaugeKind ["cf_name"] None)
    (mkVec "rocskdb_compaction_pending" IntGaugeKind ["cf_name"] None)
    (mkVec "rocskdb_num_running_compactions" IntGaugeKind ["cf_name"] None)
    (mkVec "rocksdb_num_running_flushes" IntGaugeKind ["cf_name"] None)
    (mkVec "rocksdb_estimate_oldest_key_time" IntGaugeKind ["cf_name"] None)
    (mkVec "rocskdb_background_errors" IntGaugeKind ["cf_name"] None)
    (mkVec "rocksdb_estimated_num_keys" IntGaugeKind ["cf_name"] None).

Definition cf_names : list string :=
  ["rocksdb_total_sst_files_size"; "rocksdb_size_all_mem_tables"; "rocksdb_num_snapshots";
   "rocksdb_oldest_snapshot_time"; "rocksdb_actual_delayed_write_rate";
   "rocksdb_is_write_stopped"; "rocksdb_block_cache_capacity";
   "rocksdb_block_cache_usage"; "rocksdb_block_cache_pinned_usage";
   "rocskdb_estimate_table_readers_mem"; "rocksdb_mem_table_flush_pending";
   "rocskdb_compaction_pending"; "rocskdb_num_running_compactions";
   "rocksdb_num_running_flushes"; "rocksdb_estimate_oldest_key_time";
   "rocksdb_estimated_num_keys"; "rocskdb_background_errors"].

Definition read_perf_handles : ReadPerfContextMetrics :=
  mkReadPerfContextMetrics
    (mkVec "user_key_comparison_count" IntCounterKind ["cf_name"] None)
    (mkVec "block_cache_hit_count" IntCounterKind ["cf_name"] None)
    (mkVec "block_read_count" IntCounterKind ["cf_name"] None)
    (mkVec "block_read_byte" IntCounterKind ["cf_name"] None)
    (mkVec "block_read_nanos" IntCounterKind ["cf_name"] None)
    (mkVec "block_checksum_nanos" IntCounterKind ["cf_name"] None)
    (mkVec "block_decompress_nanos" IntCounterKind ["cf_name"] None)
    (mkVec "get_read_bytes" IntCounterKind ["cf_name"] None)
    (mkVec "multiget_read_bytes" IntCounterKind ["cf_name"] None)
    (mkVec "get_snapshot_nanos" IntCounterKind ["cf_name"] None)
    (mkVec "get_from_memtable_nanos" IntCounterKind ["cf_name"] None)
    (mkVec "get_from_memtable_count" IntCounterKind ["cf_name"] None)
    (mkVec "get_post_process_nanos" IntCounterKind ["cf_name"] None)
    (mkVec "get_from_output_files_nanos" IntCounterKind ["cf_name"] None)
    (mkVec "db_mutex_lock_nanos" IntCounterKind ["cf_name"] None)
    (mkVec "db_condition_wait_nanos" IntCounterKind ["cf_name"] None)
    (mkVec "merge_operator_nanos" IntCounterKind ["cf_name"] None)
    (mkVec "read_index_block_nanos" IntCounterKind ["cf_name"] None)
    (mkVec "read_filter_block_nanos" IntCounterKind ["cf_name"] None)
    (mkVec "new_table_block_iter_nanos" IntCounterKind ["cf_name"] None)
    (mkVec "block_seek_nanos" IntCounterKind ["cf_name"] None)
    (mkVec "find_table_nanos" IntCounterKind ["cf_name"] None)
    (mkVec "bloom_memtable_hit_count" IntCounterKind ["cf_name"] None)
    (mkVec "bloom_memtable_miss_count" IntCounterKind ["cf_name"] None)
    (mkVec "bloom_sst_hit_count" IntCounterKind ["cf_name"] None)
    (mkVec "bloom_sst_miss_count" IntCounterKind ["cf_name"] None)
    (mkVec "key_lock_wait_time" IntCounterKind ["cf_name"] None)
    (mkVec "key_lock_wait_count" IntCounterKind ["cf_name"] None).

Definition read_perf_names : list string :=
  ["user_key_comparison_count"; "block_cache_hit_count"; "block_read_count";
   "block_read_byte"; "block_read_nanos"; "block_checksum_nanos";
   "block_decompress_nanos"; "get_read_bytes"; "multiget_read_bytes";
   "get_snapshot_nanos"; "get_from_memtable_nanos"; "get_from_memtable_count";
   "get_post_process_nanos"; "get_from_output_files_nanos"; "db_mutex_lock_nanos";
   "db_condition_wait_nanos"; "merge_operator_nanos"; "read_index_block_nanos";
   "read_filter_block_nanos"; "new_table_block_iter_nanos"; "block_seek_nanos";
   "find_table_nanos"; "bloom_memtable_hit_count"; "bloom_memtable_miss_count";
   "bloom_sst_hit_count"; "bloom_sst_miss_count"; "key_lock_wait_time";
   "key_lock_wait_count"].

Definition write_perf_handles : WritePerfContextMetrics :=
  mkWritePerfContextMetrics
    (mkVec "write_wal_nanos" IntCounterKind ["cf_name"] None)
    (mkVec "write_memtable_nanos" IntCounterKind ["cf_name"] None)
    (mkVec "write_delay_nanos" IntCounterKind ["cf_name"] None)
    (mkVec "write_pre_and_post_process_nanos" IntCounterKind ["cf_name"] None)
    (mkVec "write_db_mutex_lock_nanos" IntCounterKind ["cf_name"] None)
    (mkVec "write_db_condition_wait_nanos" IntCounterKind ["cf_name"] None)
    (mkVec "write_key_lock_wait_time" IntCounterKind ["cf_name"] None)
    (mkVec "write_key_lock_wait_count" IntCounterKind ["cf_name"] None).

Definition write_perf_names : list string :=
  ["write_wal_nanos"; "write_memtable_nanos"; "write_delay_nanos";
   "write_pre_and_post_process_nanos"; "write_db_mutex_lock_nanos";
   "write_db_condition_wait_nanos"; "write_key_lock_wait_time";
   "write_key_lock_wait_count"].

Definition gauge_handle (name : string) : MetricVec := mkVec name IntGaugeKind ["db_name"] None.

Definition db_handles : DBMetrics :=
  mkDBMetrics op_handles cf_handles read_perf_handles write_perf_handles
    (gauge_handle "rocksdb_mem_table_usage")
    (gauge_handle "rocksdb_unflushed_mem_table_usage")
    (gauge_handle "rocksdb_table_readers_usage").

Definition db_names : list string :=
  op_names ++ cf_names ++ read_perf_names ++ write_perf_names ++
  ["rocksdb_mem_table_usage"; "rocksdb_unflushed_mem_table_usage"; "rocksdb_table_readers_usage"].

Section registration.
Context {PF : Platform} {PL : PromLaws}.

Definition reg_world (w : World) (reg : arc) (r' : registry) : World :=
  set_registries (<[reg := r']> (w_registries w)) w.

(** [m] registers [names] with the registry behind [reg] and returns [a] when
    none of the names is taken, and panics when one is. *)
Definition registers {A} (reg : arc) (m : M A) (names : list string) (a : A) : Prop :=
  forall w r,
    w_registries w !! reg = Some r -> NoDup names ->
    ((forall n, n ∈ names -> n ∉ registered r) ->
     exists r', m w = (Ret a, reg_world w reg r') /\
       registered r' = list_to_set names ∪ registered r) /\
    ((exists n, n ∈ names /\ n ∈ registered r) ->
     exists e r', m w = (Panicked e, reg_world w reg r')).

Lemma reg_world_twice w reg r1 r2 : reg_world (reg_world w reg r1) reg r2 = reg_world w reg r2.
Proof. unfold reg_world, set_registries; simpl. by rewrite insert_insert_eq. Qed.

Lemma reg_world_lookup w reg r : w_registries (reg_world w reg r) !! reg = Some r.
Proof. simpl. by rewrite lookup_insert_eq. Qed.

Lemma reg_world_id w reg r : w_registries w !! reg = Some r -> reg_world w reg r = w.
Proof. intros Hr. unfold reg_world, set_registries. rewrite insert_id by done. by destruct w. Qed.

Lemma registers_register reg v : registers reg (register v reg) [vec_name v] v.
Proof.
  intros w r Hr _. split.
  - intros Hfresh. destruct (register_fresh (vec_name v) r) as (r' & Hreg & Hset).
    { apply Hfresh. by left. }
    exists r'. split; [unfold register; by rewrite Hr, Hreg|]. rewrite Hset. set_solver.
  - intros (n & Hn & Htaken). apply list_elem_of_singleton in Hn as ->.
    destruct (register_taken _ _ Htaken) as [e He].
    exists e, r. unfold register. by rewrite Hr, He.
Qed.

Lemma registers_bind {A B} reg (m : M A) (k : A -> M B) n1 n2 a b :
  registers reg m n1 a -> registers reg (k a) n2 b -> registers reg (bind m k) (n1 ++ n2) b.
Proof.
  intros Hm Hk w r Hr Hnd. apply NoDup_app in Hnd as (Hnd1 & Hdisj & Hnd2).
  destruct (Hm w r Hr Hnd1) as [Hok Hbad].
  destruct (decide (Exists (fun n => n ∈ registered r) n1)) as [Hex|Hno].
  - apply Exists_exists in Hex as (n & Hn & Htaken). split.
    + intros Hfresh. exfalso. apply (Hfresh n); [set_solver|done].
    + intros _. destruct Hbad as (e & r' & Hm1); [eauto|].
      exists e, r'. unfold bind. by rewrite Hm1.
  - assert (forall n, n ∈ n1 -> n ∉ registered r) as Hfresh1.
    { intros n Hn Hin. apply Hno, Exists_exists. eauto. }
    destruct (Hok Hfresh1) as (r1 & Hm1 & Hset1).
    destruct (Hk _ r1 (reg_world_lookup w reg r1) Hnd2) as [Hok2 Hbad2]. split.
    + intros Hfresh. destruct Hok2 as (r2 & Hk2 & Hset2).
      { intros n Hn. rewrite Hset1, elem_of_union, elem_of_list_to_set.
        intros [Hn'|Hn']; [by apply (Hdisj n)|]. apply (Hfresh n); [set_solver|done]. }
      exists r2. split.
      * unfold bind. by rewrite Hm1, Hk2, reg_world_twice.
      * rewrite Hset2, Hset1, list_to_set_app_L. set_solver.
    + intros (n & [Hn|Hn]%elem_of_app & Htaken); [by destruct (Hfresh1 n)|].
      destruct Hbad2 as (e & r2 & Hk2).
      { exists n. split; [done|]. rewrite Hset1. set_solver. }
      exists e, r2. unfold bind. by rewrite Hm1, Hk2, reg_world_twice.
Qed.

Lemma registers_ret {A} reg (a : A) : registers reg (ret a) [] a.
Proof.
  intros w r Hr _. split.
  - intros _. exists r. split; [by rewrite reg_world_id|set_solver].
  - intros (n & Hn & _). by apply not_elem_of_nil in Hn.
Qed.

(** The same, for a metric at the head of a sequence of registrations. *)
Lemma registers_step {B} reg v (k : MetricVec -> M B) names b :
  registers reg (k v) names b ->
  registers reg (bind (register v reg) k) (vec_name v :: names) b.
Proof. apply (registers_bind _ _ _ [vec_name v]), registers_register. Qed.

End registration.

Ltac solve_registers :=
  unfold register_int_gauge_vec, register_int_counter_vec, register_histogram_vec;
  repeat lazymatch goal with
  | |- registers _ (bind (register ?v _) _) _ _ => apply (registers_step _ v)
  | |- registers _ (ret _) _ _ => apply registers_ret
  | |- registers _ ((fun _ => _) _) _ _ => cbn beta
  end.

Section registered_metrics.
Context {PF : Platform} {PL : PromLaws}.

Lemma op_registers reg : registers reg (OperationMetrics_new reg) op_names op_handles.
Proof. unfold OperationMetrics_new, op_names. solve_registers. Qed.

Lemma cf_registers reg : registers reg (ColumnFamilyMetrics_new reg) cf_names cf_handles.
Proof. unfold ColumnFamilyMetrics_new, cf_names. solve_registers. Qed.

Lemma read_perf_registers reg :
  registers reg (ReadPerfContextMetrics_new reg) read_perf_names read_perf_handles.
Proof. unfold ReadPerfContextMetrics_new, read_perf_names. solve_registers. Qed.

Lemma write_perf_registers reg :
  registers reg (WritePerfContextMetrics_new reg) write_perf_names write_perf_handles.
Proof. unfold WritePerfContextMetrics_new, write_perf_names. solve_registers. Qed.

Lemma db_registers reg : registers reg (DBMetrics_new reg) db_names db_handles.
Proof.
  unfold DBMetrics_new, db_names.
  eapply registers_bind; [apply op_registers|].
  eapply registers_bind; [apply cf_registers|].
  eapply registers_bind; [apply read_perf_registers|].
  eapply registers_bind; [apply write_perf_registers|].
  solve_registers.
Qed.

Lemma db_names_nodup : NoDup db_names.
Proof. apply (bool_decide_unpack _). by vm_compute. Qed.

(** [DBMetrics::new] on a registry none of whose names is taken. *)
Lemma DBMetrics_new_fresh w reg r :
  w_registries w !! reg = Some r ->
  (forall n, n ∈ db_names -> n ∉ registered r) ->
  exists r', DBMetrics_new reg w = (Ret db_handles, reg_world w reg r') /\
    registered r' = list_to_set db_names ∪ registered r.
Proof. intros Hr Hfresh. by apply (db_registers reg w r Hr db_names_nodup). Qed.

(** the process-wide metrics are initialised once.  The first
    [DBMetrics::init] registers all metrics and stores them; every later [init],
    with whatever registry, and every [get] return the same metrics and touch
    no registry. *)
Theorem DBMetrics_init_once (w : World) (reg : arc) (r : registry) :
  w_once w = None ->
  w_registries w !! reg = Some r ->
  (forall n, n ∈ db_names -> n ∉ registered r) ->
  exists w',
    DBMetrics_init reg w = (Ret db_handles, w') /\
    w_once w' = Some db_handles /\
    (forall r', w_registries w' !! reg = Some r' ->
       registered r' = list_to_set db_names ∪ registered r) /\
    (forall reg2, DBMetrics_init reg2 w' = (Ret db_handles, w')) /\
    DBMetrics_get w' = (Ret db_handles, w').
Proof.
  intros Honce Hr Hfresh.
  destruct (DBMetrics_new_fresh w reg r Hr Hfresh) as (r' & Hnew & Hset).
  exists (set_once (Some db_handles) (reg_world w reg r')).
  unfold DBMetrics_init, DBMetrics_get, bind, gets, modify, ret; simpl.
  rewrite Honce, Hnew. split_and!; try done.
  intros r'' Hr''. simpl in Hr''. rewrite lookup_insert_eq in Hr''. by simplify_eq.
Qed.

(** [DBMetrics::new] is not repeatable: on a registry it has already
    filled, the first registration is refused and the [unwrap] panics. *)
Theorem DBMetrics_new_twice_panics (w : World) (reg : arc) (r : registry) :
  w_registries w !! reg = Some r ->
  (forall n, n ∈ db_names -> n ∉ registered r) ->
  exists e w', (DBMetrics_new reg ;; DBMetrics_new reg) w = (Panicked e, w').
Proof.
  intros Hr Hfresh.
  destruct (DBMetrics_new_fresh w reg r Hr Hfresh) as (r' & Hnew & Hset).
  destruct (db_registers reg (reg_world w reg r') r' (reg_world_lookup w reg r') db_names_nodup)
    as [_ Htaken].
  destruct Htaken as (e & r2 & Hpanic).
  { exists "rocksdb_iter_bytes"%string. split; [by apply (bool_decide_unpack _); vm_compute|].
    rewrite Hset. apply elem_of_union_l, elem_of_list_to_set.
    by apply (bool_decide_unpack _); vm_compute. }
  exists e, (reg_world (reg_world w reg r') reg r2). unfold bind. by rewrite Hnew.
Qed.

End registered_metrics.

(** ** What a report adds to the counters *)

Section reports.
Context {PF : Platform}.

Definition counter_name (e : event) : option string :=
  match e with CounterAdded c _ _ => Some (vec_name c) | _ => None end.

(** [m] only extends the trace, and adds to the counters [names], in order. *)
Definition adds {A} (m : M A) (names : list string) : Prop :=
  forall w, exists a evs, m w = (Ret a, set_trace (w_trace w ++ evs) w) /\
    omap counter_name evs = names.

Lemma adds_emit e : adds (emit e) (omap counter_name [e]).
Proof. intros w. by exists tt, [e]. Qed.

Lemma adds_inc_by v label m : adds (inc_by v label m) [vec_name v].
Proof. intros w. by eexists tt, [_]. Qed.

Lemma adds_bind {A B} (m : M A) (k : A -> M B) n1 n2 :
  adds m n1 -> (forall a, adds (k a) n2) -> adds (bind m k) (n1 ++ n2).
Proof.
  intros Hm Hk w. destruct (Hm w) as (a & evs1 & Hmw & <-).
  destruct (Hk a (set_trace (w_trace w ++ evs1) w)) as (b & evs2 & Hkw & <-).
  exists b, (evs1 ++ evs2). unfold bind. rewrite Hmw, Hkw. split.
  - simpl. by rewrite <- app_assoc.
  - by rewrite omap_app.
Qed.

Lemma adds_seq {A} v label m (k : M A) names :
  adds k names -> adds (inc_by v label m ;; k) (vec_name v :: names).
Proof. intros Hk. apply (adds_bind _ _ [vec_name v]); [apply adds_inc_by|done]. Qed.

(** The counters of one read report, in the order of the code. *)
Lemma read_report_adds label :
  adds (ReadPerfContextMetrics_report_metrics read_perf_handles label)
    (take 5 read_perf_names ++ "block_read_count" :: drop 5 read_perf_names).
Proof.
  unfold ReadPerfContextMetrics_report_metrics.
  lazymatch goal with |- adds _ ?l => let l' := eval vm_compute in l in change l with l' end.
  apply (adds_bind _ _ []); [apply adds_emit|intros _].
  repeat lazymatch goal with
  | |- adds (inc_by ?v _ _ ;; _) (_ :: ?ns) => apply (adds_seq v label _ _ ns)
  | |- adds (inc_by _ _ _) _ => apply adds_inc_by
  end.
Qed.

(** one [ReadPerfContextMetrics::report_metrics] adds every read counter
    once, except [block_read_count], which it adds twice: the block reads it
    reports are double counted. *)
Theorem read_report_double_counts (label : string) (w : World) :
  exists evs,
    ReadPerfContextMetrics_report_metrics read_perf_handles label w
      = (Ret tt, set_trace (w_trace w ++ evs) w) /\
    omap counter_name evs ≡ₚ "block_read_count"%string :: read_perf_names /\
    NoDup read_perf_names.
Proof.
  destruct (read_report_adds label w) as ([] & evs & Hw & Hevs).
  exists evs. rewrite Hevs. split_and!; [done|..].
  - rewrite <- Permutation_middle. by rewrite take_drop.
  - apply (bool_decide_unpack _). by vm_compute.
Qed.

End reports.
