(* ===== verification/Errors.v ===== *)
(** * Errors of typed-store (typed-store/src/rocks/errors.rs)

    The public error type with its messages, the serializable copies of
    RocksDB's and bincode's errors, and the conversions [?] applies. *)
From stdpp Require Import pretty.
From S2P Require Import Prelude Bytes Platform.

Inductive TypedStoreError : Type :=
| RocksDBError (msg : string)
| SerializationError (msg : string)
| UnregisteredColumn (cf : string)
| CrossDBBatch
| MetricsReporting.

#[export] Instance TypedStoreError_eq_dec : EqDecision TypedStoreError.
Proof. solve_decision. Defined.

(** The messages [thiserror] derives from the [#[error]] attributes. *)
Definition TypedStoreError_display (e : TypedStoreError) : string :=
  match e with
  | RocksDBError m => "rocksdb error: " +:+ m
  | SerializationError m => "(de)serialization error: " +:+ m
  | UnregisteredColumn c =>
      "the column family " +:+ c +:+ " was not registered with the database"
  | CrossDBBatch => "a batch operation can't operate across databases"
  | MetricsReporting => "Metric reporting thread failed with error"
  end.

(** A RocksDB error is its message. *)
Record RocksErrorDef : Type := mkRocksErrorDef { message : string }.

Definition RocksErrorDef_from (err : string) : RocksErrorDef := mkRocksErrorDef err.

Definition RocksErrorDef_display (e : RocksErrorDef) : string := message e.

Definition from_rocks_error (err : string) : TypedStoreError := RocksDBError err.

Inductive BincodeErrorDef : Type :=
| Io (msg : string)
| InvalidUtf8Encoding (msg : string)
| InvalidBoolEncoding (b : byte)
| InvalidCharEncoding
| InvalidTagEncoding (tag : Z)
| DeserializeAnyNotSupported
| SizeLimit
| SequenceMustHaveLength
| Custom (msg : string).

(** [write!(fmt, "{:?}", self)] on a variant without fields. *)
Definition BincodeErrorDef_display (e : BincodeErrorDef) : string :=
  match e with
  | Io ioerr => "io error: " +:+ ioerr
  | InvalidUtf8Encoding e => e
  | InvalidBoolEncoding b => "expected 0 or 1, found " +:+ pretty (Byte.to_N b)
  | InvalidCharEncoding => "InvalidCharEncoding"
  | InvalidTagEncoding tag => "found " +:+ pretty tag
  | SequenceMustHaveLength => "SequenceMustHaveLength"
  | SizeLimit => "SizeLimit"
  | DeserializeAnyNotSupported =>
      "Bincode does not support the serde::Deserializer::deserialize_any method"
  | Custom s => s
  end.

Definition BincodeErrorDef_from (err : bincode_error) : BincodeErrorDef :=
  match err with
  | BkIo ioerr => Io ioerr
  | BkInvalidUtf8Encoding utf8err => InvalidUtf8Encoding utf8err
  | BkInvalidBoolEncoding b => InvalidBoolEncoding b
  | BkInvalidCharEncoding => InvalidCharEncoding
  | BkInvalidTagEncoding tag => InvalidTagEncoding tag
  | BkDeserializeAnyNotSupported => DeserializeAnyNotSupported
  | BkSizeLimit => SizeLimit
  | BkSequenceMustHaveLength => SequenceMustHaveLength
  | BkCustom s => Custom s
  end.

Definition from_bincode_error {PF : Platform} (err : bincode_error) : TypedStoreError :=
  SerializationError (bincode_display err).
