(* ===== verification/Traits.v ===== *)
(** * The [Map] interface (typed-store/src/traits.rs)

    The trait as a type class with the bodies of its provided methods, and
    [MapLaws], the contract an implementation owes its clients: the provided
    methods are proved against the contract alone. *)
From S2P Require Import Prelude Bytes Platform MetricsData World.

Section map_trait.
Context {PF : Platform}.

(** The methods of the trait, with the [next] of its three iterator types.
    [multi_get], [multi_insert] and [multi_remove]
    have default bodies, below, that an implementation may override. *)
Class Map (T K V : Type) : Type := {
  Error : Type;
  Iterator : Type;
  Keys : Type;
  Values : Type;
  Iterator_next : Iterator -> M (option (K * V) * Iterator);
  Keys_next : Keys -> M (option K * Keys);
  Values_next : Values -> M (option V * Values);
  contains_key : T -> K -> M (result bool Error);
  get : T -> K -> M (result (option V) Error);
  get_raw_bytes : T -> K -> M (result (option bytes) Error);
  insert : T -> K -> V -> M (result unit Error);
  remove : T -> K -> M (result unit Error);
  clear : T -> M (result unit Error);
  is_empty : T -> M bool;
  iter : T -> M Iterator;
  keys : T -> M Keys;
  values : T -> M Values;
  multi_get : T -> list K -> M (result (list (option V)) Error);
  multi_insert : T -> list (K * V) -> M (result unit Error);
  multi_remove : T -> list K -> M (result unit Error);
  try_catch_up_with_primary : T -> M (result unit Error);
}.
Arguments Error {T K V _}.

(** [get_or_insert_unsafe]: [default] is any [FnOnce() -> V]. *)
Definition get_or_insert_unsafe {T K V} `{!Map T K V} (self : T) (key : K) (default : M V) :
    M (result V Error) :=
  optv <-? get self key ;;
  match optv with
  | Some v => ret (Ok v)
  | None =>
      v <- default ;;
      _ <-? insert self key v ;;
      r <- get self key ;;
      expect "default just inserted" (transpose r)
  end.

(** [iter.map(f).collect::<Result<Vec<_>, _>>()] for an effectful [f]: stops at
    the first error. *)
Fixpoint collect_m {A B E} (f : A -> M (result B E)) (l : list A) : M (result (list B) E) :=
  match l with
  | [] => ret (Ok [])
  | x :: l' => y <-? f x ;; ys <-? collect_m f l' ;; ret (Ok (y :: ys))
  end.

Definition multi_get_default {T K V} `{!Map T K V} (self : T) (keys : list K) :
    M (result (list (option V)) Error) :=
  collect_m (get self) keys.

Definition multi_insert_default {T K V} `{!Map T K V} (self : T) (key_val_pairs : list (K * V)) :
    M (result unit Error) :=
  try_for_each (fun kv : K * V => insert self kv.1 kv.2) key_val_pairs.

Definition multi_remove_default {T K V} `{!Map T K V} (self : T) (keys : list K) :
    M (result unit Error) :=
  try_for_each (remove self) keys.

End map_trait.
Arguments Map {PF} T K V.

(** Dumping a store's tables, for tools; [eyre::Report] is its message. *)
Class TypedStoreDebug {PF : Platform} (T : Type) : Type := {
  dump_table : T -> string -> Z -> Z -> M (result (gmap string string) string);
  primary_db_name : T -> string;
  describe_all_tables : T -> gmap string (string * string);
  count_table_keys : T -> string -> M (result Z string);
}.

(** ** The contract *)

(** The effect of a list of insertions and of removals on a partial function. *)
Definition insert_all {K V} `{!EqDecision K} (m : K -> option V) (kvs : list (K * V)) : K -> option V :=
  foldl (fun m kv => <[kv.1 := Some kv.2]> m) m kvs.

Definition remove_all {K V} `{!EqDecision K} (m : K -> option V) (ks : list K) : K -> option V :=
  foldl (fun m k => <[k := None]> m) m ks.

(** [models t w m]: in state [w] the map object [t] stands for the partial
    function [m].  Every operation answers; when it succeeds, it reads and
    updates [m].  An operation may fail (serialization, I/O); a failed write
    promises nothing.  Iteration yields each entry once and ends. *)
Class MapLaws {PF : Platform} (T K V : Type) `{!Map T K V, !EqDecision K} : Type := {
  models : T -> World -> (K -> option V) -> Prop;
  get_law t w m k :
    models t w m ->
    wp (get t k) (fun o w' => models t w' m /\ exists r, o = Ret r /\ (forall x, r = Ok x -> x = m k)) w;
  get_raw_bytes_law t w m k :
    models t w m ->
    wp (get_raw_bytes t k) (fun o w' => models t w' m /\ exists r, o = Ret r) w;
  insert_law t w m k v :
    models t w m ->
    wp (insert t k v) (fun o w' => exists r, o = Ret r /\
      (r = Ok tt -> models t w' (<[k := Some v]> m))) w;
  remove_law t w m k :
    models t w m ->
    wp (remove t k) (fun o w' => exists r, o = Ret r /\
      (r = Ok tt -> models t w' (<[k := None]> m))) w;
  multi_get_law t w m ks :
    models t w m ->
    wp (multi_get t ks) (fun o w' => models t w' m /\ exists r, o = Ret r /\
      (forall xs, r = Ok xs -> xs = map m ks)) w;
  multi_insert_law t w m kvs :
    models t w m ->
    wp (multi_insert t kvs) (fun o w' => exists r, o = Ret r /\
      (r = Ok tt -> models t w' (insert_all m kvs))) w;
  multi_remove_law t w m ks :
    models t w m ->
    wp (multi_remove t ks) (fun o w' => exists r, o = Ret r /\
      (r = Ok tt -> models t w' (remove_all m ks))) w;
  iter_law t w m :
    models t w m ->
    wp (iter t) (fun o w1 => models t w1 m /\ exists it, o = Ret it /\
      exists n : nat, forall fuel, (n < fuel)%nat ->
        wp (drain Iterator_next fuel it) (fun o w2 => models t w2 m /\
          exists kvs, o = Ret (Some kvs) /\ NoDup kvs.*1 /\
            forall k v, (k, v) ∈ kvs <-> m k = Some v) w1) w;
}.

Section map_clients.
Context {PF : Platform} {T K V : Type} `{!Map T K V, !EqDecision K, !MapLaws T K V}.
Implicit Types (t : T) (w : World) (m : K -> option V).

Lemma get_or_insert_unsafe_spec t w m k (default : M V) v :
  models t w m ->
  (forall w1, models t w1 m -> wp default (fun o w2 => o = Ret v /\ models t w2 m) w1) ->
  wp (get_or_insert_unsafe t k default) (fun o w' =>
    exists r, o = Ret r /\
      (forall x, r = Ok x -> x = from_option id v (m k) /\
         models t w' (if m k is Some _ then m else <[k := Some v]> m))) w.
Proof.
  intros Hm Hdef. unfold get_or_insert_unsafe. apply wp_try_bind.
  eapply wp_mono; [by apply get_law|]. intros o w1 (Hm1 & r & -> & Hr).
  destruct r as [optv|e]; [|by eexists].
  specialize (Hr optv eq_refl) as ->. destruct (m k) as [x|] eqn:Hk.
  { apply wp_ret. eexists. split; [done|]. by intros ? [= <-]. }
  apply wp_bind. eapply wp_mono; [by apply Hdef|]. intros o w2 [-> Hm2]. cbn.
  apply wp_try_bind. eapply wp_mono; [by apply insert_law|].
  intros o w3 (r & -> & Hr). destruct r as [[]|e]; [|by eexists].
  specialize (Hr eq_refl). apply wp_bind.
  eapply wp_mono; [by apply get_law|]. intros o w4 (Hm4 & r & -> & Hr'). cbn.
  destruct r as [x|e]; simpl; [|by eexists].
  specialize (Hr' x eq_refl) as ->. rewrite fn_lookup_insert. apply wp_ret.
  eexists. split; [done|]. by intros ? [= <-].
Qed.

(** The default [multi_insert] applies the pairs in order; when it reports
    success all of them are in. *)
Lemma multi_insert_default_spec t w m kvs :
  models t w m ->
  wp (multi_insert_default t kvs) (fun o w' => exists r, o = Ret r /\
    (r = Ok tt -> models t w' (insert_all m kvs))) w.
Proof.
  unfold multi_insert_default. revert w m. induction kvs as [|[k v] kvs IH]; intros w m Hm; simpl.
  - apply wp_ret. by eexists.
  - apply wp_try_bind. eapply wp_mono; [by apply insert_law|].
    intros o w1 (r & -> & Hr). destruct r as [[]|e]; [|by eexists].
    by apply IH, Hr.
Qed.

Lemma multi_remove_default_spec t w m ks :
  models t w m ->
  wp (multi_remove_default t ks) (fun o w' => exists r, o = Ret r /\
    (r = Ok tt -> models t w' (remove_all m ks))) w.
Proof.
  unfold multi_remove_default. revert w m. induction ks as [|k ks IH]; intros w m Hm; simpl.
  - apply wp_ret. by eexists.
  - apply wp_try_bind. eapply wp_mono; [by apply remove_law|].
    intros o w1 (r & -> & Hr). destruct r as [[]|e]; [|by eexists].
    by apply IH, Hr.
Qed.

Lemma multi_get_default_spec t w m ks :
  models t w m ->
  wp (multi_get_default t ks) (fun o w' => models t w' m /\ exists r, o = Ret r /\
    (forall xs, r = Ok xs -> xs = map m ks)) w.
Proof.
  unfold multi_get_default. revert w. induction ks as [|k ks IH]; intros w Hm; simpl.
  - apply wp_ret. split; [done|]. eexists. split; [done|]. by intros ? [= <-].
  - apply wp_try_bind. eapply wp_mono; [by apply get_law|].
    intros o w1 (Hm1 & r & -> & Hr). destruct r as [x|e]; [|by split; [|eexists]].
    specialize (Hr x eq_refl) as ->. apply wp_try_bind.
    eapply wp_mono; [by apply IH|]. intros o w2 (Hm2 & r & -> & Hr).
    destruct r as [xs|e]; [|by split; [|eexists]].
    apply wp_ret. split; [done|]. eexists. split; [done|]. intros ? [= <-].
    by rewrite (Hr xs eq_refl).
Qed.

End map_clients.
