(* ===== verification/Rocks.v ===== *)
(** * Opening stores (typed-store/src/rocks/mod.rs, first part)

    Options from the environment, opening a database with its column families,
    the [DBMap] handle, its metrics task and write batches. *)
From Stdlib Require Import Ascii.
From stdpp Require Import pretty.
From S2P Require Import Prelude Bytes Platform MetricsData World Sampling Metrics Errors.
Open Scope Z_scope.

(** ** Sizes from the environment *)

Definition ENV_VAR_DB_WRITE_BUFFER_SIZE : string := "MYSTEN_DB_WRITE_BUFFER_SIZE_MB".
Definition DEFAULT_DB_WRITE_BUFFER_SIZE : Z := 512.
Definition ENV_VAR_DB_WAL_SIZE : string := "MYSTEN_DB_WAL_SIZE_MB".
Definition DEFAULT_DB_WAL_SIZE : Z := 1024.

Definition digit (c : ascii) : option Z :=
  let n := Z.of_N (N_of_ascii c) in
  if (48 <=? n) && (n <=? 57) then Some (n - 48) else None.

Fixpoint parse_digits (acc : Z) (s : string) : option Z :=
  match s with
  | EmptyString => Some acc
  | String c s' =>
      d ← digit c;
      let acc' := acc * 10 + d in
      if acc' <? u64_modulus then parse_digits acc' s' else None
  end.

(** [str::parse::<usize>]: one optional [+], then at least one digit, in range. *)
Definition parse_usize (s : string) : option Z :=
  match s with
  | EmptyString => None
  | String "+" EmptyString => None
  | String "+" s' => parse_digits 0 s'
  | _ => parse_digits 0 s
  end.

Section rocks.
Context {PF : Platform}.

(** [std::env::var]: unset and non-Unicode values are errors. *)
Definition env_var (name : string) : M (option string) :=
  gets (fun w => v ← w_env w !! name; to_str v).

Definition read_size_from_env (var_name : string) : M (option Z) :=
  v <- env_var var_name ;;
  ret (s ← v; parse_usize s).

Record DBOptions : Type := mkDBOptions { db_opts : options }.

Definition DBOptions_default : DBOptions := mkDBOptions options_default.

Definition default_db_options : M DBOptions :=
  wb <- read_size_from_env ENV_VAR_DB_WRITE_BUFFER_SIZE ;;
  wb1 <- mul_usize (default DEFAULT_DB_WRITE_BUFFER_SIZE wb) 1024 ;;
  wb2 <- mul_usize wb1 1024 ;;
  wal <- read_size_from_env ENV_VAR_DB_WAL_SIZE ;;
  wal1 <- mul_usize (default DEFAULT_DB_WAL_SIZE wal) 1024 ;;
  wal2 <- mul_usize wal1 1024 ;;
  ret (mkDBOptions (set_max_total_wal_size wal2 (set_db_write_buffer_size wb2 options_default))).

(** ** Opening a database *)

(** [slice.iter().cloned().collect::<HashMap<_, _>>()]: a later pair wins. *)
Definition collect_map (l : list (string * options)) : gmap string options :=
  foldl (fun m kv => <[kv.1 := kv.2]> m) ∅ l.

(** The loop that adds the column families not explicitly listed. *)
Definition add_missing_cfs (dflt : options) (cfs : list string) (opt_cfs : gmap string options) :
    gmap string options :=
  foldl (fun m cf_key => if m !! cf_key is Some _ then m else <[cf_key := dflt]> m) opt_cfs cfs.

Definition unwrap_or_default_options (db_options : option options) : M options :=
  match db_options with
  | Some o => ret o
  | None => o <- default_db_options ;; ret (db_opts o)
  end.

Definition open_cf_opts (path : path) (db_options : option options)
    (opt_cfs : list (string * options)) : M (result arc TypedStoreError) :=
  options <- unwrap_or_default_options db_options ;;
  let opt_cfs := collect_map opt_cfs in
  listed <- gets (fun w => list_cf options path (w_fs w)) ;;
  let cfs := default [] (res_ok listed) in
  default_db_options <- default_db_options ;;
  let opt_cfs := add_missing_cfs (db_opts default_db_options) cfs opt_cfs in
  let primary := path in
  let options := create_missing_column_families true (create_if_missing true options) in
  d <-? (r <- with_fs (open_cf_descriptors options primary (map_to_list opt_cfs)) ;;
         ret (map_err from_rocks_error r)) ;;
  rocksdb <- new_db d ;;
  ret (Ok rocksdb).

Definition open_cf (path : path) (db_options : option options) (opt_cfs : list string) :
    M (result arc TypedStoreError) :=
  options <- unwrap_or_default_options db_options ;;
  let column_descriptors := map (fun name => (name, options)) opt_cfs in
  open_cf_opts path (Some options) column_descriptors.

Definition open_cf_opts_secondary (primary_path : path) (secondary_path : option path)
    (db_options : option options) (opt_cfs : list (string * options)) :
    M (result arc TypedStoreError) :=
  options <- unwrap_or_default_options db_options ;;
  emit FdLimitRaised ;;
  let options := set_max_open_files (-1) options in
  let opt_cfs := collect_map opt_cfs in
  listed <- gets (fun w => list_cf options primary_path (w_fs w)) ;;
  let cfs := default [] (res_ok listed) in
  default_db_options <- default_db_options ;;
  let opt_cfs := add_missing_cfs (db_opts default_db_options) cfs opt_cfs in
  let secondary_path :=
    match secondary_path with
    | Some q => q
    | None => path_push (path_pop primary_path) "SECONDARY"
    end in
  let options := create_missing_column_families true (create_if_missing true options) in
  d <-? (r <- with_fs (open_cf_descriptors_as_secondary options primary_path secondary_path
                         (map_to_list opt_cfs)) ;;
         ret (map_err from_rocks_error r)) ;;
  rocksdb <- new_db d ;;
  ret (Ok rocksdb).

Definition DB_DEFAULT_CF_NAME : string := "default".

Definition list_tables (path : path) : M (result (list string) string) :=
  gets (fun w =>
    map_ok (filter (fun s => s <> DB_DEFAULT_CF_NAME)) (list_cf options_default path (w_fs w))).

(** ** Serialization of keys *)

Definition be_fix_int_ser {S} `{!Serde S} (t : S) : result bytes TypedStoreError :=
  map_err from_bincode_error (ser_key t).

(** ** The handle *)

Definition CF_METRICS_REPORT_PERIOD_MILLIS : Z := 1000.
Definition METRICS_ERROR : Z := -1.

(** [DBMap<K, V>]; [K] and [V] occur in the methods only. *)
Record DBMap (K V : Type) : Type := mkDBMap {
  rocksdb : arc;
  dbmap_cf : string;
  db_metrics : DBMetrics;
  read_sample_interval : SamplingInterval;
  write_sample_interval : SamplingInterval;
  iter_latency_sample_interval : SamplingInterval;
  iter_bytes_sample_interval : SamplingInterval;
  metrics_task_cancel_handle : arc;
}.
Arguments mkDBMap {K V}.
Arguments rocksdb {K V}.
Arguments dbmap_cf {K V}.
Arguments db_metrics {K V}.
Arguments read_sample_interval {K V}.
Arguments write_sample_interval {K V}.
Arguments iter_latency_sample_interval {K V}.
Arguments iter_bytes_sample_interval {K V}.
Arguments metrics_task_cancel_handle {K V}.

(** [DBMap::new]: the task it spawns ends when the cancel sender is dropped. *)
Definition DBMap_new {K V} (db : arc) (opt_cf : string) : M (DBMap K V) :=
  db_metrics <- DBMetrics_get ;;
  sender <- new_arc ;;
  spawn (CfMetricsTask db opt_cf sender) ;;
  read <- SamplingInterval_default ;;
  write <- SamplingInterval_default ;;
  iter_bytes <- SamplingInterval_default ;;
  iter_latency <- SamplingInterval_default ;;
  ret (mkDBMap db opt_cf db_metrics read write iter_latency iter_bytes sender).

Definition DEFAULT_COLUMN_FAMILY_NAME : string := "default".

Definition DBMap_open {K V} (path : path) (db_options : option options) (opt_cf : option string) :
    M (result (DBMap K V) TypedStoreError) :=
  let cf_key := default DEFAULT_COLUMN_FAMILY_NAME opt_cf in
  rocksdb <-? open_cf path db_options [cf_key] ;;
  m <- DBMap_new rocksdb cf_key ;;
  ret (Ok m).

Definition DBMap_reopen {K V} (db : arc) (opt_cf : option string) :
    M (result (DBMap K V) TypedStoreError) :=
  let cf_key := default DEFAULT_COLUMN_FAMILY_NAME opt_cf in
  found <- read_db db (fun d => cf_handle d cf_key) ;;
  if found then m <- DBMap_new db cf_key ;; ret (Ok m)
  else ret (Err (UnregisteredColumn cf_key)).

(** The families and types that [reopen!] is given, and the tuple it makes. *)
Record typed_cf : Type := mkTypedCf { tc_name : string; tc_K : Type; tc_V : Type }.

Fixpoint handles (cfs : list typed_cf) : Type :=
  match cfs with
  | [] => unit
  | c :: cfs' => (DBMap (tc_K c) (tc_V c) * handles cfs')%type
  end.

(** [reopen!(db, cf;<K, V>, ..)]. *)
Fixpoint reopen (db : arc) (cfs : list typed_cf) : M (handles cfs) :=
  match cfs with
  | [] => ret tt
  | c :: cfs' =>
      r <- DBMap_reopen (K:=tc_K c) (V:=tc_V c) db (Some (tc_name c)) ;;
      m <- unwrap ("Cannot open " +:+ tc_name c +:+ " CF.") r ;;
      ms <- reopen db cfs' ;;
      ret (m, ms)
  end.

(** [self.cf()]: the handle of the column family, here its name. *)
Definition cf {K V} (self : DBMap K V) : M string :=
  found <- read_db (rocksdb self) (fun d => cf_handle d (dbmap_cf self)) ;;
  if found then ret (dbmap_cf self)
  else panic "Map-keying column family should have been checked at DB creation".

(** ** The metrics task *)

Definition get_int_property (rocksdb : db) (cf : string) (property_name : cf_property) :
    outcome (result Z TypedStoreError) :=
  match property_int_value_cf rocksdb cf property_name with
  | Ok (Some value) =>
      if value <=? i64_max then Ret (Ok value)
      else Panicked "called `Result::unwrap()` on an `Err` value: TryFromIntError(())"
  | Ok None => Ret (Ok 0)
  | Err e => Ret (Err (RocksDBError e))
  end.

Definition db_name (d : db) : string :=
  default "unknown"%string (f ← file_name (db_path d); to_str f).

(** [gauge.with_label_values(&[cf_name]).set(get_int_property(..).unwrap_or(METRICS_ERROR))]. *)
Definition set_cf_gauge (db : arc) (cf_name : string) (gauge : MetricVec) (p : cf_property) :
    M unit :=
  o <- read_db db (fun d => get_int_property d cf_name p) ;;
  match o with
  | Ret (Ok v) => emit (GaugeSet gauge cf_name v)
  | Ret (Err _) => emit (GaugeSet gauge cf_name METRICS_ERROR)
  | Panicked msg => panic msg
  end.

(** [gauge.with_label_values(&[&db_name]).set(stats.map(|x| f(x) as i64).unwrap_or(METRICS_ERROR))]. *)
Definition set_mem_gauge (db_name : string) (gauge : MetricVec) (f : mem_stats -> Z)
    (stats : result mem_stats string) : M unit :=
  emit (GaugeSet gauge db_name
    (match stats with Ok x => as_i64 (f x) | Err _ => METRICS_ERROR end)).

Definition report_metrics (db : arc) (cf_name : string) (m : DBMetrics) : M unit :=
  found <- read_db db (fun d => cf_handle d cf_name) ;;
  when (negb found) (panic "Failed to get cf") ;;
  set_cf_gauge db cf_name (rocksdb_total_sst_files_size (cf_metrics m)) TOTAL_SST_FILES_SIZE ;;
  set_cf_gauge db cf_name (rocksdb_size_all_mem_tables (cf_metrics m)) SIZE_ALL_MEM_TABLES ;;
  set_cf_gauge db cf_name (rocksdb_num_snapshots (cf_metrics m)) NUM_SNAPSHOTS ;;
  set_cf_gauge db cf_name (rocksdb_oldest_snapshot_time (cf_metrics m)) OLDEST_SNAPSHOT_TIME ;;
  set_cf_gauge db cf_name (rocksdb_actual_delayed_write_rate (cf_metrics m)) ACTUAL_DELAYED_WRITE_RATE ;;
  set_cf_gauge db cf_name (rocksdb_is_write_stopped (cf_metrics m)) IS_WRITE_STOPPED ;;
  set_cf_gauge db cf_name (rocksdb_block_cache_capacity (cf_metrics m)) BLOCK_CACHE_CAPACITY ;;
  set_cf_gauge db cf_name (rocksdb_block_cache_usage (cf_metrics m)) BLOCK_CACHE_USAGE ;;
  set_cf_gauge db cf_name (rocksdb_block_cache_pinned_usage (cf_metrics m)) BLOCK_CACHE_PINNED_USAGE ;;
  set_cf_gauge db cf_name (rocskdb_estimate_table_readers_mem (cf_metrics m)) ESTIMATE_TABLE_READERS_MEM ;;
  set_cf_gauge db cf_name (rocksdb_estimated_num_keys (cf_metrics m)) ESTIMATE_NUM_KEYS ;;
  set_cf_gauge db cf_name (rocksdb_mem_table_flush_pending (cf_metrics m)) MEM_TABLE_FLUSH_PENDING ;;
  set_cf_gauge db cf_name (rocskdb_compaction_pending (cf_metrics m)) COMPACTION_PENDING ;;
  set_cf_gauge db cf_name (rocskdb_num_running_compactions (cf_metrics m)) NUM_RUNNING_COMPACTIONS ;;
  set_cf_gauge db cf_name (rocksdb_num_running_flushes (cf_metrics m)) NUM_RUNNING_FLUSHES ;;
  set_cf_gauge db cf_name (rocksdb_estimate_oldest_key_time (cf_metrics m)) ESTIMATE_OLDEST_KEY_TIME ;;
  set_cf_gauge db cf_name (rocskdb_background_errors (cf_metrics m)) BACKGROUND_ERRORS ;;
  name <- read_db db db_name ;;
  stats <- read_db db get_memory_usage_stats ;;
  set_mem_gauge name (rocksdb_mem_table_usage m) mem_table_total stats ;;
  set_mem_gauge name (rocksdb_unflushed_mem_table_usage m) mem_table_unflushed stats ;;
  set_mem_gauge name (rocksdb_table_readers_usage m) mem_table_readers_total stats.

(** One tick of the spawned loop: [spawn_blocking] catches a panic of the
    report, which is only logged. *)
Definition cf_metrics_tick (db : arc) (cf_name : string) (m : DBMetrics) : M unit :=
  fun w => let (_, w') := report_metrics db cf_name m w in (Ret tt, w').

End rocks.
Arguments mkDBMap {K V}.
Arguments rocksdb {K V}.
Arguments dbmap_cf {K V}.
Arguments db_metrics {K V}.
Arguments read_sample_interval {K V}.
Arguments write_sample_interval {K V}.
Arguments iter_latency_sample_interval {K V}.
Arguments iter_bytes_sample_interval {K V}.
Arguments metrics_task_cancel_handle {K V}.

(** ** Facts about sizes *)

Lemma digit_bounds c d : digit c = Some d -> 0 <= d < 10.
Proof.
  unfold digit. destruct ((48 <=? _) && _) eqn:E; [|done]. intros [= <-].
  apply andb_true_iff in E as [E1%Z.leb_le E2%Z.leb_le]. lia.
Qed.

Lemma parse_digits_bounds s acc n : u64 acc -> parse_digits acc s = Some n -> u64 n.
Proof.
  revert acc. induction s as [|c s IH]; intros acc Hacc; simpl; [by intros [= <-]|].
  destruct (digit c) as [d|] eqn:Hd; simpl; [|done]. apply digit_bounds in Hd.
  destruct (_ <? _) eqn:Hlt; [|done]. apply IH. apply Z.ltb_lt in Hlt.
  unfold u64 in *; lia.
Qed.

Lemma parse_usize_bounds s n : parse_usize s = Some n -> u64 n.
Proof.
  assert (u64 0) as H0 by done.
  destruct s as [|[[] [] [] [] [] [] [] []] s]; try done;
    try (apply parse_digits_bounds; exact H0).
  destruct s; [done|]. apply parse_digits_bounds, H0.
Qed.

Lemma digit_pretty d : (d < 10)%N -> digit (pretty_N_char d) = Some (Z.of_N d).
Proof.
  intros Hd.
  assert (d = 0 \/ d = 1 \/ d = 2 \/ d = 3 \/ d = 4 \/ d = 5 \/ d = 6 \/ d = 7 \/ d = 8 \/ d = 9)%N
    as Hcases by lia.
  by destruct_or! Hcases; subst d.
Qed.

Lemma parse_digits_pretty x s :
  u64 (Z.of_N x) -> parse_digits 0 (pretty_N_go x s) = parse_digits (Z.of_N x) s.
Proof.
  revert s. induction (N.lt_wf_0 x) as [x _ IH]. intros s Hx.
  destruct (decide (x = 0%N)) as [->|Hnz]; [done|].
  rewrite pretty_N_go_step by lia.
  assert (u64 (Z.of_N (x / 10))).
  { unfold u64 in *. rewrite N2Z.inj_div. split; [apply Z.div_pos; lia|].
    apply (Z.le_lt_trans _ (Z.of_N x)); [apply Z.div_le_upper_bound; lia|lia]. }
  rewrite IH by (done || apply N.div_lt; lia). cbn [parse_digits].
  rewrite digit_pretty by (by apply N.mod_lt). simpl.
  assert (Z.of_N (x / 10) * 10 + Z.of_N (x mod 10) = Z.of_N x) as ->.
  { rewrite N2Z.inj_div, N2Z.inj_mod. pose proof (Z.div_mod (Z.of_N x) 10). simpl in *. lia. }
  unfold u64 in Hx. by rewrite (proj2 (Z.ltb_lt _ _)) by lia.
Qed.

Lemma parse_digits_usize s n : s <> EmptyString -> parse_digits 0 s = Some n -> parse_usize s = Some n.
Proof.
  intros Hs Hn. destruct s as [|[[] [] [] [] [] [] [] []] s]; try done.
Qed.

Lemma parse_usize_pretty (n : N) : u64 (Z.of_N n) -> parse_usize (pretty n) = Some (Z.of_N n).
Proof.
  intros Hn. unfold pretty, pretty_N. case_decide as Hz; [by rewrite Hz|].
  pose proof (parse_digits_pretty n "" Hn) as Hp. cbn [parse_digits] in Hp.
  apply parse_digits_usize; [|done]. intros Hempty. rewrite Hempty in Hp.
  injection Hp. lia.
Qed.

Section sizes.
Context {PF : Platform}.

Lemma read_size_from_env_eq var w :
  read_size_from_env var w =
    (Ret (v ← w_env w !! var; s ← to_str v; parse_usize s), w).
Proof.
  unfold read_size_from_env, env_var, bind, gets, ret.
  by destruct (w_env w !! var) as [[|]|].
Qed.

(** [read_size_from_env] reads back every [usize] in decimal, and what it
    returns always fits: an out-of-range value is [None], never truncated. *)
Theorem read_size_from_env_roundtrip (var : string) (n : N) (w : World) :
  w_env w !! var = Some (Utf8 (pretty n)) ->
  (u64 (Z.of_N n) -> read_size_from_env var w = (Ret (Some (Z.of_N n)), w)) /\
  (forall z, (read_size_from_env var w).1 = Ret (Some z) -> u64 z).
Proof.
  intros Hw. rewrite read_size_from_env_eq, Hw. simpl. split.
  - intros Hn. by rewrite parse_usize_pretty.
  - intros z [= Hz]. by eapply parse_usize_bounds.
Qed.

(** A size in MiB as the code computes it, in bytes. *)
Definition mib (a : Z) : M Z := b <- mul_usize a 1024 ;; mul_usize b 1024.

Definition mib_outcome (a : Z) : outcome Z :=
  if a * 1048576 <? u64_modulus then Ret (a * 1048576)
  else if overflow_checks then Panicked "attempt to multiply with overflow"
  else Ret (wrap64 (a * 1048576)).

Lemma mib_eq a w : u64 a -> mib a w = (mib_outcome a, w).
Proof.
  unfold u64. intros Ha. unfold mib, mib_outcome, bind, mul_usize.
  destruct (Z.ltb_spec (a * 1024) u64_modulus) as [H1|H1].
  - cbn [ret]. replace (a * 1024 * 1024) with (a * 1048576) by lia.
    by destruct (_ <? _); [|destruct overflow_checks].
  - rewrite (proj2 (Z.ltb_ge (a * 1048576) _)) by lia.
    destruct overflow_checks; [done|]. cbn [ret].
    assert (wrap64 (wrap64 (a * 1024) * 1024) = wrap64 (a * 1048576)) as Heq.
    { unfold wrap64. rewrite Zmult_mod_idemp_l. f_equal. lia. }
    destruct (Z.ltb_spec (wrap64 (a * 1024) * 1024) u64_modulus) as [H2|H2].
    + unfold ret. do 2 f_equal. rewrite <- Heq. symmetry. apply wrap64_small.
      pose proof (wrap64_range (a * 1024)). unfold u64 in *. lia.
    + by rewrite Heq.
Qed.

(** The size in force for a variable: a valid override, or the default. *)
Definition size_in_force (w : World) (var : string) (dflt : Z) : Z :=
  default dflt (v ← w_env w !! var; s ← to_str v; parse_usize s).

Lemma size_in_force_u64 w var dflt : u64 dflt -> u64 (size_in_force w var dflt).
Proof.
  intros Hd. unfold size_in_force. destruct (w_env w !! var) as [[s|]|]; simpl; [|done..].
  destruct (parse_usize s) eqn:Hs; simpl; [by eapply parse_usize_bounds|done].
Qed.

Lemma default_db_options_eq w :
  default_db_options w =
    (match mib_outcome (size_in_force w ENV_VAR_DB_WRITE_BUFFER_SIZE DEFAULT_DB_WRITE_BUFFER_SIZE) with
     | Panicked e => Panicked e
     | Ret wb =>
         match mib_outcome (size_in_force w ENV_VAR_DB_WAL_SIZE DEFAULT_DB_WAL_SIZE) with
         | Panicked e => Panicked e
         | Ret wal =>
             Ret (mkDBOptions (set_max_total_wal_size wal
                                 (set_db_write_buffer_size wb options_default)))
         end
     end, w).
Proof.
  unfold default_db_options. unfold bind at 1. rewrite read_size_from_env_eq.
  change (default DEFAULT_DB_WRITE_BUFFER_SIZE _)
    with (size_in_force w ENV_VAR_DB_WRITE_BUFFER_SIZE DEFAULT_DB_WRITE_BUFFER_SIZE).
  set (a := size_in_force _ _ _).
  pose proof (mib_eq a w (size_in_force_u64 _ _ DEFAULT_DB_WRITE_BUFFER_SIZE ltac:(done))) as Ha.
  unfold mib, bind in Ha. unfold bind at 1.
  destruct (mul_usize a 1024 w) as [[x|e] w1]; [|by injection Ha as <- ->].
  unfold bind at 1. rewrite Ha. destruct (mib_outcome a) as [wb|e]; [|done].
  unfold bind at 1. rewrite read_size_from_env_eq.
  change (default DEFAULT_DB_WAL_SIZE _) with (size_in_force w ENV_VAR_DB_WAL_SIZE DEFAULT_DB_WAL_SIZE).
  set (b := size_in_force _ _ _).
  pose proof (mib_eq b w (size_in_force_u64 _ _ DEFAULT_DB_WAL_SIZE ltac:(done))) as Hb.
  unfold mib, bind in Hb. unfold bind at 1.
  destruct (mul_usize b 1024 w) as [[y|e] w2]; [|by injection Hb as <- ->].
  unfold bind at 1. rewrite Hb. by destruct (mib_outcome b).
Qed.

(** C33: the options in force.  Without (valid) overrides the write buffer is
    512 MiB and the log 1 GiB; an override of [n] MiB gives exactly
    [n * 2^20] bytes as long as that fits 64 bits; a larger one panics in a
    build with overflow checks and wraps around silently in one without. *)
Theorem default_db_options_sizes (w : World) :
  let wb := size_in_force w ENV_VAR_DB_WRITE_BUFFER_SIZE DEFAULT_DB_WRITE_BUFFER_SIZE in
  let wal := size_in_force w ENV_VAR_DB_WAL_SIZE DEFAULT_DB_WAL_SIZE in
  let opts x y := mkDBOptions (set_max_total_wal_size y (set_db_write_buffer_size x options_default)) in
  (wb < 2 ^ 44 /\ wal < 2 ^ 44 ->
     default_db_options w = (Ret (opts (wb * 2 ^ 20) (wal * 2 ^ 20)), w)) /\
  (2 ^ 44 <= wb \/ 2 ^ 44 <= wal ->
     if overflow_checks then exists e, default_db_options w = (Panicked e, w)
     else default_db_options w = (Ret (opts (wrap64 (wb * 2 ^ 20)) (wrap64 (wal * 2 ^ 20))), w)).
Proof.
  intros wb wal opts. rewrite default_db_options_eq. fold wb wal. unfold mib_outcome.
  assert (0 <= wb /\ 0 <= wal) as [Hwb0 Hwal0].
  { split; apply size_in_force_u64; done. }
  change (2 ^ 44) with 17592186044416. change (2 ^ 20) with 1048576.
  unfold wrap64. change u64_modulus with (17592186044416 * 1048576).
  destruct (Z.ltb_spec (wb * 1048576) (17592186044416 * 1048576)) as [H1|H1];
    destruct (Z.ltb_spec (wal * 1048576) (17592186044416 * 1048576)) as [H2|H2];
    (split; [intros [Ha Hb]; try lia; done|intros Hor; try lia]);
    destruct overflow_checks; eauto; unfold opts;
    try rewrite (Z.mod_small (wb * 1048576)) by lia;
    try rewrite (Z.mod_small (wal * 1048576)) by lia; done.
Qed.

End sizes.

(** ** Facts about opening *)

Section opening.
Context {PF : Platform}.

Lemma collect_map_foldl l (m : gmap string options) k o :
  NoDup l.*1 ->
  (foldl (fun (m : gmap string options) (kv : string * options) => <[kv.1 := kv.2]> m) m l !! k
     = Some o <->
   (k, o) ∈ l \/ ((k ∉ l.*1) /\ m !! k = Some o)).
Proof.
  revert m. induction l as [|[k' o'] l IH]; intros m Hnd; simpl.
  - set_solver.
  - apply NoDup_cons in Hnd as [Hk' Hnd]. rewrite IH by done.
    rewrite lookup_insert_Some, !elem_of_cons.
    assert ((k, o) ∈ l -> k ∈ l.*1) by (intros H; by apply (list_elem_of_fmap_2 fst) in H).
    simpl in Hk'. split.
    + intros [?|[? [[<- <-]|[? ?]]]]; [by auto|by auto|right; split; [|done]]. naive_solver.
    + intros [[[= -> ->]|?]|[Hni ?]]; [right; split; [done|by left]|by auto|right].
      split; [naive_solver|]. right. split; [naive_solver|done].
Qed.

Lemma collect_map_lookup l k o :
  NoDup l.*1 -> (collect_map l !! k = Some o <-> (k, o) ∈ l).
Proof.
  intros Hnd. unfold collect_map. rewrite collect_map_foldl by done.
  rewrite lookup_empty. naive_solver.
Qed.

Lemma add_missing_cfs_lookup dflt cfs m k o :
  add_missing_cfs dflt cfs m !! k = Some o <->
  m !! k = Some o \/ (m !! k = None /\ k ∈ cfs /\ o = dflt).
Proof.
  unfold add_missing_cfs. revert m. induction cfs as [|c cfs IH]; intros m; simpl.
  - set_solver.
  - rewrite IH, elem_of_cons. destruct (m !! c) as [oc|] eqn:Hc.
    + split; [naive_solver|]. intros [?|(Hk & [->|?] & ->)]; [by auto|congruence|by auto].
    + destruct (decide (c = k)) as [->|Hne].
      * rewrite lookup_insert_eq. naive_solver.
      * rewrite lookup_insert_ne by done. naive_solver.
Qed.

(** The descriptors [open_cf_opts] hands to RocksDB. *)
Lemma descriptors_spec dflt cfs (opt_cfs : list (string * options)) k o :
  NoDup opt_cfs.*1 ->
  ((k, o) ∈ map_to_list (add_missing_cfs dflt cfs (collect_map opt_cfs)) <->
   (k, o) ∈ opt_cfs \/ ((k ∉ opt_cfs.*1) /\ k ∈ cfs /\ o = dflt)).
Proof.
  intros Hnd. rewrite elem_of_map_to_list, add_missing_cfs_lookup, collect_map_lookup by done.
  assert (collect_map opt_cfs !! k = None <-> k ∉ opt_cfs.*1) as ->; [|done].
  rewrite eq_None_not_Some. unfold is_Some. setoid_rewrite collect_map_lookup; [|done].
  rewrite list_elem_of_fmap. split.
  - intros H ([k' o'] & -> & ?). apply H. eauto.
  - intros H [o' Ho]. apply H. by exists (k, o').
Qed.

(** Only the environment matters for the default options. *)
Lemma default_db_options_env w w' dflt :
  default_db_options w = (Ret dflt, w) -> w_env w' = w_env w ->
  default_db_options w' = (Ret dflt, w').
Proof.
  rewrite !default_db_options_eq. unfold size_in_force. intros H ->.
  apply (f_equal fst) in H. cbn [fst] in H. by rewrite H.
Qed.

(** What an open call leaves behind, from the answer of RocksDB. *)
Definition opened (w : World) (r : result db string * fs) : outcome (result arc TypedStoreError) * World :=
  match r with
  | (Ok d, fs') =>
      (Ret (Ok (w_next_arc w)),
       set_dbs (<[w_next_arc w := d]> (w_dbs w)) (set_next_arc (S (w_next_arc w)) (set_fs fs' w)))
  | (Err e, fs') => (Ret (Err (RocksDBError e)), set_fs fs' w)
  end.

(** The descriptors an open call computes, when the defaults can be. *)
Definition descriptors (o : options) (p : path) (opt_cfs : list (string * options)) (dflt : DBOptions)
    (w : World) : list (string * options) :=
  map_to_list (add_missing_cfs (db_opts dflt) (default [] (res_ok (list_cf o p (w_fs w))))
    (collect_map opt_cfs)).

Lemma open_cf_opts_eq p o opt_cfs w dflt :
  default_db_options w = (Ret dflt, w) ->
  open_cf_opts p (Some o) opt_cfs w =
    opened w (open_cf_descriptors (create_missing_column_families true (create_if_missing true o)) p
                (descriptors o p opt_cfs dflt w) (w_fs w)).
Proof.
  intros Hdflt. unfold open_cf_opts, unwrap_or_default_options, bind, ret, gets. rewrite Hdflt.
  unfold try_bind, bind, with_fs, new_db, new_arc, modify, ret, opened, descriptors; simpl.
  by destruct (open_cf_descriptors _ _ _ _) as [[d|e] fs'].
Qed.

(** C32: [open_cf_opts] opens every column family: the ones asked for, with
    their own options, and every other one the database already has, with the
    default options; none twice.  The directory and missing families are
    created; a RocksDB error is returned as such, and no handle is made. *)
Theorem open_cf_opts_covers (p : path) (o : options) (opt_cfs : list (string * options))
    (w : World) (dflt : DBOptions) :
  NoDup opt_cfs.*1 ->
  default_db_options w = (Ret dflt, w) ->
  exists descs,
    NoDup descs.*1 /\
    (forall name opt, (name, opt) ∈ descs <->
       (name, opt) ∈ opt_cfs \/
       ((name ∉ opt_cfs.*1) /\ name ∈ default [] (res_ok (list_cf o p (w_fs w))) /\
        opt = db_opts dflt)) /\
    open_cf_opts p (Some o) opt_cfs w =
      opened w (open_cf_descriptors
                  (create_missing_column_families true (create_if_missing true o)) p descs (w_fs w)).
Proof.
  intros Hnd Hdflt. exists (descriptors o p opt_cfs dflt w).
  split_and!; [apply NoDup_fst_map_to_list|intros; by apply descriptors_spec|].
  by apply open_cf_opts_eq.
Qed.

(** Opening as a secondary uses the same column families, never limits the
    number of open files, and places the secondary next to the primary (in the
    sibling [SECONDARY]) when no path is given. *)
Theorem open_cf_opts_secondary_covers (p : path) (q : option path) (o : options)
    (opt_cfs : list (string * options)) (w : World) (dflt : DBOptions) :
  NoDup opt_cfs.*1 ->
  default_db_options w = (Ret dflt, w) ->
  exists descs,
    NoDup descs.*1 /\
    (forall name opt, (name, opt) ∈ descs <->
       (name, opt) ∈ opt_cfs \/
       ((name ∉ opt_cfs.*1) /\
        name ∈ default [] (res_ok (list_cf (set_max_open_files (-1) o) p (w_fs w))) /\
        opt = db_opts dflt)) /\
    open_cf_opts_secondary p q (Some o) opt_cfs w =
      opened (emit_pure FdLimitRaised w)
        (open_cf_descriptors_as_secondary
           (create_missing_column_families true (create_if_missing true (set_max_open_files (-1) o)))
           p (default (path_push (path_pop p) "SECONDARY") q) descs (w_fs w)).
Proof.
  intros Hnd Hdflt.
  exists (map_to_list (add_missing_cfs (db_opts dflt)
    (default [] (res_ok (list_cf (set_max_open_files (-1) o) p (w_fs w)))) (collect_map opt_cfs))).
  split_and!; [apply NoDup_fst_map_to_list|intros; by apply descriptors_spec|].
  unfold open_cf_opts_secondary, unwrap_or_default_options, emit, modify, bind, ret, gets.
  rewrite (default_db_options_env _ (emit_pure FdLimitRaised w) _ Hdflt) by done.
  unfold try_bind, bind, with_fs, new_db, new_arc, modify, ret, opened; simpl.
  by destruct q; destruct (open_cf_descriptors_as_secondary _ _ _ _ _) as [[d|e] fs'].
Qed.

(** ** Facts about handles *)

(** What [DBMap::new] establishes and every method preserves: sampling never
    panics. *)
Definition DBMap_wf {K V} (self : DBMap K V) : Prop :=
  sampling_ok (read_sample_interval self) /\
  sampling_ok (write_sample_interval self) /\
  sampling_ok (iter_latency_sample_interval self) /\
  sampling_ok (iter_bytes_sample_interval self).

(** The state [DBMap::new] leaves: one metrics task and four sampling tasks,
    with fresh counters, and the database untouched. *)
Definition after_new (db : arc) (cf : string) (w : World) : World :=
  let n := w_next_arc w in
  let minute := from_secs 60 in
  set_tasks (w_tasks w ++ [CfMetricsTask db cf n; SamplingTask (1 + n)%nat 0 minute;
    SamplingTask (2 + n)%nat 0 minute; SamplingTask (3 + n)%nat 0 minute; SamplingTask (4 + n)%nat 0 minute])
  (set_counters (<[(4 + n)%nat := 1]> (<[(3 + n)%nat := 1]> (<[(2 + n)%nat := 1]>
      (<[(1 + n)%nat := 1]> (w_counters w)))))
  (set_next_arc (5 + n)%nat w)).

Definition dbmap_at {K V} (db : arc) (cf : string) (m : DBMetrics) (n : arc) : DBMap K V :=
  let interval c := mkSamplingInterval (from_secs 60) 0 c in
  mkDBMap db cf m (interval (1 + n)%nat) (interval (2 + n)%nat) (interval (4 + n)%nat)
    (interval (3 + n)%nat) n.

Lemma DBMap_new_eq {K V} db cf w m :
  w_once w = Some m ->
  DBMap_new (K:=K) (V:=V) db cf w = (Ret (dbmap_at db cf m (w_next_arc w)), after_new db cf w).
Proof.
  intros Hm. unfold DBMap_new, DBMetrics_get, bind, gets, ret. rewrite Hm.
  unfold after_new, dbmap_at, set_tasks, set_counters, set_next_arc; simpl.
  by rewrite <- !app_assoc.
Qed.

Lemma DBMap_reopen_eq {K V} (a : arc) (opt_cf : option string) (w : World) d m :
  w_dbs w !! a = Some d -> w_once w = Some m ->
  let cf_key := default DEFAULT_COLUMN_FAMILY_NAME opt_cf in
  DBMap_reopen (K:=K) (V:=V) a opt_cf w =
    if cf_handle d cf_key then (Ret (Ok (dbmap_at a cf_key m (w_next_arc w))), after_new a cf_key w)
    else (Ret (Err (UnregisteredColumn cf_key)), w).
Proof.
  intros Hd Hm cf_key. unfold DBMap_reopen, read_db, bind. fold cf_key. rewrite Hd.
  destruct (cf_handle d cf_key); [|done]. by rewrite (DBMap_new_eq _ _ _ m) by done.
Qed.

Lemma dbmap_at_wf {K V} a c m n : DBMap_wf (dbmap_at (K:=K) (V:=V) a c m n).
Proof. repeat split; by left. Qed.

(** [DBMap::reopen] checks the column family: an unknown one is reported by
    name, without starting any task or touching the database; a known one gives
    a handle on that database and family whose sampling cannot panic. *)
Theorem DBMap_reopen_spec {K V} (a : arc) (opt_cf : option string) (w : World) d m :
  w_dbs w !! a = Some d -> w_once w = Some m ->
  let cf_key := default DEFAULT_COLUMN_FAMILY_NAME opt_cf in
  if cf_handle d cf_key then
    exists (self : DBMap K V),
      DBMap_reopen a opt_cf w = (Ret (Ok self), after_new a cf_key w) /\
      rocksdb self = a /\ dbmap_cf self = cf_key /\ db_metrics self = m /\ DBMap_wf self
  else DBMap_reopen (K:=K) (V:=V) a opt_cf w = (Ret (Err (UnregisteredColumn cf_key)), w).
Proof.
  intros Hd Hm cf_key. rewrite (DBMap_reopen_eq a opt_cf w d m) by done. fold cf_key.
  destruct (cf_handle d cf_key); [|done]. eexists. split; [done|].
  split_and!; [done..|]. apply dbmap_at_wf.
Qed.

(** The maps of a tuple, with their databases and families. *)
Fixpoint handles_at {cfs} : handles cfs -> list (arc * string) :=
  match cfs with
  | [] => fun _ => []
  | _ :: _ => fun h => (rocksdb h.1, dbmap_cf h.1) :: handles_at h.2
  end.

(** [reopen!] opens a map over each family, in order, and panics with the name
    of the first that is not there. *)
Lemma reopen_spec (a : arc) (cfs : list typed_cf) d m : forall w,
  w_dbs w !! a = Some d -> w_once w = Some m ->
  match list_find (fun c => cf_handle d (tc_name c) = false) cfs with
  | None => exists h w', reopen a cfs w = (Ret h, w') /\
      handles_at h = map (fun c => (a, tc_name c)) cfs /\ w_dbs w' = w_dbs w
  | Some (_, c) => (reopen a cfs w).1 = Panicked ("Cannot open " +:+ tc_name c +:+ " CF.")
  end.
Proof.
  induction cfs as [|c cfs IH]; intros w Hd Hm; cbn [list_find reopen].
  - by exists tt, w.
  - unfold bind, unwrap, ret. rewrite (DBMap_reopen_eq a (Some (tc_name c)) w d m) by done.
    cbn [from_option]. unfold id. destruct (cf_handle d (tc_name c)) eqn:Hc; case_decide; try done.
    specialize (IH (after_new a (tc_name c) w) Hd Hm).
    assert (w_dbs (after_new a (tc_name c) w) = w_dbs w) as Hw1 by done.
    set (w1 := after_new a (tc_name c) w) in *. clearbody w1.
    destruct (list_find _ cfs) as [[i c']|]; simpl.
    + destruct (reopen a cfs w1) as [[h|msg] w']; simpl in IH |- *;
        congruence.
    + destruct IH as (h & w' & -> & Hh & Hw). eexists (_, h), w'. split; [done|].
      split; [|congruence]. simpl. by rewrite Hh.
Qed.

(** ** What a metrics report sets *)

(** The gauges of a column family with the properties they show. *)
Definition cf_gauges (m : ColumnFamilyMetrics) : list (MetricVec * cf_property) :=
  [(rocksdb_total_sst_files_size m, TOTAL_SST_FILES_SIZE);
   (rocksdb_size_all_mem_tables m, SIZE_ALL_MEM_TABLES);
   (rocksdb_num_snapshots m, NUM_SNAPSHOTS);
   (rocksdb_oldest_snapshot_time m, OLDEST_SNAPSHOT_TIME);
   (rocksdb_actual_delayed_write_rate m, ACTUAL_DELAYED_WRITE_RATE);
   (rocksdb_is_write_stopped m, IS_WRITE_STOPPED);
   (rocksdb_block_cache_capacity m, BLOCK_CACHE_CAPACITY);
   (rocksdb_block_cache_usage m, BLOCK_CACHE_USAGE);
   (rocksdb_block_cache_pinned_usage m, BLOCK_CACHE_PINNED_USAGE);
   (rocskdb_estimate_table_readers_mem m, ESTIMATE_TABLE_READERS_MEM);
   (rocksdb_estimated_num_keys m, ESTIMATE_NUM_KEYS);
   (rocksdb_mem_table_flush_pending m, MEM_TABLE_FLUSH_PENDING);
   (rocskdb_compaction_pending m, COMPACTION_PENDING);
   (rocskdb_num_running_compactions m, NUM_RUNNING_COMPACTIONS);
   (rocksdb_num_running_flushes m, NUM_RUNNING_FLUSHES);
   (rocksdb_estimate_oldest_key_time m, ESTIMATE_OLDEST_KEY_TIME);
   (rocskdb_background_errors m, BACKGROUND_ERRORS)].

(** An unknown property counts as 0, a failed read shows as -1. *)
Definition gauge_value (r : result (option Z) string) : Z :=
  match r with Ok (Some v) => v | Ok None => 0 | Err _ => METRICS_ERROR end.

Definition cf_events (d : db) (cf_name : string) (m : DBMetrics) : list event :=
  map (fun gp : MetricVec * cf_property =>
         GaugeSet gp.1 cf_name (gauge_value (property_int_value_cf d cf_name gp.2)))
    (cf_gauges (cf_metrics m)).

Definition mem_events (d : db) (m : DBMetrics) : list event :=
  let v f := match get_memory_usage_stats d with Ok x => as_i64 (f x) | Err _ => METRICS_ERROR end in
  [GaugeSet (rocksdb_mem_table_usage m) (db_name d) (v mem_table_total);
   GaugeSet (rocksdb_unflushed_mem_table_usage m) (db_name d) (v mem_table_unflushed);
   GaugeSet (rocksdb_table_readers_usage m) (db_name d) (v mem_table_readers_total)].

Lemma get_int_property_small d c p :
  (forall v, property_int_value_cf d c p = Ok (Some v) -> v <= i64_max) ->
  get_int_property d c p =
    Ret (match property_int_value_cf d c p with
         | Ok v => Ok (default 0 v) | Err e => Err (RocksDBError e) end).
Proof.
  unfold get_int_property. intros H.
  destruct (property_int_value_cf d c p) as [[v|]|]; [|done..].
  by rewrite (proj2 (Z.leb_le _ _) (H v eq_refl)).
Qed.

Lemma set_cf_gauge_bind {A} a c g p (k : unit -> M A) w t d :
  w_dbs w !! a = Some d ->
  (forall v, property_int_value_cf d c p = Ok (Some v) -> v <= i64_max) ->
  bind (set_cf_gauge a c g p) k (set_trace t w) =
    k tt (set_trace (t ++ [GaugeSet g c (gauge_value (property_int_value_cf d c p))]) w).
Proof.
  intros Hd Hp. unfold set_cf_gauge, bind, read_db. cbn [w_dbs set_trace].
  rewrite Hd, get_int_property_small by done.
  by destruct (property_int_value_cf d c p) as [[v|]|].
Qed.

Lemma set_cf_gauge_panics {A} a c g p (k : unit -> M A) w d v :
  w_dbs w !! a = Some d -> property_int_value_cf d c p = Ok (Some v) -> i64_max < v ->
  bind (set_cf_gauge a c g p) k w =
    (Panicked "called `Result::unwrap()` on an `Err` value: TryFromIntError(())", w).
Proof.
  intros Hd Hv Hbig. unfold set_cf_gauge, bind, read_db, get_int_property.
  rewrite Hd, Hv. by rewrite (proj2 (Z.leb_gt _ _) Hbig).
Qed.

Lemma set_trace_id w : set_trace (w_trace w) w = w.
Proof. by destruct w. Qed.

Lemma mem_gauges_eq a m w t d :
  w_dbs w !! a = Some d ->
  (name <- read_db a db_name ;;
   stats <- read_db a get_memory_usage_stats ;;
   set_mem_gauge name (rocksdb_mem_table_usage m) mem_table_total stats ;;
   set_mem_gauge name (rocksdb_unflushed_mem_table_usage m) mem_table_unflushed stats ;;
   set_mem_gauge name (rocksdb_table_readers_usage m) mem_table_readers_total stats)
    (set_trace t w) = (Ret tt, set_trace (t ++ mem_events d m) w).
Proof.
  intros Hd. unfold bind, read_db. cbn [w_dbs set_trace]. rewrite Hd. cbn [w_dbs set_trace].
  rewrite Hd. unfold set_mem_gauge, emit, modify, emit_pure, set_trace; cbn [w_trace].
  by rewrite <- !app_assoc.
Qed.

(** The gauges of the column family, one after the other, and then [k]. *)
Definition set_cf_gauges {A} (a : arc) (c : string) (l : list (MetricVec * cf_property)) (k : M A) : M A :=
  foldr (fun gp rest => set_cf_gauge a c gp.1 gp.2 ;; rest) k l.

Definition fits (d : db) (c : string) (gp : MetricVec * cf_property) : Prop :=
  forall v, property_int_value_cf d c gp.2 = Ok (Some v) -> v <= i64_max.

Definition gauge_events (d : db) (c : string) (l : list (MetricVec * cf_property)) : list event :=
  map (fun gp : MetricVec * cf_property =>
         GaugeSet gp.1 c (gauge_value (property_int_value_cf d c gp.2))) l.

Lemma set_cf_gauges_eq {A} a c l (k : M A) w d : w_dbs w !! a = Some d ->
  Forall (fits d c) l -> forall t,
  set_cf_gauges a c l k (set_trace t w) = k (set_trace (t ++ gauge_events d c l) w).
Proof.
  intros Hd Hl. induction Hl as [|gp l Hgp _ IH]; intros t; simpl; [by rewrite app_nil_r|].
  rewrite (set_cf_gauge_bind a c _ _ _ _ _ d) by done.
  etrans; [exact (IH _)|]. by rewrite <- app_assoc.
Qed.

Lemma set_cf_gauges_panics {A} a c l1 gp l2 (k : M A) w d v : w_dbs w !! a = Some d ->
  Forall (fits d c) l1 -> property_int_value_cf d c gp.2 = Ok (Some v) -> i64_max < v -> forall t,
  set_cf_gauges a c (l1 ++ gp :: l2) k (set_trace t w) =
    (Panicked "called `Result::unwrap()` on an `Err` value: TryFromIntError(())",
     set_trace (t ++ gauge_events d c l1) w).
Proof.
  intros Hd Hl Hv Hbig t. unfold set_cf_gauges. rewrite foldr_app.
  etrans; [exact (set_cf_gauges_eq a c l1 _ w d Hd Hl t)|]. simpl.
  by rewrite (set_cf_gauge_panics a c _ _ _ _ d v).
Qed.

(** C34: a metrics report sets every gauge of the column family to its property
    and the three memory gauges of the database, in order, as long as no
    property exceeds [i64::MAX]; a property RocksDB cannot read shows as -1.  The
    first property, in the order of the gauges, that does not fit an [i64] makes
    the report panic after the gauges before it, and no later one is set; the
    memory gauges come last and are cast, so that they wrap and never panic. *)
Theorem report_metrics_gauges (a : arc) (c : string) (m : DBMetrics) (w : World) (d : db) :
  w_dbs w !! a = Some d -> cf_handle d c = true ->
  ((forall p v, property_int_value_cf d c p = Ok (Some v) -> v <= i64_max) ->
   report_metrics a c m w =
     (Ret tt, set_trace (w_trace w ++ cf_events d c m ++ mem_events d m) w)) /\
  (forall i gp v, cf_gauges (cf_metrics m) !! i = Some gp ->
   property_int_value_cf d c gp.2 = Ok (Some v) -> i64_max < v ->
   Forall (fits d c) (take i (cf_gauges (cf_metrics m))) ->
   exists e, report_metrics a c m w =
     (Panicked e, set_trace (w_trace w ++ take i (cf_events d c m)) w)).
Proof.
  intros Hd Hcf.
  set (k := name <- read_db a db_name ;;
    stats <- read_db a get_memory_usage_stats ;;
    set_mem_gauge name (rocksdb_mem_table_usage m) mem_table_total stats ;;
    set_mem_gauge name (rocksdb_unflushed_mem_table_usage m) mem_table_unflushed stats ;;
    set_mem_gauge name (rocksdb_table_readers_usage m) mem_table_readers_total stats).
  assert (report_metrics a c m w =
    set_cf_gauges a c (cf_gauges (cf_metrics m)) k (set_trace (w_trace w) w)) as ->.
  { rewrite set_trace_id. unfold report_metrics. unfold bind at 1, read_db at 1.
    rewrite Hd, Hcf. reflexivity. }
  split.
  - intros Hp. rewrite (set_cf_gauges_eq a c _ k w d Hd).
    + unfold k. rewrite (mem_gauges_eq _ _ _ _ d) by done. by rewrite <- app_assoc.
    + apply Forall_forall. intros gp _ v. apply Hp.
  - intros i gp v Hi Hv Hbig Hfit.
    pose proof (set_cf_gauges_panics a c _ gp (drop (S i) (cf_gauges (cf_metrics m))) k w d v Hd
      Hfit Hv Hbig (w_trace w)) as Hp.
    rewrite take_drop_middle in Hp by done. rewrite Hp. eexists. do 2 f_equal.
    unfold gauge_events, cf_events. by rewrite firstn_map.
Qed.

End opening.
