(* ===== verification/MetricsTask.v ===== *)
(** * The life of a map's metrics task and of its database (typed-store/src/rocks/mod.rs)

    [DBMap::new] spawns a loop that reports the metrics of the column family at
    every tick and ends when the cancel handle, which all clones of the map
    share, is gone.  The task owns a clone of the database's [Arc], and a
    report that runs on a blocking thread another one.  The database is closed
    when its last owner is dropped. *)
From S2P Require Import Prelude Bytes Platform MetricsData World Sampling Metrics Errors Rocks.
Open Scope nat_scope.
Set Default Proof Using "Type*".

Section metrics_task.
Context {PF : Platform}.

(** Where the loop stands: at [tokio::select!], awaiting the blocking report, or
    past the loop. *)
Inductive metrics_task : Type := Selecting | Reporting | Returned.

(** A database and the map over one of its families: the [Arc]s of the database
    held elsewhere, the clones of the map, the task. *)
Record map_life : Type := mkMapLife {
  ml_world : World;
  ml_arcs : nat;
  ml_clones : nat;
  ml_task : metrics_task;
}.

Definition task_owns (t : metrics_task) : nat :=
  match t with Selecting => 1 | Reporting => 2 | Returned => 0 end.

(** The strong count of the database's [Arc]. *)
Definition owners (l : map_life) : nat := ml_arcs l + ml_clones l + task_owns (ml_task l).

(** The last owner closes the database. *)
Definition settle (a : arc) (l : map_life) : map_life :=
  if owners l =? 0
  then mkMapLife (set_dbs (delete a (w_dbs (ml_world l))) (ml_world l)) 0 0 Returned
  else l.

(** [interval.tick()] is ready and chosen: a report starts. *)
Definition on_tick (l : map_life) : map_life :=
  mkMapLife (ml_world l) (ml_arcs l) (ml_clones l) Reporting.

(** [report_metrics] on its blocking thread; a panic of it is only logged. *)
Definition on_report (a : arc) (cf : string) (m : DBMetrics) (l : map_life) : map_life :=
  mkMapLife (report_metrics a cf m (ml_world l)).2 (ml_arcs l) (ml_clones l) Selecting.

(** [_ = &mut recv => break]. *)
Definition on_cancel (a : arc) (l : map_life) : map_life :=
  settle a (mkMapLife (ml_world l) (ml_arcs l) (ml_clones l) Returned).

(** The moves of the task. *)
Inductive metrics_step (a : arc) (cf : string) (m : DBMetrics) (l : map_life) : map_life -> Prop :=
| metrics_tick : ml_task l = Selecting -> metrics_step a cf m l (on_tick l)
| metrics_report : ml_task l = Reporting -> metrics_step a cf m l (on_report a cf m l)
| metrics_cancel :
    ml_task l = Selecting -> ml_clones l = 0 -> metrics_step a cf m l (on_cancel a l).

(** What owners do: clone and drop the [Arc] and the map, and use the database,
    which may change anything but closes nothing. *)
Inductive owner_step (a : arc) : map_life -> map_life -> Prop :=
| owner_clone_arc w n c t :
    0 < n + c -> owner_step a (mkMapLife w n c t) (mkMapLife w (S n) c t)
| owner_drop_arc w n c t :
    owner_step a (mkMapLife w (S n) c t) (settle a (mkMapLife w n c t))
| owner_clone_map w n c t :
    0 < c -> owner_step a (mkMapLife w n c t) (mkMapLife w n (S c) t)
| owner_drop_map w n c t :
    owner_step a (mkMapLife w n (S c) t) (settle a (mkMapLife w n c t))
| owner_use w w' n c t :
    0 < n + c -> is_Some (w_dbs w' !! a) ->
    owner_step a (mkMapLife w n c t) (mkMapLife w' n c t).

Definition life_move (a : arc) (cf : string) (m : DBMetrics) (l l' : map_life) : Prop :=
  owner_step a l l' \/ metrics_step a cf m l l'.

(** The map as [DBMap::new] makes it from an [Arc] of an open database. *)
Definition map_started (w : World) (n : nat) : map_life := mkMapLife w n 1 Selecting.

(** ** Its invariant *)

Definition map_life_ok (a : arc) (l : map_life) : Prop :=
  (0 < owners l <-> is_Some (w_dbs (ml_world l) !! a)) /\
  (ml_task l = Returned -> ml_clones l = 0).

Lemma settle_ok a w n c t :
  is_Some (w_dbs w !! a) -> (t = Returned -> c = 0) -> map_life_ok a (settle a (mkMapLife w n c t)).
Proof.
  intros Hw Ht. unfold settle. destruct (Nat.eqb_spec (owners (mkMapLife w n c t)) 0) as [H0|H0].
  - split; [|done]. simpl. rewrite lookup_delete_eq. unfold owners; simpl.
    split; [lia|]. by intros [].
  - split; [|done]. split; [done|]. intros _. lia.
Qed.

(** A report leaves every database where it is. *)
Lemma set_cf_gauge_dbs a c g p w : w_dbs (set_cf_gauge a c g p w).2 = w_dbs w.
Proof.
  unfold set_cf_gauge, bind, read_db. destruct (w_dbs w !! a) as [d|]; [|done].
  by destruct (get_int_property d c p) as [[v|e]|msg].
Qed.

(** [keeps_dbs m]: whatever [m] does, the databases are the same after it. *)
Definition keeps_dbs {A} (m : M A) : Prop := forall w, w_dbs (m w).2 = w_dbs w.

Lemma keeps_bind {A B} (m : M A) (k : A -> M B) :
  keeps_dbs m -> (forall x, keeps_dbs (k x)) -> keeps_dbs (bind m k).
Proof.
  intros Hm Hk w. unfold bind. specialize (Hm w). destruct (m w) as [[x|msg] w1]; [|done].
  simpl in Hm. rewrite <- Hm. apply Hk.
Qed.

Lemma keeps_read {A} a (f : db -> A) : keeps_dbs (read_db a f).
Proof. intros w. unfold read_db. by destruct (w_dbs w !! a). Qed.

Lemma report_keeps a cf m : keeps_dbs (report_metrics a cf m).
Proof.
  unfold report_metrics. apply keeps_bind; [apply keeps_read|]. intros found.
  apply keeps_bind; [by destruct found|]. intros _.
  do 17 (apply keeps_bind; [intros w; apply set_cf_gauge_dbs|intros _]).
  apply keeps_bind; [apply keeps_read|]. intros name.
  apply keeps_bind; [apply keeps_read|]. intros stats.
  repeat (apply keeps_bind; [done|intros _]). done.
Qed.

Lemma life_move_ok a cf m l l' : map_life_ok a l -> life_move a cf m l l' -> map_life_ok a l'.
Proof.
  intros [Ho Hr] [Hs|Hs].
  - destruct Hs as [w n c t Hn|w n c t|w n c t Hc|w n c t|w w' n c t Hn Hw]; unfold owners in Ho; simpl in *.
    + split; [|done]. unfold owners; simpl. rewrite <- Ho. lia.
    + apply settle_ok; [apply Ho; lia|done].
    + split; [unfold owners; simpl; rewrite <- Ho; lia|]. simpl. intros ->. specialize (Hr eq_refl). lia.
    + apply settle_ok; [apply Ho; lia|]. intros ->. specialize (Hr eq_refl). lia.
    + split; [|done]. unfold owners; simpl. split; [done|lia].
  - unfold owners in Ho. destruct l as [w n c t]. simpl in *.
    destruct Hs as [Ht|Ht|Ht Hc]; simpl in Ht; subst t; simpl in Ho.
    + split; [|done]. unfold owners; simpl. rewrite <- Ho. lia.
    + split; [|done]. unfold owners; simpl. rewrite report_keeps, <- Ho. lia.
    + simpl in Hc. subst c. apply settle_ok; [apply Ho; simpl; lia|done].
Qed.

Lemma life_moves_ok a cf m w n l :
  is_Some (w_dbs w !! a) -> rtc (life_move a cf m) (map_started w n) l -> map_life_ok a l.
Proof.
  intros Hw. revert l. apply (rtc_ind_r (map_life_ok a)).
  - split; [|done]. split; [done|]. unfold owners; simpl. lia.
  - intros l l' _ Hs IH. by eapply life_move_ok.
Qed.

(** C11: the metrics task lives as long as its map and no longer.  However owners
    clone, use and drop the map and the database while the task ticks and
    reports: the database is open exactly as long as somebody owns it; while a
    clone of the map is left its task has not returned and the database is open,
    so that the family's metrics go on being reported; once the last clone is
    dropped the task can return within two of its steps, whatever a report did,
    and if nobody else owns the database it is closed then. *)
Theorem metrics_task_life (a : arc) (cf : string) (m : DBMetrics) (w : World) (n : nat) (l : map_life) :
  is_Some (w_dbs w !! a) -> rtc (life_move a cf m) (map_started w n) l ->
  (0 < owners l <-> is_Some (w_dbs (ml_world l) !! a)) /\
  (0 < ml_clones l -> ml_task l <> Returned /\ is_Some (w_dbs (ml_world l) !! a) /\
     exists l', metrics_step a cf m l l' /\ ml_task l' <> Returned) /\
  (ml_clones l = 0 -> exists k l', k <= 2 /\ nsteps (metrics_step a cf m) k l l' /\
     ml_task l' = Returned /\ ml_arcs l' = ml_arcs l /\
     (w_dbs (ml_world l') !! a = None <-> ml_arcs l = 0)).
Proof.
  intros Hw Hl. destruct (life_moves_ok a cf m w n l Hw Hl) as [Ho Hr]. split; [done|]. split.
  - intros Hc. assert (ml_task l <> Returned) as Ht by (intros Ht; specialize (Hr Ht); lia).
    split_and!; [done|apply Ho; unfold owners; lia|]. destruct (ml_task l) eqn:Htl; [| |done].
    + exists (on_tick l). split; [by apply metrics_tick|done].
    + exists (on_report a cf m l). split; [by apply metrics_report|done].
  - intros Hc.
    assert (forall l1, map_life_ok a l1 -> ml_task l1 = Selecting -> ml_clones l1 = 0 ->
      metrics_step a cf m l1 (on_cancel a l1) /\ ml_task (on_cancel a l1) = Returned /\
      ml_arcs (on_cancel a l1) = ml_arcs l1 /\
      (w_dbs (ml_world (on_cancel a l1)) !! a = None <-> ml_arcs l1 = 0)) as Hcancel.
    { intros [w1 n1 c1 t1] [Ho1 _] Ht1 Hc1. simpl in *. subst t1 c1.
      split; [by apply metrics_cancel|]. unfold on_cancel, settle, owners in *; simpl in *.
      destruct (Nat.eqb_spec (n1 + 0 + 0) 0) as [H0|H0]; simpl.
      - rewrite lookup_delete_eq. split_and!; [done|lia|]. split; [lia|done].
      - split_and!; [done..|]. split; [|lia].
        intros Hnone. destruct (proj1 Ho1 ltac:(lia)) as [x Hx]. congruence. }
    destruct (ml_task l) eqn:Ht.
    + destruct (Hcancel l) as (Hs & H1 & H2 & H3); [by split; rewrite ?Ht|done|done|].
      exists 1, (on_cancel a l). split_and!; [lia|by apply nsteps_once|done..].
    + assert (map_life_ok a (on_report a cf m l)) as Hok.
      { eapply life_move_ok; [split; [exact Ho|by rewrite Ht]|]. right. by apply metrics_report. }
      destruct (Hcancel _ Hok eq_refl Hc) as (Hs & H1 & H2 & H3).
      exists 2, (on_cancel a (on_report a cf m l)). split_and!; [lia| |done..].
      eapply nsteps_l; [by apply metrics_report|]. by apply nsteps_once.
    + exists 0, l. split_and!; [lia|constructor|done|done|].
      unfold owners in Ho. rewrite Ht, Hc in Ho. simpl in Ho. split.
      * intros Hnone. destruct (ml_arcs l); [done|].
        destruct (proj1 Ho ltac:(lia)) as [x Hx]. congruence.
      * intros H0. apply eq_None_not_Some. intros Hs. apply Ho in Hs. lia.
Qed.

End metrics_task.
