(* ===== verification/RocksIter.v ===== *)
(** * Iterators over a column family (typed-store/src/rocks/{iter,keys,values}.rs)

    The typed wrappers of RocksDB's raw cursor, and what a loop over them
    yields: [pending] is the list of raw entries an iterator has before it,
    [decode_prefix] what the typed loop makes of it. *)
From stdpp Require Import sorting.
From S2P Require Import Prelude Bytes Platform MetricsData World Sampling Metrics Errors Rocks.

Open Scope nat_scope.

Inductive Direction : Type := Forward | Reverse.

Section iterators.
Context {PF : Platform}.

(** ** iter.rs *)

Record Iter (K V : Type) : Type := mkIter {
  db_iter : raw_iter;
  direction : Direction;
  iter_cf : string;
  iter_db_metrics : DBMetrics;
  iter_bytes_interval : SamplingInterval;
}.

Record RevIter (K V : Type) : Type := mkRevIter { rev_inner : Iter K V }.

(** keys.rs and values.rs *)
Record Keys (K : Type) : Type := mkKeys { keys_db_iter : raw_iter }.
Record Values (V : Type) : Type := mkValues { values_db_iter : raw_iter }.

End iterators.
Arguments mkIter {PF K V}.
Arguments db_iter {PF K V}.
Arguments direction {PF K V}.
Arguments iter_cf {PF K V}.
Arguments iter_db_metrics {PF K V}.
Arguments iter_bytes_interval {PF K V}.
Arguments mkRevIter {PF K V}.
Arguments rev_inner {PF K V}.
Arguments mkKeys {PF K}.
Arguments keys_db_iter {PF K}.
Arguments mkValues {PF V}.
Arguments values_db_iter {PF V}.

Section operations.
Context {PF : Platform} {K V : Type} `{!Serde K, !Serde V}.

Definition Iter_new (db_iter : raw_iter) (cf : string) (db_metrics : DBMetrics)
    (iter_bytes_sample_interval : SamplingInterval) : Iter K V :=
  mkIter db_iter Forward cf db_metrics iter_bytes_sample_interval.

Definition with_db_iter (self : Iter K V) (it : raw_iter) : Iter K V :=
  mkIter it (direction self) (iter_cf self) (iter_db_metrics self) (iter_bytes_interval self).

(** [next(&mut self)]: the item and the iterator after the call. *)
Definition Iter_next (self : Iter K V) : M (option (K * V) * Iter K V) :=
  if raw_valid (db_iter self) then
    raw_key <- expect "Valid iterator failed to get key" (raw_key (db_iter self)) ;;
    raw_value <- expect "Valid iterator failed to get value" (raw_value (db_iter self)) ;;
    let key := res_ok (de_key (T:=K) raw_key) in
    let value := res_ok (de_val (T:=V) raw_value) in
    sampled <- sample (iter_bytes_interval self) ;;
    when sampled
      (emit (Observed (rocksdb_iter_bytes (op_metrics (iter_db_metrics self))) (iter_cf self)
         (f64_of_Z (Z.of_nat (length raw_key + length raw_value))))) ;;
    let it :=
      match direction self with
      | Forward => raw_next (db_iter self)
      | Reverse => raw_prev (db_iter self)
      end in
    ret (k ← key; (fun v => (k, v)) <$> value, with_db_iter self it)
  else ret (None, self).

Definition Iter_skip_to (self : Iter K V) (key : K) : result (Iter K V) TypedStoreError :=
  map_ok (fun b => with_db_iter self (seek b (db_iter self))) (be_fix_int_ser key).

Definition Iter_skip_prior_to (self : Iter K V) (key : K) : result (Iter K V) TypedStoreError :=
  map_ok (fun b => with_db_iter self (seek_for_prev b (db_iter self))) (be_fix_int_ser key).

Definition Iter_skip_to_last (self : Iter K V) : Iter K V :=
  with_db_iter self (seek_to_last (db_iter self)).

Definition Iter_reverse (self : Iter K V) : RevIter K V :=
  mkRevIter (mkIter (db_iter self) Reverse (iter_cf self) (iter_db_metrics self)
    (iter_bytes_interval self)).

Definition RevIter_next (self : RevIter K V) : M (option (K * V) * RevIter K V) :=
  r <- Iter_next (rev_inner self) ;;
  ret (r.1, mkRevIter r.2).

(** ** keys.rs *)

Definition Keys_new (db_iter : raw_iter) : Keys K := mkKeys db_iter.

Definition Keys_next (self : Keys K) : M (option K * Keys K) :=
  if raw_valid (keys_db_iter self) then
    let key := k ← raw_key (keys_db_iter self); res_ok (de_key (T:=K) k) in
    ret (key, mkKeys (raw_next (keys_db_iter self)))
  else ret (None, self).

Definition Keys_skip_to (self : Keys K) (key : K) : result (Keys K) TypedStoreError :=
  map_ok (fun b => mkKeys (seek b (keys_db_iter self))) (be_fix_int_ser key).

Definition Keys_skip_prior_to (self : Keys K) (key : K) : result (Keys K) TypedStoreError :=
  map_ok (fun b => mkKeys (seek_for_prev b (keys_db_iter self))) (be_fix_int_ser key).

Definition Keys_skip_to_last (self : Keys K) : Keys K :=
  mkKeys (seek_to_last (keys_db_iter self)).

(** ** values.rs *)

Definition Values_new (db_iter : raw_iter) : Values V := mkValues db_iter.

Definition Values_next (self : Values V) : M (option V * Values V) :=
  if raw_valid (values_db_iter self) then
    let value :=
      _ ← raw_key (values_db_iter self);
      v ← raw_value (values_db_iter self); res_ok (de_val (T:=V) v) in
    ret (value, mkValues (raw_next (values_db_iter self)))
  else ret (None, self).

End operations.

(** ** Loops over an iterator *)

(** The decoded entries before the first one that does not decode. *)
Fixpoint decode_prefix {A} (dec : entry -> option A) (l : list entry) : list A :=
  match l with
  | [] => []
  | e :: l' => match dec e with Some a => a :: decode_prefix dec l' | None => [] end
  end.

Lemma decode_prefix_all {A} (dec : entry -> option A) l ys :
  Forall2 (fun e a => dec e = Some a) l ys -> decode_prefix dec l = ys.
Proof. induction 1 as [|e a l ys He _ IH]; simpl; [done|]. by rewrite He, IH. Qed.

Lemma decode_prefix_stop {A} (dec : entry -> option A) l1 e l2 :
  dec e = None -> decode_prefix dec (l1 ++ e :: l2) = decode_prefix dec l1.
Proof.
  intros He. induction l1 as [|x l1 IH]; simpl; [by rewrite He|].
  destruct (dec x); [by rewrite IH|done].
Qed.

Section loops.
Context {PF : Platform} {I A : Type} (next : I -> M (option A * I)) (dec : entry -> option A).
Context (pend : I -> list entry) (ok : I -> Prop).

(** One call of [next] takes the first pending entry. *)
Definition steps_through : Prop :=
  forall it w, ok it ->
    wp (next it) (fun o w' => same_store w w' /\
      match pend it with
      | [] => exists it', o = Ret (None, it')
      | e :: rest => exists it', o = Ret (dec e, it') /\ ok it' /\ pend it' = rest
      end) w.

(** However much fuel it has, a loop changes nothing. *)
Lemma drain_same : steps_through -> forall fuel it w,
  ok it -> wp (drain next fuel it) (fun _ w' => same_store w w') w.
Proof.
  intros Hnext. induction fuel as [|fuel IH]; intros it w Hok; cbn [drain]; [by apply wp_ret|].
  apply wp_bind. eapply wp_mono; [by apply Hnext|].
  intros o w1 [Hs Ho]. destruct (pend it) as [|e rest].
  - destruct Ho as [it' ->]. by apply wp_ret.
  - destruct Ho as (it' & -> & Hok' & _). destruct (dec e) as [a|]; [|by apply wp_ret].
    apply wp_bind. eapply wp_mono; [by apply IH|]. intros o w2 Hs'.
    destruct o; [apply wp_ret|]; by etrans.
Qed.

Lemma drain_spec : steps_through -> forall fuel it w,
  ok it -> length (pend it) < fuel ->
  wp (drain next fuel it) (fun o w' =>
    same_store w w' /\ o = Ret (Some (decode_prefix dec (pend it)))) w.
Proof.
  intros Hnext. induction fuel as [|fuel IH]; intros it w Hok Hlen; [lia|].
  cbn [drain]. apply wp_bind. eapply wp_mono; [by apply Hnext|].
  intros o w1 [Hs Ho]. destruct (pend it) as [|e rest].
  - destruct Ho as [it' ->]. by apply wp_ret.
  - destruct Ho as (it' & -> & Hok' & Hpend). simpl in *.
    destruct (dec e) as [a|]; [|by apply wp_ret].
    apply wp_bind. eapply wp_mono; [apply IH; [done|]; rewrite Hpend; lia|].
    intros o w2 [Hs' ->]. apply wp_ret. rewrite Hpend. split; [by etrans|done].
Qed.

End loops.

(** ** Pending entries *)

Section pending.
Context {PF : Platform} {RL : RocksLaws}.

Definition cursor_ok (c : cursor) : Prop :=
  match c.2 with Some i => (i < length c.1)%nat | None => True end.

(** What is before a cursor, in each direction. *)
Definition pending (dir : Direction) (c : cursor) : list entry :=
  match c.2, dir with
  | None, _ => []
  | Some i, Forward => drop i c.1
  | Some i, Reverse => reverse (take (S i) c.1)
  end.

Definition advance (dir : Direction) (it : raw_iter) : raw_iter :=
  match dir with Forward => raw_next it | Reverse => raw_prev it end.

Lemma valid_pos_ok l i : cursor_ok (l, valid_pos l i).
Proof. unfold cursor_ok, valid_pos; simpl. by destruct (decide _). Qed.

Lemma valid_pos_pending l i : pending Forward (l, valid_pos l i) = drop i l.
Proof.
  unfold pending, valid_pos; simpl. destruct (decide _); [done|].
  by rewrite drop_ge by lia.
Qed.

(** A cursor that is not valid has nothing pending; a valid one is on the
    first pending entry, and a move leaves the rest. *)
Lemma pending_nil dir it :
  cursor_ok (iter_cursor it) -> pending dir (iter_cursor it) = [] -> raw_valid it = false.
Proof.
  rewrite raw_valid_spec. unfold cursor_ok, pending. destruct (iter_cursor it) as [l [i|]]; simpl.
  - intros Hi. destruct dir; intros H; apply (f_equal length) in H.
    + rewrite length_drop in H. cbn [length] in H. lia.
    + rewrite length_reverse, length_take in H. cbn [length] in H. lia.
  - done.
Qed.

Lemma pending_cons dir it e rest :
  cursor_ok (iter_cursor it) -> pending dir (iter_cursor it) = e :: rest ->
  raw_valid it = true /\ raw_key it = Some e.1 /\ raw_value it = Some e.2 /\
  cursor_ok (iter_cursor (advance dir it)) /\
  pending dir (iter_cursor (advance dir it)) = rest.
Proof.
  rewrite raw_valid_spec, raw_key_spec, raw_value_spec.
  pose proof (raw_next_spec it) as Hnext. pose proof (raw_prev_spec it) as Hprev.
  unfold advance. destruct (iter_cursor it) as [l [i|]] eqn:Hc; simpl in *; [|done].
  intros Hi Hp. unfold pending in Hp; simpl in Hp.
  assert (l !! i = Some e) as He.
  { destruct dir.
    - rewrite <- (Nat.add_0_r i), <- lookup_drop, Hp. done.
    - destruct (lookup_lt_is_Some_2 l i Hi) as [x Hx].
      rewrite (take_S_r _ _ x), reverse_app in Hp by done. simpl in Hp. congruence. }
  rewrite He; simpl. split_and!; [done..| |].
  - destruct dir; [rewrite (Hnext i) by done; apply valid_pos_ok|].
    rewrite (Hprev i) by done. destruct i; simpl; [done|]. unfold cursor_ok in *; simpl in *; lia.
  - destruct dir.
    + rewrite (Hnext i), valid_pos_pending by done.
      rewrite (drop_S l e i) in Hp by done. by injection Hp.
    + rewrite (Hprev i) by done.
      rewrite (take_S_r _ _ e), reverse_app in Hp by done. injection Hp as Hp.
      by destruct i as [|i].
Qed.

End pending.

Section steps.
Context {PF : Platform} {RL : RocksLaws} {K V : Type} `{!Serde K, !Serde V}.

Definition decode_entry (e : entry) : option (K * V) :=
  k ← res_ok (de_key e.1); (fun v => (k, v)) <$> res_ok (de_val e.2).

Definition Iter_ok (self : Iter K V) : Prop :=
  cursor_ok (iter_cursor (db_iter self)) /\ sampling_ok (iter_bytes_interval self).

Definition Iter_pending (self : Iter K V) : list entry :=
  pending (direction self) (iter_cursor (db_iter self)).

Lemma Iter_steps : steps_through (Iter_next (K:=K) (V:=V)) decode_entry Iter_pending Iter_ok.
Proof.
  intros it w [Hc Hs]. unfold Iter_pending, Iter_next.
  destruct (pending _ _) as [|e rest] eqn:Hp.
  - rewrite (pending_nil _ _ Hc Hp). apply wp_ret. split; [done|by eexists].
  - destruct (pending_cons _ _ _ _ Hc Hp) as (-> & -> & -> & Hc' & Hp'). cbn [expect].
    do 2 (apply wp_bind, wp_ret). apply wp_bind, wp_quiet; [by apply sample_quiet|].
    intros b w1 H1. apply wp_bind, wp_quiet; [destruct b; solve_quiet|].
    intros ? w2 H2. apply wp_ret. split; [by etrans|].
    eexists. split; [done|]. unfold Iter_ok, Iter_pending, with_db_iter; cbn.
    by destruct (direction it).
Qed.

Lemma RevIter_steps :
  steps_through (RevIter_next (K:=K) (V:=V)) decode_entry
    (fun it => Iter_pending (rev_inner it)) (fun it => Iter_ok (rev_inner it)).
Proof.
  intros it w Hok. unfold RevIter_next. apply wp_bind.
  eapply wp_mono; [by apply Iter_steps|]. intros o w1 [Hs Ho]. cbn.
  destruct (Iter_pending (rev_inner it)).
  - destruct Ho as [it' ->]. apply wp_ret. split; [done|]. by eexists.
  - destruct Ho as (it' & -> & Hok' & Hp'). apply wp_ret. split; [done|].
    by exists (mkRevIter it').
Qed.

Definition decode_key (e : entry) : option K := res_ok (de_key e.1).
Definition decode_val (e : entry) : option V := res_ok (de_val e.2).

Lemma Keys_steps :
  steps_through (Keys_next (K:=K)) decode_key
    (fun it => pending Forward (iter_cursor (keys_db_iter it)))
    (fun it => cursor_ok (iter_cursor (keys_db_iter it))).
Proof.
  intros it w Hc. unfold Keys_next. destruct (pending _ _) as [|e rest] eqn:Hp.
  - rewrite (pending_nil _ _ Hc Hp). apply wp_ret. split; [done|by eexists].
  - destruct (pending_cons _ _ _ _ Hc Hp) as (-> & -> & _ & Hc' & Hp').
    apply wp_ret. split; [done|]. by eexists.
Qed.

Lemma Values_steps :
  steps_through (Values_next (V:=V)) decode_val
    (fun it => pending Forward (iter_cursor (values_db_iter it)))
    (fun it => cursor_ok (iter_cursor (values_db_iter it))).
Proof.
  intros it w Hc. unfold Values_next. destruct (pending _ _) as [|e rest] eqn:Hp.
  - rewrite (pending_nil _ _ Hc Hp). apply wp_ret. split; [done|by eexists].
  - destruct (pending_cons _ _ _ _ Hc Hp) as (-> & -> & -> & Hc' & Hp').
    apply wp_ret. split; [done|]. by eexists.
Qed.

(** ** Where the seeks lead *)

Lemma seek_to_first_cursor it :
  let c := iter_cursor (seek_to_first it) in
  cursor_ok c /\ c.1 = (iter_cursor it).1 /\ pending Forward c = (iter_cursor it).1.
Proof.
  cbn zeta. rewrite seek_to_first_spec. split_and!; [apply valid_pos_ok|done|].
  by rewrite valid_pos_pending.
Qed.

(** Right after [seek_to_first] only the first entry is behind the cursor. *)
Lemma seek_to_first_reverse it :
  pending Reverse (iter_cursor (seek_to_first it)) = take 1 (iter_cursor it).1.
Proof.
  rewrite seek_to_first_spec. unfold pending, valid_pos; simpl.
  destruct (iter_cursor it) as [[|e l] p]; simpl; [done|].
  done.
Qed.

Lemma seek_to_last_cursor it :
  let c := iter_cursor (seek_to_last it) in
  cursor_ok c /\ c.1 = (iter_cursor it).1 /\ pending Reverse c = reverse (iter_cursor it).1.
Proof.
  cbn zeta. rewrite seek_to_last_spec. destruct (iter_cursor it) as [l p]; simpl.
  destruct l as [|e l]; simpl; [done|]. unfold cursor_ok, pending; simpl.
  split_and!; [lia|done|]. by rewrite firstn_all.
Qed.

Lemma seek_cursor b it :
  StronglySorted entry_lt (iter_cursor it).1 ->
  let c := iter_cursor (seek b it) in
  cursor_ok c /\ c.1 = (iter_cursor it).1 /\ pending Forward c = at_least b (iter_cursor it).1.
Proof.
  intros Hs. cbn zeta. rewrite seek_spec. split_and!; [apply valid_pos_ok|done|].
  by rewrite valid_pos_pending, drop_first_ge.
Qed.

(** Entries up to a key, and where the last of them is. *)
Definition at_most (b : bytes) (l : list entry) : list entry :=
  filter (fun x : entry => bytes_le x.1 b) l.

Lemma at_most_prefix b l :
  StronglySorted entry_lt l -> take (length (at_most b l)) l = at_most b l.
Proof.
  unfold at_most. induction 1 as [|x l Hs IH Hall]; [done|].
  rewrite filter_cons. destruct (decide (bytes_le x.1 b)) as [Hle|Hgt]; simpl; [by rewrite IH|].
  rewrite list_filter_none; [done|]. rewrite Forall_forall in Hall.
  apply Forall_forall. intros y Hy Hle. apply Hgt. transitivity y.1; [|done].
  apply bytes_le_lteq. left. by apply Hall.
Qed.

Lemma seek_for_prev_cursor b it :
  StronglySorted entry_lt (iter_cursor it).1 ->
  let c := iter_cursor (seek_for_prev b it) in
  cursor_ok c /\ c.1 = (iter_cursor it).1 /\
  pending Reverse c = reverse (at_most b (iter_cursor it).1).
Proof.
  intros Hs. cbn zeta. rewrite seek_for_prev_spec. fold (at_most b (iter_cursor it).1).
  pose proof (at_most_prefix b _ Hs) as Hp. destruct (iter_cursor it) as [l p]; simpl in *.
  destruct (length (at_most b l)) as [|n] eqn:Hn; unfold cursor_ok, pending; simpl.
  - by apply nil_length_inv in Hn as ->.
  - split_and!; [|done|by rewrite Hp].
    pose proof (length_filter (fun x : entry => bytes_le x.1 b) l).
    unfold at_most in Hn. lia.
Qed.

End steps.
