(* ===== verification/RocksMap.v ===== *)
(** * Maps and batches over RocksDB (typed-store/src/rocks/mod.rs, second part)

    [DBBatch], and the [Map] and [TryExtend] implementations of [DBMap], with
    their sampling, timers and perf reports as in the code. *)
From S2P Require Import Prelude Bytes Platform MetricsData World Sampling Metrics Errors Traits Rocks RocksIter.
Open Scope nat_scope.

Section guards.
Context {PF : Platform}.

(** The opening of an instrumented method: when the interval samples this
    call, start the timer and the perf context.  [report_metrics] is [Some]
    exactly when the result is true. *)
Definition start_guard (s : SamplingInterval) (h : MetricVec) (label : string) : M bool :=
  sampled <- sample s ;;
  when sampled (emit (TimerStarted h label) ;; RocksDBPerfContext_default) ;;
  ret sampled.

(** Dropping [report_metrics], a tuple of the timer and the perf context. *)
Definition drop_guard (sampled : bool) (h : MetricVec) (label : string) (w : World) : World :=
  if sampled then RocksDBPerfContext_drop (emit_pure (TimerObserved h label) w) else w.

(** Calls on the database, with [?]'s conversion of the error. *)
Definition rocks_read {A} (a : arc) (f : db -> result A string) : M (result A TypedStoreError) :=
  r <- read_db a f ;; ret (map_err from_rocks_error r).

Definition rocks_write {A} (a : arc) (f : db -> result A string * db) : M (result A TypedStoreError) :=
  r <- with_db a f ;; ret (map_err from_rocks_error r).

Lemma start_guard_quiet s h label : sampling_ok s -> quiet (start_guard s h label).
Proof. intros Hs. unfold start_guard. solve_quiet. Qed.

Lemma drop_guard_same b h label w : same_store w (drop_guard b h label w).
Proof. by destruct b. Qed.

End guards.

(** [bincode::serialize] and [bincode::deserialize] followed by [?]. *)
Definition serialize {PF : Platform} {V} `{!Serde V} (v : V) : result bytes TypedStoreError :=
  map_err from_bincode_error (ser_val v).
Definition deserialize {PF : Platform} {V} `{!Serde V} (b : bytes) : result V TypedStoreError :=
  map_err from_bincode_error (de_val b).

(** ** Batches *)

Record DBBatch : Type := mkDBBatch {
  batch_rocksdb : arc;
  batch : list batch_op;
  batch_db_metrics : DBMetrics;
  batch_write_sample_interval : SamplingInterval;
}.

Section batches.
Context {PF : Platform} {K V : Type} `{!Serde K, !Serde V}.

Definition DBBatch_new (dbref : arc) (db_metrics : DBMetrics)
    (write_sample_interval : SamplingInterval) : DBBatch :=
  mkDBBatch dbref [] db_metrics write_sample_interval.

Definition DBMap_batch (self : DBMap K V) : DBBatch :=
  DBBatch_new (rocksdb self) (db_metrics self) (write_sample_interval self).

(** An early return drops [report_metrics]; at the end the bindings of the
    [if let] are dropped in reverse order. *)
Definition DBBatch_write (self : DBBatch) : M (result unit TypedStoreError) :=
  let h := rocksdb_batch_commit_latency_seconds (op_metrics (batch_db_metrics self)) in
  sampled <- sample (batch_write_sample_interval self) ;;
  if sampled then
    db_name <- read_db (batch_rocksdb self) db_name ;;
    emit (TimerStarted h db_name) ;;
    let batch_size := batch_size_in_bytes (batch self) in
    RocksDBPerfContext_default ;;
    r <- rocks_write (batch_rocksdb self) (write_batch (batch self)) ;;
    match r with
    | Err e => modify (drop_guard true h db_name) ;; ret (Err e)
    | Ok _ =>
        emit (Observed (rocksdb_batch_commit_bytes (op_metrics (batch_db_metrics self)))
                db_name (f64_of_Z batch_size)) ;;
        WritePerfContextMetrics_report_metrics
          (write_perf_ctx_metrics (batch_db_metrics self)) db_name ;;
        modify RocksDBPerfContext_drop ;;
        emit (TimerObserved h db_name) ;;
        ret (Ok tt)
    end
  else rocks_write (batch_rocksdb self) (write_batch (batch self)).

(** [self.batch.push(..)] of an update. *)
Definition add_op (self : DBBatch) (op : batch_op) : DBBatch :=
  mkDBBatch (batch_rocksdb self) (batch self ++ [op]) (batch_db_metrics self)
    (batch_write_sample_interval self).

(** [iter.try_for_each(|x| ..)] with a closure that updates the batch. *)
Fixpoint try_for_each_batch {A} (f : DBBatch -> A -> M (result DBBatch TypedStoreError))
    (self : DBBatch) (l : list A) : M (result DBBatch TypedStoreError) :=
  match l with
  | [] => ret (Ok self)
  | x :: l' => self' <-? f self x ;; try_for_each_batch f self' l'
  end.

Definition delete_batch (self : DBBatch) (db : DBMap K V) (purged_vals : list K) :
    M (result DBBatch TypedStoreError) :=
  if negb (rocksdb db =? batch_rocksdb self) then ret (Err CrossDBBatch)
  else
    try_for_each_batch (fun self k =>
      k_buf <-? ret (be_fix_int_ser k) ;;
      c <- cf db ;;
      ret (Ok (add_op self (BatchDelete c k_buf)))) self purged_vals.

Definition delete_range (self : DBBatch) (db : DBMap K V) (from to : K) :
    M (result DBBatch TypedStoreError) :=
  if negb (rocksdb db =? batch_rocksdb self) then ret (Err CrossDBBatch)
  else
    from_buf <-? ret (be_fix_int_ser from) ;;
    to_buf <-? ret (be_fix_int_ser to) ;;
    c <- cf db ;;
    ret (Ok (add_op self (BatchDeleteRange c from_buf to_buf))).

Definition insert_batch (self : DBBatch) (db : DBMap K V) (new_vals : list (K * V)) :
    M (result DBBatch TypedStoreError) :=
  if negb (rocksdb db =? batch_rocksdb self) then ret (Err CrossDBBatch)
  else
    try_for_each_batch (fun self (kv : K * V) =>
      k_buf <-? ret (be_fix_int_ser kv.1) ;;
      v_buf <-? ret (serialize kv.2) ;;
      c <- cf db ;;
      ret (Ok (add_op self (BatchPut c k_buf v_buf)))) self new_vals.

End batches.

(** ** The map *)

Section map.
Context {PF : Platform} {K V : Type} `{!Serde K, !Serde V}.

Definition DBMap_contains_key (self : DBMap K V) (key : K) : M (result bool TypedStoreError) :=
  key_buf <-? ret (be_fix_int_ser key) ;;
  c <- cf self ;;
  may <- read_db (rocksdb self) (fun d => key_may_exist_cf d c key_buf) ;;
  if (may : bool) then
    c <- cf self ;;
    r <-? rocks_read (rocksdb self) (fun d => get_pinned_cf d c key_buf) ;;
    ret (Ok (bool_decide (is_Some r)))
  else ret (Ok false).

Definition DBMap_get (self : DBMap K V) (key : K) : M (result (option V) TypedStoreError) :=
  let h := rocksdb_get_latency_seconds (op_metrics (db_metrics self)) in
  report_metrics <- start_guard (read_sample_interval self) h (dbmap_cf self) ;;
  dropping (drop_guard report_metrics h (dbmap_cf self))
   (key_buf <-? ret (be_fix_int_ser key) ;;
    c <- cf self ;;
    res <-? rocks_read (rocksdb self) (fun d => get_pinned_cf d c key_buf) ;;
    when report_metrics
     (emit (Observed (rocksdb_get_bytes (op_metrics (db_metrics self))) (dbmap_cf self)
        (match res with Some v => f64_of_Z (Z.of_nat (length v)) | None => f64_zero end)) ;;
      ReadPerfContextMetrics_report_metrics (read_perf_ctx_metrics (db_metrics self))
        (dbmap_cf self)) ;;
    match res with
    | Some data => v <-? ret (deserialize data) ;; ret (Ok (Some v))
    | None => ret (Ok None)
    end).

Definition DBMap_get_raw_bytes (self : DBMap K V) (key : K) :
    M (result (option bytes) TypedStoreError) :=
  let h := rocksdb_get_latency_seconds (op_metrics (db_metrics self)) in
  report_metrics <- start_guard (read_sample_interval self) h (dbmap_cf self) ;;
  dropping (drop_guard report_metrics h (dbmap_cf self))
   (key_buf <-? ret (be_fix_int_ser key) ;;
    c <- cf self ;;
    res <-? rocks_read (rocksdb self) (fun d => get_pinned_cf d c key_buf) ;;
    when report_metrics
     (emit (Observed (rocksdb_get_bytes (op_metrics (db_metrics self))) (dbmap_cf self)
        (match res with Some v => f64_of_Z (Z.of_nat (length v)) | None => f64_zero end)) ;;
      ReadPerfContextMetrics_report_metrics (read_perf_ctx_metrics (db_metrics self))
        (dbmap_cf self)) ;;
    match res with
    | Some data => ret (Ok (Some data))
    | None => ret (Ok None)
    end).

Definition DBMap_insert (self : DBMap K V) (key : K) (value : V) : M (result unit TypedStoreError) :=
  let h := rocksdb_put_latency_seconds (op_metrics (db_metrics self)) in
  report_metrics <- start_guard (write_sample_interval self) h (dbmap_cf self) ;;
  dropping (drop_guard report_metrics h (dbmap_cf self))
   (key_buf <-? ret (be_fix_int_ser key) ;;
    value_buf <-? ret (serialize value) ;;
    when report_metrics
     (emit (Observed (rocksdb_put_bytes (op_metrics (db_metrics self))) (dbmap_cf self)
        (f64_of_Z (Z.of_nat (length key_buf + length value_buf)))) ;;
      WritePerfContextMetrics_report_metrics (write_perf_ctx_metrics (db_metrics self))
        (dbmap_cf self)) ;;
    c <- cf self ;;
    _ <-? rocks_write (rocksdb self) (put_cf c key_buf value_buf) ;;
    ret (Ok tt)).

Definition DBMap_remove (self : DBMap K V) (key : K) : M (result unit TypedStoreError) :=
  let h := rocksdb_delete_latency_seconds (op_metrics (db_metrics self)) in
  report_metrics <- start_guard (write_sample_interval self) h (dbmap_cf self) ;;
  dropping (drop_guard report_metrics h (dbmap_cf self))
   (key_buf <-? ret (be_fix_int_ser key) ;;
    c <- cf self ;;
    _ <-? rocks_write (rocksdb self) (delete_cf c key_buf) ;;
    when report_metrics
     (emit (CounterAdded (rocksdb_deletes (op_metrics (db_metrics self))) (dbmap_cf self) 1) ;;
      WritePerfContextMetrics_report_metrics (write_perf_ctx_metrics (db_metrics self))
        (dbmap_cf self)) ;;
    ret (Ok tt)).

Definition DBMap_clear (self : DBMap K V) : M (result unit TypedStoreError) :=
  _ <- with_db (rocksdb self) (drop_cf (dbmap_cf self)) ;;
  opts <- default_db_options ;;
  _ <-? rocks_write (rocksdb self) (create_cf (dbmap_cf self) (db_opts opts)) ;;
  ret (Ok tt).

(** The timer is recorded before the report; the perf context is dropped at
    the end of the [if let]. *)
Definition DBMap_iter (self : DBMap K V) : M (Iter K V) :=
  let h := rocksdb_iter_latency_seconds (op_metrics (db_metrics self)) in
  report_metrics <- start_guard (iter_latency_sample_interval self) h (dbmap_cf self) ;;
  c <- on_panic (drop_guard report_metrics h (dbmap_cf self)) (cf self) ;;
  db_iter <- read_db (rocksdb self) (fun d => raw_iterator_cf d c) ;;
  let db_iter := seek_to_first db_iter in
  when report_metrics
   (emit (TimerObserved h (dbmap_cf self)) ;;
    ReadPerfContextMetrics_report_metrics (read_perf_ctx_metrics (db_metrics self))
      (dbmap_cf self) ;;
    modify RocksDBPerfContext_drop) ;;
  ret (Iter_new db_iter (dbmap_cf self) (db_metrics self) (iter_bytes_sample_interval self)).

Definition DBMap_is_empty (self : DBMap K V) : M bool :=
  it <- DBMap_iter self ;;
  r <- Iter_next it ;;
  ret (bool_decide (r.1 = None)).

Definition DBMap_keys (self : DBMap K V) : M (Keys K) :=
  c <- cf self ;;
  db_iter <- read_db (rocksdb self) (fun d => raw_iterator_cf d c) ;;
  ret (Keys_new (seek_to_first db_iter)).

Definition DBMap_values (self : DBMap K V) : M (Values V) :=
  c <- cf self ;;
  db_iter <- read_db (rocksdb self) (fun d => raw_iterator_cf d c) ;;
  ret (Values_new (seek_to_first db_iter)).

Definition entry_size (entry : result (option bytes) string) : f64 :=
  match entry with
  | Ok (Some v) => f64_of_Z (Z.of_nat (length v))
  | _ => f64_zero
  end.

Definition DBMap_multi_get (self : DBMap K V) (keys : list K) :
    M (result (list (option V)) TypedStoreError) :=
  let h := rocksdb_multiget_latency_seconds (op_metrics (db_metrics self)) in
  report_metrics <- start_guard (read_sample_interval self) h (dbmap_cf self) ;;
  dropping (drop_guard report_metrics h (dbmap_cf self))
   (c <- cf self ;;
    keys_bytes <-? ret (collect (fun k => map_ok (fun b => (c, b)) (be_fix_int_ser k)) keys) ;;
    results <- read_db (rocksdb self) (fun d => multi_get_cf d keys_bytes) ;;
    when report_metrics
     (emit (Observed (rocksdb_multiget_bytes (op_metrics (db_metrics self))) (dbmap_cf self)
        (foldl (fun s e => f64_add s (entry_size e)) f64_zero results)) ;;
      ReadPerfContextMetrics_report_metrics (read_perf_ctx_metrics (db_metrics self))
        (dbmap_cf self)) ;;
    ret (collect (fun value_byte =>
      match value_byte with
      | Err e => Err (from_rocks_error e)
      | Ok (Some data) => map_ok Some (deserialize data)
      | Ok None => Ok None
      end) results)).

Definition DBMap_multi_insert (self : DBMap K V) (key_val_pairs : list (K * V)) :
    M (result unit TypedStoreError) :=
  b <-? insert_batch (DBMap_batch self) self key_val_pairs ;;
  DBBatch_write b.

Definition DBMap_multi_remove (self : DBMap K V) (keys : list K) : M (result unit TypedStoreError) :=
  b <-? delete_batch (DBMap_batch self) self keys ;;
  DBBatch_write b.

Definition DBMap_try_catch_up_with_primary (self : DBMap K V) : M (result unit TypedStoreError) :=
  rocks_write (rocksdb self) db_try_catch_up_with_primary.

#[export] Instance DBMap_Map : Map (DBMap K V) K V := {|
  Error := TypedStoreError;
  Iterator := Iter K V;
  Traits.Keys := Keys K;
  Traits.Values := Values V;
  Iterator_next := Iter_next;
  Traits.Keys_next := Keys_next;
  Traits.Values_next := Values_next;
  contains_key := DBMap_contains_key;
  get := DBMap_get;
  get_raw_bytes := DBMap_get_raw_bytes;
  insert := DBMap_insert;
  remove := DBMap_remove;
  clear := DBMap_clear;
  is_empty := DBMap_is_empty;
  iter := DBMap_iter;
  keys := DBMap_keys;
  values := DBMap_values;
  multi_get := DBMap_multi_get;
  multi_insert := DBMap_multi_insert;
  multi_remove := DBMap_multi_remove;
  try_catch_up_with_primary := DBMap_try_catch_up_with_primary;
|}.

(** [TryExtend] *)
Definition try_extend (self : DBMap K V) (iter : list (K * V)) : M (result unit TypedStoreError) :=
  batch <-? insert_batch (DBMap_batch self) self iter ;;
  DBBatch_write batch.

Definition try_extend_from_slice (self : DBMap K V) (slice : list (K * V)) :
    M (result unit TypedStoreError) :=
  batch <-? insert_batch (DBMap_batch self) self slice ;;
  DBBatch_write batch.

End map.
