(* ===== verification/RocksSpec.v ===== *)
(** * What the map operations do (theorems about [DBMap] and [DBBatch])

    First each instrumented method is shown to act like its core, a pure
    function on the database: sampling, timers and reports change nothing
    else.  Then the documented behaviour of RocksDB and bincode gives the
    functional behaviour of the methods on every branch. *)
From stdpp Require Import sorting.
From S2P Require Import Prelude Bytes Platform MetricsData World Sampling Metrics Errors Traits Rocks RocksIter RocksMap.
Open Scope nat_scope.

Section execution.
Context {PF : Platform} {K V : Type} `{!Serde K, !Serde V}.
Implicit Types (self : DBMap K V) (w : World) (d : db).

(** [self] is a well-formed handle on database [d], which has its family. *)
Definition open_at self w d : Prop :=
  DBMap_wf self /\ w_dbs w !! rocksdb self = Some d /\ cf_handle d (dbmap_cf self) = true.

(** The world with [d] in place of the database behind [a]. *)
Definition put_db (a : arc) d w : World := set_dbs (<[a := d]> (w_dbs w)) w.

Lemma open_at_same self w w' d : same_store w w' -> open_at self w d -> open_at self w' d.
Proof. intros Hs (Hwf & Hd & Hcf). split_and!; [done| |done]. by rewrite <- Hs. Qed.

Lemma open_at_put self w d d' :
  open_at self w d -> cf_handle d' (dbmap_cf self) = true -> open_at self (put_db (rocksdb self) d' w) d'.
Proof. intros (Hwf & _ & _) Hcf. split_and!; [done| |done]. by apply lookup_insert_eq. Qed.

Lemma put_db_id a w d : w_dbs w !! a = Some d -> put_db a d w = w.
Proof. intros Hd. unfold put_db, set_dbs. rewrite insert_id by done. by destruct w. Qed.

Lemma put_db_same a d w w' : same_store w w' -> same_store (put_db a d w) (put_db a d w').
Proof. intros Hs. unfold put_db. rewrite (same_store_dbs w w') by done. by apply set_dbs_proper. Qed.

Lemma wp_cf self w d Q :
  open_at self w d -> Q (Ret (dbmap_cf self)) w -> wp (cf self) Q w.
Proof.
  intros (_ & Hd & Hcf) HQ. unfold cf. apply wp_bind. eapply wp_read_db; [done|].
  by rewrite Hcf.
Qed.

Lemma wp_rocks_read {A} a (f : db -> result A string) w d Q :
  w_dbs w !! a = Some d -> Q (Ret (map_err from_rocks_error (f d))) w ->
  wp (rocks_read a f) Q w.
Proof. intros Hd HQ. unfold rocks_read. apply wp_bind. by eapply wp_read_db. Qed.

Lemma wp_rocks_write {A} a (f : db -> result A string * db) w d Q :
  w_dbs w !! a = Some d ->
  Q (Ret (map_err from_rocks_error (f d).1)) (set_dbs (<[a := (f d).2]> (w_dbs w)) w) ->
  wp (rocks_write a f) Q w.
Proof. intros Hd HQ. unfold rocks_write. apply wp_bind. by eapply wp_with_db. Qed.

(** An instrumented body, whatever the sampling decides. *)
Lemma wp_instrumented {A} s h label (body : bool -> M A) Q w :
  sampling_ok s ->
  (forall b w1, same_store w w1 -> wp (body b) (fun o w2 => Q o (drop_guard b h label w2)) w1) ->
  wp (b <- start_guard s h label ;; dropping (drop_guard b h label) (body b)) Q w.
Proof.
  intros Hs Hbody. apply wp_bind, wp_quiet; [by apply start_guard_quiet|].
  intros b w1 Hw. apply wp_dropping. by apply Hbody.
Qed.

Lemma wp_when_quiet b m Q w :
  quiet m -> (forall w', same_store w w' -> Q (Ret tt) w') -> wp (when b m) Q w.
Proof. intros Hm HQ. apply wp_quiet; [by apply quiet_when|]. by intros []. Qed.

(** ** Cores *)

Definition get_core (c : string) (key : K) (d : db) : result (option V) TypedStoreError :=
  res_bind (be_fix_int_ser key) (fun kb =>
  res_bind (map_err from_rocks_error (get_pinned_cf d c kb)) (fun res =>
    match res with Some data => map_ok Some (deserialize data) | None => Ok None end)).

Definition get_raw_core (c : string) (key : K) (d : db) : result (option bytes) TypedStoreError :=
  res_bind (be_fix_int_ser key) (fun kb => map_err from_rocks_error (get_pinned_cf d c kb)).

Definition contains_core (c : string) (key : K) (d : db) : result bool TypedStoreError :=
  res_bind (be_fix_int_ser key) (fun kb =>
    if key_may_exist_cf d c kb
    then map_ok (fun r => bool_decide (is_Some r)) (map_err from_rocks_error (get_pinned_cf d c kb))
    else Ok false).

Definition insert_core (c : string) (key : K) (value : V) (d : db) :
    result unit TypedStoreError * db :=
  match be_fix_int_ser key, serialize value with
  | Err e, _ => (Err e, d)
  | _, Err e => (Err e, d)
  | Ok kb, Ok vb => let (r, d') := put_cf c kb vb d in (map_err from_rocks_error r, d')
  end.

Definition remove_core (c : string) (key : K) (d : db) : result unit TypedStoreError * db :=
  match be_fix_int_ser key with
  | Err e => (Err e, d)
  | Ok kb => let (r, d') := delete_cf c kb d in (map_err from_rocks_error r, d')
  end.

(** A method reads: it answers [r] and leaves the store alone. *)
Definition reads {A} (m : M A) (r : A) w : Prop :=
  wp m (fun o w' => o = Ret r /\ same_store w w') w.

(** A method writes: it answers [r] and leaves database [d']. *)
Definition writes {A} (a : arc) (m : M A) (rd : A * db) w : Prop :=
  wp m (fun o w' => o = Ret rd.1 /\ same_store (put_db a rd.2 w) w') w.

Lemma wp_reads {A} (m : M A) r Q w :
  reads m r w -> (forall w', same_store w w' -> Q (Ret r) w') -> wp m Q w.
Proof. intros [Ho Hs] HQ. unfold wp. rewrite Ho. by apply HQ. Qed.

Lemma wp_writes {A} a (m : M A) rd Q w :
  writes a m rd w -> (forall w', same_store (put_db a rd.2 w) w' -> Q (Ret rd.1) w') -> wp m Q w.
Proof. intros [Ho Hs] HQ. unfold wp. rewrite Ho. by apply HQ. Qed.

Lemma get_reads self w d key :
  open_at self w d -> reads (DBMap_get self key) (get_core (dbmap_cf self) key d) w.
Proof.
  intros Ho. pose proof Ho as ((Hs & _) & _). apply wp_instrumented; [done|]. intros b w1 H1.
  apply (open_at_same _ _ _ _ H1) in Ho as Ho1.
  assert (forall w2, same_store w1 w2 -> same_store w (drop_guard b (rocksdb_get_latency_seconds
    (op_metrics (db_metrics self))) (dbmap_cf self) w2)) as Hend.
  { intros w2 H2. rewrite H1, H2. apply drop_guard_same. }
  unfold get_core. apply wp_try_bind, wp_ret.
  destruct (be_fix_int_ser key) as [kb|e]; simpl; [|by split; [|apply Hend]].
  apply wp_bind. eapply wp_cf; [done|]. apply wp_try_bind.
  eapply wp_rocks_read; [apply Ho1|].
  destruct (get_pinned_cf d (dbmap_cf self) kb) as [res|e]; simpl; [|by split; [|apply Hend]].
  apply wp_bind, wp_when_quiet; [solve_quiet|]. intros w2 H2.
  destruct res as [data|]; [|by split; [|apply Hend]].
  apply wp_try_bind, wp_ret. destruct (deserialize data); simpl; by split; [|apply Hend].
Qed.

Lemma get_raw_reads self w d key :
  open_at self w d -> reads (DBMap_get_raw_bytes self key) (get_raw_core (dbmap_cf self) key d) w.
Proof.
  intros Ho. pose proof Ho as ((Hs & _) & _). apply wp_instrumented; [done|]. intros b w1 H1.
  apply (open_at_same _ _ _ _ H1) in Ho as Ho1.
  assert (forall w2, same_store w1 w2 -> same_store w (drop_guard b (rocksdb_get_latency_seconds
    (op_metrics (db_metrics self))) (dbmap_cf self) w2)) as Hend.
  { intros w2 H2. rewrite H1, H2. apply drop_guard_same. }
  unfold get_raw_core. apply wp_try_bind, wp_ret.
  destruct (be_fix_int_ser key) as [kb|e]; simpl; [|by split; [|apply Hend]].
  apply wp_bind. eapply wp_cf; [done|]. apply wp_try_bind.
  eapply wp_rocks_read; [apply Ho1|].
  destruct (get_pinned_cf d (dbmap_cf self) kb) as [res|e]; simpl; [|by split; [|apply Hend]].
  apply wp_bind, wp_when_quiet; [solve_quiet|]. intros w2 H2.
  destruct res as [data|]; by split; [|apply Hend].
Qed.

Lemma contains_reads self w d key :
  open_at self w d -> reads (DBMap_contains_key self key) (contains_core (dbmap_cf self) key d) w.
Proof.
  intros Ho. unfold reads, DBMap_contains_key, contains_core. apply wp_try_bind, wp_ret.
  destruct (be_fix_int_ser key) as [kb|e]; simpl; [|done].
  apply wp_bind. eapply wp_cf; [done|]. apply wp_bind. eapply wp_read_db; [apply Ho|].
  destruct (key_may_exist_cf d (dbmap_cf self) kb); [|done].
  apply wp_bind. eapply wp_cf; [done|]. apply wp_try_bind.
  eapply wp_rocks_read; [apply Ho|]. by destruct (get_pinned_cf d (dbmap_cf self) kb).
Qed.

Lemma insert_writes self w d key value :
  open_at self w d ->
  writes (rocksdb self) (DBMap_insert self key value) (insert_core (dbmap_cf self) key value d) w.
Proof.
  intros Ho. pose proof Ho as ((_ & Hs & _) & Hd & _). apply wp_instrumented; [done|].
  intros b w1 H1. apply (open_at_same _ _ _ _ H1) in Ho as Ho1.
  unfold insert_core. apply wp_try_bind, wp_ret.
  destruct (be_fix_int_ser key) as [kb|e]; simpl.
  2: { split; [done|]. rewrite put_db_id, H1 by done. apply drop_guard_same. }
  apply wp_try_bind, wp_ret. destruct (serialize value) as [vb|e]; simpl.
  2: { split; [done|]. rewrite put_db_id, H1 by done. apply drop_guard_same. }
  apply wp_bind, wp_when_quiet; [solve_quiet|]. intros w2 H2.
  apply (open_at_same _ _ _ _ H2) in Ho1 as Ho2.
  apply wp_bind. eapply wp_cf; [done|]. apply wp_try_bind.
  eapply wp_rocks_write; [apply Ho2|].
  destruct (put_cf (dbmap_cf self) kb vb d) as [[[]|e] d'] eqn:Hput; simpl; split; try done.
  all: rewrite <- drop_guard_same; apply put_db_same; by rewrite H1.
Qed.

Lemma remove_writes self w d key :
  open_at self w d ->
  writes (rocksdb self) (DBMap_remove self key) (remove_core (dbmap_cf self) key d) w.
Proof.
  intros Ho. pose proof Ho as ((_ & Hs & _) & Hd & _). apply wp_instrumented; [done|].
  intros b w1 H1. apply (open_at_same _ _ _ _ H1) in Ho as Ho1.
  unfold remove_core. apply wp_try_bind, wp_ret.
  destruct (be_fix_int_ser key) as [kb|e]; simpl.
  2: { split; [done|]. rewrite put_db_id, H1 by done. apply drop_guard_same. }
  apply wp_bind. eapply wp_cf; [done|]. apply wp_try_bind.
  eapply wp_rocks_write; [apply Ho1|].
  destruct (delete_cf (dbmap_cf self) kb d) as [[[]|e] d'] eqn:Hdel; simpl.
  2: { split; [done|]. rewrite <- drop_guard_same. by apply put_db_same. }
  apply wp_bind, wp_when_quiet; [solve_quiet|]. intros w2 H2.
  apply wp_ret. split; [done|]. rewrite <- drop_guard_same, <- H2. by apply put_db_same.
Qed.

(** ** Batches *)

Definition add_ops (b : DBBatch) (ops : list batch_op) : DBBatch :=
  mkDBBatch (batch_rocksdb b) (batch b ++ ops) (batch_db_metrics b) (batch_write_sample_interval b).

Definition put_op (c : string) (kv : K * V) : result batch_op TypedStoreError :=
  res_bind (be_fix_int_ser kv.1) (fun kb => map_ok (BatchPut c kb) (serialize kv.2)).

Definition delete_op (c : string) (k : K) : result batch_op TypedStoreError :=
  map_ok (BatchDelete c) (be_fix_int_ser k).

Lemma add_ops_nil b : add_ops b [] = b.
Proof. unfold add_ops. rewrite app_nil_r. by destruct b. Qed.

Lemma add_ops_cons b op ops : add_ops (add_op b op) ops = add_ops b (op :: ops).
Proof. unfold add_ops, add_op; simpl. by rewrite <- app_assoc. Qed.

(** The loop over the elements of a batch call collects their updates. *)
Lemma try_for_each_batch_reads {A} (f : DBBatch -> A -> M (result DBBatch TypedStoreError))
    (op : A -> result batch_op TypedStoreError) w l b :
  (forall b x w', same_store w w' -> reads (f b x) (map_ok (add_op b) (op x)) w') ->
  reads (try_for_each_batch f b l) (map_ok (add_ops b) (collect op l)) w.
Proof.
  intros Hf. assert (forall w', same_store w w' ->
    wp (try_for_each_batch f b l) (fun o w2 => o = Ret (map_ok (add_ops b) (collect op l)) /\
      same_store w w2) w') as H; [|by apply H].
  revert b. induction l as [|x l IH]; intros b w' Hw; simpl.
  - apply wp_ret. by rewrite add_ops_nil.
  - apply wp_try_bind. eapply wp_mono; [by apply Hf|]. intros o w1 [-> H1].
    assert (same_store w w1) by (by etrans). destruct (op x) as [o'|e]; simpl; [|done].
    eapply wp_mono; [by apply IH|]. intros o w2 [-> H2]. split; [|done].
    destruct (collect op l) as [ops|e]; simpl; [|done]. by rewrite add_ops_cons.
Qed.

Lemma insert_batch_reads self w d b kvs :
  open_at self w d ->
  reads (insert_batch b self kvs)
    (if rocksdb self =? batch_rocksdb b
     then map_ok (add_ops b) (collect (put_op (dbmap_cf self)) kvs) else Err CrossDBBatch) w.
Proof.
  intros Ho. unfold insert_batch. destruct (_ =? _); simpl; [|by apply wp_ret].
  apply try_for_each_batch_reads. intros b' [k v] w' Hw. unfold put_op. cbn [fst snd].
  apply wp_try_bind, wp_ret. destruct (be_fix_int_ser k); simpl; [|done].
  apply wp_try_bind, wp_ret. destruct (serialize v); simpl; [|done].
  apply wp_bind. eapply wp_cf; [by eapply open_at_same|]. by apply wp_ret.
Qed.

Lemma delete_batch_reads self w d b ks :
  open_at self w d ->
  reads (delete_batch b self ks)
    (if rocksdb self =? batch_rocksdb b
     then map_ok (add_ops b) (collect (delete_op (dbmap_cf self)) ks) else Err CrossDBBatch) w.
Proof.
  intros Ho. unfold delete_batch. destruct (_ =? _); simpl; [|by apply wp_ret].
  apply try_for_each_batch_reads. intros b' k w' Hw. unfold delete_op.
  apply wp_try_bind, wp_ret. destruct (be_fix_int_ser k); simpl; [|done].
  apply wp_bind. eapply wp_cf; [by eapply open_at_same|]. by apply wp_ret.
Qed.

Definition range_op (c : string) (from to : K) : result batch_op TypedStoreError :=
  res_bind (be_fix_int_ser from) (fun fb => map_ok (BatchDeleteRange c fb) (be_fix_int_ser to)).

Lemma delete_range_reads self w d b from to :
  open_at self w d ->
  reads (delete_range b self from to)
    (if rocksdb self =? batch_rocksdb b
     then map_ok (add_op b) (range_op (dbmap_cf self) from to) else Err CrossDBBatch) w.
Proof.
  intros Ho. unfold delete_range, range_op. destruct (_ =? _); simpl; [|by apply wp_ret].
  apply wp_try_bind, wp_ret. destruct (be_fix_int_ser from); simpl; [|done].
  apply wp_try_bind, wp_ret. destruct (be_fix_int_ser to); simpl; [|done].
  apply wp_bind. eapply wp_cf; [done|]. by apply wp_ret.
Qed.

Definition write_core (ops : list batch_op) (d : db) : result unit TypedStoreError * db :=
  let (r, d') := write_batch ops d in (map_err from_rocks_error r, d').

Lemma write_writes b w d :
  sampling_ok (batch_write_sample_interval b) -> w_dbs w !! batch_rocksdb b = Some d ->
  writes (batch_rocksdb b) (DBBatch_write b) (write_core (batch b) d) w.
Proof.
  intros Hs Hd. unfold DBBatch_write, write_core. apply wp_bind, wp_quiet; [by apply sample_quiet|].
  intros sampled w1 H1. assert (w_dbs w1 !! batch_rocksdb b = Some d) as Hd1 by (by rewrite <- H1).
  destruct sampled.
  - apply wp_bind. eapply wp_read_db; [done|].
    apply wp_bind, wp_quiet; [solve_quiet|]. intros _ w2 H2.
    apply wp_bind, wp_quiet; [solve_quiet|]. intros _ w3 H3.
    assert (same_store w w3) as Hw3 by (by rewrite H1, H2, H3).
    apply wp_bind. eapply wp_rocks_write; [by rewrite <- Hw3|]. fold (put_db (batch_rocksdb b) (write_batch (batch b) d).2 w3).
    destruct (write_batch (batch b) d) as [[[]|e] d']; simpl.
    + apply wp_bind, wp_quiet; [solve_quiet|]. intros _ w4 H4.
      apply wp_bind, wp_quiet; [solve_quiet|]. intros _ w5 H5.
      apply wp_bind, wp_modify, wp_bind, wp_quiet; [solve_quiet|]. intros _ w6 H6.
      apply wp_ret. split; [done|]. rewrite (put_db_same _ _ _ _ Hw3), H4, H5, <- H6.
      apply emit_pure_same.
    + apply wp_bind, wp_modify, wp_ret. split; [done|].
      rewrite (put_db_same _ _ _ _ Hw3). apply drop_guard_same with (b:=true).
  - eapply wp_rocks_write; [done|]. destruct (write_batch (batch b) d) as [r d']; simpl.
    split; [done|]. by apply put_db_same.
Qed.

(** The batched versions of the multi operations: all updates in one write, or
    none when one of them cannot be serialized. *)
Definition batch_core {A} (op : A -> result batch_op TypedStoreError) (l : list A) (d : db) :
    result unit TypedStoreError * db :=
  match collect op l with
  | Ok ops => write_core ops d
  | Err e => (Err e, d)
  end.

Lemma batch_then_write {A} self w d (m : M (result DBBatch TypedStoreError)) op (l : list A) :
  open_at self w d ->
  reads m (map_ok (add_ops (DBMap_batch self)) (collect op l)) w ->
  writes (rocksdb self) (b <-? m ;; DBBatch_write b) (batch_core op l d) w.
Proof.
  intros Ho Hm. apply wp_try_bind. eapply wp_mono; [apply Hm|]. intros o w1 [-> H1].
  unfold batch_core. destruct (collect op l) as [ops|e]; simpl.
  - apply (open_at_same _ _ _ _ H1) in Ho as Ho1. destruct Ho1 as ((_ & Hs & _) & Hd & _).
    eapply wp_mono; [by apply (write_writes (add_ops (DBMap_batch self) ops))|].
    intros o w2 [-> H2]. split; [done|]. rewrite <- H2. by apply put_db_same.
  - split; [done|]. by rewrite put_db_id by apply Ho.
Qed.

Lemma multi_insert_writes self w d kvs :
  open_at self w d ->
  writes (rocksdb self) (DBMap_multi_insert self kvs)
    (batch_core (put_op (dbmap_cf self)) kvs d) w.
Proof.
  intros Ho. apply batch_then_write; [done|].
  pose proof (insert_batch_reads self w d (DBMap_batch self) kvs Ho) as H.
  simpl in H. by rewrite Nat.eqb_refl in H.
Qed.

Lemma multi_remove_writes self w d ks :
  open_at self w d ->
  writes (rocksdb self) (DBMap_multi_remove self ks)
    (batch_core (delete_op (dbmap_cf self)) ks d) w.
Proof.
  intros Ho. apply batch_then_write; [done|].
  pose proof (delete_batch_reads self w d (DBMap_batch self) ks Ho) as H.
  simpl in H. by rewrite Nat.eqb_refl in H.
Qed.

(** ** Multi-get, clear, iteration *)

Definition multi_get_core (c : string) (ks : list K) (d : db) :
    result (list (option V)) TypedStoreError :=
  res_bind (collect (fun k => map_ok (fun b => (c, b)) (be_fix_int_ser k)) ks) (fun kbs =>
  collect (fun value_byte =>
    match value_byte with
    | Err e => Err (from_rocks_error e)
    | Ok (Some data) => map_ok Some (deserialize data)
    | Ok None => Ok None
    end) (multi_get_cf d kbs)).

Lemma multi_get_reads self w d ks :
  open_at self w d ->
  reads (DBMap_multi_get self ks) (multi_get_core (dbmap_cf self) ks d) w.
Proof.
  intros Ho. pose proof Ho as ((Hs & _) & _). apply wp_instrumented; [done|]. intros b w1 H1.
  apply (open_at_same _ _ _ _ H1) in Ho as Ho1.
  unfold multi_get_core. apply wp_bind. eapply wp_cf; [done|]. apply wp_try_bind, wp_ret.
  destruct (collect _ ks) as [kbs|e]; simpl.
  2: { split; [done|]. rewrite H1. apply drop_guard_same. }
  apply wp_bind. eapply wp_read_db; [apply Ho1|].
  apply wp_bind, wp_when_quiet; [solve_quiet|]. intros w2 H2.
  apply wp_ret. split; [done|]. rewrite H1, H2. apply drop_guard_same.
Qed.

Definition clear_core (c : string) (o : options) (d : db) : result unit TypedStoreError * db :=
  let (_, d1) := drop_cf c d in
  let (r, d2) := create_cf c o d1 in (map_err from_rocks_error r, d2).

Lemma clear_writes self w d dflt :
  open_at self w d -> default_db_options w = (Ret dflt, w) ->
  writes (rocksdb self) (DBMap_clear self) (clear_core (dbmap_cf self) (db_opts dflt) d) w.
Proof.
  intros (_ & Hd & _) Hdflt. unfold DBMap_clear, clear_core.
  apply wp_bind. eapply wp_with_db; [done|]. fold (put_db (rocksdb self) (drop_cf (dbmap_cf self) d).2 w).
  destruct (drop_cf (dbmap_cf self) d) as [r1 d1]; simpl.
  apply wp_bind. unfold wp. rewrite (default_db_options_env w (put_db (rocksdb self) d1 w) _ Hdflt) by done.
  simpl. apply wp_try_bind. eapply wp_rocks_write; [apply lookup_insert_eq|].
  destruct (create_cf (dbmap_cf self) (db_opts dflt) d1) as [[[]|e] d2]; simpl; split; try done;
    by rewrite insert_insert_eq.
Qed.

(** What [iter] returns on database [d]. *)
Definition first_iter self d : Iter K V :=
  Iter_new (seek_to_first (raw_iterator_cf d (dbmap_cf self))) (dbmap_cf self) (db_metrics self)
    (iter_bytes_sample_interval self).

Lemma iter_reads self w d :
  open_at self w d -> reads (DBMap_iter self) (first_iter self d) w.
Proof.
  intros Ho. pose proof Ho as ((_ & _ & Hs & _) & _). unfold reads, DBMap_iter.
  apply wp_bind, wp_quiet; [by apply start_guard_quiet|]. intros b w1 H1.
  apply (open_at_same _ _ _ _ H1) in Ho as Ho1.
  apply wp_bind, wp_on_panic. eapply wp_cf; [done|].
  apply wp_bind. eapply wp_read_db; [apply Ho1|].
  apply wp_bind, wp_when_quiet; [solve_quiet; apply emit_pure_same|]. intros w2 H2.
  apply wp_ret. split; [done|]. by etrans.
Qed.

Lemma keys_reads self w d :
  open_at self w d ->
  reads (DBMap_keys self) (Keys_new (seek_to_first (raw_iterator_cf d (dbmap_cf self)))) w.
Proof.
  intros Ho. apply wp_bind. eapply wp_cf; [done|].
  apply wp_bind. eapply wp_read_db; [apply Ho|]. by apply wp_ret.
Qed.

Lemma values_reads self w d :
  open_at self w d ->
  reads (DBMap_values self) (Values_new (seek_to_first (raw_iterator_cf d (dbmap_cf self)))) w.
Proof.
  intros Ho. apply wp_bind. eapply wp_cf; [done|].
  apply wp_bind. eapply wp_read_db; [apply Ho|]. by apply wp_ret.
Qed.

End execution.
