(* ===== verification/MapTheorems.v ===== *)
(** * The contract of [DBMap] and [DBBatch]

    Functional behaviour on every branch, with what is left alone, from the
    documented behaviour of RocksDB and bincode. *)
From S2P Require Import Prelude Bytes Platform MetricsData World Sampling Metrics Errors Traits Rocks RocksIter RocksMap RocksSpec.
Open Scope nat_scope.
Set Default Proof Using "Type*".

Section tables.
Context {PF : Platform} {RL : RocksLaws} {K V : Type} `{!Serde K, !Serde V}.
Implicit Types (self : DBMap K V) (w : World) (d : db).

(** The entries of the column family of a map. *)
Definition table self d : gmap bytes bytes := db_contents d !!! dbmap_cf self.

(** [d'] is [d] with family [c] changed by [f]. *)
Definition updated (c : string) (f : gmap bytes bytes -> gmap bytes bytes) d d' : Prop :=
  cf_handle d' c = true /\
  db_contents d' !!! c = f (db_contents d !!! c) /\
  forall c', c' <> c -> db_contents d' !! c' = db_contents d !! c'.

Lemma alter_updated c f d d' :
  cf_handle d c = true -> db_contents d' = alter f c (db_contents d) -> updated c f d d'.
Proof.
  intros [t Ht]%cf_handle_spec Hd'. unfold updated. rewrite cf_handle_spec, Hd'. split_and!.
  - rewrite lookup_alter_eq, Ht. by eexists.
  - by rewrite !lookup_total_alt, lookup_alter_eq, Ht.
  - intros c' Hc'. by apply lookup_alter_ne.
Qed.

Lemma put_updated c kb vb d d' :
  cf_handle d c = true -> put_cf c kb vb d = (Ok tt, d') -> updated c <[kb := vb]> d d'.
Proof. intros Hc Hput%put_spec. by apply alter_updated. Qed.

Lemma delete_updated c kb d d' :
  cf_handle d c = true -> delete_cf c kb d = (Ok tt, d') -> updated c (delete kb) d d'.
Proof. intros Hc Hdel%delete_spec. by apply alter_updated. Qed.

Lemma open_at_updated self w d d' f :
  open_at self w d -> updated (dbmap_cf self) f d d' ->
  open_at self (put_db (rocksdb self) d' w) d'.
Proof. intros Ho [Hc _]. by eapply open_at_put. Qed.

(** What a read of the key says, once RocksDB answers. *)
Definition read_value self d (k : K) : result (option V) TypedStoreError :=
  match ser_key k with
  | Err e => Err (SerializationError (bincode_display e))
  | Ok kb =>
      match table self d !! kb with
      | None => Ok None
      | Some data =>
          match de_val data with
          | Ok v => Ok (Some v)
          | Err e => Err (SerializationError (bincode_display e))
          end
      end
  end.

Lemma get_core_value self w d k :
  open_at self w d ->
  get_core (dbmap_cf self) k d = read_value self d k \/
  exists kb msg, ser_key k = Ok kb /\ get_pinned_cf d (dbmap_cf self) kb = Err msg /\
    get_core (dbmap_cf self) k d = Err (RocksDBError msg) :> result (option V) _.
Proof.
  intros (_ & _ & Hc). unfold get_core, read_value, be_fix_int_ser, deserialize.
  destruct (ser_key k) as [kb|e]; simpl; [|by left].
  destruct (get_pinned_cf d (dbmap_cf self) kb) as [r|msg] eqn:Hr; simpl; [|right; by eauto].
  left. apply get_pinned_spec in Hr as ->; [|done]. unfold table.
  destruct (_ !! kb) as [data|]; [|done]. by destruct (de_val data).
Qed.

(** C29: [DBMap::get], on every branch: a key that does not serialize and a
    stored value that does not deserialize are [SerializationError]s, a failed
    read is a [RocksDBError] with RocksDB's message; otherwise the answer is the
    decoded entry of the key in the map's column family, or [None] when there is
    none.  Whether or not the call is sampled, nothing but counters and metrics
    changes. *)
Theorem DBMap_get_spec self w d k :
  open_at self w d ->
  wp (DBMap_get self k) (fun o w' => same_store w w' /\ exists r, o = Ret r /\
    (r = read_value self d k \/
     exists kb msg, ser_key k = Ok kb /\ get_pinned_cf d (dbmap_cf self) kb = Err msg /\
       r = Err (RocksDBError msg))) w.
Proof.
  intros Ho. eapply wp_mono; [by apply get_reads|]. intros o w' [-> Hs]. split; [done|].
  eexists. split; [done|].
  destruct (get_core_value self w d k Ho) as [H|(kb & msg & H1 & H2 & H3)]; [by left|].
  right. exists kb, msg. by rewrite H3.
Qed.

(** [DBMap::insert], on every branch.  A key or value that does not
    serialize is reported and nothing is written; otherwise RocksDB's refusal
    is reported, or the entry is in the map's column family, every other entry,
    family and database as it was. *)
Theorem DBMap_insert_spec self w d k v :
  open_at self w d ->
  wp (DBMap_insert self k v) (fun o w' => exists d',
    same_store (put_db (rocksdb self) d' w) w' /\
    match ser_key k, ser_val v with
    | Err e, _ => o = Ret (Err (SerializationError (bincode_display e))) /\ d' = d
    | Ok _, Err e => o = Ret (Err (SerializationError (bincode_display e))) /\ d' = d
    | Ok kb, Ok vb =>
        (o = Ret (Ok tt) /\ updated (dbmap_cf self) <[kb := vb]> d d') \/
        (exists msg, put_cf (dbmap_cf self) kb vb d = (Err msg, d') /\
           o = Ret (Err (RocksDBError msg)))
    end) w.
Proof.
  intros Ho. eapply wp_mono; [by apply insert_writes|]. intros o w' [-> Hs].
  exists (insert_core (dbmap_cf self) k v d).2. split; [done|].
  unfold insert_core, be_fix_int_ser, serialize.
  destruct (ser_key k) as [kb|e]; simpl; [|done]. destruct (ser_val v) as [vb|e]; simpl; [|done].
  destruct (put_cf (dbmap_cf self) kb vb d) as [[[]|msg] d'] eqn:Hput; simpl.
  - left. split; [done|]. by apply put_updated; [apply Ho|].
  - right. by exists msg.
Qed.

(** [DBMap::remove], on every branch: on success the key is gone from the
    map's column family and everything else is as it was. *)
Theorem DBMap_remove_spec self w d k :
  open_at self w d ->
  wp (DBMap_remove self k) (fun o w' => exists d',
    same_store (put_db (rocksdb self) d' w) w' /\
    match ser_key k with
    | Err e => o = Ret (Err (SerializationError (bincode_display e))) /\ d' = d
    | Ok kb =>
        (o = Ret (Ok tt) /\ updated (dbmap_cf self) (delete kb) d d') \/
        (exists msg, delete_cf (dbmap_cf self) kb d = (Err msg, d') /\
           o = Ret (Err (RocksDBError msg)))
    end) w.
Proof.
  intros Ho. eapply wp_mono; [by apply remove_writes|]. intros o w' [-> Hs].
  exists (remove_core (dbmap_cf self) k d).2. split; [done|].
  unfold remove_core, be_fix_int_ser. destruct (ser_key k) as [kb|e]; simpl; [|done].
  destruct (delete_cf (dbmap_cf self) kb d) as [[[]|msg] d'] eqn:Hdel; simpl.
  - left. split; [done|]. by apply delete_updated; [apply Ho|].
  - right. by exists msg.
Qed.

(** [contains_key] agrees with the table: when it answers, it says whether
    the key has an entry, although a positive of [key_may_exist_cf] may be
    false; it never decodes the value, so it may say yes where [get] fails. *)
Theorem DBMap_contains_key_spec self w d k :
  open_at self w d ->
  wp (DBMap_contains_key self k) (fun o w' => same_store w w' /\ exists r, o = Ret r /\
    (forall b, r = Ok b -> exists kb, ser_key k = Ok kb /\
       b = bool_decide (is_Some (table self d !! kb))) /\
    (forall e, r = Err e ->
       (exists kb msg, e = RocksDBError msg /\ ser_key k = Ok kb /\
          get_pinned_cf d (dbmap_cf self) kb = Err msg) \/
       (exists be, e = SerializationError (bincode_display be) /\ ser_key k = Err be))) w.
Proof.
  intros Ho. eapply wp_mono; [by apply contains_reads|]. intros o w' [-> Hs]. split; [done|].
  eexists. split; [done|]. unfold contains_core, be_fix_int_ser.
  destruct (ser_key k) as [kb|be]; simpl; [|split; [done|intros e [= <-]; right; by exists be]].
  destruct (key_may_exist_cf d (dbmap_cf self) kb) eqn:Hmay; simpl.
  - destruct (get_pinned_cf d (dbmap_cf self) kb) as [r|msg] eqn:Hr; simpl.
    + apply get_pinned_spec in Hr as ->; [|apply Ho]. split; [|done]. intros b [= <-].
      exists kb. by split.
    + split; [done|]. intros e [= <-]. left. by exists kb, msg.
  - apply key_may_exist_spec in Hmay. split; [|done]. intros b [= <-]. exists kb.
    unfold table. rewrite Hmay. by split.
Qed.

(** ** Successful cores *)

Lemma insert_core_ok c (k : K) (v : V) d d' :
  insert_core c k v d = (Ok tt, d') ->
  exists kb vb, ser_key k = Ok kb /\ ser_val v = Ok vb /\ put_cf c kb vb d = (Ok tt, d').
Proof.
  unfold insert_core, be_fix_int_ser, serialize.
  destruct (ser_key k) as [kb|]; simpl; [|done]. destruct (ser_val v) as [vb|]; simpl; [|done].
  destruct (put_cf c kb vb d) as [[[]|] d''] eqn:Hput; simpl; [|done].
  intros [= <-]. exists kb, vb. split_and!; done.
Qed.

Lemma remove_core_ok c (k : K) d d' :
  remove_core c k d = (Ok tt, d') ->
  exists kb, ser_key k = Ok kb /\ delete_cf c kb d = (Ok tt, d').
Proof.
  unfold remove_core, be_fix_int_ser. destruct (ser_key k) as [kb|]; simpl; [|done].
  destruct (delete_cf c kb d) as [[[]|] d''] eqn:Hdel; simpl; [|done].
  intros [= <-]. by exists kb.
Qed.

(** A successful read: the entry, decoded. *)
Definition shows (t : gmap bytes bytes) (kb : bytes) (x : option V) : Prop :=
  match t !! kb with
  | None => x = None
  | Some data => exists v, de_val data = Ok v /\ x = Some v
  end.

Lemma get_core_ok c (k : K) d (x : option V) :
  cf_handle d c = true -> get_core c k d = Ok x ->
  exists kb, ser_key k = Ok kb /\ shows (db_contents d !!! c) kb x.
Proof.
  intros Hc. unfold get_core, be_fix_int_ser, deserialize, shows.
  destruct (ser_key k) as [kb|]; simpl; [|done].
  destruct (get_pinned_cf d c kb) as [r|] eqn:Hr; simpl; [|done].
  apply get_pinned_spec in Hr as ->; [|done]. intros Hx. exists kb. split; [done|].
  destruct (_ !! kb) as [data|]; [|by injection Hx].
  destruct (de_val data) as [v|]; [|done]. exists v. by injection Hx.
Qed.

Lemma shows_insert `{!SerdeLaws V} t kb (v : V) vb x :
  ser_val v = Ok vb -> shows (<[kb := vb]> t) kb x -> x = Some v.
Proof.
  intros Hv. unfold shows. rewrite lookup_insert_eq. intros (v' & Hv' & ->).
  rewrite (de_ser_val _ _ Hv) in Hv'. by injection Hv' as ->.
Qed.

Lemma shows_fun t kb x y : shows t kb x -> shows t kb y -> x = y.
Proof. unfold shows. destruct (t !! kb); [|by intros -> ->]. naive_solver congruence. Qed.

(** C1: read your writes.  After a successful [insert] of a key, [get] of that
    key returns the value given, and [get] of any other key what it returned
    before, through the serialized keys and values. *)
Theorem insert_get_roundtrip `{!SerdeLaws K, !SerdeLaws V} self w d (k k' : K) (v : V) :
  open_at self w d ->
  wp (before <-? DBMap_get self k' ;;
      _ <-? DBMap_insert self k v ;;
      after <-? DBMap_get self k' ;;
      ret (Ok (before, after)))
    (fun o _ => exists r, o = Ret r /\ forall before after, r = Ok (before, after) ->
       (k' = k -> after = Some v) /\ (k' <> k -> after = before)) w.
Proof.
  intros Ho. apply wp_try_bind. eapply wp_mono; [by apply get_reads|]. intros o w1 [-> H1].
  destruct (get_core (dbmap_cf self) k' d) as [x|e] eqn:Hbefore; [|by eexists].
  apply (open_at_same _ _ _ _ H1) in Ho as Ho1.
  apply wp_try_bind. eapply wp_mono; [by apply insert_writes|]. intros o w2 [-> H2].
  destruct (insert_core (dbmap_cf self) k v d) as [[[]|e] d'] eqn:Hins; [|by eexists].
  apply insert_core_ok in Hins as (kb & vb & Hkb & Hvb & Hput).
  apply put_updated in Hput; [|apply Ho].
  apply (open_at_updated _ _ _ _ _ Ho1) in Hput as Ho2. apply (open_at_same _ _ _ _ H2) in Ho2.
  apply wp_try_bind. eapply wp_mono; [by apply get_reads|]. intros o w3 [-> _].
  destruct (get_core (dbmap_cf self) k' d') as [y|e] eqn:Hafter; [|by eexists].
  apply wp_ret. eexists. split; [done|]. intros ? ? [= <- <-].
  apply get_core_ok in Hbefore as (kb' & Hkb' & Hx); [|apply Ho].
  apply get_core_ok in Hafter as (? & ? & Hy); [|apply Ho2]. same_ok.
  destruct Hput as (_ & Ht & _). rewrite Ht in Hy. split.
  - intros ->. same_ok. eauto using shows_insert.
  - intros Hne. unfold shows in Hy. rewrite lookup_insert_ne in Hy; [eauto using shows_fun|].
    intros ->. destruct Hne. eauto using ser_key_inj.
Qed.

End tables.
