(* ===== verification/BatchTheorems.v ===== *)
(** * Batches, multi operations, range deletion and clearing

    A batch is written as a whole or not at all; the batched multi operations
    against the default bodies of the trait, which they replace. *)
From S2P Require Import Prelude Bytes Platform MetricsData World Sampling Metrics Errors Traits Rocks RocksIter RocksMap RocksSpec MapTheorems.
Open Scope nat_scope.
Set Default Proof Using "Type*".

Section batch_theorems.
Context {PF : Platform} {RL : RocksLaws} {K V : Type} `{!Serde K, !Serde V}.
Implicit Types (self : DBMap K V) (w : World) (d : db).

(** C2: a batch is atomic.  [DBBatch::write] either reports success, and the
    database holds all the updates of the batch, applied in order, or reports
    RocksDB's error, and the contents are those before the call. *)
Theorem DBBatch_write_atomic (b : DBBatch) w d :
  sampling_ok (batch_write_sample_interval b) -> w_dbs w !! batch_rocksdb b = Some d ->
  wp (DBBatch_write b) (fun o w' => exists d',
    same_store (put_db (batch_rocksdb b) d' w) w' /\
    ((o = Ret (Ok tt) /\ db_contents d' = apply_ops (db_contents d) (batch b)) \/
     (exists msg, o = Ret (Err (RocksDBError msg)) /\ db_contents d' = db_contents d))) w.
Proof.
  intros Hs Hd. eapply wp_mono; [by apply write_writes|]. intros o w' [-> Hw].
  exists (write_core (batch b) d).2. split; [done|]. unfold write_core.
  destruct (write_batch (batch b) d) as [[[]|msg] d'] eqn:Hwrite; simpl.
  - left. split; [done|]. by apply write_spec in Hwrite.
  - right. exists msg. split; [done|]. by eapply write_err_spec.
Qed.

(** a batch belongs to one database: adding updates for a map over another
    database is refused with [CrossDBBatch], whatever the updates, and nothing
    happens. *)
Theorem batch_cross_db (b : DBBatch) self (kvs : list (K * V)) (ks : list K) (from to : K) w :
  rocksdb self <> batch_rocksdb b ->
  insert_batch b self kvs w = (Ret (Err CrossDBBatch), w) /\
  delete_batch b self ks w = (Ret (Err CrossDBBatch), w) /\
  delete_range b self from to w = (Ret (Err CrossDBBatch), w).
Proof.
  intros Hne. unfold insert_batch, delete_batch, delete_range.
  by rewrite (proj2 (Nat.eqb_neq _ _) Hne).
Qed.

(** ** Multi-insert *)

(** The default [multi_insert]: one [insert] after the other, up to the first
    error. *)
Fixpoint insert_seq (c : string) (kvs : list (K * V)) (d : db) : result unit TypedStoreError * db :=
  match kvs with
  | [] => (Ok tt, d)
  | kv :: kvs' =>
      match insert_core c kv.1 kv.2 d with
      | (Ok _, d') => insert_seq c kvs' d'
      | (Err e, d') => (Err e, d')
      end
  end.

Lemma multi_insert_default_writes self w d kvs :
  open_at self w d ->
  writes (rocksdb self) (multi_insert_default self kvs) (insert_seq (dbmap_cf self) kvs d) w.
Proof.
  revert w d. induction kvs as [|[k v] kvs IH]; intros w d Ho.
  - apply wp_ret. split; [done|]. by rewrite put_db_id by apply Ho.
  - apply wp_try_bind. eapply wp_mono; [by apply insert_writes|]. cbn [fst snd insert_seq].
    intros o w1 [-> H1].
    destruct (insert_core (dbmap_cf self) k v d) as [[[]|e] d'] eqn:Hins; simpl in *; [|by split].
    apply insert_core_ok in Hins as (kb & vb & _ & _ & Hput).
    apply put_updated in Hput; [|apply Ho].
    apply (open_at_updated _ _ _ _ _ Ho) in Hput as Ho1. apply (open_at_same _ _ _ _ H1) in Ho1.
    eapply wp_mono; [by apply IH|]. intros o w2 [-> H2]. split; [done|].
    rewrite <- H2, <- (put_db_same _ _ _ _ H1). unfold put_db, set_dbs; simpl.
    by rewrite insert_insert_eq.
Qed.

Lemma insert_core_put_op c (k : K) (v : V) d d' :
  insert_core c k v d = (Ok tt, d') ->
  exists op, put_op c (k, v) = Ok op /\ db_contents d' = apply_op (db_contents d) op.
Proof.
  intros (kb & vb & Hkb & Hvb & Hput)%insert_core_ok. apply put_spec in Hput.
  exists (BatchPut c kb vb). unfold put_op, be_fix_int_ser, serialize; simpl.
  by rewrite Hkb; simpl; rewrite Hvb.
Qed.

Lemma insert_seq_ok c kvs d d' :
  insert_seq c kvs d = (Ok tt, d') ->
  exists ops, collect (put_op c) kvs = Ok ops /\
    db_contents d' = apply_ops (db_contents d) ops.
Proof.
  revert d. induction kvs as [|[k v] kvs IH]; intros d; cbn [insert_seq fst snd].
  - intros [= <-]. by exists [].
  - destruct (insert_core c k v d) as [[[]|e] d1] eqn:Hins; [|done]. intros Hseq.
    apply insert_core_put_op in Hins as (op & Hop & Hd1).
    destruct (IH d1 Hseq) as (ops & Hops & Hd'). exists (op :: ops). cbn [collect].
    rewrite Hop; simpl; rewrite Hops; simpl. split; [done|]. by rewrite Hd', Hd1.
Qed.

Lemma batch_core_ok {A} (op : A -> result batch_op TypedStoreError) l d d' :
  batch_core op l d = (Ok tt, d') ->
  exists ops, collect op l = Ok ops /\ db_contents d' = apply_ops (db_contents d) ops.
Proof.
  unfold batch_core, write_core. destruct (collect op l) as [ops|]; [|done].
  destruct (write_batch ops d) as [[[]|] d1] eqn:Hw; simpl; [|done]. intros [= <-].
  exists ops. split; [done|]. by apply write_spec in Hw.
Qed.

(** C4: the batched [multi_insert] is equivalent to the trait's default, one
    insertion after the other: started on the same database, when both succeed
    they leave the same contents, in every column family.  When one of them
    fails nothing is claimed: see [multi_insert_all_or_nothing]. *)
Theorem multi_insert_equiv self w d (kvs : list (K * V)) :
  open_at self w d ->
  wp (DBMap_multi_insert self kvs) (fun o1 w1 =>
    wp (multi_insert_default self kvs) (fun o2 w2 =>
      o1 = Ret (Ok tt) -> o2 = Ret (Ok tt) ->
      exists d1 d2, w_dbs w1 !! rocksdb self = Some d1 /\ w_dbs w2 !! rocksdb self = Some d2 /\
        db_contents d1 = db_contents d2) w) w.
Proof.
  intros Ho. eapply wp_mono; [by apply multi_insert_writes|]. intros o1 w1 [Ho1 H1].
  eapply wp_mono; [by apply multi_insert_default_writes|]. intros o2 w2 [Ho2 H2] -> ->.
  injection Ho1 as Hok1. injection Ho2 as Hok2.
  destruct (batch_core (put_op (dbmap_cf self)) kvs d) as [r1 d1] eqn:E1.
  destruct (insert_seq (dbmap_cf self) kvs d) as [r2 d2] eqn:E2. simpl in *; subst.
  exists d1, d2. rewrite <- H1, <- H2. simpl. rewrite !lookup_insert_eq. split_and!; [done..|].
  apply batch_core_ok in E1 as (ops1 & Hops1 & ->). apply insert_seq_ok in E2 as (ops2 & Hops2 & ->).
  same_ok. done.
Qed.

(** all or nothing, and where the default differs.  When some pair does not
    serialize, the batched [multi_insert] reports it and writes nothing at all,
    while the default has by then inserted every pair before it. *)
Theorem multi_insert_all_or_nothing self w d (pre post : list (K * V)) (bad : K * V) ops e :
  open_at self w d ->
  collect (put_op (dbmap_cf self)) pre = Ok ops ->
  put_op (dbmap_cf self) bad = Err e ->
  wp (DBMap_multi_insert self (pre ++ bad :: post)) (fun o w' =>
    o = Ret (Err e) /\ same_store w w') w /\
  wp (multi_insert_default self (pre ++ bad :: post)) (fun o w' =>
    exists d', same_store (put_db (rocksdb self) d' w) w' /\
      ((o = Ret (Err e) /\ db_contents d' = apply_ops (db_contents d) ops) \/
       exists msg, o = Ret (Err (RocksDBError msg)))) w.
Proof.
  intros Ho Hpre Hbad. split.
  - eapply wp_mono; [by apply multi_insert_writes|]. intros o w' [-> Hs].
    assert (collect (put_op (dbmap_cf self)) (pre ++ bad :: post) = Err e) as Herr.
    { apply collect_fst_err. exists pre, bad, post. split_and!; [done|by exists ops|done]. }
    unfold batch_core in *. rewrite Herr in *. split; [done|].
    by rewrite put_db_id in Hs by apply Ho.
  - eapply wp_mono; [by apply multi_insert_default_writes|]. intros o w' [-> Hs].
    eexists. split; [done|]. clear w' Hs w Ho. revert d ops Hpre.
    induction pre as [|[k v] pre IH]; intros d ops Hpre; cbn [app insert_seq].
    + injection Hpre as <-. destruct bad as [k v]; cbn [fst snd]. unfold put_op in Hbad.
      unfold insert_core. cbn [fst snd] in Hbad.
      destruct (be_fix_int_ser k) as [kb|]; simpl in *; [|by left; simplify_eq].
      destruct (serialize v); simpl in *; [done|]. left. by simplify_eq.
    + cbn [collect] in Hpre. apply res_bind_ok in Hpre as (op & Hop & Hpre).
      apply res_bind_ok in Hpre as (ops' & Hops' & [= <-]). cbn [fst snd].
      destruct (insert_core (dbmap_cf self) k v d) as [[[]|e'] d1] eqn:Hins.
      * apply insert_core_put_op in Hins as (op' & Hop' & Hd1). same_ok.
        destruct (IH d1 ops' Hops') as [[-> Hd']|Hmsg]; [left|by right].
        split; [done|]. by rewrite Hd', Hd1.
      * right. unfold put_op in Hop. unfold insert_core in Hins. cbn [fst snd] in *.
        destruct (be_fix_int_ser k) as [kb|]; simpl in *; [|done].
        destruct (serialize v) as [vb|]; simpl in *; [|done].
        destruct (put_cf (dbmap_cf self) kb vb d) as [[|msg] ?]; simplify_eq/=. by exists msg.
Qed.

(** ** Multi-get *)

Lemma multi_get_core_equiv c (ks : list K) d xs :
  multi_get_core c ks d = Ok xs <-> collect (fun k => get_core (V:=V) c k d) ks = Ok xs.
Proof.
  assert (multi_get_core c ks d =
    res_bind (collect (fun k => map_ok (fun b => (c, b)) (be_fix_int_ser k)) ks) (fun kbs =>
      collect (fun value_byte =>
        match value_byte with
        | Err e => Err (from_rocks_error e)
        | Ok (Some data) => map_ok Some (deserialize data)
        | Ok None => Ok None
        end) (map (fun ck => get_pinned_cf d ck.1 ck.2) kbs))) as ->.
  { unfold multi_get_core. destruct (collect _ ks); simpl; [by rewrite multi_get_spec|done]. }
  revert xs.
  induction ks as [|k ks IH]; intros xs; [done|].
  cbn [collect]. unfold get_core at 1. destruct (be_fix_int_ser k) as [kb|e]; simpl; [|done].
  destruct (collect _ ks) as [kbs|e] eqn:Hks; simpl in *.
  - destruct (get_pinned_cf d c kb) as [r|]; simpl; [|done].
    destruct (match r with Some data => map_ok Some (deserialize data) | None => Ok None end)
      as [x|e]; simpl; [|done].
    split; intros (ys & Hys & [= <-])%res_bind_ok; apply IH in Hys; by rewrite Hys.
  - split; [done|]. intros (x & _ & (ys & Hys & _)%res_bind_ok)%res_bind_ok. by apply IH in Hys.
Qed.

Lemma collect_m_reads {A B} (f : A -> M (result B TypedStoreError)) g w l :
  (forall x w', same_store w w' -> reads (f x) (g x) w') ->
  reads (collect_m f l) (collect g l) w.
Proof.
  intros Hf. assert (forall w', same_store w w' ->
    wp (collect_m f l) (fun o w2 => o = Ret (collect g l) /\ same_store w w2) w') as H; [|by apply H].
  induction l as [|x l IH]; intros w' Hw; simpl; [by apply wp_ret|].
  apply wp_try_bind. eapply wp_mono; [by apply Hf|]. intros o w1 [-> H1].
  assert (same_store w w1) by (by etrans). destruct (g x) as [y|e]; simpl; [|done].
  apply wp_try_bind. eapply wp_mono; [by apply IH|]. intros o w2 [-> H2].
  destruct (collect g l); simpl; [|done]. by apply wp_ret.
Qed.

(** the batched [multi_get] is equivalent to the trait's default: they
    succeed on the same key lists, with the same values in the same order. *)
Theorem multi_get_equiv self w d (ks : list K) :
  open_at self w d ->
  exists r1 r2,
    wp (DBMap_multi_get self ks) (fun o w' => o = Ret r1 /\ same_store w w') w /\
    wp (multi_get_default self ks) (fun o w' => o = Ret r2 /\ same_store w w') w /\
    forall xs, r1 = Ok xs <-> r2 = Ok xs.
Proof.
  intros Ho. exists (multi_get_core (dbmap_cf self) ks d),
    (collect (fun k => get_core (dbmap_cf self) k d) ks).
  split_and!; [by apply multi_get_reads| |by intros; apply multi_get_core_equiv].
  apply collect_m_reads. intros k w' Hs. apply get_reads. by eapply open_at_same.
Qed.

(** ** Ranges and clearing *)

(** a range deletion removes exactly the keys from [from], inclusive, to
    [to], exclusive, in the order of their serialized bytes, and only from the
    map's column family. *)
Theorem delete_range_write_spec self w d (from to : K) :
  open_at self w d ->
  wp (b <-? delete_range (DBMap_batch self) self from to ;; DBBatch_write b)
    (fun o w' => exists d', same_store (put_db (rocksdb self) d' w) w' /\
      (o = Ret (Ok tt) -> exists fb tb, ser_key from = Ok fb /\ ser_key to = Ok tb /\
         updated (dbmap_cf self)
           (filter (fun kx : bytes * bytes => ~ (bytes_le fb kx.1 /\ bytes_lt kx.1 tb))) d d')) w.
Proof.
  intros Ho. apply wp_try_bind. eapply wp_reads; [by apply (delete_range_reads self w d)|]. intros w1 H1.
  simpl. rewrite Nat.eqb_refl. unfold range_op, be_fix_int_ser.
  destruct (ser_key from) as [fb|]; simpl.
  2: { exists d. split; [|done]. by rewrite put_db_id by apply Ho. }
  destruct (ser_key to) as [tb|]; simpl.
  2: { exists d. split; [|done]. by rewrite put_db_id by apply Ho. }
  pose proof (open_at_same _ _ _ _ H1 Ho) as ((_ & Hs & _) & Hd & Hc).
  eapply wp_mono; [by apply (write_writes (add_op (DBMap_batch self) _))|].
  intros o w2 [-> H2]. eexists. split; [by rewrite <- H2; apply put_db_same|].
  unfold write_core. simpl. destruct (write_batch _ d) as [[[]|] d'] eqn:Hw; simpl; [|done].
  intros _. exists fb, tb. split_and!; [done..|]. apply write_spec in Hw.
  by apply alter_updated.
Qed.

(** [clear] empties the map's column family and no other.  It recreates the
    family even when dropping it was refused; when the recreation fails (as it
    does if the family is still there) the error is reported. *)
Theorem clear_spec self w d dflt :
  open_at self w d -> default_db_options w = (Ret dflt, w) ->
  wp (DBMap_clear self) (fun o w' => exists d', same_store (put_db (rocksdb self) d' w) w' /\
    ((o = Ret (Ok tt) /\ updated (dbmap_cf self) (fun _ => ∅) d d') \/
     (exists msg d1, create_cf (dbmap_cf self) (db_opts dflt) d1 = (Err msg, d') /\
        o = Ret (Err (RocksDBError msg))))) w.
Proof.
  intros Ho Hdflt. eapply wp_mono; [by apply clear_writes|]. intros o w' [-> Hs].
  eexists. split; [done|]. unfold clear_core.
  destruct (drop_cf (dbmap_cf self) d) as [r1 d1] eqn:Hdrop. apply drop_spec in Hdrop.
  destruct (create_cf (dbmap_cf self) (db_opts dflt) d1) as [[[]|msg] d2] eqn:Hcreate; simpl.
  - left. split; [done|]. apply create_spec in Hcreate.
    unfold updated. rewrite cf_handle_spec, Hcreate. split_and!.
    + rewrite lookup_insert_eq. by eexists.
    + by rewrite lookup_total_insert_eq.
    + intros c' Hc'. rewrite lookup_insert_ne by done.
      apply (f_equal (.!! c')) in Hdrop. by rewrite !lookup_delete_ne in Hdrop by done.
  - right. by exists msg, d1.
Qed.

End batch_theorems.
