(* ===== verification/IterTheorems.v ===== *)
(** * What loops over a map yield

    Iteration, seeking and reversal against the sorted entries of the column
    family, and where an entry that does not deserialize ends the loop. *)
From stdpp Require Import sorting.
From S2P Require Import Prelude Bytes Platform MetricsData World Sampling Metrics Errors Traits Rocks RocksIter RocksMap RocksSpec MapTheorems.
Open Scope nat_scope.
Set Default Proof Using "Type*".

Section iter_theorems.
Context {PF : Platform} {RL : RocksLaws} {K V : Type} `{!Serde K, !Serde V}.
Implicit Types (self : DBMap K V) (w : World) (d : db).

(** The raw entries of a map, in key order. *)
Definition rows self d : list entry := entries (table self d).

Lemma raw_rows self d :
  (iter_cursor (raw_iterator_cf d (dbmap_cf self))).1 = rows self d.
Proof. apply raw_iterator_spec. Qed.

Lemma rows_sorted self d :
  StronglySorted entry_lt (iter_cursor (raw_iterator_cf d (dbmap_cf self))).1.
Proof. rewrite raw_rows. apply entries_sorted. Qed.

Lemma first_iter_spec self w d :
  open_at self w d ->
  Iter_ok (first_iter self d) /\
  (iter_cursor (db_iter (first_iter self d))).1 = rows self d /\
  Iter_pending (first_iter self d) = rows self d.
Proof.
  intros ((_ & _ & _ & Hs) & _). unfold Iter_ok, Iter_pending, first_iter, Iter_new; cbn.
  destruct (seek_to_first_cursor (raw_iterator_cf d (dbmap_cf self))) as (Hc & Hl & Hp).
  rewrite Hl, Hp, raw_rows. done.
Qed.

(** A loop over an iterator obtained from [iter] by moves that cannot fail. *)
Lemma iter_then_drain {I A} (next : I -> M (option A * I)) dec pend ok (f : Iter K V -> I) self w d fuel :
  open_at self w d -> steps_through next dec pend ok ->
  ok (f (first_iter self d)) -> length (pend (f (first_iter self d))) < fuel ->
  wp (it <- DBMap_iter self ;; drain next fuel (f it)) (fun o w' =>
    same_store w w' /\ o = Ret (Some (decode_prefix dec (pend (f (first_iter self d)))))) w.
Proof.
  intros Ho Hsteps Hok Hlen. apply wp_bind. eapply wp_mono; [by apply iter_reads|].
  intros o w1 [-> H1]. eapply wp_mono; [by eapply drain_spec|]. intros o w2 [H2 ->].
  split; [by etrans|done].
Qed.

(** C3: a [for] loop over [iter()] yields the map's entries in increasing order
    of the serialized keys, each exactly once, decoded, and ends; it changes
    nothing.  It stops before the first entry that does not deserialize: the
    entries after one are not reached.  ([length] of the table plus one is
    enough fuel.) *)
Theorem iter_yields_sorted self w d fuel :
  open_at self w d -> length (rows self d) < fuel ->
  wp (it <- DBMap_iter self ;; drain Iter_next fuel it) (fun o w' =>
    same_store w w' /\ o = Ret (Some (decode_prefix decode_entry (rows self d)))) w /\
  StronglySorted entry_lt (rows self d) /\
  (forall kb vb, (kb, vb) ∈ rows self d <-> table self d !! kb = Some vb) /\
  (forall kvs : list (K * V),
     Forall2 (fun e kv => decode_entry e = Some kv) (rows self d) kvs ->
     decode_prefix decode_entry (rows self d) = kvs) /\
  (forall l1 e l2, rows self d = l1 ++ e :: l2 -> decode_entry (K:=K) (V:=V) e = None ->
     decode_prefix (decode_entry (K:=K) (V:=V)) (rows self d) = decode_prefix decode_entry l1).
Proof.
  intros Ho Hlen. destruct (first_iter_spec self w d Ho) as (Hok & _ & Hp). split_and!.
  - rewrite <- Hp in Hlen |- *.
    by apply (iter_then_drain Iter_next decode_entry Iter_pending Iter_ok (fun it => it) self w d fuel Ho Iter_steps).
  - apply entries_sorted.
  - intros. apply elem_of_entries.
  - intros. by apply decode_prefix_all.
  - intros l1 e l2 -> He. by apply decode_prefix_stop.
Qed.

(** [skip_to(key)] continues the loop at the first key not below [key] in
    serialized order: exactly the entries from there on follow. *)
Theorem skip_to_spec self w d (k : K) kb fuel :
  open_at self w d -> ser_key k = Ok kb -> length (rows self d) < fuel ->
  exists it, Iter_skip_to (first_iter self d) k = Ok it /\
  wp (drain Iter_next fuel it) (fun o w' => same_store w w' /\
    o = Ret (Some (decode_prefix decode_entry (at_least kb (rows self d))))) w.
Proof.
  intros Ho Hkb Hlen. unfold Iter_skip_to, be_fix_int_ser. rewrite Hkb. eexists. split; [done|].
  destruct (first_iter_spec self w d Ho) as ([_ Hs] & Hl & _).
  destruct (seek_cursor kb (db_iter (first_iter self d))) as (Hc & _ & Hp).
  { rewrite Hl. apply entries_sorted. }
  rewrite Hl in Hp. rewrite <- Hp.
  apply (drain_spec Iter_next decode_entry Iter_pending Iter_ok Iter_steps); [by split|].
  change (length (pending Forward (iter_cursor (seek kb (db_iter (first_iter self d))))) < fuel).
  rewrite Hp. eapply Nat.le_lt_trans; [|done]. apply length_filter.
Qed.

(** C31: [skip_prior_to(key).reverse()] walks down from [key]: exactly the
    entries with a key at most [key], in decreasing order. *)
Theorem skip_prior_to_reverse self w d (k : K) kb fuel :
  open_at self w d -> ser_key k = Ok kb -> length (rows self d) < fuel ->
  exists it, Iter_skip_prior_to (first_iter self d) k = Ok it /\
  wp (drain RevIter_next fuel (Iter_reverse it)) (fun o w' => same_store w w' /\
    o = Ret (Some (decode_prefix decode_entry (reverse (at_most kb (rows self d)))))) w.
Proof.
  intros Ho Hkb Hlen. unfold Iter_skip_prior_to, be_fix_int_ser. rewrite Hkb. eexists. split; [done|].
  destruct (first_iter_spec self w d Ho) as ([_ Hs] & Hl & _).
  destruct (seek_for_prev_cursor kb (db_iter (first_iter self d))) as (Hc & _ & Hp).
  { rewrite Hl. apply entries_sorted. }
  rewrite Hl in Hp. rewrite <- Hp.
  apply (drain_spec RevIter_next decode_entry (fun it => Iter_pending (rev_inner it))
    (fun it => Iter_ok (rev_inner it)) RevIter_steps); [by split|].
  change (length (pending Reverse (iter_cursor (seek_for_prev kb (db_iter (first_iter self d)))))
    < fuel).
  rewrite Hp, length_reverse.
  eapply Nat.le_lt_trans; [|done]. apply length_filter.
Qed.

(** reversal.  [iter().skip_to_last().reverse()] yields the whole table in
    decreasing order; [iter().reverse()] alone, still on the first entry,
    yields only that one. *)
Theorem reverse_spec self w d fuel :
  open_at self w d -> length (rows self d) < fuel ->
  wp (it <- DBMap_iter self ;; drain RevIter_next fuel (Iter_reverse (Iter_skip_to_last it)))
    (fun o w' => same_store w w' /\
      o = Ret (Some (decode_prefix decode_entry (reverse (rows self d))))) w /\
  wp (it <- DBMap_iter self ;; drain RevIter_next fuel (Iter_reverse it))
    (fun o w' => same_store w w' /\
      o = Ret (Some (decode_prefix decode_entry (take 1 (rows self d))))) w.
Proof.
  intros Ho Hlen. destruct (first_iter_spec self w d Ho) as ([Hc Hs] & Hl & _).
  destruct (seek_to_last_cursor (db_iter (first_iter self d))) as (Hc' & _ & Hp).
  rewrite Hl in Hp. split.
  - rewrite <- Hp.
    apply (iter_then_drain RevIter_next decode_entry (fun it => Iter_pending (rev_inner it))
      (fun it => Iter_ok (rev_inner it)) (fun it => Iter_reverse (Iter_skip_to_last it))
      self w d fuel Ho RevIter_steps); [by split|].
    change (length (pending Reverse (iter_cursor (seek_to_last (db_iter (first_iter self d)))))
      < fuel).
    by rewrite Hp, length_reverse.
  - rewrite <- (raw_rows self d), <- seek_to_first_reverse.
    apply (iter_then_drain RevIter_next decode_entry (fun it => Iter_pending (rev_inner it))
      (fun it => Iter_ok (rev_inner it)) Iter_reverse self w d fuel Ho RevIter_steps); [by split|].
    unfold Iter_pending; cbn. rewrite seek_to_first_reverse, raw_rows, length_take. lia.
Qed.

(** [keys()] and [values()] agree with [iter()] on a table that
    deserializes: they yield the keys, and the values, of the same entries in
    the same order. *)
Theorem keys_values_agree self w d (kvs : list (K * V)) fuel :
  open_at self w d -> Forall2 (fun e kv => decode_entry e = Some kv) (rows self d) kvs ->
  length (rows self d) < fuel ->
  wp (it <- DBMap_keys self ;; drain Keys_next fuel it) (fun o w' =>
    same_store w w' /\ o = Ret (Some kvs.*1)) w /\
  wp (it <- DBMap_values self ;; drain Values_next fuel it) (fun o w' =>
    same_store w w' /\ o = Ret (Some kvs.*2)) w.
Proof.
  intros Ho Hkvs Hlen.
  destruct (seek_to_first_cursor (raw_iterator_cf d (dbmap_cf self))) as (Hc & _ & Hp).
  rewrite raw_rows in Hp.
  assert (Forall2 (fun e k => decode_key e = Some k) (rows self d) kvs.*1 /\
    Forall2 (fun e v => decode_val e = Some v) (rows self d) kvs.*2) as [H1 H2].
  { clear -Hkvs. unfold decode_entry, decode_key, decode_val in *.
    induction Hkvs as [|e [k v] l kvs He _ [IH1 IH2]]; [by split; constructor|].
    destruct (de_key e.1) as [k'|] eqn:Hk, (de_val e.2) as [v'|] eqn:Hv; simplify_eq/=.
    split; constructor; simpl; try done; [by rewrite Hk|by rewrite Hv]. }
  split.
  - apply wp_bind. eapply wp_mono; [by apply keys_reads|]. intros o w1 [-> Hw1].
    eapply wp_mono; [apply (drain_spec Keys_next decode_key _ _ Keys_steps); [done|]|].
    + unfold Keys_new; cbn. by rewrite Hp.
    + intros o w2 [Hw2 ->]. split; [by etrans|]. unfold Keys_new; cbn. rewrite Hp.
      by rewrite (decode_prefix_all _ _ _ H1).
  - apply wp_bind. eapply wp_mono; [by apply values_reads|]. intros o w1 [-> Hw1].
    eapply wp_mono; [apply (drain_spec Values_next decode_val _ _ Values_steps); [done|]|].
    + unfold Values_new; cbn. by rewrite Hp.
    + intros o w2 [Hw2 ->]. split; [by etrans|]. unfold Values_new; cbn. rewrite Hp.
      by rewrite (decode_prefix_all _ _ _ H2).
Qed.

(** [is_empty] answers true exactly when the table has no entry or its first
    entry does not deserialize: on a table that deserializes it is right, but
    one undecodable smallest entry makes a full table look empty. *)
Theorem is_empty_spec self w d :
  open_at self w d ->
  wp (DBMap_is_empty self) (fun o w' => same_store w w' /\ exists b, o = Ret b /\
    (b = true <-> table self d = ∅ \/
       exists e l, rows self d = e :: l /\ decode_entry (K:=K) (V:=V) e = None)) w.
Proof.
  intros Ho. destruct (first_iter_spec self w d Ho) as (Hok & _ & Hp).
  apply wp_bind. eapply wp_mono; [by apply iter_reads|]. intros o w1 [-> H1].
  apply wp_bind. eapply wp_mono; [by apply Iter_steps|]. rewrite Hp. intros o w2 [H2 Hr].
  assert (same_store w w2) as Hw2 by (by etrans).
  destruct (rows self d) as [|e l] eqn:Hrows.
  - destruct Hr as [it' ->]. apply wp_ret. split; [done|]. eexists. split; [done|].
    split; [|done]. intros _. left. apply map_eq. intros kb. rewrite lookup_empty.
    apply eq_None_not_Some. intros [vb Hvb%elem_of_entries]. fold (rows self d) in Hvb.
    rewrite Hrows in Hvb. by apply not_elem_of_nil in Hvb.
  - destruct Hr as (it' & -> & _). apply wp_ret. split; [done|]. eexists. split; [done|].
    cbn [fst]. rewrite bool_decide_eq_true. split; [eauto|].
    intros [Hempty|(e' & l' & [= <- <-] & He)]; [|done].
    unfold rows in Hrows. by rewrite Hempty, entries_empty in Hrows.
Qed.

End iter_theorems.
