(* ===== verification/MapContract.v ===== *)
(** * [DBMap] keeps the contract of [Map]

    A map over a column family stands for the partial function its entries
    encode; every operation of the contract is discharged from the execution
    lemmas, and clients proved against the contract apply to [DBMap]. *)
From stdpp Require Import sorting.
From S2P Require Import Prelude Bytes Platform MetricsData World Sampling Metrics Errors Traits Rocks RocksIter RocksMap RocksSpec MapTheorems BatchTheorems IterTheorems.
Open Scope nat_scope.
Set Default Proof Using "Type*".

Section contract.
Context {PF : Platform} {RL : RocksLaws} {K V : Type} `{!Serde K, !Serde V}.
Context `{!SerdeLaws K, !SerdeLaws V, !EqDecision K}.
Implicit Types (self : DBMap K V) (w : World) (d : db) (t : gmap bytes bytes).

(** The table [t] encodes the partial function [m]: every entry is the encoding
    of a key and a value of [m], and every key of [m] has its entry. *)
Record typed_table t (m : K -> option V) : Prop := {
  tt_sound kb vb :
    t !! kb = Some vb -> exists k v, ser_key k = Ok kb /\ de_val vb = Ok v /\ m k = Some v;
  tt_complete k v :
    m k = Some v -> exists kb vb, ser_key k = Ok kb /\ t !! kb = Some vb /\ de_val vb = Ok v;
}.

Lemma typed_shows t m k kb : typed_table t m -> ser_key k = Ok kb -> shows t kb (m k).
Proof.
  intros Ht Hkb. unfold shows. destruct (t !! kb) as [vb|] eqn:Hvb.
  - destruct (tt_sound _ _ Ht _ _ Hvb) as (k' & v & Hk' & Hv & Hm).
    rewrite (ser_key_inj k k' kb) by done. by exists v.
  - destruct (m k) as [v|] eqn:Hm; [|done].
    destruct (tt_complete _ _ Ht _ _ Hm) as (kb' & vb & ? & ? & _). congruence.
Qed.

Lemma typed_insert t m k v kb vb :
  typed_table t m -> ser_key k = Ok kb -> ser_val v = Ok vb ->
  typed_table (<[kb := vb]> t) (<[k := Some v]> m).
Proof.
  intros Ht Hkb Hvb. split.
  - intros kb' vb' [[<- <-]|[Hne Hl]]%lookup_insert_Some.
    + exists k, v. rewrite fn_lookup_insert. split_and!; [done|by apply de_ser_val|done].
    + destruct (tt_sound _ _ Ht _ _ Hl) as (k' & v' & Hk' & Hv' & Hm). exists k', v'.
      rewrite fn_lookup_insert_ne; [done|]. intros <-. congruence.
  - intros k' v'. destruct (decide (k = k')) as [<-|Hne].
    + rewrite fn_lookup_insert. intros [= <-]. exists kb, vb. rewrite lookup_insert_eq.
      split_and!; [done..|by apply de_ser_val].
    + rewrite fn_lookup_insert_ne by done. intros Hm.
      destruct (tt_complete _ _ Ht _ _ Hm) as (kb' & vb' & Hkb' & Hl & Hv'). exists kb', vb'.
      rewrite lookup_insert_ne; [done|]. intros <-. destruct Hne. eauto using ser_key_inj.
Qed.

Lemma typed_delete t m k kb :
  typed_table t m -> ser_key k = Ok kb -> typed_table (delete kb t) (<[k := None]> m).
Proof.
  intros Ht Hkb. split.
  - intros kb' vb' [Hne Hl]%lookup_delete_Some.
    destruct (tt_sound _ _ Ht _ _ Hl) as (k' & v' & Hk' & Hv' & Hm). exists k', v'.
    rewrite fn_lookup_insert_ne; [done|]. intros <-. congruence.
  - intros k' v'. destruct (decide (k = k')) as [<-|Hne]; [by rewrite fn_lookup_insert|].
    rewrite fn_lookup_insert_ne by done. intros Hm.
    destruct (tt_complete _ _ Ht _ _ Hm) as (kb' & vb' & Hkb' & Hl & Hv'). exists kb', vb'.
    rewrite lookup_delete_ne; [done|]. intros <-. destruct Hne. eauto using ser_key_inj.
Qed.

(** The updates of a batch, one by one. *)
Lemma typed_alter (c : string) (v : contents) f m :
  is_Some (v !! c) -> typed_table (f (v !!! c)) m ->
  is_Some (alter f c v !! c) /\ typed_table (alter f c v !!! c) m.
Proof.
  intros [t Ht] Hm. rewrite lookup_total_alt, lookup_alter_eq, Ht.
  rewrite (lookup_total_correct _ _ _ Ht) in Hm. by split; [eexists|].
Qed.

Lemma typed_puts c (kvs : list (K * V)) ops (v : contents) m :
  collect (put_op c) kvs = Ok ops -> is_Some (v !! c) -> typed_table (v !!! c) m ->
  is_Some (apply_ops v ops !! c) /\ typed_table (apply_ops v ops !!! c) (insert_all m kvs).
Proof.
  revert ops v m. induction kvs as [|[k x] kvs IH]; intros ops v m; cbn [collect].
  - by intros [= <-].
  - intros (op & Hop & (ops' & Hops' & [= <-])%res_bind_ok)%res_bind_ok Hc Hm.
    unfold put_op, be_fix_int_ser, serialize in Hop. cbn [fst snd] in Hop.
    destruct (ser_key k) as [kb|] eqn:Hkb; simpl in Hop; [|done].
    destruct (ser_val x) as [vb|] eqn:Hvb; simpl in Hop; [|done]. injection Hop as <-.
    destruct (typed_alter c v <[kb := vb]> (<[k := Some x]> m) Hc) as [Hc' Hm'];
      [by apply typed_insert|]. by apply (IH ops' _ _ Hops').
Qed.

Lemma typed_deletes c (ks : list K) ops (v : contents) m :
  collect (delete_op c) ks = Ok ops -> is_Some (v !! c) -> typed_table (v !!! c) m ->
  is_Some (apply_ops v ops !! c) /\ typed_table (apply_ops v ops !!! c) (remove_all m ks).
Proof.
  revert ops v m. induction ks as [|k ks IH]; intros ops v m; cbn [collect].
  - by intros [= <-].
  - intros (op & Hop & (ops' & Hops' & [= <-])%res_bind_ok)%res_bind_ok Hc Hm.
    unfold delete_op, be_fix_int_ser in Hop.
    destruct (ser_key k) as [kb|] eqn:Hkb; simpl in Hop; [|done]. injection Hop as <-.
    destruct (typed_alter c v (delete kb) (<[k := None]> m) Hc) as [Hc' Hm'];
      [by apply typed_delete|]. by apply (IH ops' _ _ Hops').
Qed.

(** ** The contract *)

Definition DBMap_models self w (m : K -> option V) : Prop :=
  exists d, open_at self w d /\ typed_table (table self d) m.

Lemma models_same self w w' m : same_store w w' -> DBMap_models self w m -> DBMap_models self w' m.
Proof. intros Hs (d & Ho & Hm). exists d. split; [by eapply open_at_same|done]. Qed.

Lemma models_reads {A} self w m (c : M A) r :
  DBMap_models self w m -> reads c r w -> wp c (fun o w' => DBMap_models self w' m /\ o = Ret r) w.
Proof.
  intros Hm Hr. eapply wp_reads; [done|]. intros w' Hs. split; [|done].
  by eapply models_same.
Qed.

Lemma models_writes {A} self w d m (c : M A) rd :
  open_at self w d -> writes (rocksdb self) c rd w ->
  (is_Some (db_contents rd.2 !! dbmap_cf self) /\ typed_table (table self rd.2) m) ->
  wp c (fun o w' => o = Ret rd.1 /\ DBMap_models self w' m) w.
Proof.
  intros Ho Hw [Hc Hm]. eapply wp_writes; [done|]. intros w' Hs. split; [done|].
  eapply models_same; [exact Hs|]. exists rd.2. split; [|done].
  eapply open_at_put; [done|]. by apply cf_handle_spec.
Qed.

Lemma contract_get self w m k :
  DBMap_models self w m ->
  wp (DBMap_get self k) (fun o w' => DBMap_models self w' m /\
    exists r, o = Ret r /\ (forall x, r = Ok x -> x = m k)) w.
Proof.
  intros Hm. pose proof Hm as (d & Ho & Ht).
  eapply wp_mono; [eapply models_reads; [done|by apply get_reads]|]. intros o w' [Hm' ->].
  split; [done|]. eexists. split; [done|]. intros x Hx.
  apply get_core_ok in Hx as (kb & Hkb & Hx); [|apply Ho].
  eapply shows_fun; [exact Hx|]. by apply typed_shows.
Qed.

Lemma open_contents self w d : open_at self w d -> is_Some (db_contents d !! dbmap_cf self).
Proof. intros (_ & _ & Hc). by apply cf_handle_spec. Qed.

(** A write that succeeds carries the function along. *)
Lemma contract_write {A} self w d m' (c : M (result A TypedStoreError)) rd :
  open_at self w d -> writes (rocksdb self) c rd w ->
  (forall x, rd.1 = Ok x ->
     is_Some (db_contents rd.2 !! dbmap_cf self) /\ typed_table (table self rd.2) m') ->
  wp c (fun o w' => exists r, o = Ret r /\ (forall x, r = Ok x -> DBMap_models self w' m')) w.
Proof.
  intros Ho Hw Hok. destruct rd as [[x|e] d']; simpl in *.
  - eapply wp_mono; [eapply (models_writes self w d m' c (Ok x, d')); eauto|].
    intros o w' [-> Hm']. by eexists.
  - eapply wp_writes; [done|]. intros w' _. by eexists.
Qed.

Lemma contract_insert self w m k v :
  DBMap_models self w m ->
  wp (DBMap_insert self k v) (fun o w' => exists r, o = Ret r /\
    (r = Ok tt -> DBMap_models self w' (<[k := Some v]> m))) w.
Proof.
  intros (d & Ho & Ht).
  eapply wp_mono; [eapply (contract_write self w d (<[k := Some v]> m));
    [done|by apply insert_writes|]|intros o w' (r & -> & Hr); by exists r; eauto].
  intros []. destruct (insert_core _ k v d) as [r d'] eqn:Hins; simpl. intros ->.
  apply insert_core_ok in Hins as (kb & vb & Hkb & Hvb & Hput). apply put_spec in Hput.
  unfold table. rewrite Hput. apply typed_alter; [by eapply open_contents|]. by apply typed_insert.
Qed.

Lemma contract_remove self w m k :
  DBMap_models self w m ->
  wp (DBMap_remove self k) (fun o w' => exists r, o = Ret r /\
    (r = Ok tt -> DBMap_models self w' (<[k := None]> m))) w.
Proof.
  intros (d & Ho & Ht).
  eapply wp_mono; [eapply (contract_write self w d (<[k := None]> m));
    [done|by apply remove_writes|]|intros o w' (r & -> & Hr); by exists r; eauto].
  intros []. destruct (remove_core _ k d) as [r d'] eqn:Hrem; simpl. intros ->.
  apply remove_core_ok in Hrem as (kb & Hkb & Hdel). apply delete_spec in Hdel.
  unfold table. rewrite Hdel. apply typed_alter; [by eapply open_contents|]. by apply typed_delete.
Qed.

Lemma contract_multi_insert self w m kvs :
  DBMap_models self w m ->
  wp (DBMap_multi_insert self kvs) (fun o w' => exists r, o = Ret r /\
    (r = Ok tt -> DBMap_models self w' (insert_all m kvs))) w.
Proof.
  intros (d & Ho & Ht).
  eapply wp_mono; [eapply (contract_write self w d (insert_all m kvs));
    [done|by apply multi_insert_writes|]|intros o w' (r & -> & Hr); by exists r; eauto].
  intros []. destruct (batch_core _ kvs d) as [r d'] eqn:Hb; simpl. intros ->.
  apply batch_core_ok in Hb as (ops & Hops & Hd'). unfold table. rewrite Hd'.
  eapply typed_puts; [done|by eapply open_contents|done].
Qed.

Lemma contract_multi_remove self w m ks :
  DBMap_models self w m ->
  wp (DBMap_multi_remove self ks) (fun o w' => exists r, o = Ret r /\
    (r = Ok tt -> DBMap_models self w' (remove_all m ks))) w.
Proof.
  intros (d & Ho & Ht).
  eapply wp_mono; [eapply (contract_write self w d (remove_all m ks));
    [done|by apply multi_remove_writes|]|intros o w' (r & -> & Hr); by exists r; eauto].
  intros []. destruct (batch_core _ ks d) as [r d'] eqn:Hb; simpl. intros ->.
  apply batch_core_ok in Hb as (ops & Hops & Hd'). unfold table. rewrite Hd'.
  eapply typed_deletes; [done|by eapply open_contents|done].
Qed.

Lemma contract_multi_get self w m ks :
  DBMap_models self w m ->
  wp (DBMap_multi_get self ks) (fun o w' => DBMap_models self w' m /\
    exists r, o = Ret r /\ (forall xs, r = Ok xs -> xs = map m ks)) w.
Proof.
  intros Hm. pose proof Hm as (d & Ho & Ht).
  eapply wp_mono; [eapply models_reads; [done|by apply multi_get_reads]|]. intros o w' [Hm' ->].
  split; [done|]. eexists. split; [done|]. intros xs Hxs%multi_get_core_equiv%collect_ok.
  induction Hxs as [|k x ks xs Hx _ IH]; [done|]. simpl. f_equal; [|done].
  apply get_core_ok in Hx as (kb & Hkb & Hx); [|apply Ho].
  eapply shows_fun; [exact Hx|]. by apply typed_shows.
Qed.

(** ** Iteration *)

Lemma Forall2_choose {A B} (P : A -> B -> Prop) l :
  (forall x, x ∈ l -> exists y, P x y) -> exists ys, Forall2 P l ys.
Proof.
  induction l as [|x l IH]; intros H; [by exists []|].
  destruct (H x) as [y Hy]; [by left|]. destruct IH as [ys Hys].
  { intros z Hz. apply H. by right. }
  exists (y :: ys). by constructor.
Qed.

(** On a typed table every entry deserializes, to what the function says. *)
Lemma typed_decode t m e :
  typed_table t m -> e ∈ entries t ->
  exists k v, decode_entry e = Some (k, v) /\ m k = Some v /\ ser_key k = Ok e.1.
Proof.
  intros Ht He. destruct e as [kb vb]. apply elem_of_entries in He.
  destruct (tt_sound _ _ Ht _ _ He) as (k & v & Hkb & Hv & Hm). exists k, v.
  unfold decode_entry; cbn [fst snd]. rewrite (de_ser_key _ _ Hkb), Hv. done.
Qed.

Lemma typed_rows t m :
  typed_table t m ->
  exists kvs, Forall2 (fun e kv => decode_entry e = Some kv) (entries t) kvs /\
    NoDup kvs.*1 /\ forall k v, (k, v) ∈ kvs <-> m k = Some v.
Proof.
  intros Ht.
  destruct (Forall2_choose (fun e kv => decode_entry e = Some kv /\ m kv.1 = Some kv.2 /\
    ser_key kv.1 = Ok e.1) (entries t)) as [kvs Hkvs].
  { intros e He. destruct (typed_decode t m e Ht He) as (k & v & ? & ? & ?). by exists (k, v). }
  exists kvs. split_and!.
  - eapply Forall2_impl; [exact Hkvs|]. by intros e kv [].
  - apply NoDup_alt. intros i j k Hi Hj.
    apply list_lookup_fmap_Some in Hi as ([k1 v1] & -> & Hi).
    apply list_lookup_fmap_Some in Hj as ([k2 v2] & Heq & Hj). simpl in Heq; subst k2.
    destruct (Forall2_lookup_r _ _ _ _ _ Hkvs Hi) as (e1 & He1 & _ & _ & Hk1).
    destruct (Forall2_lookup_r _ _ _ _ _ Hkvs Hj) as (e2 & He2 & _ & _ & Hk2). simpl in *.
    assert (e1.1 = e2.1) by congruence.
    eapply (NoDup_lookup (entries t).*1); [apply entries_nodup_keys|..];
      rewrite list_lookup_fmap; [by rewrite He1|rewrite He2; simpl; by f_equal].
  - intros k v. split.
    + intros [i Hi]%list_elem_of_lookup.
      by destruct (Forall2_lookup_r _ _ _ _ _ Hkvs Hi) as (e & _ & _ & Hm & _).
    + intros Hm. destruct (tt_complete _ _ Ht _ _ Hm) as (kb & vb & Hkb & Hl & Hv).
      apply elem_of_entries, list_elem_of_lookup in Hl as [i Hi].
      destruct (Forall2_lookup_l _ _ _ _ _ Hkvs Hi) as ([k' v'] & Hi' & _ & Hm' & Hk').
      simpl in *. assert (k' = k) as -> by eauto using ser_key_inj.
      assert (v' = v) as -> by congruence. apply list_elem_of_lookup. by exists i.
Qed.

Lemma contract_iter self w m :
  DBMap_models self w m ->
  wp (DBMap_iter self) (fun o w1 => DBMap_models self w1 m /\ exists it, o = Ret it /\
    exists n, forall fuel, n < fuel ->
      wp (drain Iter_next fuel it) (fun o w2 => DBMap_models self w2 m /\
        exists kvs, o = Ret (Some kvs) /\ NoDup kvs.*1 /\
          forall k v, (k, v) ∈ kvs <-> m k = Some v) w1) w.
Proof.
  intros Hm. pose proof Hm as (d & Ho & Ht). eapply wp_reads; [by apply iter_reads|].
  intros w1 H1. split; [by eapply models_same|]. eexists. split; [done|].
  exists (length (rows self d)). intros fuel Hfuel.
  destruct (first_iter_spec self w d Ho) as (Hok & _ & Hp). rewrite <- Hp in Hfuel.
  eapply wp_mono; [exact (drain_spec Iter_next decode_entry Iter_pending Iter_ok Iter_steps fuel _ w1 Hok Hfuel)|].
  intros o w2 [H2 ->]. split; [eapply models_same; [exact H2|]; by eapply models_same|].
  destruct (typed_rows _ _ Ht) as (kvs & Hkvs & Hnd & Hel). exists kvs.
  rewrite Hp. fold (rows self d) in Hkvs. by rewrite (decode_prefix_all _ _ _ Hkvs).
Qed.

Lemma contract_get_raw self w m k :
  DBMap_models self w m ->
  wp (DBMap_get_raw_bytes self k) (fun o w' => DBMap_models self w' m /\ exists r, o = Ret r) w.
Proof.
  intros Hm. pose proof Hm as (d & Ho & Ht). eapply wp_reads; [by apply get_raw_reads|].
  intros w' Hs. split; [by eapply models_same|by eexists].
Qed.

#[export] Instance DBMap_MapLaws : MapLaws (DBMap K V) K V := {|
  models := DBMap_models;
  get_law := contract_get;
  get_raw_bytes_law := contract_get_raw;
  insert_law := contract_insert;
  remove_law := contract_remove;
  multi_get_law := contract_multi_get;
  multi_insert_law := contract_multi_insert;
  multi_remove_law := contract_multi_remove;
  iter_law := contract_iter;
|}.

(** C30: [get_or_insert_unsafe] on a [DBMap], by the proof of its body against
    the contract: whenever it answers a value, it is the one stored, if there
    was one (then nothing changes), and otherwise the default, which is now
    stored under the key and nowhere else; the [expect] on the second [get]
    never fires. *)
Theorem get_or_insert_unsafe_DBMap self w (m : K -> option V) k v :
  DBMap_models self w m ->
  wp (get_or_insert_unsafe self k (ret v)) (fun o w' => exists r, o = Ret r /\
    forall x, r = Ok x -> x = default v (m k) /\
      DBMap_models self w' (if m k is Some _ then m else <[k := Some v]> m)) w.
Proof.
  intros Hm.
  eapply wp_mono;
    [apply (get_or_insert_unsafe_spec (MapLaws0:=DBMap_MapLaws) self w m k (ret v) v Hm)|].
  - intros w1 Hm1. by apply wp_ret.
  - intros o w' (r & -> & Hr). exists r. split; [done|]. intros x Hx.
    destruct (Hr x Hx) as [-> Hm']. split; [by destruct (m k)|done].
Qed.

End contract.
