(* ===== verification/Isolation.v ===== *)
(** * Tables do not disturb each other

    What an operation of one map can change of the store: the column family it
    writes to, in its own database.  Every other table stays what it is, also
    when the operation fails or panics.  [confined] is this guarantee, [apart]
    when two handles are different tables. *)
From S2P Require Import Prelude Bytes Platform MetricsData World Sampling Metrics Errors Traits Rocks RocksIter RocksMap RocksSpec MapTheorems BatchTheorems IterTheorems MapContract.
Open Scope nat_scope.
Set Default Proof Using "Type*".

Section isolation.
Context {PF : Platform} {RL : RocksLaws}.

(** ** What a computation may touch *)

(** [w'] is [w] up to the contents of one column family. *)
Definition touches (a : arc) (c : string) (w w' : World) : Prop :=
  exists d d', w_dbs w !! a = Some d /\ same_store (put_db a d' w) w' /\
    delete c (db_contents d') = delete c (db_contents d).

(** However it ends, [m] touches only that family. *)
Definition confined {A} (a : arc) (c : string) (m : M A) (w : World) : Prop :=
  wp m (fun _ w' => touches a c w w') w.

Lemma touches_same a c d w w' : w_dbs w !! a = Some d -> same_store w w' -> touches a c w w'.
Proof. intros Hd Hs. exists d, d. by rewrite put_db_id. Qed.

Lemma put_db_put a d d' w : put_db a d (put_db a d' w) = put_db a d w.
Proof. unfold put_db, set_dbs; simpl. by rewrite insert_insert_eq. Qed.

Lemma touches_trans a c w1 w2 w3 : touches a c w1 w2 -> touches a c w2 w3 -> touches a c w1 w3.
Proof.
  intros (d1 & d1' & H1 & Hs1 & Hc1) (d2 & d2' & H2 & Hs2 & Hc2). exists d1, d2'.
  rewrite <- Hs1 in H2. unfold put_db, set_dbs in H2; simpl in H2.
  rewrite lookup_insert_eq in H2. injection H2 as ->.
  split_and!; [done| |by rewrite Hc2].
  rewrite <- Hs2, <- (put_db_same _ _ _ _ Hs1). by rewrite put_db_put.
Qed.

Lemma confined_reads {A} a c (m : M A) r w d :
  w_dbs w !! a = Some d -> reads m r w -> confined a c m w.
Proof. intros Hd Hr. eapply wp_reads; [done|]. intros w' Hs. by eapply touches_same. Qed.

Lemma confined_writes {A} a c (m : M A) rd w d :
  w_dbs w !! a = Some d -> writes a m rd w ->
  delete c (db_contents rd.2) = delete c (db_contents d) -> confined a c m w.
Proof. intros Hd Hw Hc. eapply wp_writes; [done|]. intros w' Hs. by exists d, rd.2. Qed.

(** ** The cores *)

Definition op_cf (op : batch_op) : string :=
  match op with BatchPut c _ _ | BatchDelete c _ | BatchDeleteRange c _ _ => c end.

(** Updates of one family leave the others alone and its own in place. *)
Lemma apply_ops_frame c ops (v : contents) :
  Forall (fun op => op_cf op = c) ops ->
  delete c (apply_ops v ops) = delete c v /\ (is_Some (v !! c) -> is_Some (apply_ops v ops !! c)).
Proof.
  intros Hops. revert v. induction Hops as [|op ops <- _ IH]; intros v; [done|].
  destruct (IH (apply_op v op)) as [Hd Hs]. cbn [apply_ops foldl]. fold (apply_ops (apply_op v op) ops).
  assert (exists f, apply_op v op = alter f (op_cf op) v) as [f Hf]
    by (destruct op; by eexists).
  split; [by rewrite Hd, Hf, delete_alter_eq|]. intros Hv. apply Hs. rewrite Hf.
  rewrite lookup_alter_eq. destruct Hv as [t ->]. by eexists.
Qed.

(** A core that keeps to its family [c] and keeps that family. *)
Definition keeps (c : string) (d d' : db) : Prop :=
  delete c (db_contents d') = delete c (db_contents d) /\
  (is_Some (db_contents d !! c) -> is_Some (db_contents d' !! c)).

Lemma write_core_keeps c ops d :
  Forall (fun op => op_cf op = c) ops -> keeps c d (write_core ops d).2.
Proof.
  intros Hops. unfold write_core. destruct (write_batch ops d) as [[[]|e] d'] eqn:Hw; simpl.
  - apply write_spec in Hw. unfold keeps. rewrite Hw. by apply apply_ops_frame.
  - apply write_err_spec in Hw. unfold keeps. by rewrite Hw.
Qed.

Lemma batch_core_keeps {A} c (op : A -> result batch_op TypedStoreError) l d :
  (forall x o, op x = Ok o -> op_cf o = c) -> keeps c d (batch_core op l d).2.
Proof.
  intros Hop. unfold batch_core. destruct (collect op l) as [ops|e] eqn:Hc; [|done].
  apply write_core_keeps. apply collect_ok in Hc.
  induction Hc; constructor; eauto.
Qed.

Context {K V : Type} `{!Serde K, !Serde V}.
Implicit Types (self : DBMap K V).

Lemma insert_core_keeps c (k : K) (v : V) d : keeps c d (insert_core c k v d).2.
Proof.
  unfold insert_core. destruct (be_fix_int_ser k) as [kb|]; [|done].
  destruct (serialize v) as [vb|]; [|done].
  destruct (put_cf c kb vb d) as [r d'] eqn:Hp. by apply put_frame in Hp.
Qed.

Lemma remove_core_keeps c (k : K) d : keeps c d (remove_core c k d).2.
Proof.
  unfold remove_core. destruct (be_fix_int_ser k) as [kb|]; [|done].
  destruct (delete_cf c kb d) as [r d'] eqn:Hp. by apply delete_frame in Hp.
Qed.

Lemma put_op_cf c (kv : K * V) op : put_op c kv = Ok op -> op_cf op = c.
Proof.
  unfold put_op. destruct (be_fix_int_ser kv.1); simpl; [|done].
  destruct (serialize kv.2); simpl; [|done]. by intros [= <-].
Qed.

Lemma delete_op_cf c (k : K) op : delete_op c k = Ok op -> op_cf op = c.
Proof. unfold delete_op. destruct (be_fix_int_ser k); simpl; [|done]. by intros [= <-]. Qed.

Lemma clear_core_frame c o d :
  delete c (db_contents (clear_core c o d).2) = delete c (db_contents d).
Proof.
  unfold clear_core. destruct (drop_cf c d) as [r1 d1] eqn:Hd. apply drop_spec in Hd.
  destruct (create_cf c o d1) as [[[]|e] d2] eqn:Hc; simpl.
  - apply create_spec in Hc. by rewrite Hc, delete_insert_eq.
  - apply create_err_spec in Hc. by rewrite Hc.
Qed.

(** ** Handles that stay open *)

Definition opened self w : Prop := exists d, open_at self w d.

(** [m] touches only the family of [self], and [self] is open after it. *)
Definition contained {A} self (m : M A) w : Prop :=
  wp m (fun _ w' => touches (rocksdb self) (dbmap_cf self) w w' /\ opened self w') w.

Lemma contained_same {A} self (m : M A) w :
  opened self w -> wp m (fun _ w' => same_store w w') w -> contained self m w.
Proof.
  intros [d Ho] Hm. eapply wp_mono; [exact Hm|]. intros o w' Hs. split.
  - eapply touches_same; [apply Ho|done].
  - exists d. by eapply open_at_same; [exact Hs|].
Qed.

Lemma contained_reads {A} self (m : M A) r w : opened self w -> reads m r w -> contained self m w.
Proof.
  intros Ho Hr. apply contained_same; [done|]. by eapply wp_reads; [exact Hr|].
Qed.

Lemma contained_writes {A} self (m : M A) rd w d :
  open_at self w d -> writes (rocksdb self) m rd w -> keeps (dbmap_cf self) d rd.2 ->
  contained self m w.
Proof.
  intros Ho Hw [Hd Hs]. eapply wp_writes; [done|]. intros w' Hw'. split.
  - exists d, rd.2. split_and!; [apply Ho|done..].
  - exists rd.2. eapply open_at_same; [exact Hw'|]. eapply open_at_put; [done|].
    by apply cf_handle_spec, Hs, cf_handle_spec, Ho.
Qed.

Lemma contained_bind {A B} self (m : M A) (k : A -> M B) w :
  contained self m w -> (forall x w', opened self w' -> contained self (k x) w') ->
  contained self (bind m k) w.
Proof.
  unfold contained. intros Hm Hk. apply wp_bind. eapply wp_mono; [exact Hm|].
  intros [x|msg] w1 [H1 Ho]; [|done]. eapply wp_mono; [by apply Hk|].
  intros o w2 [H2 Ho2]. split; [by eapply touches_trans|done].
Qed.

Lemma contained_touches {A} self (m : M A) w :
  contained self m w -> wp m (fun _ w' => touches (rocksdb self) (dbmap_cf self) w w') w.
Proof. unfold contained. intros Hm. eapply wp_mono; [exact Hm|]. by intros o w' []. Qed.

Lemma contained_ret {A} self (x : A) w : opened self w -> contained self (ret x) w.
Proof. intros Ho. apply contained_same; [done|]. by apply wp_ret. Qed.

(** ** The operations of a map *)

(** Every operation of the trait. *)
Inductive table_op : Type :=
| OpContainsKey (k : K)
| OpGet (k : K)
| OpGetRawBytes (k : K)
| OpInsert (k : K) (v : V)
| OpRemove (k : K)
| OpClear
| OpIsEmpty
| OpIter (fuel : nat)
| OpKeys (fuel : nat)
| OpValues (fuel : nat)
| OpMultiGet (ks : list K)
| OpMultiInsert (kvs : list (K * V))
| OpMultiRemove (ks : list K)
| OpGetOrInsertUnsafe (k : K) (v : V)
| OpTryCatchUpWithPrimary.

Definition ignore {A} (m : M A) : M unit := _ <- m ;; ret tt.

(** An operation; one that answers an iterator is followed by a loop over it. *)
Definition run_op self (op : table_op) : M unit :=
  match op with
  | OpContainsKey k => ignore (contains_key self k)
  | OpGet k => ignore (get self k)
  | OpGetRawBytes k => ignore (get_raw_bytes self k)
  | OpInsert k v => ignore (insert self k v)
  | OpRemove k => ignore (remove self k)
  | OpClear => ignore (clear self)
  | OpIsEmpty => ignore (is_empty self)
  | OpIter fuel => ignore (it <- iter self ;; drain Traits.Iterator_next fuel it)
  | OpKeys fuel => ignore (it <- keys self ;; drain Traits.Keys_next fuel it)
  | OpValues fuel => ignore (it <- values self ;; drain Traits.Values_next fuel it)
  | OpMultiGet ks => ignore (multi_get self ks)
  | OpMultiInsert kvs => ignore (multi_insert self kvs)
  | OpMultiRemove ks => ignore (multi_remove self ks)
  | OpGetOrInsertUnsafe k v => ignore (get_or_insert_unsafe self k (ret v))
  | OpTryCatchUpWithPrimary => ignore (try_catch_up_with_primary self)
  end.

(** The one that takes over what another process wrote, to any family. *)
Definition is_catch_up (op : table_op) : bool :=
  match op with OpTryCatchUpWithPrimary => true | _ => false end.

Lemma ignore_contained {A} self (m : M A) w : contained self m w -> contained self (ignore m) w.
Proof. intros Hm. apply contained_bind; [done|]. intros x w'. apply contained_ret. Qed.

(** A loop over what [f] makes of an iterator, with any fuel. *)
Lemma loop_contained {I A} (next : I -> M (option A * I)) dec pend ok self (m : M I) it fuel w :
  steps_through next dec pend ok -> ok it -> opened self w -> reads m it w ->
  contained self (i <- m ;; drain next fuel i) w.
Proof.
  intros Hnext Hok Ho Hr. apply contained_same; [done|]. apply wp_bind.
  eapply wp_reads; [exact Hr|]. intros w' Hs. eapply wp_mono; [by eapply drain_same|].
  intros o w2 Hs2. by etrans.
Qed.

Lemma get_contained self k w : opened self w -> contained self (DBMap_get self k) w.
Proof. intros [d Ho]. eapply contained_reads; [by exists d|by apply get_reads]. Qed.

Lemma insert_contained self k v w : opened self w -> contained self (DBMap_insert self k v) w.
Proof. intros [d Ho]. eapply contained_writes; [done|by apply insert_writes|apply insert_core_keeps]. Qed.

Lemma remove_contained self k w : opened self w -> contained self (DBMap_remove self k) w.
Proof. intros [d Ho]. eapply contained_writes; [done|by apply remove_writes|apply remove_core_keeps]. Qed.

Lemma multi_insert_contained self kvs w :
  opened self w -> contained self (DBMap_multi_insert self kvs) w.
Proof.
  intros [d Ho]. eapply contained_writes; [done|by apply multi_insert_writes|].
  apply batch_core_keeps. apply put_op_cf.
Qed.

Lemma multi_remove_contained self ks w :
  opened self w -> contained self (DBMap_multi_remove self ks) w.
Proof.
  intros [d Ho]. eapply contained_writes; [done|by apply multi_remove_writes|].
  apply batch_core_keeps. apply delete_op_cf.
Qed.

Lemma iter_contained self fuel w :
  opened self w -> contained self (it <- DBMap_iter self ;; drain Iter_next fuel it) w.
Proof.
  intros [d Ho]. eapply loop_contained; [by apply Iter_steps| |by exists d|by apply iter_reads].
  by eapply first_iter_spec.
Qed.

Lemma clear_touches self w :
  opened self w ->
  wp (DBMap_clear self) (fun _ w' => touches (rocksdb self) (dbmap_cf self) w w') w.
Proof.
  intros [d Ho]. pose proof Ho as (_ & Hd & _).
  destruct (default_db_options w) as [o w1] eqn:Hopt.
  assert (w1 = w) as -> by (rewrite default_db_options_eq in Hopt; by injection Hopt).
  destruct o as [dflt|msg].
  - eapply confined_writes; [done|by apply clear_writes|apply clear_core_frame].
  - unfold DBMap_clear. apply wp_bind. eapply wp_with_db; [done|].
    destruct (drop_cf (dbmap_cf self) d) as [r d1] eqn:Hdrop. cbn [fst snd].
    fold (put_db (rocksdb self) d1 w). apply wp_bind.
    assert (exists msg', default_db_options (put_db (rocksdb self) d1 w) =
      (Panicked msg', put_db (rocksdb self) d1 w)) as [msg' Hopt'].
    { rewrite default_db_options_eq in Hopt |- *.
      change (size_in_force (put_db _ _ _)) with (size_in_force w).
      injection Hopt as Ho'. rewrite Ho'. by eexists. }
    unfold wp. rewrite Hopt'. exists d, d1. split_and!; [done..|by eapply drop_spec].
Qed.

(** Catching up changes one database. *)
Lemma catch_up_touches self w :
  opened self w ->
  wp (run_op self OpTryCatchUpWithPrimary)
    (fun _ w' => exists d', w' = put_db (rocksdb self) d' w) w.
Proof.
  intros (d & _ & Hd & _). cbn [run_op]. unfold ignore. apply wp_bind, wp_bind.
  eapply wp_with_db; [exact Hd|]. by apply wp_ret, wp_ret; eexists.
Qed.

Lemma run_op_touches self op w :
  opened self w -> is_catch_up op = false ->
  wp (run_op self op) (fun _ w' => touches (rocksdb self) (dbmap_cf self) w w') w.
Proof.
  intros Ho Hop. assert (forall A (m : M A), contained self m w ->
    wp (ignore m) (fun _ w' => touches (rocksdb self) (dbmap_cf self) w w') w) as Hcont.
  { intros A m Hm. by apply contained_touches, ignore_contained. }
  pose proof Ho as [d Hd]. assert (raw_rows_ok : cursor_ok
    (iter_cursor (seek_to_first (raw_iterator_cf d (dbmap_cf self))))) by apply seek_to_first_cursor.
  destruct op as [k|k|k|k v|k| | |fuel|fuel|fuel|ks|kvs|ks|k v|]; [..|discriminate Hop]; cbn [run_op].
  6: { apply wp_bind. eapply wp_mono; [by apply clear_touches|].
       intros [r|msg] w' Hw'; [by apply wp_ret|done]. }
  all: apply Hcont.
  - eapply contained_reads; [done|by apply contains_reads].
  - by apply get_contained.
  - eapply contained_reads; [done|by apply get_raw_reads].
  - by apply insert_contained.
  - by apply remove_contained.
  - apply contained_same; [done|]. eapply wp_mono; [by apply is_empty_spec|]. by intros o w' [].
  - by apply iter_contained.
  - eapply loop_contained; [apply Keys_steps| |done|by apply keys_reads]. exact raw_rows_ok.
  - eapply loop_contained; [apply Values_steps| |done|by apply values_reads]. exact raw_rows_ok.
  - eapply contained_reads; [done|by apply multi_get_reads].
  - by apply multi_insert_contained.
  - by apply multi_remove_contained.
  - apply contained_bind; [by apply get_contained|]. intros [[v'|]|e] w1 H1; [by apply contained_ret| |by apply contained_ret].
    apply contained_bind; [by apply contained_ret|]. intros v1 w2 H2.
    apply contained_bind; [by apply insert_contained|]. intros [[]|e] w3 H3; [|by apply contained_ret].
    apply contained_bind; [by apply get_contained|]. intros r w4 H4. apply contained_same; [done|].
    unfold expect. by destruct (transpose r).
Qed.
End isolation.

Section apart.
Context {PF : Platform} {RL : RocksLaws}.
Context {K V K' V' : Type} `{!Serde K, !Serde V, !Serde K', !Serde V'}.
Implicit Types (self : DBMap K V) (other : DBMap K' V').

(** Handles of different tables: of different families or databases. *)
Definition apart self other : Prop :=
  ~ (rocksdb other = rocksdb self /\ dbmap_cf other = dbmap_cf self).

Lemma touches_open self other w w' d :
  apart self other -> touches (rocksdb self) (dbmap_cf self) w w' -> open_at other w d ->
  exists d', open_at other w' d' /\ table other d' = table other d.
Proof.
  intros Hne (d0 & d1 & Hd0 & Hs & Hc) (Hwf & Hd & Hcf). unfold apart in Hne.
  destruct (decide (rocksdb other = rocksdb self)) as [Ha|Ha].
  - rewrite Ha in Hd. assert (d0 = d) as -> by congruence.
    assert (db_contents d1 !! dbmap_cf other = db_contents d !! dbmap_cf other) as Heq.
    { pose proof (f_equal (fun m => m !! dbmap_cf other) Hc) as Hl. simpl in Hl.
      by rewrite !lookup_delete_ne in Hl by naive_solver. }
    exists d1. split.
    + eapply open_at_same; [exact Hs|]. split_and!; [done| |].
      * rewrite Ha. by apply lookup_insert_eq.
      * apply cf_handle_spec. rewrite Heq. by apply cf_handle_spec.
    + unfold table. by rewrite !lookup_total_alt, Heq.
  - exists d. split; [|done]. eapply open_at_same; [exact Hs|]. split_and!; [done| |done].
    unfold put_db, set_dbs; simpl. by rewrite lookup_insert_ne.
Qed.

(** C12: tables are isolated.  Whatever operation of the trait is run on one map,
    whatever it answers and even if it fails or panics, every other open table of
    the same or another database stays open and holds what it held; only for
    [try_catch_up_with_primary], which brings a whole database up to date, must
    the other table be one of another database. *)
Theorem tables_isolated self other op w d d' :
  open_at self w d -> open_at other w d' -> apart self other ->
  (is_catch_up op = true -> rocksdb other <> rocksdb self) ->
  wp (run_op self op) (fun _ w' => exists d1,
    open_at other w' d1 /\ table other d1 = table other d') w.
Proof.
  intros Ho Ho' Hne Hup. destruct (is_catch_up op) eqn:Hop.
  - destruct op; try discriminate Hop. eapply wp_mono; [apply catch_up_touches; by exists d|].
    intros o w' [d1 ->]. exists d'. split; [|done]. destruct Ho' as (Hwf & Hd & Hcf).
    split_and!; [done| |done]. unfold put_db, set_dbs; simpl.
    rewrite lookup_insert_ne; [done|]. intros E. by apply Hup.
  - eapply wp_mono; [apply run_op_touches; [by exists d|done]|].
    intros o w' Ht. exact (touches_open _ _ _ _ _ Hne Ht Ho').
Qed.

Lemma touches_models `{!SerdeLaws K', !SerdeLaws V', !EqDecision K'} self other w w' m :
  apart self other -> touches (rocksdb self) (dbmap_cf self) w w' ->
  DBMap_models other w m -> DBMap_models other w' m.
Proof.
  intros Hne Ht (d & Ho & Hm). destruct (touches_open _ _ _ _ _ Hne Ht Ho) as (d' & Ho' & Heq).
  exists d'. split; [done|]. by rewrite Heq.
Qed.
End apart.
