(* ===== verification/Threads.v ===== *)
(** * Threads that share a map (typed-store/src/traits.rs, rocks/iter.rs)

    The trait says that [get_or_insert_unsafe] is not thread safe and that the
    provided [multi_*] methods are not atomic: they are several calls, between
    which other threads may run.  A thread is a resumption, the calls it has
    still to make; a call is atomic, as the methods of [DBMap] are one call of
    RocksDB each.  Iterators read a snapshot, so that what others do between two
    items does not matter. *)
From S2P Require Import Prelude Bytes Platform MetricsData World Sampling Metrics Errors Traits Rocks RocksIter RocksMap RocksSpec MapTheorems BatchTheorems IterTheorems MapContract.
Open Scope nat_scope.
Set Default Proof Using "Type*".

Section threads.
Context {PF : Platform}.

(** ** Threads *)

(** What a thread does: a call of the map, and then the rest; or it has ended,
    with a value or a panic. *)
Inductive thread (A : Type) : Type :=
| Ended (o : outcome A)
| Calls {R : Type} (call : M R) (rest : R -> thread A).
Arguments Ended {A}.
Arguments Calls {A R}.

(** The next call of a thread, in a world. *)
Definition thread_step {A} (p : thread A) (w : World) : thread A * World :=
  match p with
  | Ended o => (Ended o, w)
  | Calls call rest =>
      match call w with
      | (Ret x, w') => (rest x, w')
      | (Panicked msg, w') => (Ended (Panicked msg), w')
      end
  end.

(** A thread that runs alone. *)
Fixpoint alone {A} (p : thread A) : M A :=
  match p with
  | Ended o => fun w => (o, w)
  | Calls call rest => x <- call ;; alone (rest x)
  end.

(** Threads over one world, moved in the order of a schedule. *)
Definition move_thread {A} (i : nat) (c : list (thread A) * World) : list (thread A) * World :=
  match c.1 !! i with
  | Some p => (<[i := (thread_step p c.2).1]> c.1, (thread_step p c.2).2)
  | None => c
  end.

Definition interleave {A} (schedule : list nat) (c : list (thread A) * World) :
    list (thread A) * World :=
  foldl (fun c i => move_thread i c) c schedule.

(** A thread that has ended after [n] calls, whatever they answer. *)
Fixpoint within {A} (n : nat) (p : thread A) {struct p} : Prop :=
  match p, n with
  | Ended _, _ => True
  | Calls _ _, O => False
  | Calls _ rest, S n' => forall x, within n' (rest x)
  end.

Lemma within_step {A} n (p : thread A) w : within n p -> within (pred n) (thread_step p w).1.
Proof.
  destruct p as [o|R call rest]; [done|]. destruct n as [|n]; [done|]. intros Hp. simpl.
  destruct (call w) as [[x|msg] w']; [apply Hp|exact I].
Qed.

Lemma move_lookup {A} i j (ps : list (thread A)) w p :
  ps !! j = Some p ->
  (move_thread i (ps, w)).1 !! j = Some (if decide (i = j) then (thread_step p w).1 else p).
Proof.
  intros Hj. unfold move_thread; cbn [fst snd]. destruct (decide (i = j)) as [->|Hne].
  - rewrite Hj. cbn [fst]. rewrite list_lookup_insert_eq; [done|]. by eapply lookup_lt_Some.
  - destruct (ps !! i) as [q|]; [|done]. cbn [fst]. by rewrite list_lookup_insert_ne.
Qed.

Lemma interleave_within {A} schedule : forall (ps : list (thread A)) w (j : nat) (p : thread A) n,
  ps !! j = Some p -> within n p ->
  exists p', (interleave schedule (ps, w)).1 !! j = Some p' /\
    within (n - count_occ Nat.eq_dec schedule j) p'.
Proof.
  induction schedule as [|i schedule IH]; intros ps w j p n Hj Hp.
  - exists p. cbn. by rewrite Nat.sub_0_r.
  - cbn [interleave foldl]. pose proof (move_lookup i j ps w p Hj) as Hm.
    destruct (move_thread i (ps, w)) as [ps1 w1]; cbn [fst] in Hm. cbn [count_occ].
    destruct (decide (i = j)) as [->|Hne].
    + destruct (IH ps1 w1 j _ _ Hm (within_step n p w Hp)) as (p' & ? & Hp').
      exists p'. split; [done|]. destruct (Nat.eq_dec j j) as [_|]; [|done].
      by replace (n - S _) with (pred n - count_occ Nat.eq_dec schedule j) by lia.
    + destruct (Nat.eq_dec i j); [done|]. by eapply IH.
Qed.

Context {T K V : Type} `{!Map T K V, !EqDecision K}.
Abbreviation map_error := (Error (T:=T) (K:=K) (V:=V)).

(** The calls of [get_or_insert_unsafe], from the last to the first. *)
Definition reading_back (self : T) (key : K) : thread (result V map_error) :=
  Calls (get self key) (fun r =>
    match transpose r with
    | Some x => Ended (Ret x)
    | None => Ended (Panicked "default just inserted")
    end).

Definition writing (self : T) (key : K) (v : V) : thread (result V map_error) :=
  Calls (insert self key v) (fun r =>
    match r with Err e => Ended (Ret (Err e)) | Ok _ => reading_back self key end).

Definition get_or_insert_calls (self : T) (key : K) (default : M V) : thread (result V map_error) :=
  Calls (get self key) (fun optv =>
    match optv with
    | Err e => Ended (Ret (Err e))
    | Ok (Some v) => Ended (Ret (Ok v))
    | Ok None => Calls default (writing self key)
    end).

(** The calls of the provided [multi_insert] and [multi_remove]. *)
Fixpoint for_each_calls {B} (call : B -> M (result unit map_error)) (l : list B) :
    thread (result unit map_error) :=
  match l with
  | [] => Ended (Ret (Ok tt))
  | x :: l' =>
      Calls (call x) (fun r =>
        match r with Ok _ => for_each_calls call l' | Err e => Ended (Ret (Err e)) end)
  end.

(** Alone, the calls are the methods. *)
Lemma get_or_insert_alone (self : T) key default w :
  alone (get_or_insert_calls self key default) w = get_or_insert_unsafe self key default w.
Proof.
  unfold get_or_insert_unsafe, get_or_insert_calls, writing, reading_back. cbn [alone]. unfold try_bind, bind.
  destruct (get self key w) as [[[[v|]|e]|msg] w1]; [done| |done|done]. cbn [alone]. unfold bind.
  destruct (default w1) as [[v|msg] w2]; [|done].
  destruct (insert self key v w2) as [[[[]|e]|msg] w3]; [|done..]. cbn [alone]. unfold bind.
  destruct (get self key w3) as [[r|msg] w4]; [|done]. by destruct (transpose r).
Qed.

Lemma multi_insert_alone (self : T) kvs w :
  alone (for_each_calls (fun kv : K * V => insert self kv.1 kv.2) kvs) w = multi_insert_default self kvs w.
Proof.
  unfold multi_insert_default. revert w. induction kvs as [|kv kvs IH]; intros w; [done|].
  cbn [for_each_calls alone try_for_each]. unfold try_bind, bind.
  destruct (insert self kv.1 kv.2 w) as [[[[]|e]|msg] w1]; [apply IH|done..].
Qed.

(** ** [get_or_insert_unsafe] from several threads *)

(** One thread per key and default. *)
Definition get_or_insert_pool (self : T) (ts : list (K * V)) : list (thread (result V map_error)) :=
  map (fun kv => get_or_insert_calls self kv.1 (ret kv.2)) ts.

Lemma get_or_insert_within self key default : within 4 (get_or_insert_calls self key default).
Proof.
  intros [[v|]|e]; [done| |done]. intros v [[]|e]; [|done]. intros r. by destruct (transpose r).
Qed.

Context `{!MapLaws T K V}.
Implicit Types (self : T) (w : World) (m : K -> option V) (ts : list (K * V)).

(** What the map may have become, when [ts] ran over [m0]: its keys are as they
    were, and new ones have a default of a thread. *)
Definition grown ts m0 m : Prop :=
  forall k, match m0 k with Some v => m k = Some v | None => forall v, m k = Some v -> (k, v) ∈ ts end.

(** Where a thread is, that has not failed; [m] is the map now. *)
Inductive stage self ts m0 m (k : K) (v : V) : thread (result V map_error) -> Prop :=
| stage_start : stage self ts m0 m k v (get_or_insert_calls self k (ret v))
| stage_default : m0 k = None -> stage self ts m0 m k v (Calls (ret v) (writing self k))
| stage_insert : m0 k = None -> stage self ts m0 m k v (writing self k v)
| stage_get : is_Some (m k) -> stage self ts m0 m k v (reading_back self k)
| stage_end x :
    is_Some (m k) -> match m0 k with Some y => x = y | None => (k, x) ∈ ts end ->
    stage self ts m0 m k v (Ended (Ret (Ok x))).

Definition failed (p : thread (result V map_error)) : Prop := exists e, p = Ended (Ret (Err e)).

(** What the others do keeps a thread where it is. *)
Lemma stage_mono self ts m0 m m' k v p :
  (forall k, is_Some (m k) -> is_Some (m' k)) -> stage self ts m0 m k v p -> stage self ts m0 m' k v p.
Proof. intros Hm []; constructor; auto. Qed.

(** A step of a thread that does not fail. *)
Lemma stage_step self ts m0 m k v p w :
  models self w m -> grown ts m0 m -> (k, v) ∈ ts -> stage self ts m0 m k v p ->
  failed (thread_step p w).1 \/
  exists m', models self (thread_step p w).2 m' /\ grown ts m0 m' /\
    (forall k, is_Some (m k) -> is_Some (m' k)) /\ stage self ts m0 m' k v (thread_step p w).1.
Proof.
  intros Hm Hg Hin Hp. destruct Hp as [|Hk|Hk|Hk|x Hk Hx].
  - pose proof (get_law self w m k Hm) as Hl. unfold wp in Hl. cbn [get_or_insert_calls thread_step].
    destruct (get self k w) as [o w1]; cbn [fst snd] in Hl. destruct Hl as (Hm1 & r & -> & Hr). cbn [fst snd].
    destruct r as [ov|e]; [|left; by eexists]. right. exists m. split_and!; [done..|].
    rewrite (Hr ov eq_refl). pose proof (Hg k) as Hgk. destruct (m k) as [x|] eqn:Hmk.
    + constructor; [by eexists|]. destruct (m0 k); [congruence|by apply Hgk].
    + constructor. by destruct (m0 k).
  - right. exists m. split_and!; [done..|]. by apply stage_insert.
  - pose proof (insert_law self w m k v Hm) as Hl. unfold wp in Hl. cbn [writing thread_step].
    destruct (insert self k v w) as [o w1]; cbn [fst snd] in Hl. destruct Hl as (r & -> & Hr). cbn [fst snd].
    destruct r as [[]|e]; [|left; by eexists]. right. exists (<[k := Some v]> m).
    split_and!; [by apply Hr| | |constructor; rewrite fn_lookup_insert; by eexists].
    + intros k'. destruct (decide (k = k')) as [<-|Hne].
      * rewrite Hk, fn_lookup_insert. by intros ? [= <-].
      * rewrite fn_lookup_insert_ne by done. apply Hg.
    + intros k' Hk'. destruct (decide (k = k')) as [<-|Hne];
        [rewrite fn_lookup_insert; by eexists|by rewrite fn_lookup_insert_ne].
  - pose proof (get_law self w m k Hm) as Hl. unfold wp in Hl. cbn [reading_back thread_step].
    destruct (get self k w) as [o w1]; cbn [fst snd] in Hl. destruct Hl as (Hm1 & r & -> & Hr). cbn [fst snd].
    destruct r as [ov|e]; [|left; by eexists]. right. exists m. split_and!; [done..|].
    rewrite (Hr ov eq_refl). pose proof (Hg k) as Hgk. destruct Hk as [x Hmk].
    rewrite Hmk in *. constructor; [by eexists|].
    destruct (m0 k); [congruence|by apply Hgk].
  - right. exists m. split_and!; [done..|]. by constructor.
Qed.

(** Where the pool is, while nothing has failed. *)
Definition pool_at self ts m0 (c : list (thread (result V map_error)) * World) : Prop :=
  exists m, models self c.2 m /\ grown ts m0 m /\
    Forall2 (fun kv p => stage self ts m0 m kv.1 kv.2 p) ts c.1.

Lemma failed_step (p : thread (result V map_error)) w : failed p -> (thread_step p w).1 = p.
Proof. by intros [e ->]. Qed.

Lemma pool_step self ts m0 i c :
  pool_at self ts m0 c \/ Exists failed c.1 ->
  pool_at self ts m0 (move_thread i c) \/ Exists failed (move_thread i c).1.
Proof.
  destruct c as [ps w]. intros [(m & Hm & Hg & Hps)|Hf]; cbn [fst snd] in *.
  - destruct (ps !! i) as [p|] eqn:Hp;
      [|left; exists m; unfold move_thread; cbn [fst snd]; by rewrite Hp].
    destruct (Forall2_lookup_r _ _ _ _ _ Hps Hp) as ([k v] & Hkv & Hst).
    unfold move_thread; cbn [fst snd]. rewrite Hp. cbn [fst snd].
    destruct (stage_step self ts m0 m k v p w Hm Hg (list_elem_of_lookup_2 _ _ _ Hkv) Hst)
      as [Hf|(m' & Hm' & Hg' & Hgrow & Hst')].
    + right. apply Exists_exists. exists (thread_step p w).1. split; [|done].
      apply list_elem_of_lookup. exists i. apply list_lookup_insert_eq. by eapply lookup_lt_Some.
    + left. exists m'. split_and!; [done..|].
      assert (Forall2 (fun kv q => stage self ts m0 m' kv.1 kv.2 q) (<[i := (k, v)]> ts)
        (<[i := (thread_step p w).1]> ps)) as Hins; [|by rewrite list_insert_id in Hins].
      apply Forall2_insert; [|done]. eapply Forall2_impl; [exact Hps|].
      intros kv q. by apply stage_mono.
  - right. apply Exists_exists in Hf as (q & [j Hj]%list_elem_of_lookup & Hq).
    apply Exists_exists. exists q. split; [|done]. apply list_elem_of_lookup. exists j.
    rewrite (move_lookup i j ps w q Hj), (failed_step q w Hq). by case_decide.
Qed.

Lemma pool_run self ts m0 schedule : forall c,
  pool_at self ts m0 c \/ Exists failed c.1 ->
  pool_at self ts m0 (interleave schedule c) \/ Exists failed (interleave schedule c).1.
Proof.
  induction schedule as [|i schedule IH]; intros c Hc; [done|]. by apply IH, pool_step.
Qed.

(** C10: [get_or_insert_unsafe] called by any number of threads, whose calls of
    the map interleave in any order.  A thread that has had four turns has
    ended.  As long as no call has failed, the [expect] of no thread fires; a
    thread that has ended got the value that was stored before all of them, or,
    when there was none, the default of some thread on that key, which need not
    be its own nor the one that stays; and the map still has what it had, and
    besides only defaults of threads. *)
Theorem get_or_insert_concurrent self w m ts schedule :
  models self w m ->
  let c := interleave schedule (get_or_insert_pool self ts, w) in
  (forall i, i < length ts -> 4 <= count_occ Nat.eq_dec schedule i ->
    exists o, c.1 !! i = Some (Ended o)) /\
  ((forall e, Ended (Ret (Err e)) ∉ c.1) ->
    (forall msg, Ended (Panicked msg) ∉ c.1) /\
    exists m', models self c.2 m' /\ grown ts m m' /\
      forall i k v x, ts !! i = Some (k, v) -> c.1 !! i = Some (Ended (Ret (Ok x))) ->
        is_Some (m' k) /\ match m k with Some y => x = y | None => (k, x) ∈ ts end).
Proof.
  intros Hm c. split.
  - intros i [[k v] Hi]%lookup_lt_is_Some_2 Hcount.
    destruct (interleave_within schedule (get_or_insert_pool self ts) w i _ 4
      ltac:(unfold get_or_insert_pool; rewrite list_lookup_fmap, Hi; done)
      (get_or_insert_within self k (ret v))) as (p & Hp & Hend).
    replace (4 - _) with 0 in Hend by lia. destruct p as [o|]; [by exists o|done].
  - intros Hok. destruct (pool_run self ts m schedule (get_or_insert_pool self ts, w))
      as [(m' & Hm' & Hg' & Hps)|Hf].
    + left. exists m. split_and!; [done|intros k; destruct (m k) eqn:Hk; congruence|].
      unfold get_or_insert_pool. apply Forall2_fmap_r, Forall_Forall2_diag, Forall_forall.
      intros kv _. constructor.
    + fold c in Hm', Hps. split.
      * intros msg [i Hi]%list_elem_of_lookup.
        destruct (Forall2_lookup_r _ _ _ _ _ Hps Hi) as (kv & _ & Hst). inversion Hst.
      * exists m'. split_and!; [done..|]. intros i k v x Hi Hx.
        destruct (Forall2_lookup_r _ _ _ _ _ Hps Hx) as (kv & Hkv & Hst).
        assert (kv = (k, v)) as -> by congruence. by inversion Hst.
    + fold c in Hf. apply Exists_exists in Hf as (p & Hp & e & ->). by destruct (Hok e).
Qed.

End threads.
Arguments Ended {PF A}.
Arguments Calls {PF A R}.

(** ** An iterator among other threads *)

Section snapshot.
Context {PF : Platform} {RL : RocksLaws}.

(** The loop over an iterator, where others change the world before each item
    is asked for. *)
Fixpoint drain_among {I A} (next : I -> M (option A * I)) (others : list (World -> World)) (it : I) :
    M (option (list A)) :=
  match others with
  | [] => ret None
  | other :: others' => fun w =>
      (r <- next it ;;
       match r with
       | (None, _) => ret (Some [])
       | (Some a, it') => rest <- drain_among next others' it' ;; ret (cons a <$> rest)
       end) (other w)
  end.

Lemma drain_among_spec {I A} (next : I -> M (option A * I)) dec pend ok others :
  steps_through next dec pend ok -> forall it w,
  ok it -> length (pend it) < length others ->
  wp (drain_among next others it) (fun o _ => o = Ret (Some (decode_prefix dec (pend it)))) w.
Proof.
  intros Hnext. induction others as [|f others IH]; intros it w Hok Hlen; [cbn in Hlen; lia|].
  change (wp (r <- next it ;;
       match r with
       | (None, _) => ret (Some [])
       | (Some a, it') => rest <- drain_among next others it' ;; ret (cons a <$> rest)
       end) (fun o _ => o = Ret (Some (decode_prefix dec (pend it)))) (f w)).
  apply wp_bind. eapply wp_mono; [by apply Hnext|].
  intros o w1 [_ Ho]. destruct (pend it) as [|e rest].
  - destruct Ho as [it' ->]. by apply wp_ret.
  - destruct Ho as (it' & -> & Hok' & Hpend). cbn [length] in Hlen. cbn [decode_prefix].
    destruct (dec e) as [a|]; [|by apply wp_ret].
    apply wp_bind. eapply wp_mono; [apply IH; [done|]; rewrite Hpend; lia|].
    intros o w2 ->. apply wp_ret. by rewrite Hpend.
Qed.

Context {K V : Type} `{!Serde K, !Serde V}.

(** An iterator reads the map as it was when [iter] was called: whatever
    other threads do to the store between two items, be it to this table, the
    loop yields the entries of that moment, in order, up to the first that does
    not deserialize. *)
Theorem iter_is_snapshot (self : DBMap K V) w d (others : list (World -> World)) :
  open_at self w d -> length (rows self d) < length others ->
  wp (it <- DBMap_iter self ;; drain_among Iter_next others it)
    (fun o _ => o = Ret (Some (decode_prefix decode_entry (rows self d)))) w.
Proof.
  intros Ho Hlen. destruct (first_iter_spec self w d Ho) as (Hok & _ & Hp).
  apply wp_bind. eapply wp_reads; [by apply iter_reads|]. intros w1 _.
  rewrite <- Hp. rewrite <- Hp in Hlen.
  exact (drain_among_spec Iter_next decode_entry Iter_pending Iter_ok others Iter_steps _ w1 Hok Hlen).
Qed.

End snapshot.
