(* ===== verification/Derive.v ===== *)
(** * The [DBMapUtils] derive macro (typed-store-derive/src/lib.rs)

    First the macro's reading of the struct it is applied to, on the part of
    [syn]'s syntax it looks at; then the code it generates, over the list of the
    struct's fields, each with its own key and value types. *)
From S2P Require Import Prelude Bytes Platform MetricsData World Sampling Metrics Errors Traits Rocks RocksIter RocksMap.
Open Scope nat_scope.

(** ** Reading the struct *)

Definition DEFAULT_DB_OPTIONS_CUSTOM_FN : string := "typed_store::rocks::default_db_options".
Definition DB_OPTIONS_CUSTOM_FUNCTION : string := "default_options_override_fn".

(** What the macro looks at of a literal, an attribute, a type, a field. *)
Inductive Lit : Type := LitStr (s : string) | LitOther.

Inductive Meta : Type :=
| MetaPath (path : string)
| MetaList (path : string)
| MetaNameValue (path : string) (lit : Lit).

Record Attribute : Type := mkAttribute {
  attr_path : string;
  parse_meta : result Meta string;
}.

Inductive PathArguments : Type :=
| NoArguments
| AngleBracketed (args : list string)
| Parenthesized.

Inductive syn_type : Type :=
| TypePath (segments : list (string * PathArguments))
| TypeOther.

Record Field : Type := mkField {
  field_ident : option string;
  field_attrs : list Attribute;
  field_ty : syn_type;
}.

Inductive GeneralTableOptions : Type := OverrideFunction (name : string).

Definition GeneralTableOptions_default : GeneralTableOptions :=
  OverrideFunction DEFAULT_DB_OPTIONS_CUSTOM_FN.

Definition expected_function_name : string :=
  "Expected function name in format `#[" +:+ DB_OPTIONS_CUSTOM_FUNCTION +:+ " = {function_name}]`".

Definition get_options_override_function (attr : Attribute) : result string string :=
  res_bind (parse_meta attr) (fun meta =>
  match meta with
  | MetaNameValue path lit =>
      if bool_decide (path = DB_OPTIONS_CUSTOM_FUNCTION) then
        match lit with LitStr fn_name => Ok fn_name | LitOther => Err expected_function_name end
      else Err expected_function_name
  | _ => Err expected_function_name
  end).

(** Macro code runs at compile time, without state: it returns or panics. *)
Definition macro (A : Type) : Type := comp unit A.

Definition must_be_of_type (allowed : list string) : string :=
  "All struct members must be of type " +:+
  String.concat " or " (map (fun s => s +:+ "<K, V>") allowed).

(** The closure [extract_struct_info] maps over the fields. *)
Definition field_info (allowed : list string) (f : Field) :
    macro (string * string * (list string * GeneralTableOptions)) :=
  let attrs := filter (fun a => attr_path a = DB_OPTIONS_CUSTOM_FUNCTION) (field_attrs f) in
  options <-
    match attrs with
    | [] => ret GeneralTableOptions_default
    | a :: _ =>
        name <- unwrap "called `Result::unwrap()` on an `Err` value" (get_options_override_function a) ;;
        ret (OverrideFunction name)
    end ;;
  match field_ty f with
  | TypePath segments =>
      type_info <- expect "called `Option::unwrap()` on a `None` value" (head segments) ;;
      inner_type <-
        match type_info.2 with
        | AngleBracketed angle_bracket_type => ret angle_bracket_type
        | _ => panic (must_be_of_type allowed)
        end ;;
      let type_str := type_info.1 in
      if bool_decide (type_str ∈ allowed) then
        ident <- expect "called `Option::unwrap()` on a `None` value" (field_ident f) ;;
        ret ((ident, type_str), (inner_type, options))
      else panic (must_be_of_type allowed)
  | TypeOther => panic (must_be_of_type allowed)
  end.

Fixpoint map_m {W A B} (f : A -> comp W B) (l : list A) : comp W (list B) :=
  match l with
  | [] => ret []
  | x :: l' => y <- f x ;; ys <- map_m f l' ;; ret (y :: ys)
  end.

Definition extract_struct_info (fields : list Field) (allowed_map_type_names : list string) :
    macro (list string * list (list string) * list GeneralTableOptions * string) :=
  info <- map_m (field_info allowed_map_type_names) fields ;;
  let field_names := map (fun i => i.1.1) info in
  let simple_field_type_names := map (fun i => i.1.2) info in
  match simple_field_type_names with
  | first :: _ =>
      for_each (fun q : string =>
        if bool_decide (q = first) then ret tt
        else panic "All struct members must be of same type") simple_field_type_names ;;
      ret (field_names, map (fun i => i.2.1) info, map (fun i => i.2.2) info, first)
  | [] => panic "Cannot derive on empty struct"
  end.

Inductive GenericParam : Type := GenericType (ident : string) | GenericOther.

Definition extract_generics_names (params : list GenericParam) : macro (list string) :=
  map_m (fun g =>
    match g with
    | GenericType ident => ret ident
    | GenericOther => panic "Unspoorted generic type"
    end) params.

(** ** The generated code *)

Section generated.
Context {PF : Platform}.

(** [Hash + Eq] of a key type, by what a map keyed by it needs. *)
Record KeyHash (K : Type) : Type := mkKeyHash {
  kh_eq : EqDecision K;
  kh_countable : Countable K;
}.

(** A field of the struct: its name, types with their [Serialize] and [Debug],
    the [Hash] of the key where it has one, the source text of the types, and
    its options function. *)
Record Table : Type := mkTable {
  t_name : string;
  t_K : Type;
  t_V : Type;
  t_serde_K : Serde t_K;
  t_serde_V : Serde t_V;
  t_hash : option (KeyHash t_K);
  t_debug_K : t_K -> string;
  t_debug_V : t_V -> string;
  t_key_name : string;
  t_value_name : string;
  t_options_fn : M DBOptions;
}.

(** An opened field: the struct generated for the tables is the list of its
    fields. *)
Record OpenTable : Type := mkOpenTable {
  ot_table : Table;
  ot_map : DBMap (t_K ot_table) (t_V ot_table);
}.

Definition OpenTables : Type := list OpenTable.

(** [DBMapTableConfigMap]. *)
Definition DBMapTableConfigMap : Type := gmap string DBOptions.

(** [.into_iter().collect::<BTreeMap<_, _>>()]: a later pair wins. *)
Definition collect_btree {A} (l : list (string * A)) : gmap string A :=
  foldl (fun m kv => <[kv.1 := kv.2]> m) ∅ l.

(** The configurator. *)
Definition Configurator_init (tables : list Table) : M (list (string * DBOptions)) :=
  map_m (fun t => o <- default_db_options ;; ret (t_name t, o)) tables.

Definition Configurator_build (self : list (string * DBOptions)) : DBMapTableConfigMap :=
  collect_btree self.

Definition table_options (tables_db_options_override : option DBMapTableConfigMap) (t : Table) :
    M (string * options) :=
  match tables_db_options_override with
  | None => o <- t_options_fn t ;; ret (t_name t, db_opts o)
  | Some m =>
      o <- expect "called `Option::unwrap()` on a `None` value" (m !! t_name t) ;;
      ret (t_name t, db_opts o)
  end.

Definition reopen_table (db : arc) (t : Table) : M OpenTable :=
  r <- DBMap_reopen (K:=t_K t) (V:=t_V t) db (Some (t_name t)) ;;
  m <- unwrap ("Cannot open " +:+ t_name t +:+ " CF.") r ;;
  ret (mkOpenTable t m).

Definition open_tables_impl (tables : list Table) (path : path)
    (as_secondary_with_path : option Platform.path) (global_db_options_override : option options)
    (tables_db_options_override : option DBMapTableConfigMap) : M OpenTables :=
  opt_cfs <- map_m (table_options tables_db_options_override) tables ;;
  r <-
    match as_secondary_with_path with
    | Some p => open_cf_opts_secondary path (Some p) global_db_options_override opt_cfs
    | None => open_cf_opts path global_db_options_override opt_cfs
    end ;;
  db <- unwrap "Cannot open DB." r ;;
  map_m (reopen_table db) tables.

(** For a struct of [DBMap]s the post-processing function is empty. *)
Definition open_tables_read_write (tables : list Table) (path : path)
    (global_db_options_override : option options)
    (tables_db_options_override : option DBMapTableConfigMap) : M OpenTables :=
  open_tables_impl tables path None global_db_options_override tables_db_options_override.

Definition get_memory_usage (first : OpenTable) : M (result (Z * Z) TypedStoreError) :=
  stats <- read_db (rocksdb (ot_map first)) get_memory_usage_stats ;;
  ret (match stats with
       | Ok stats => Ok (mem_table_total stats, cache_total stats)
       | Err e => Err (RocksDBError e)
       end).

Definition describe_tables (tables : list Table) : gmap string (string * string) :=
  collect_btree (map (fun t => (t_name t, (t_key_name t, t_value_name t))) tables).

Definition open_tables_read_only (tables : list Table) (primary_path : path)
    (with_secondary_path : option path) (global_db_options_override : option options) : M OpenTables :=
  match with_secondary_path with
  | Some q => open_tables_impl tables primary_path (Some q) global_db_options_override None
  | None =>
      r <- with_fs tempdir ;;
      p <- unwrap "Failed to open temporary directory" r ;;
      open_tables_impl tables primary_path (Some p) global_db_options_override None
  end.

Definition get_read_only_handle (tables : list Table) (primary_path : path)
    (with_secondary_path : option path) (global_db_options_override : option options) : M OpenTables :=
  open_tables_read_only tables primary_path with_secondary_path global_db_options_override.

(** [Iterator::skip(n)]: drop [n] items; [None] when the iterator ends before. *)
Fixpoint skip {I A} (next : I -> M (option A * I)) (n : nat) (it : I) : M (option I) :=
  match n with
  | O => ret (Some it)
  | S n' =>
      r <- next it ;;
      match r with (Some _, it') => skip next n' it' | (None, _) => ret None end
  end.

(** [Iterator::take(n)], collected. *)
Fixpoint take_items {I A} (next : I -> M (option A * I)) (n : nat) (it : I) : M (list A) :=
  match n with
  | O => ret []
  | S n' =>
      r <- next it ;;
      match r with
      | (Some a, it') => l <- take_items next n' it' ;; ret (a :: l)
      | (None, _) => ret []
      end
  end.

Definition find_table (self : OpenTables) (table_name : string) : option OpenTable :=
  snd <$> list_find (fun o => t_name (ot_table o) = table_name) self.

Definition no_such_table (table_name : string) : string := "No such table name: " +:+ table_name.

(** Errors are [eyre::Report]s, by their message. *)
Definition dump (self : OpenTables) (table_name : string) (page_size : Z) (page_number : Z) :
    M (result (gmap string string) string) :=
  match find_table self table_name with
  | Some (mkOpenTable t m) =>
      let _ := t_serde_K t in
      let _ := t_serde_V t in
      r <- DBMap_try_catch_up_with_primary m ;;
      match r with
      | Err e => ret (Err (TypedStoreError_display e))
      | Ok _ =>
          it <- DBMap_iter m ;;
          n <- mul_usize page_number page_size ;;
          rest <- skip Iter_next (Z.to_nat n) it ;;
          items <-
            match rest with
            | Some it => take_items Iter_next (Z.to_nat page_size) it
            | None => ret []
            end ;;
          ret (Ok (collect_btree (map (fun kv => (t_debug_K t kv.1, t_debug_V t kv.2)) items)))
      end
  | None => ret (Err (no_such_table table_name))
  end.

(** [.count()] is the length of what the loop yields; [fuel] bounds it. *)
Definition count_keys (fuel : nat) (self : OpenTables) (table_name : string) : M (result Z string) :=
  match find_table self table_name with
  | Some (mkOpenTable t m) =>
      let _ := t_serde_K t in
      let _ := t_serde_V t in
      r <- DBMap_try_catch_up_with_primary m ;;
      match r with
      | Err e => ret (Err (TypedStoreError_display e))
      | Ok _ =>
          it <- DBMap_iter m ;;
          items <- drain Iter_next fuel it ;;
          items <- expect "out of fuel" items ;;
          ret (Ok (Z.of_nat (length items)))
      end
  | None => ret (Err (no_such_table table_name))
  end.

(** [TypedStoreDebug] for the read-only struct, over the tables of struct [name]. *)
Definition OpenTables_debug (fuel : nat) (name : string) (tables : list Table) :
    TypedStoreDebug OpenTables := {|
  dump_table self table_name page_size page_number := dump self table_name page_size page_number;
  primary_db_name _ := name;
  describe_all_tables _ := describe_tables tables;
  count_table_keys self table_name := count_keys fuel self table_name;
|}.

End generated.
