(* ===== verification/DeriveTheorems.v ===== *)
(** * What the derive macro accepts and what its code does *)
From S2P Require Import Prelude Bytes Platform MetricsData World Sampling Metrics Errors Traits Rocks RocksIter RocksMap RocksSpec MapTheorems IterTheorems Derive.
Open Scope nat_scope.
Set Default Proof Using "Type*".

(** ** Reading the struct *)

(** A field the macro accepts, with what it reads of it: name, type arguments
    and options. *)
Definition field_reads (ty : string) (f : Field) (r : string * list string * GeneralTableOptions) : Prop :=
  let '(name, args, opt) := r in
  field_ident f = Some name /\
  (exists rest, field_ty f = TypePath ((ty, AngleBracketed args) :: rest)) /\
  match filter (fun a => attr_path a = DB_OPTIONS_CUSTOM_FUNCTION) (field_attrs f) with
  | [] => opt = GeneralTableOptions_default
  | a :: _ => exists s, get_options_override_function a = Ok s /\ opt = OverrideFunction s
  end.

Lemma bind_ret_inv {W A B} (m : comp W A) (k : A -> comp W B) w b w' :
  bind m k w = (Ret b, w') -> exists a w1, m w = (Ret a, w1) /\ k a w1 = (Ret b, w').
Proof. unfold bind. destruct (m w) as [[a|] w1]; [|done]. intros H. by exists a, w1. Qed.

Lemma field_info_spec allowed f name ty args opt :
  field_info allowed f tt = (Ret ((name, ty), (args, opt)), tt) <->
  field_reads ty f (name, args, opt) /\ ty ∈ allowed.
Proof.
  unfold field_info, field_reads. split.
  - intros (o & [] & Ho & Hrest)%bind_ret_inv.
    destruct (field_ty f) as [segments|]; [|done].
    apply bind_ret_inv in Hrest as ([ty' pargs] & [] & Hseg & Hrest).
    destruct segments as [|seg rest]; [done|]. injection Hseg as ->.
    apply bind_ret_inv in Hrest as (args' & [] & Hargs & Hrest). cbn [fst snd] in *.
    destruct pargs as [|args2|]; [done| |done]. injection Hargs as ->.
    case_bool_decide as Hin; [|done].
    apply bind_ret_inv in Hrest as (n & [] & Hn & Hrest).
    destruct (field_ident f) as [n'|]; [|done]. injection Hn as ->.
    injection Hrest as -> -> -> ->. split; [|done]. split_and!; [done|by eexists|].
    destruct (filter _ _) as [|a l]; [by injection Ho|].
    apply bind_ret_inv in Ho as (s & [] & Hs & Ho).
    destruct (get_options_override_function a) as [s'|]; [|done].
    injection Hs as ->. injection Ho as <-. by exists s.
  - intros [(Hn & [rest Hty] & Hopt) Hin]. rewrite Hty, Hn.
    destruct (filter _ _) as [|a l].
    + subst opt. unfold bind, ret, expect; simpl. by rewrite bool_decide_true.
    + destruct Hopt as (s & Hs & ->). unfold bind, ret, expect, unwrap; simpl. rewrite Hs.
      by rewrite bool_decide_true.
Qed.

Lemma map_m_ret {A B} (f : A -> macro B) l ys :
  map_m f l tt = (Ret ys, tt) <-> Forall2 (fun x y => f x tt = (Ret y, tt)) l ys.
Proof.
  revert ys. induction l as [|x l IH]; intros ys; simpl.
  - split; [by intros [= <-]|by inversion 1].
  - split.
    + intros (y & [] & Hy & (ys' & [] & Hys & [= <-])%bind_ret_inv)%bind_ret_inv.
      constructor; [done|by apply IH].
    + inversion 1 as [|? y ? ys' Hy Hys]; subst. apply IH in Hys.
      unfold bind. by rewrite Hy, Hys.
Qed.

Lemma all_same_spec (first : string) l :
  for_each (fun q : string => if bool_decide (q = first) then ret tt
    else panic "All struct members must be of same type") l tt = (Ret tt, tt) <->
  Forall (eq first) l.
Proof.
  induction l as [|q l IH]; cbn [for_each]; [by split|].
  rewrite Forall_cons. case_bool_decide as Hq; [|by split; [|intros [-> _]]].
  unfold bind, ret. rewrite IH. by split; [split|intros []].
Qed.

(** The row of a field in the result of [map_m field_info]. *)
Definition info_row (ty : string) (r : string * list string * GeneralTableOptions) :
    string * string * (list string * GeneralTableOptions) :=
  ((r.1.1, ty), (r.1.2, r.2)).

(** What the macro accepts.  [extract_struct_info] returns exactly for a
    non-empty struct all of whose fields are named, of one and the same allowed
    map type with angle-bracketed arguments, and whose options attribute, if
    any, names a function; it then returns, in the order of the fields, their
    names, type arguments and options functions, the default one where there is
    no attribute.  On any other struct it panics. *)
Lemma extract_struct_info_spec (fields : list Field) (allowed : list string)
    names inners opts ty :
  extract_struct_info fields allowed tt = (Ret (names, inners, opts, ty), tt) <->
  fields <> [] /\ ty ∈ allowed /\
  exists rows, Forall2 (field_reads ty) fields rows /\
    names = map (fun r => r.1.1) rows /\ inners = map (fun r => r.1.2) rows /\
    opts = map snd rows.
Proof.
  unfold extract_struct_info. split.
  - intros (info & [] & Hinfo%map_m_ret & Hrest)%bind_ret_inv.
    destruct info as [|[[n1 t1] [a1 o1]] info]; [done|]. cbn [map fst snd] in Hrest.
    apply bind_ret_inv in Hrest as ([] & [] & Hsame%all_same_spec & [= <- <- <- <-]).
    inversion Hinfo as [|f ? fields' ? Hf Hfs]; subst. split; [done|].
    apply field_info_spec in Hf as [Hf Hin]. split; [done|].
    inversion_clear Hsame as [|? ? _ Htypes].
    exists ((n1, a1, o1) :: map (fun i => (i.1.1, i.2.1, i.2.2)) info).
    cbn [map fst snd]. rewrite !map_map. split_and!; [|done..].
    constructor; [done|]. clear -Hfs Htypes.
    induction Hfs as [|f [[n t] [a o]] fs info Hf _ IH]; [constructor|].
    apply Forall_cons in Htypes as [Ht Htypes]. simpl in Ht; subst t.
    constructor; [by apply field_info_spec in Hf as []|]. by apply IH.
  - intros (Hne & Hin & rows & Hrows & -> & -> & ->).
    assert (map_m (field_info allowed) fields tt = (Ret (map (info_row ty) rows), tt)) as Hinfo.
    { apply map_m_ret. clear Hne. induction Hrows as [|f [[n a] o] fs rows Hf _ IH]; [constructor|].
      constructor; [by apply field_info_spec|done]. }
    unfold bind at 1. rewrite Hinfo.
    destruct rows as [|[[n a] o] rows]; [by inversion Hrows; subst|].
    cbn [map info_row fst snd]. unfold bind at 1.
    rewrite (proj2 (all_same_spec ty _)).
    + unfold ret. rewrite !map_map. done.
    + constructor; [done|]. rewrite map_map. simpl. apply Forall_fmap, Forall_true. done.
Qed.

(** ** Pages *)

(** The [num]-th page of a list, [size] items a page. *)
Definition page {A} (l : list A) (size num : nat) : list A := take size (drop (num * size) l).

Lemma pages_concat {A} (l : list A) size n :
  concat (map (page l size) (seq 0 n)) = take (n * size) l.
Proof.
  induction n as [|n IH]; [done|].
  rewrite seq_S, map_app, concat_app, IH. simpl. rewrite app_nil_r. unfold page.
  rewrite take_take_drop. f_equal. lia.
Qed.

Section loops.
Context {PF : Platform} {I A : Type} (next : I -> M (option A * I)) (dec : entry -> option A).
Context (pend : I -> list entry) (ok : I -> Prop).

Lemma skip_spec : steps_through next dec pend ok -> forall n it w, ok it ->
  wp (skip next n it) (fun o w' => same_store w w' /\ exists r, o = Ret r /\
    match r with
    | Some it' => ok it' /\ decode_prefix dec (pend it') = drop n (decode_prefix dec (pend it))
    | None => drop n (decode_prefix dec (pend it)) = []
    end) w.
Proof.
  intros Hnext. induction n as [|n IH]; intros it w Hok; cbn [skip].
  - apply wp_ret. split; [done|]. eexists. split; [done|]. by rewrite drop_0.
  - apply wp_bind. eapply wp_mono; [by apply Hnext|]. intros o w1 [Hs Ho].
    destruct (pend it) as [|e rest].
    + destruct Ho as [it' ->]. apply wp_ret. split; [done|]. by eexists.
    + destruct Ho as (it' & -> & Hok' & Hp). cbn [decode_prefix]. destruct (dec e) as [a|].
      * eapply wp_mono; [by apply IH|]. rewrite Hp. intros o w2 [Hs' Hr].
        split; [by etrans|]. exact Hr.
      * apply wp_ret. split; [done|]. eexists. split; [done|]. by rewrite drop_nil.
Qed.

Lemma take_items_spec : steps_through next dec pend ok -> forall n it w, ok it ->
  wp (take_items next n it) (fun o w' =>
    same_store w w' /\ o = Ret (take n (decode_prefix dec (pend it)))) w.
Proof.
  intros Hnext. induction n as [|n IH]; intros it w Hok; cbn [take_items].
  - by apply wp_ret.
  - apply wp_bind. eapply wp_mono; [by apply Hnext|]. intros o w1 [Hs Ho].
    destruct (pend it) as [|e rest].
    + destruct Ho as [it' ->]. by apply wp_ret.
    + destruct Ho as (it' & -> & Hok' & Hp). cbn [decode_prefix]. destruct (dec e) as [a|].
      * apply wp_bind. eapply wp_mono; [by apply IH|]. rewrite Hp. intros o w2 [Hs' ->].
        apply wp_ret. split; [by etrans|done].
      * by apply wp_ret.
Qed.

End loops.

Section dumping.
Context {PF : Platform} {RL : RocksLaws}.

(** The decoded items of a table, as its loops see them. *)
Definition items (o : OpenTable) (d : db) : list (t_K (ot_table o) * t_V (ot_table o)) :=
  let _ := t_serde_K (ot_table o) in
  let _ := t_serde_V (ot_table o) in
  decode_prefix decode_entry (rows (ot_map o) d).

Definition shown (o : OpenTable) (kv : t_K (ot_table o) * t_V (ot_table o)) : string * string :=
  (t_debug_K (ot_table o) kv.1, t_debug_V (ot_table o) kv.2).

(** A table found by its name, over an open database [d] that catches up with
    its primary as [d']. *)
Record ready (self : OpenTables) (name : string) (o : OpenTable) (w : World) (d d' : db) : Prop := {
  ready_found : find_table self name = Some o;
  ready_open : open_at (ot_map o) w d;
  ready_catch_up : db_try_catch_up_with_primary d = (Ok tt, d');
  ready_handle : cf_handle d' (dbmap_cf (ot_map o)) = true;
}.

Lemma catch_up_writes self name o w d d' :
  ready self name o w d d' ->
  wp (DBMap_try_catch_up_with_primary (ot_map o)) (fun r w' => r = Ret (Ok tt) /\
    w' = put_db (rocksdb (ot_map o)) d' w /\ open_at (ot_map o) w' d') w.
Proof.
  intros [_ Ho Hc Hh]. eapply wp_rocks_write; [apply Ho|]. rewrite Hc. cbn [fst snd].
  split_and!; [done..|]. by eapply open_at_put.
Qed.

(** C40: paging through a table.  With [page_size * page_number] in range, [dump]
    shows the requested page of the decoded entries in key order, after catching
    up with the primary; consecutive pages put together are all of them, so
    nothing is skipped or shown twice. *)
Theorem dump_pages self name o w d d' (size num : Z) :
  ready self name o w d d' ->
  (0 <= size)%Z -> (0 <= num)%Z -> (num * size < u64_modulus)%Z ->
  wp (dump self name size num) (fun r w' =>
    same_store (put_db (rocksdb (ot_map o)) d' w) w' /\
    r = Ret (Ok (collect_btree (map (shown o)
          (page (items o d') (Z.to_nat size) (Z.to_nat num)))))) w /\
  (forall n, length (items o d') <= n * Z.to_nat size ->
     concat (map (page (items o d') (Z.to_nat size)) (seq 0 n)) = items o d').
Proof.
  intros Hready Hsize Hnum Hfit. split.
  2: { intros n Hn. rewrite pages_concat. by apply take_ge. }
  unfold dump. rewrite (ready_found _ _ _ _ _ _ Hready).
  destruct o as [t m] eqn:Ho. cbv zeta.
  apply wp_bind. eapply wp_mono; [exact (catch_up_writes _ _ _ _ _ _ Hready)|]. cbn [ot_map].
  intros r w1 (-> & -> & Hopen). set (w1 := put_db _ _ _) in *.
  pose (t_serde_K t) as SK. pose (t_serde_V t) as SV.
  apply wp_bind. eapply wp_mono; [by apply iter_reads|]. intros r w2 [-> H2].
  destruct (first_iter_spec m w1 d' Hopen) as (Hok & _ & Hp).
  apply wp_bind. unfold mul_usize. rewrite (proj2 (Z.ltb_lt _ _) Hfit). apply wp_ret.
  apply wp_bind. eapply wp_mono; [by apply (skip_spec _ _ _ _ Iter_steps)|].
  intros r w3 (H3 & rest & -> & Hrest). rewrite Hp, Z2Nat.inj_mul in Hrest by done.
  assert (forall l w4, same_store w3 w4 ->
    l = page (items (mkOpenTable t m) d') (Z.to_nat size) (Z.to_nat num) ->
    same_store w1 w4 /\ Ret (Ok (collect_btree (map (fun kv => (t_debug_K t kv.1, t_debug_V t kv.2)) l)))
      = Ret (A:=result _ string) (Ok (collect_btree (map (shown (mkOpenTable t m))
          (page (items (mkOpenTable t m) d') (Z.to_nat size) (Z.to_nat num)))))) as Hend.
  { intros l w4 H4 ->. split; [|done]. by rewrite H2, H3. }
  apply wp_bind. destruct rest as [it|].
  - destruct Hrest as [Hok' Hrest].
    eapply wp_mono; [by apply (take_items_spec _ _ _ _ Iter_steps)|]. intros r w4 [H4 ->].
    apply wp_ret, Hend; [done|]. unfold page, items; cbn. by rewrite Hrest.
  - apply wp_ret, wp_ret, Hend; [done|]. unfold page, items; cbn. by rewrite Hrest, take_nil.
Qed.

(** [count_keys] counts exactly the entries that a loop over the table
    yields; so does paging. *)
Theorem count_keys_spec self name o w d d' fuel :
  ready self name o w d d' -> length (rows (ot_map o) d') < fuel ->
  wp (count_keys fuel self name) (fun r w' =>
    same_store (put_db (rocksdb (ot_map o)) d' w) w' /\
    r = Ret (Ok (Z.of_nat (length (items o d'))))) w.
Proof.
  intros Hready Hfuel. unfold count_keys. rewrite (ready_found _ _ _ _ _ _ Hready).
  destruct o as [t m] eqn:Ho. cbv zeta. cbn [ot_map] in *.
  apply wp_bind. eapply wp_mono; [exact (catch_up_writes _ _ _ _ _ _ Hready)|]. cbn [ot_map].
  intros r w1 (-> & -> & Hopen). set (w1 := put_db _ _ _) in *.
  pose (t_serde_K t) as SK. pose (t_serde_V t) as SV.
  apply wp_bind. eapply wp_mono; [by apply iter_reads|]. intros r w2 [-> H2].
  destruct (first_iter_spec m w1 d' Hopen) as (Hok & _ & Hp).
  assert (length (Iter_pending (first_iter m d')) < fuel) as Hf by (rewrite Hp; exact Hfuel).
  apply wp_bind. eapply wp_mono; [by apply (drain_spec _ _ _ _ Iter_steps)|].
  intros r w3 [H3 ->]. apply wp_bind, wp_ret, wp_ret. split; [by rewrite H2, H3|].
  unfold items; cbn. by rewrite Hp.
Qed.

(** ** Opening *)

Lemma map_m_app_ret {A B} (f : A -> M B) l w ys w' :
  map_m f l w = (Ret ys, w') -> length ys = length l.
Proof.
  revert w ys w'. induction l as [|x l IH]; intros w ys w'; simpl.
  - by intros [= <- _].
  - intros (y & w1 & _ & (ys' & w2 & Hys & [= <- _])%bind_ret_inv)%bind_ret_inv. simpl.
    f_equal. by eapply IH.
Qed.

(** Reopening every field, once the database has their families. *)
Lemma reopen_tables a d m (tables : list Table) w :
  w_dbs w !! a = Some d -> w_once w = Some m ->
  Forall (fun t => cf_handle d (t_name t) = true) tables ->
  exists ots w', map_m (reopen_table a) tables w = (Ret ots, w') /\
    map ot_table ots = tables /\
    Forall (fun o => rocksdb (ot_map o) = a /\ dbmap_cf (ot_map o) = t_name (ot_table o) /\
      DBMap_wf (ot_map o)) ots /\
    w_dbs w' = w_dbs w.
Proof.
  intros Hd Hm Hall. revert w Hd Hm.
  induction Hall as [|t tables Hc _ IH]; intros w Hd Hm; [by exists [], w|].
  cbn [map_m]. unfold bind at 1, reopen_table at 1, bind at 1.
  rewrite (DBMap_reopen_eq a (Some (t_name t)) w d m) by done. cbn [from_option]. unfold id.
  rewrite Hc. unfold bind at 1, unwrap, ret at 1 2.
  destruct (IH (after_new a (t_name t) w) Hd Hm) as (ots & w' & Hmap & Htab & Hwf & Hdbs).
  eexists (_ :: ots), w'. unfold bind. rewrite Hmap. split; [done|]. cbn [map]. split_and!.
  - by rewrite Htab.
  - constructor; [|done]. cbn [ot_map ot_table]. split_and!; [done..|apply dbmap_at_wf].
  - done.
Qed.

(** opening the tables of a struct.  When the options can be computed, the
    field names are distinct and RocksDB opens the database, the generated
    [open_tables_read_write] gives one map per field, in the order of the
    fields, each over the column family of its own name in the one new
    database, all well formed; when RocksDB refuses, it panics. *)
Lemma open_tables_spec (tables : list Table) (p : path) (o : options)
    (ov : option DBMapTableConfigMap) (w : World) dflt opt_cfs m :
  default_db_options w = (Ret dflt, w) ->
  map_m (table_options ov) tables w = (Ret opt_cfs, w) ->
  opt_cfs.*1 = map t_name tables -> NoDup (map t_name tables) -> w_once w = Some m ->
  exists descs,
    (forall t, t ∈ tables -> exists opt, (t_name t, opt) ∈ descs) /\
    match open_cf_descriptors (create_missing_column_families true (create_if_missing true o)) p
            descs (w_fs w) with
    | (Ok d, _) =>
        exists ots w', open_tables_read_write tables p (Some o) ov w = (Ret ots, w') /\
          w_dbs w' !! w_next_arc w = Some d /\
          map ot_table ots = tables /\
          Forall (fun o => rocksdb (ot_map o) = w_next_arc w /\
            dbmap_cf (ot_map o) = t_name (ot_table o) /\ open_at (ot_map o) w' d) ots
    | (Err e, _) =>
        (open_tables_read_write tables p (Some o) ov w).1 = Panicked "Cannot open DB."
    end.
Proof.
  intros Hdflt Hopts Hnames Hnd Hm. exists (descriptors o p opt_cfs dflt w).
  assert (forall t, t ∈ tables -> exists opt, (t_name t, opt) ∈ descriptors o p opt_cfs dflt w) as Hdescs.
  { intros t Ht. assert (t_name t ∈ opt_cfs.*1) as Hin.
    { rewrite Hnames. apply list_elem_of_fmap. by exists t. }
    apply list_elem_of_fmap in Hin as ([n opt] & Hn & Hin). simpl in Hn; subst n. exists opt.
    apply descriptors_spec; [by rewrite Hnames|]. by left. }
  split; [done|].
  assert (forall r,
    open_cf_descriptors (create_missing_column_families true (create_if_missing true o)) p
      (descriptors o p opt_cfs dflt w) (w_fs w) = r ->
    open_tables_read_write tables p (Some o) ov w =
      (r <- (fun _ => opened w r) ;; db <- unwrap "Cannot open DB." r ;;
       map_m (reopen_table db) tables) w) as Hrun.
  { intros r <-. unfold open_tables_read_write, open_tables_impl, bind at 1. rewrite Hopts.
    unfold bind at 1. by rewrite (open_cf_opts_eq p o opt_cfs w dflt Hdflt). }
  destruct (open_cf_descriptors _ p _ (w_fs w)) as [[d|e] fs'] eqn:Hopen;
    rewrite (Hrun _ ltac:(first [reflexivity|exact Hopen])); [|done].
  unfold opened, bind, unwrap, ret. set (w1 := set_dbs _ _).
  assert (Forall (fun t => cf_handle d (t_name t) = true) tables) as Hall.
  { apply Forall_forall. intros t Ht. destruct (Hdescs t Ht) as [opt Hin].
    by eapply open_handles. }
  destruct (reopen_tables (w_next_arc w) d m tables w1) as (ots & w' & Hmap & Htab & Hwf & Hdbs);
    [by apply lookup_insert_eq|exact Hm|exact Hall|].
  assert (w_dbs w' !! w_next_arc w = Some d) as Hd by (rewrite Hdbs; by apply lookup_insert_eq).
  exists ots, w'. split_and!; [done..|]. rewrite Forall_forall in Hwf. rewrite Forall_forall in Hall.
  apply Forall_forall. intros ot Hot. destruct (Hwf ot Hot) as (Ha & Hc & Hw).
  split_and!; [done..|]. split_and!; [done|by rewrite Ha|]. rewrite Hc. apply Hall.
  rewrite <- Htab. apply list_elem_of_fmap. by exists ot.
Qed.


End dumping.
