(* ===== verification/DeriveMacro.v ===== *)
(** * The whole macro, and the tables of stores (typed-store-derive/src/lib.rs)

    [derive_dbmap_utils_general] reads the struct (Derive.v) and writes the code
    of four structs.  Here is what it interpolates into that code: names, the
    types of the fields, options functions, the post-processing of each table
    (StoreGroup.v has what it does for a struct of [Store]s). *)
From S2P Require Import Prelude Bytes Platform MetricsData World Sampling Metrics Errors Traits Rocks RocksIter RocksMap Derive DeriveTheorems.
Open Scope nat_scope.

(** [syn::ItemStruct]. *)
Record ItemStruct : Type := mkItemStruct {
  struct_ident : string;
  struct_generics : list GenericParam;
  struct_fields : list Field;
}.

(** A field of the generated structs: its name, the arguments of its type, their
    first and last, and its options function. *)
Record ExpandedField : Type := mkExpandedField {
  ef_name : string;
  ef_inner_type : list string;
  ef_key_name : string;
  ef_value_name : string;
  ef_options_fn : string;
}.

(** What is interpolated. *)
Record Expansion : Type := mkExpansion {
  ex_name : string;
  ex_config_struct : string;
  ex_intermediate_struct : string;
  ex_secondary_struct : string;
  ex_generics : list (string * string);   (* each parameter with its bounds *)
  ex_fields : list ExpandedField;
  ex_post_process_fn : string;
  ex_first_field : string;
}.

Definition allowed_types_with_post_process_fn : gmap string string :=
  list_to_map [("DBMap", ""); ("Store", "typed_store::Store::new")].

Definition allowed_strs : list string := ["DBMap"; "Store"].

Definition generics_bounds : string :=
  "std::fmt::Debug + serde::Serialize + for<'de> serde::de::Deserialize<'de>".

Section macro.

(** [str::parse::<TokenStream>()]; it accepts the literals and the names built
    from the struct's identifier, so it matters for options functions only. *)
Context (parse_tokens : string -> result string string).

Definition none_unwrapped : string := "called `Option::unwrap()` on a `None` value".

Definition key_value_names (q : list string) : macro (string * string) :=
  k <- expect none_unwrapped (head q) ;;
  v <- expect none_unwrapped (last q) ;;
  ret (k, v).

Definition options_fn (q : GeneralTableOptions) : macro string :=
  match q with
  | OverrideFunction fn_name => unwrap "called `Result::unwrap()` on an `Err` value: LexError" (parse_tokens fn_name)
  end.

Fixpoint zip_fields (names : list string) (inner_types : list (list string))
    (key_value : list (string * string)) (fns : list string) : list ExpandedField :=
  match names, inner_types, key_value, fns with
  | n :: names', q :: inner', kv :: key_value', f :: fns' =>
      mkExpandedField n q kv.1 kv.2 f :: zip_fields names' inner' key_value' fns'
  | _, _, _, _ => []
  end.

Definition derive_dbmap_utils_general (input : ItemStruct) : macro Expansion :=
  let name := struct_ident input in
  generics_names <- extract_generics_names (struct_generics input) ;;
  info <- extract_struct_info (struct_fields input) allowed_strs ;;
  let '(field_names, inner_types, derived_table_options, simple_field_type_name_str) := info in
  key_value <- map_m key_value_names inner_types ;;
  post_process_fn_str <- expect none_unwrapped
    (allowed_types_with_post_process_fn !! simple_field_type_name_str) ;;
  default_options_override_fn_names <- map_m options_fn derived_table_options ;;
  first_field_name <- expect "Expected at least one field" (head field_names) ;;
  ret (mkExpansion name (name +:+ "Configurator") (name +:+ "IntermediateDBMapStructPrimary")
         (name +:+ "ReadOnly") (map (fun g => (g, generics_bounds)) generics_names)
         (zip_fields field_names inner_types key_value default_options_override_fn_names)
         post_process_fn_str first_field_name).

Set Default Proof Using "Type*".

(** ** Theorems *)

(** A field of type [ty<args>] and what becomes of it. *)
Definition field_expands (ty : string) (f : Field) (e : ExpandedField) : Prop :=
  exists opts,
    field_reads ty f (ef_name e, ef_inner_type e, OverrideFunction opts) /\
    parse_tokens opts = Ok (ef_options_fn e) /\
    head (ef_inner_type e) = Some (ef_key_name e) /\
    last (ef_inner_type e) = Some (ef_value_name e).

Lemma post_process_lookup ty s :
  allowed_types_with_post_process_fn !! ty = Some s <->
  (ty = "DBMap" /\ s = "") \/ (ty = "Store" /\ s = "typed_store::Store::new").
Proof.
  clear parse_tokens. unfold allowed_types_with_post_process_fn. simpl.
  rewrite lookup_insert_Some, lookup_insert_Some, lookup_empty. naive_solver.
Qed.

Lemma generics_names_spec params names :
  extract_generics_names params tt = (Ret names, tt) <-> params = map GenericType names.
Proof.
  unfold extract_generics_names. rewrite map_m_ret. split.
  - induction 1 as [|g n params names Hg _ IH]; [done|].
    destruct g as [i|]; [|done]. injection Hg as ->. by rewrite IH.
  - intros ->. induction names as [|n names IH]; [constructor|]. by constructor.
Qed.

Lemma key_value_names_spec q kv :
  key_value_names q tt = (Ret kv, tt) <-> head q = Some kv.1 /\ last q = Some kv.2.
Proof.
  unfold key_value_names, bind, expect, ret, panic.
  destruct (head q) as [k|]; [|by split; [|intros [? _]]].
  destruct (last q) as [v|]; [|by split; [|intros [_ ?]]].
  destruct kv as [k' v']. simpl. split; [by intros [= -> ->]|by intros [[= ->] [= ->]]].
Qed.

Lemma options_fn_spec q f :
  options_fn q tt = (Ret f, tt) <-> exists n, q = OverrideFunction n /\ parse_tokens n = Ok f.
Proof.
  destruct q as [n]. unfold options_fn, unwrap, ret, panic. split.
  - destruct (parse_tokens n) as [g|] eqn:Hn; [|done]. intros [= ->]. by exists n.
  - intros (n' & [= <-] & ->). done.
Qed.

(** The rows [extract_struct_info] returns, expanded. *)
Lemma zip_fields_spec ty fields rows kvs fns :
  Forall2 (field_reads ty) fields rows ->
  Forall2 (fun q kv => head q = Some kv.1 /\ last q = Some kv.2) (map (fun r => r.1.2) rows) kvs ->
  Forall2 (fun q f => exists n, q = OverrideFunction n /\ parse_tokens n = Ok f) (map snd rows) fns ->
  let es := zip_fields (map (fun r => r.1.1) rows) (map (fun r => r.1.2) rows) kvs fns in
  Forall2 (field_expands ty) fields es /\ map ef_name es = map (fun r => r.1.1) rows.
Proof.
  intros Hrows. revert kvs fns. induction Hrows as [|f [[n a] o] fields rows Hf _ IH];
    intros kvs fns Hkv Hfn; simpl in *; [by split|].
  inversion Hkv as [|? [k v] ? kvs' [Hk Hv] Hkv']; subst.
  inversion Hfn as [|? g ? fns' (m & -> & Hg) Hfn']; subst.
  destruct (IH kvs' fns' Hkv' Hfn') as [IH1 IH2]. split; [|simpl; by f_equal].
  constructor; [|done]. by exists m.
Qed.

Lemma zip_fields_expand ty fields es :
  Forall2 (field_expands ty) fields es ->
  exists rows kvs fns,
    Forall2 (field_reads ty) fields rows /\
    Forall2 (fun q kv => head q = Some kv.1 /\ last q = Some kv.2) (map (fun r => r.1.2) rows) kvs /\
    Forall2 (fun q f => exists n, q = OverrideFunction n /\ parse_tokens n = Ok f) (map snd rows) fns /\
    zip_fields (map (fun r => r.1.1) rows) (map (fun r => r.1.2) rows) kvs fns = es /\
    map (fun r => r.1.1) rows = map ef_name es.
Proof.
  induction 1 as [|f e fields es (o & Hr & Hp & Hh & Hl) _ (rows & kvs & fns & H1 & H2 & H3 & H4 & H5)].
  { exists [], [], []. split_and!; constructor. }
  exists ((ef_name e, ef_inner_type e, OverrideFunction o) :: rows),
    ((ef_key_name e, ef_value_name e) :: kvs), (ef_options_fn e :: fns). simpl.
  rewrite H4, H5. split_and!; try (constructor; try done).
  - by exists o.
  - by destruct e.
Qed.

(** C26: what the macro derives.  It expands exactly the structs with at least
    one field and only type parameters whose fields are all [DBMap<..>] or all
    [Store<..>] with at least one argument and an options function that
    lexes.  Field by field and in order, the generated structs have a [DBMap] of
    the field's own arguments, described by the first and the last of them; the
    tables are post-processed with [Store::new] exactly for a struct of stores,
    and the memory usage is asked of the first field. *)
Theorem derive_expansion_spec (s : ItemStruct) (e : Expansion) :
  derive_dbmap_utils_general s tt = (Ret e, tt) <->
  exists ty params es first,
    struct_generics s = map GenericType params /\
    Forall2 (field_expands ty) (struct_fields s) (first :: es) /\
    ((ty = "DBMap" /\ ex_post_process_fn e = "") \/
     (ty = "Store" /\ ex_post_process_fn e = "typed_store::Store::new")) /\
    e = mkExpansion (struct_ident s) (struct_ident s +:+ "Configurator")
          (struct_ident s +:+ "IntermediateDBMapStructPrimary") (struct_ident s +:+ "ReadOnly")
          (map (fun g => (g, generics_bounds)) params) (first :: es) (ex_post_process_fn e)
          (ef_name first).
Proof.
  unfold derive_dbmap_utils_general. split.
  - intros (params & [] & Hparams%generics_names_spec & Hrest)%bind_ret_inv.
    apply bind_ret_inv in Hrest as ([[[names inners] opts] ty] & [] & Hinfo & Hrest).
    apply extract_struct_info_spec in Hinfo as (Hne & Hin & rows & Hrows & -> & -> & ->).
    apply bind_ret_inv in Hrest as (kvs & [] & Hkv%map_m_ret & Hrest).
    apply bind_ret_inv in Hrest as (post & [] & Hpost & Hrest).
    apply bind_ret_inv in Hrest as (fns & [] & Hfns%map_m_ret & Hrest).
    apply bind_ret_inv in Hrest as (first & [] & Hfirst & [= <-]).
    destruct (zip_fields_spec ty (struct_fields s) rows kvs fns) as [Hes Hnames]; [done| | |].
    { eapply Forall2_impl; [exact Hkv|]. intros q kv. apply key_value_names_spec. }
    { eapply Forall2_impl; [exact Hfns|]. intros q f. apply options_fn_spec. }
    set (es := zip_fields _ _ _ _) in *.
    destruct es as [|e1 es']; [by inversion Hes; subst; destruct (struct_fields s)|].
    exists ty, params, es', e1. split_and!; [done|done| |].
    + simpl. unfold expect in Hpost. destruct (_ !! ty) eqn:Hty; [|done].
      injection Hpost as ->. by apply post_process_lookup.
    + simpl. f_equal. rewrite <- Hnames in Hfirst. simpl in Hfirst. by injection Hfirst as ->.
  - intros (ty & params & es & first & Hparams & Hes & Hpost & He).
    destruct (zip_fields_expand ty (struct_fields s) (first :: es) Hes)
      as (rows & kvs & fns & Hrows & Hkv & Hfns & Hz & Hn).
    rewrite (bind_run _ _ _ _ _ (proj2 (generics_names_spec _ _) Hparams)).
    assert (Hinfo : extract_struct_info (struct_fields s) allowed_strs tt =
      (Ret (map (fun r => r.1.1) rows, map (fun r => r.1.2) rows, map snd rows, ty), tt)).
    { apply extract_struct_info_spec. split_and!.
      - by destruct (struct_fields s); [inversion Hes|].
      - unfold allowed_strs. destruct Hpost as [[-> _]|[-> _]]; set_solver.
      - by exists rows. }
    rewrite (bind_run _ _ _ _ _ Hinfo).
    erewrite bind_run.
    2: { apply map_m_ret. eapply Forall2_impl; [exact Hkv|]. intros q kv. apply key_value_names_spec. }
    rewrite (proj2 (post_process_lookup ty (ex_post_process_fn e)) Hpost).
    erewrite bind_run by reflexivity. erewrite bind_run.
    2: { apply map_m_ret. eapply Forall2_impl; [exact Hfns|]. intros q f. apply options_fn_spec. }
    rewrite Hz, Hn. rewrite He. reflexivity.
Qed.

End macro.

(** ** An expansion *)

Definition ex_struct : ItemStruct :=
  mkItemStruct "Tables" [GenericType "T"]
    [mkField (Some "users"%string) [] (TypePath [("Store"%string, AngleBracketed ["T"; "u64"; "String"])])].

Definition ex_expansion : Expansion :=
  mkExpansion "Tables" "TablesConfigurator" "TablesIntermediateDBMapStructPrimary" "TablesReadOnly"
    [("T"%string, generics_bounds)]
    [mkExpandedField "users" ["T"; "u64"; "String"] "T" "String" DEFAULT_DB_OPTIONS_CUSTOM_FN]
    "typed_store::Store::new" "users".

Lemma derive_expansion_spec_witness :
  derive_dbmap_utils_general Ok ex_struct tt = (Ret ex_expansion, tt).
Proof.
  apply (derive_expansion_spec Ok ex_struct ex_expansion).
  exists "Store"%string, ["T"%string], [],
    (mkExpandedField "users" ["T"; "u64"; "String"] "T" "String" DEFAULT_DB_OPTIONS_CUSTOM_FN).
  split; [reflexivity|]. split.
  - constructor; [|constructor]. exists DEFAULT_DB_OPTIONS_CUSTOM_FN. split; [|done].
    split; [done|]. split; [by eexists|done].
  - split; [by right|done].
Defined.
