(* ===== verification/Multiaddr.v ===== *)
(** * Network addresses (mysten-network/src/multiaddr.rs)

    A multiaddress is a sequence of protocols, which the parsers below consume
    with an iterator.  The [multiaddr] crate is a parameter: what the code uses
    of it is the sequence ([iter]), [replace] and the display of a protocol. *)
From stdpp Require Import pretty.
From S2P Require Import Prelude.
Open Scope Z_scope.

(** ** std::net *)

(** Four octets; eight segments. *)
Record Ipv4Addr : Type := mkIpv4 { v4_octets : Z * Z * Z * Z }.
Record Ipv6Addr : Type := mkIpv6 { v6_segments : list Z }.

Inductive IpAddr : Type := V4 (a : Ipv4Addr) | V6 (a : Ipv6Addr).

(** [SocketAddr::new]: no flow information and no scope. *)
Record SocketAddr : Type := SocketAddr_new { ip : IpAddr; port : Z }.

Definition decimal (z : Z) : string := pretty (Z.to_N z).

Definition Ipv4Addr_display (a : Ipv4Addr) : string :=
  let '(a, b, c, d) := v4_octets a in
  decimal a +:+ "." +:+ decimal b +:+ "." +:+ decimal c +:+ "." +:+ decimal d.

(** Lower-case hexadecimal without leading zeros, of a 16-bit segment. *)
Definition hex_digit (z : Z) : string :=
  default "" ((fun a => String a EmptyString) <$>
    String.get (Z.to_nat z) "0123456789abcdef").

Definition hex16 (z : Z) : string :=
  let d i := hex_digit ((z / 16 ^ i) mod 16) in
  if z <? 16 then d 0
  else if z <? 16 ^ 2 then d 1 +:+ d 0
  else if z <? 16 ^ 3 then d 2 +:+ d 1 +:+ d 0
  else d 3 +:+ d 2 +:+ d 1 +:+ d 0.

(** The first of the longest runs of zero segments, as start and length. *)
Fixpoint longest_zeros (i : nat) (cur best : nat * nat) (segments : list Z) : nat * nat :=
  match segments with
  | [] => best
  | s :: segments' =>
      if s =? 0 then
        let cur := (if (cur.2 =? 0)%nat then i else cur.1, S cur.2) in
        longest_zeros (S i) cur (if (best.2 <? cur.2)%nat then cur else best) segments'
      else longest_zeros (S i) (0, 0)%nat best segments'
  end.

Definition colons (segments : list Z) : string := String.concat ":" (map hex16 segments).

(** The display of the standard library of the toolchain, Rust 1.64: addresses
    compatible with IPv4 end in dotted form. *)
Definition Ipv6Addr_display (a : Ipv6Addr) : string :=
  let embedded g h := Ipv4Addr_display (mkIpv4 (g / 256, g mod 256, h / 256, h mod 256)) in
  match v6_segments a with
  | [0; 0; 0; 0; 0; 0; 0; 0] => "::"
  | [0; 0; 0; 0; 0; 0; 0; 1] => "::1"
  | [0; 0; 0; 0; 0; 0; g; h] => "::" +:+ embedded g h
  | [0; 0; 0; 0; 0; 65535; g; h] => "::ffff:" +:+ embedded g h
  | segments =>
      let (start, len) := longest_zeros 0 (0, 0)%nat (0, 0)%nat segments in
      if (1 <? len)%nat then
        colons (take start segments) +:+ "::" +:+ colons (drop (start + len) segments)
      else colons segments
  end.

Definition SocketAddr_display (a : SocketAddr) : string :=
  match ip a with
  | V4 v4 => Ipv4Addr_display v4 +:+ ":" +:+ decimal (port a)
  | V6 v6 => "[" +:+ Ipv6Addr_display v6 +:+ "]:" +:+ decimal (port a)
  end.

(** ** Multiaddresses *)

(** [multiaddr::Protocol]: the variants the code matches on, and the others. *)
Inductive Protocol : Type :=
| Dns (dns_name : string)
| Http
| Https
| Ip4 (ip4_addr : Ipv4Addr)
| Ip6 (ip6_addr : Ipv6Addr)
| Tcp (port : Z)
| Unix (path : string)
| OtherProtocol (code : Z) (value : string).

Class MultiaddrCrate : Type := {
  Multiaddr : Type;
  iter : Multiaddr -> list Protocol;
  (* [replace(at, by)]: apply [by] to the protocol at a position *)
  replace : Multiaddr -> nat -> (Protocol -> outcome (option Protocol)) -> outcome (option Multiaddr);
  Protocol_display : Protocol -> string;
}.

(** Its documented behaviour: [None] when the position is out of range or
    [by] gives nothing; a panic of [by] is a panic. *)
Class MultiaddrLaws {MC : MultiaddrCrate} : Type := {
  replace_out a i by_ : iter a !! i = None -> replace a i by_ = Ret None;
  replace_panic a i p by_ msg :
    iter a !! i = Some p -> by_ p = Panicked msg -> replace a i by_ = Panicked msg;
  replace_none a i p by_ :
    iter a !! i = Some p -> by_ p = Ret None -> replace a i by_ = Ret None;
  replace_some a i p q by_ :
    iter a !! i = Some p -> by_ p = Ret (Some q) ->
    exists a', replace a i by_ = Ret (Some a') /\ iter a' = <[i := q]> (iter a);
}.

(** ** The parsers: fallible reads from an iterator over protocols *)

Definition parser (A : Type) : Type := comp (list Protocol) (result A string).

(** [protocols.next()]. *)
Definition next : comp (list Protocol) (option Protocol) :=
  fun l => match l with [] => (Ret None, []) | p :: l' => (Ret (Some p), l') end.

(** [protocols.next().ok_or_else(|| eyre!(msg))?]. *)
Definition next_or (msg : string) : parser Protocol :=
  p <- next ;; ret (ok_or p msg).

Definition end_of_multiaddr : string := "unexpected end of multiaddr".

Definition parse_tcp : parser Z :=
  p <-? next_or end_of_multiaddr ;;
  ret (match p with Tcp port => Ok port | _ => Err "expected tcp protocol" end).

Definition parse_http_https : parser string :=
  p <-? next_or end_of_multiaddr ;;
  ret (match p with
       | Http => Ok "http"
       | Https => Ok "https"
       | _ => Err "expected http/https protocol"
       end).

Definition parse_end : parser unit :=
  p <- next ;;
  ret (match p with None => Ok tt | Some _ => Err "expected end of multiaddr" end).

Section addresses.
Context {MC : MultiaddrCrate}.

(** Run a parser on a fresh iterator over an address.  No parser panics. *)
Definition on_iter {A} (p : parser A) (addr : Multiaddr) : result A string :=
  match p (iter addr) with
  | (Ret r, _) => r
  | (Panicked msg, _) => Err msg
  end.

Definition to_socket_addr : Multiaddr -> result SocketAddr string :=
  on_iter (
    p <-? next_or "failed to convert to SocketAddr: Multiaddr does not contain IP" ;;
    ip <-? ret (match p with
                | Ip4 ip4_addr => Ok (V4 ip4_addr)
                | Ip6 ip6_addr => Ok (V6 ip6_addr)
                | unsupported => Err ("unsupported protocol " +:+ Protocol_display unsupported)
                end) ;;
    tcp_port <-? parse_tcp ;;
    ret (Ok (SocketAddr_new ip tcp_port))).

Definition parse_dns : Multiaddr -> result (string * Z * string) string :=
  on_iter (
    p <-? next_or end_of_multiaddr ;;
    dns_name <-? ret (match p with
                      | Dns dns_name => Ok dns_name
                      | other => Err ("expected dns found " +:+ Protocol_display other)
                      end) ;;
    tcp_port <-? parse_tcp ;;
    http_or_https <-? parse_http_https ;;
    _ <-? parse_end ;;
    ret (Ok (dns_name, tcp_port, http_or_https))).

Definition parse_ip4 : Multiaddr -> result (SocketAddr * string) string :=
  on_iter (
    p <-? next_or end_of_multiaddr ;;
    ip_addr <-? ret (match p with
                     | Ip4 ip4_addr => Ok (V4 ip4_addr)
                     | other => Err ("expected ip4 found " +:+ Protocol_display other)
                     end) ;;
    tcp_port <-? parse_tcp ;;
    http_or_https <-? parse_http_https ;;
    _ <-? parse_end ;;
    ret (Ok (SocketAddr_new ip_addr tcp_port, http_or_https))).

Definition parse_ip6 : Multiaddr -> result (SocketAddr * string) string :=
  on_iter (
    p <-? next_or end_of_multiaddr ;;
    ip_addr <-? ret (match p with
                     | Ip6 ip6_addr => Ok (V6 ip6_addr)
                     | other => Err ("expected ip6 found " +:+ Protocol_display other)
                     end) ;;
    tcp_port <-? parse_tcp ;;
    http_or_https <-? parse_http_https ;;
    _ <-? parse_end ;;
    ret (Ok (SocketAddr_new ip_addr tcp_port, http_or_https))).

Definition parse_unix : Multiaddr -> result (string * string) string :=
  on_iter (
    p <-? next_or end_of_multiaddr ;;
    path <-? ret (match p with
                  | Unix path => Ok path
                  | other => Err ("expected unix found " +:+ Protocol_display other)
                  end) ;;
    http_or_https <-? parse_http_https ;;
    _ <-? parse_end ;;
    ret (Ok (path, http_or_https))).

End addresses.

(** The addresses of the crate's test. *)
Example display_ipv4 :
  SocketAddr_display (SocketAddr_new (V4 (mkIpv4 (127, 0, 0, 1))) 10500) = "127.0.0.1:10500".
Proof. vm_compute. reflexivity. Qed.

Example display_ipv6 :
  SocketAddr_display (SocketAddr_new (V6 (mkIpv6 [172; 0; 0; 1; 1; 1; 1; 1])) 10500) =
    "[ac::1:1:1:1:1]:10500".
Proof. vm_compute. reflexivity. Qed.

Example display_loopback : Ipv6Addr_display (mkIpv6 [0; 0; 0; 0; 0; 0; 0; 1]) = "::1".
Proof. vm_compute. reflexivity. Qed.
