(* ===== verification/Network.v ===== *)
(** * Clients and servers (mysten-network/src: client, config, server, codec)

    How an address becomes an endpoint for a client and a listener for a server,
    and what the configuration sets on the way.  tonic, tower and the sockets of
    tokio are parameters: an endpoint, a router or a layer is built by their
    operations, and binding and connecting act on the state of the network. *)
From stdpp Require Import pretty.
From S2P Require Import Prelude Bytes Multiaddr.
Open Scope Z_scope.

(** A [Duration], in nanoseconds. *)
Definition Duration : Type := Z.

(** ** Configuration *)

Record Config : Type := mkConfig {
  concurrency_limit_per_connection : option Z;
  request_timeout : option Duration;
  connect_timeout : option Duration;
  http2_initial_stream_window_size : option Z;
  http2_initial_connection_window_size : option Z;
  http2_max_concurrent_streams : option Z;
  tcp_keepalive : option Duration;
  tcp_nodelay : option bool;
  http2_keepalive_interval : option Duration;
  http2_keepalive_timeout : option Duration;
  load_shed : option bool;
  rate_limit : option (Z * Duration);
  global_concurrency_limit : option Z;
}.

Definition Config_new : Config :=
  mkConfig None None None None None None None None None None None None None.

(** What [bind] on a listener takes ([ToSocketAddrs]). *)
Inductive ToSocketAddrs : Type :=
| HostPort (dns_name : string) (tcp_port : Z)
| Addr (socket_addr : SocketAddr).

(** The layers [from_config] stacks, outermost first. *)
Inductive layer : Type :=
| GlobalConcurrencyLimitLayer (limit : Z)
| LoadShedLayer
| RequestLifetimeLayer
| SetRequestHeaderLayer
| TraceLayer
| PropagateHeaderLayer.

Class Transport : Type := {
  net : Type;
  (* http::Uri, tonic::transport::{Endpoint, Channel} *)
  Uri : Type;
  parse_uri : string -> result Uri string;
  Endpoint : Type;
  Endpoint_from : Uri -> Endpoint;
  ep_concurrency_limit : Z -> Endpoint -> Endpoint;
  ep_timeout : Duration -> Endpoint -> Endpoint;
  ep_connect_timeout : Duration -> Endpoint -> Endpoint;
  ep_tcp_nodelay : bool -> Endpoint -> Endpoint;
  ep_http2_keep_alive_interval : Duration -> Endpoint -> Endpoint;
  ep_keep_alive_timeout : Duration -> Endpoint -> Endpoint;
  ep_rate_limit : Z -> Duration -> Endpoint -> Endpoint;
  ep_initial_stream_window_size : option Z -> Endpoint -> Endpoint;
  ep_initial_connection_window_size : option Z -> Endpoint -> Endpoint;
  ep_tcp_keepalive : option Duration -> Endpoint -> Endpoint;
  UnixStream : Type;
  UnixStream_connect : string -> net -> result UnixStream string * net;
  Channel : Type;
  ep_connect : Endpoint -> net -> result Channel string * net;
  ep_connect_lazy : Endpoint -> Channel;
  ep_connect_with_connector :
    (Uri -> net -> result UnixStream string * net) -> Endpoint -> net -> result Channel string * net;
  ep_connect_with_connector_lazy :
    (Uri -> net -> result UnixStream string * net) -> Endpoint -> Channel;
  (* tonic::transport::server, tonic_health *)
  Builder : Type;
  server_builder : Builder;
  sb_concurrency_limit_per_connection : Z -> Builder -> Builder;
  sb_timeout : Duration -> Builder -> Builder;
  sb_tcp_nodelay : bool -> Builder -> Builder;
  sb_initial_stream_window_size : option Z -> Builder -> Builder;
  sb_initial_connection_window_size : option Z -> Builder -> Builder;
  sb_http2_keepalive_interval : option Duration -> Builder -> Builder;
  sb_http2_keepalive_timeout : option Duration -> Builder -> Builder;
  sb_max_concurrent_streams : option Z -> Builder -> Builder;
  sb_tcp_keepalive : option Duration -> Builder -> Builder;
  sb_layer : list layer -> Builder -> Builder;
  Svc : Type;
  Router : Type;
  builder_add_service : Svc -> Builder -> Router;
  router_add_service : Svc -> Router -> Router;
  HealthReporter : Type;
  health_reporter : HealthReporter * Svc;
  (* listeners *)
  TcpListener : Type;
  TcpListener_bind : ToSocketAddrs -> net -> result TcpListener string * net;
  listener_local_addr : TcpListener -> result SocketAddr string;
  UnixListener : Type;
  UnixListener_bind : string -> net -> result UnixListener string * net;
}.

Section network.
Context {MC : MultiaddrCrate} {TP : Transport}.

Definition N (A : Type) : Type := comp net A.

Definition io {A} (f : net -> A * net) : N A := fun n => let (a, n') := f n in (Ret a, n').

(** ** Clients (client.rs) *)

Record MyEndpoint : Type := mkMyEndpoint {
  endpoint : Endpoint;
  uds_connector : option string;
}.

Definition MyEndpoint_new (e : Endpoint) : MyEndpoint := mkMyEndpoint e None.

(** Errors are shown by their context. *)
Definition try_from_uri (uri : string) : result MyEndpoint string :=
  res_bind (map_err (fun _ => "unable to create Uri from '" +:+ uri +:+ "'") (parse_uri uri))
    (fun u => Ok (MyEndpoint_new (Endpoint_from u))).

Definition with_uds_connector (self : MyEndpoint) (path : string) : MyEndpoint :=
  mkMyEndpoint (endpoint self) (Some path).

Definition if_some {A B} (o : option A) (f : A -> B -> B) (b : B) : B :=
  match o with Some a => f a b | None => b end.

Definition apply_config_to_endpoint (config : Config) (e : Endpoint) : Endpoint :=
  let e := if_some (concurrency_limit_per_connection config) ep_concurrency_limit e in
  let e := if_some (request_timeout config) ep_timeout e in
  let e := if_some (connect_timeout config) ep_connect_timeout e in
  let e := if_some (tcp_nodelay config) ep_tcp_nodelay e in
  let e := if_some (http2_keepalive_interval config) ep_http2_keep_alive_interval e in
  let e := if_some (http2_keepalive_timeout config) ep_keep_alive_timeout e in
  let e := if_some (rate_limit config) (fun ld => ep_rate_limit ld.1 ld.2) e in
  let e := ep_initial_stream_window_size (http2_initial_stream_window_size config) e in
  let e := ep_initial_connection_window_size (http2_initial_connection_window_size config) e in
  ep_tcp_keepalive (tcp_keepalive config) e.

Definition apply_config (self : MyEndpoint) (config : Config) : MyEndpoint :=
  mkMyEndpoint (apply_config_to_endpoint config (endpoint self)) (uds_connector self).

Definition MyEndpoint_connect_lazy (self : MyEndpoint) : Channel :=
  match uds_connector self with
  | Some path => ep_connect_with_connector_lazy (fun _ => UnixStream_connect path) (endpoint self)
  | None => ep_connect_lazy (endpoint self)
  end.

Definition MyEndpoint_connect (self : MyEndpoint) : N (result Channel string) :=
  match uds_connector self with
  | Some path => io (ep_connect_with_connector (fun _ => UnixStream_connect path) (endpoint self))
  | None => io (ep_connect (endpoint self))
  end.

Definition endpoint_from_multiaddr (addr : Multiaddr) : result MyEndpoint string :=
  match iter addr with
  | [] => Err "address is empty"
  | Dns _ :: _ =>
      res_bind (parse_dns addr) (fun '(dns_name, tcp_port, http_or_https) =>
      try_from_uri (http_or_https +:+ "://" +:+ dns_name +:+ ":" +:+ decimal tcp_port))
  | Ip4 _ :: _ =>
      res_bind (parse_ip4 addr) (fun '(socket_addr, http_or_https) =>
      try_from_uri (http_or_https +:+ "://" +:+ SocketAddr_display socket_addr))
  | Ip6 _ :: _ =>
      res_bind (parse_ip6 addr) (fun '(socket_addr, http_or_https) =>
      try_from_uri (http_or_https +:+ "://" +:+ SocketAddr_display socket_addr))
  | Unix _ :: _ =>
      res_bind (parse_unix addr) (fun '(path, http_or_https) =>
      res_bind (try_from_uri (http_or_https +:+ "://localhost")) (fun e =>
      Ok (with_uds_connector e path)))
  | unsupported :: _ => Err ("unsupported protocol " +:+ Protocol_display unsupported)
  end.

Definition connect (address : Multiaddr) : N (result Channel string) :=
  e <-? ret (endpoint_from_multiaddr address) ;; MyEndpoint_connect e.

Definition connect_lazy (address : Multiaddr) : result Channel string :=
  res_bind (endpoint_from_multiaddr address) (fun e => Ok (MyEndpoint_connect_lazy e)).

Definition connect_with_config (address : Multiaddr) (config : Config) : N (result Channel string) :=
  e <-? ret (endpoint_from_multiaddr address) ;; MyEndpoint_connect (apply_config e config).

Definition connect_lazy_with_config (address : Multiaddr) (config : Config) : result Channel string :=
  res_bind (endpoint_from_multiaddr address) (fun e =>
  Ok (MyEndpoint_connect_lazy (apply_config e config))).

(** [Config::connect] and [Config::connect_lazy]. *)
Definition Config_connect (self : Config) (addr : Multiaddr) : N (result Channel string) :=
  connect_with_config addr self.

Definition Config_connect_lazy (self : Config) (addr : Multiaddr) : result Channel string :=
  connect_lazy_with_config addr self.

(** ** Servers (server.rs) *)

Record ServerBuilder : Type := mkServerBuilder {
  router : Router;
  builder_health_reporter : HealthReporter;
}.

Definition config_layers (config : Config) : list layer :=
  match global_concurrency_limit config with
  | Some limit => [GlobalConcurrencyLimitLayer limit]
  | None => []
  end ++
  (if default false (load_shed config) then [LoadShedLayer] else []) ++
  [RequestLifetimeLayer; SetRequestHeaderLayer; TraceLayer; PropagateHeaderLayer].

Definition from_config (config : Config) : ServerBuilder :=
  let b := server_builder in
  let b := if_some (concurrency_limit_per_connection config) sb_concurrency_limit_per_connection b in
  let b := if_some (request_timeout config) sb_timeout b in
  let b := if_some (tcp_nodelay config) sb_tcp_nodelay b in
  let (reporter, health_service) := health_reporter in
  let b := sb_initial_stream_window_size (http2_initial_stream_window_size config) b in
  let b := sb_initial_connection_window_size (http2_initial_connection_window_size config) b in
  let b := sb_http2_keepalive_interval (http2_keepalive_interval config) b in
  let b := sb_http2_keepalive_timeout (http2_keepalive_timeout config) b in
  let b := sb_max_concurrent_streams (http2_max_concurrent_streams config) b in
  let b := sb_tcp_keepalive (tcp_keepalive config) b in
  let b := sb_layer (config_layers config) b in
  mkServerBuilder (builder_add_service health_service b) reporter.

Definition add_service (self : ServerBuilder) (svc : Svc) : ServerBuilder :=
  mkServerBuilder (router_add_service svc (router self)) (builder_health_reporter self).

Definition ServerBuilder_health_reporter (self : ServerBuilder) : HealthReporter :=
  builder_health_reporter self.

(** [Config::server_builder] and [server_builder_with_metrics]: the provider is
    captured by the layers (HttpLayers). *)
Definition Config_server_builder (self : Config) : ServerBuilder := from_config self.

Definition Config_server_builder_with_metrics {M : Type} (self : Config) (metrics_provider : M) :
    ServerBuilder := from_config self.

(** What a server listens on. *)
Inductive incoming : Type :=
| TcpIncoming (listener : TcpListener)
| UnixIncoming (listener : UnixListener).

(** A bound server: the future serves the router on the incoming connections
    until it is cancelled; it is run by [serve]. *)
Record Server : Type := mkServer {
  server : Router * incoming;
  cancel_handle : option unit;
  local_addr : Multiaddr;
  server_health_reporter : HealthReporter;
}.

Definition tcp_listener (address : ToSocketAddrs) : N (result (SocketAddr * TcpListener) string) :=
  listener <-? io (TcpListener_bind address) ;;
  local_addr <-? ret (listener_local_addr listener) ;;
  ret (Ok (local_addr, listener)).

(** A computation that does not use the state. *)
Definition lift {W A} (o : outcome A) : comp W A := fun w => (o, w).

Definition update_tcp_port_in_multiaddr (addr : Multiaddr) (port : Z) : N Multiaddr :=
  r <- lift (replace addr 1 (fun protocol =>
         match protocol with
         | Tcp _ => Ret (Some (Tcp port))
         | _ => Panicked "expected tcp protocol at index 1"
         end)) ;;
  expect "tcp protocol at index 1" r.

Definition tcp_listener_and_update_multiaddr (address : Multiaddr) (socket_addr : ToSocketAddrs) :
    N (result (Multiaddr * TcpListener) string) :=
  li <-? tcp_listener socket_addr ;;
  local_addr <- update_tcp_port_in_multiaddr address (port li.1) ;;
  ret (Ok (local_addr, li.2)).

(** The address bound to and the future, by the first protocol. *)
Definition bind_listener (self : ServerBuilder) (addr : Multiaddr) :
    N (result (Multiaddr * (Router * incoming)) string) :=
  match iter addr with
  | [] => ret (Err "malformed addr")
  | Dns _ :: _ =>
      d <-? ret (parse_dns addr) ;;
      li <-? tcp_listener_and_update_multiaddr addr (HostPort d.1.1 d.1.2) ;;
      ret (Ok (li.1, (router self, TcpIncoming li.2)))
  | Ip4 _ :: _ =>
      s <-? ret (parse_ip4 addr) ;;
      li <-? tcp_listener_and_update_multiaddr addr (Addr s.1) ;;
      ret (Ok (li.1, (router self, TcpIncoming li.2)))
  | Ip6 _ :: _ =>
      s <-? ret (parse_ip6 addr) ;;
      li <-? tcp_listener_and_update_multiaddr addr (Addr s.1) ;;
      ret (Ok (li.1, (router self, TcpIncoming li.2)))
  | Unix _ :: _ =>
      p <-? ret (parse_unix addr) ;;
      uds <-? io (UnixListener_bind p.1) ;;
      ret (Ok (addr, (router self, UnixIncoming uds)))
  | unsupported :: _ => ret (Err ("unsupported protocol " +:+ Protocol_display unsupported))
  end.

Definition ServerBuilder_bind (self : ServerBuilder) (addr : Multiaddr) : N (result Server string) :=
  ls <-? bind_listener self addr ;;
  ret (Ok (mkServer ls.2 (Some tt) ls.1 (builder_health_reporter self))).

(** [take_cancel_handle]: the handle once, then nothing. *)
Definition take_cancel_handle (self : Server) : option unit * Server :=
  (cancel_handle self,
   mkServer (server self) None (local_addr self) (server_health_reporter self)).

(** [serve] awaits the future; what that does, until it is cancelled or fails, is
    up to tonic. *)
Definition Server_serve (serve_with_incoming_shutdown : Router -> incoming -> N (result unit string))
    (self : Server) : N (result unit string) :=
  serve_with_incoming_shutdown (server self).1 (server self).2.

Definition Server_local_addr (self : Server) : Multiaddr := local_addr self.

Definition Server_health_reporter (self : Server) : HealthReporter := server_health_reporter self.

(** ** Requests (server.rs: RequestLifetime) *)

(** Calls of the metrics provider. *)
Inductive lifetime_event : Type := OnStart (path : string) | OnDrop (path : string).

(** The live values of [RequestLifetime], by identity, with their path. *)
Record lifetimes : Type := mkLifetimes {
  lt_path : gmap nat (option string);
  lt_next : nat;
  lt_events : list lifetime_event;
}.

Definition no_lifetimes : lifetimes := mkLifetimes ∅ 0 [].

Inductive lifetime_op : Type :=
| OpLayer                          (* RequestLifetimeLayer::layer *)
| OpCall (i : nat) (path : string) (* Service::call, with the path of the request *)
| OpClone (i : nat)                (* derived Clone *)
| OpDrop (i : nat).                (* Drop *)

Definition add_lifetime (path : option string) (s : lifetimes) : lifetimes :=
  mkLifetimes (<[lt_next s := path]> (lt_path s)) (S (lt_next s)) (lt_events s).

(** An operation on a value that is not alive cannot be written. *)
Definition lifetime_step (op : lifetime_op) (s : lifetimes) : lifetimes :=
  match op with
  | OpLayer => add_lifetime None s
  | OpCall i path =>
      match lt_path s !! i with
      | Some None =>
          mkLifetimes (<[i := Some path]> (lt_path s)) (lt_next s) (lt_events s ++ [OnStart path])
      | _ => s
      end
  | OpClone i =>
      match lt_path s !! i with Some path => add_lifetime path s | None => s end
  | OpDrop i =>
      match lt_path s !! i with
      | Some (Some path) =>
          mkLifetimes (delete i (lt_path s)) (lt_next s) (lt_events s ++ [OnDrop path])
      | _ => mkLifetimes (delete i (lt_path s)) (lt_next s) (lt_events s)
      end
  end.

Definition run_lifetimes (ops : list lifetime_op) : lifetimes :=
  foldl (fun s op => lifetime_step op s) no_lifetimes ops.

End network.
