(* ===== verification/NetworkTheorems.v ===== *)
(** * Theorems on addresses, endpoints and servers *)
From S2P Require Import Prelude Bytes Multiaddr Network.
Open Scope Z_scope.

(** ** What an address means *)

Inductive scheme : Type := SchemeHttp | SchemeHttps.

Definition scheme_protocol (s : scheme) : Protocol :=
  match s with SchemeHttp => Http | SchemeHttps => Https end.
Definition scheme_name (s : scheme) : string :=
  match s with SchemeHttp => "http" | SchemeHttps => "https" end.

Inductive target : Type :=
| TDns (name : string) (tcp_port : Z) (s : scheme)
| TIp4 (a : Ipv4Addr) (tcp_port : Z) (s : scheme)
| TIp6 (a : Ipv6Addr) (tcp_port : Z) (s : scheme)
| TUnix (path : string) (s : scheme).

Definition target_protocols (t : target) : list Protocol :=
  match t with
  | TDns name p s => [Dns name; Tcp p; scheme_protocol s]
  | TIp4 a p s => [Ip4 a; Tcp p; scheme_protocol s]
  | TIp6 a p s => [Ip6 a; Tcp p; scheme_protocol s]
  | TUnix path s => [Unix path; scheme_protocol s]
  end.

Definition with_port (p : Z) (t : target) : target :=
  match t with
  | TDns name _ s => TDns name p s
  | TIp4 a _ s => TIp4 a p s
  | TIp6 a _ s => TIp6 a p s
  | TUnix path s => TUnix path s
  end.

(** The URI a client connects to, and the socket file if it is one. *)
Definition target_uri (t : target) : string :=
  match t with
  | TDns name p s => scheme_name s +:+ "://" +:+ name +:+ ":" +:+ decimal p
  | TIp4 a p s => scheme_name s +:+ "://" +:+ Ipv4Addr_display a +:+ ":" +:+ decimal p
  | TIp6 a p s => scheme_name s +:+ "://" +:+ "[" +:+ Ipv6Addr_display a +:+ "]:" +:+ decimal p
  | TUnix _ s => scheme_name s +:+ "://localhost"
  end.

Definition target_uds (t : target) : option string :=
  match t with TUnix path _ => Some path | _ => None end.

(** What a server listens on for a target that is not a socket file. *)
Definition target_listen (t : target) : option ToSocketAddrs :=
  match t with
  | TDns name p _ => Some (HostPort name p)
  | TIp4 a p _ => Some (Addr (SocketAddr_new (V4 a) p))
  | TIp6 a p _ => Some (Addr (SocketAddr_new (V6 a) p))
  | TUnix _ _ => None
  end.

Section parsers.
Context {MC : MultiaddrCrate}.

(** Case analysis over the first four protocols of an address. *)
Ltac by_protocols addr :=
  destruct (iter addr) as [|[] [|[] [|[] [|]]]]; simpl.

Lemma parse_dns_ok addr name p h :
  parse_dns addr = Ok (name, p, h) <->
  exists s, iter addr = target_protocols (TDns name p s) /\ h = scheme_name s.
Proof.
  unfold parse_dns, on_iter. split.
  - by_protocols addr; intros; simplify_eq; [exists SchemeHttp|exists SchemeHttps]; done.
  - intros ([] & -> & ->); done.
Qed.

Lemma parse_ip4_ok addr a h :
  parse_ip4 addr = Ok (a, h) <->
  exists v4 s, a = SocketAddr_new (V4 v4) (port a) /\
    iter addr = target_protocols (TIp4 v4 (port a) s) /\ h = scheme_name s.
Proof.
  unfold parse_ip4, on_iter. split.
  - by_protocols addr; intros; simplify_eq; eexists;
      [exists SchemeHttp|exists SchemeHttps]; done.
  - intros (v4 & [] & Ha & -> & ->); simpl; by rewrite Ha at 2.
Qed.

Lemma parse_ip6_ok addr a h :
  parse_ip6 addr = Ok (a, h) <->
  exists v6 s, a = SocketAddr_new (V6 v6) (port a) /\
    iter addr = target_protocols (TIp6 v6 (port a) s) /\ h = scheme_name s.
Proof.
  unfold parse_ip6, on_iter. split.
  - by_protocols addr; intros; simplify_eq; eexists;
      [exists SchemeHttp|exists SchemeHttps]; done.
  - intros (v6 & [] & Ha & -> & ->); simpl; by rewrite Ha at 2.
Qed.

Lemma parse_unix_ok addr path h :
  parse_unix addr = Ok (path, h) <->
  exists s, iter addr = target_protocols (TUnix path s) /\ h = scheme_name s.
Proof.
  unfold parse_unix, on_iter. split.
  - by_protocols addr; intros; simplify_eq; [exists SchemeHttp|exists SchemeHttps]; done.
  - intros ([] & -> & ->); done.
Qed.

End parsers.

Section network.
Context {MC : MultiaddrCrate} {TP : Transport}.
Implicit Types (addr : Multiaddr) (t : target) (self : ServerBuilder).

Definition target_endpoint t : result MyEndpoint string :=
  match parse_uri (target_uri t) with
  | Ok u => Ok (mkMyEndpoint (Endpoint_from u) (target_uds t))
  | Err _ => Err ("unable to create Uri from '" +:+ target_uri t +:+ "'")
  end.

Definition no_target addr : Prop := forall t, iter addr <> target_protocols t.

Lemma endpoint_of_target addr t :
  iter addr = target_protocols t -> endpoint_from_multiaddr addr = target_endpoint t.
Proof.
  intros H. unfold endpoint_from_multiaddr, target_endpoint. destruct t as [n p s|a p s|a p s|n s].
  - rewrite (proj2 (parse_dns_ok addr n p (scheme_name s))) by eauto. rewrite H. simpl.
    unfold try_from_uri. by destruct (parse_uri _).
  - rewrite (proj2 (parse_ip4_ok addr (SocketAddr_new (V4 a) p) (scheme_name s))) by eauto.
    rewrite H. simpl. unfold try_from_uri, SocketAddr_display. simpl. by destruct (parse_uri _).
  - rewrite (proj2 (parse_ip6_ok addr (SocketAddr_new (V6 a) p) (scheme_name s))) by eauto.
    rewrite H. simpl. unfold try_from_uri, SocketAddr_display. simpl. by destruct (parse_uri _).
  - rewrite (proj2 (parse_unix_ok addr n (scheme_name s))) by eauto. rewrite H. simpl.
    unfold try_from_uri. by destruct (parse_uri _).
Qed.

(** Each parser, on an address without a target. *)
Lemma parse_no_target addr :
  no_target addr ->
  (exists e, parse_dns addr = Err e) /\ (exists e, parse_ip4 addr = Err e) /\
  (exists e, parse_ip6 addr = Err e) /\ (exists e, parse_unix addr = Err e).
Proof.
  intros H. split_and!.
  - destruct (parse_dns addr) as [[[n p] h]|e] eqn:E; [|eauto].
    apply parse_dns_ok in E as (s & E & _). by destruct (H _ E).
  - destruct (parse_ip4 addr) as [[a h]|e] eqn:E; [|eauto].
    apply parse_ip4_ok in E as (v & s & _ & E & _). by destruct (H _ E).
  - destruct (parse_ip6 addr) as [[a h]|e] eqn:E; [|eauto].
    apply parse_ip6_ok in E as (v & s & _ & E & _). by destruct (H _ E).
  - destruct (parse_unix addr) as [[n h]|e] eqn:E; [|eauto].
    apply parse_unix_ok in E as (s & E & _). by destruct (H _ E).
Qed.

Lemma to_socket_addr_ok addr a :
  to_socket_addr addr = Ok a <->
  exists p rest, iter addr = p :: Tcp (port a) :: rest /\
    match ip a with V4 v4 => p = Ip4 v4 | V6 v6 => p = Ip6 v6 end.
Proof.
  unfold to_socket_addr, on_iter. split.
  - destruct (iter addr) as [|[] [|[] rest]]; simpl; intros; simplify_eq/=; eauto.
  - intros (p & rest & -> & Hp). by destruct a as [[] ?]; simplify_eq/=.
Qed.

(** C37: the addresses a client can dial.  [endpoint_from_multiaddr] succeeds
    exactly for /dns/-/tcp/-/s, /ip4/-/tcp/-/s, /ip6/-/tcp/-/s and /unix/-/s with
    s http or https and nothing after it; the endpoint is then the URI
    [s://host:port], and for a socket file [s://localhost] over that file.  The
    only other failure is a URI that the URI parser refuses.  For an IP address
    [to_socket_addr] gives the same socket address. *)
Theorem endpoint_from_multiaddr_spec addr :
  (forall t, iter addr = target_protocols t ->
     endpoint_from_multiaddr addr = target_endpoint t /\
     (forall a, target_listen t = Some (Addr a) -> to_socket_addr addr = Ok a)) /\
  (no_target addr -> exists e, endpoint_from_multiaddr addr = Err e).
Proof.
  split.
  - intros t H. split; [by apply endpoint_of_target|]. intros a Ha. apply to_socket_addr_ok.
    rewrite H. destruct t; simplify_eq/=; eauto.
  - intros H. destruct (parse_no_target addr H) as ([? E1] & [? E2] & [? E3] & [? E4]).
    unfold endpoint_from_multiaddr. rewrite E1, E2, E3, E4.
    destruct (iter addr) as [|[] ?]; simpl; eauto.
Qed.

(** ** Binding *)

Context {ML : MultiaddrLaws}.
Set Default Proof Using "Type*".

Lemma update_tcp_port_target addr t p (n : net) :
  iter addr = target_protocols t -> target_uds t = None ->
  exists addr', update_tcp_port_in_multiaddr addr p n = (Ret addr', n) /\
    iter addr' = target_protocols (with_port p t).
Proof.
  intros H Hu. unfold update_tcp_port_in_multiaddr.
  set (by_ := fun q => match q with Tcp _ => Ret (Some (Tcp p)) | _ => Panicked _ end).
  assert (exists q, iter addr !! 1%nat = Some (Tcp q)) as [q Hq]
    by (rewrite H; destruct t; naive_solver).
  destruct (replace_some addr 1 (Tcp q) (Tcp p) by_ Hq eq_refl) as (addr' & E & Hi).
  exists addr'. unfold bind, lift. rewrite E. split; [done|].
  rewrite Hi, H. by destruct t; simplify_eq/=.
Qed.

(** What a server gets from the operating system for a target. *)
Definition listens t (l : incoming) (t' : target) (n n' : net) : Prop :=
  match target_listen t, l with
  | Some where_, TcpIncoming listener =>
      TcpListener_bind where_ n = (Ok listener, n') /\
      exists a, listener_local_addr listener = Ok a /\ t' = with_port (port a) t
  | None, UnixIncoming listener =>
      exists path, target_uds t = Some path /\ UnixListener_bind path n = (Ok listener, n') /\ t' = t
  | _, _ => False
  end.

(** The ways listening on a target fails. *)
Definition refuses t (e : string) (n n' : net) : Prop :=
  match target_listen t with
  | Some where_ =>
      TcpListener_bind where_ n = (Err e, n') \/
      exists listener, TcpListener_bind where_ n = (Ok listener, n') /\
        listener_local_addr listener = Err e
  | None => exists path, target_uds t = Some path /\ UnixListener_bind path n = (Err e, n')
  end.

Lemma tcp_listener_and_update_target addr t where_ n :
  iter addr = target_protocols t -> target_listen t = Some where_ ->
  (exists addr' listener n' t', tcp_listener_and_update_multiaddr addr where_ n = (Ret (Ok (addr', listener)), n') /\
     listens t (TcpIncoming listener) t' n n' /\ iter addr' = target_protocols t') \/
  (exists e n', tcp_listener_and_update_multiaddr addr where_ n = (Ret (Err e), n') /\ refuses t e n n').
Proof.
  intros H Hl. unfold tcp_listener_and_update_multiaddr, tcp_listener, listens, refuses. rewrite Hl.
  unfold try_bind, bind, io, ret.
  destruct (TcpListener_bind where_ n) as [[listener|e] n'] eqn:Hb; [|right; exists e, n'; eauto].
  destruct (listener_local_addr listener) as [a|e] eqn:Ha; simpl; [left|right; exists e, n'; eauto 6].
  destruct (update_tcp_port_target addr t (port a) n' H) as (addr' & E & Hi); [by destruct t|].
  rewrite E. exists addr', listener, n', (with_port (port a) t). split_and!; eauto.
Qed.

Lemma target_protocols_inj t t' : target_protocols t = target_protocols t' -> t = t'.
Proof. destruct t as [? ? s|? ? s|? ? s|? s], t' as [? ? s'|? ? s'|? ? s'|? s']; simpl; intros;
    simplify_eq/=; f_equal; by destruct s, s'. Qed.

Lemma bind_listener_tcp self addr t where_ :
  iter addr = target_protocols t -> target_listen t = Some where_ ->
  bind_listener self addr =
    try_bind (tcp_listener_and_update_multiaddr addr where_)
      (fun li => ret (Ok (li.1, (router self, TcpIncoming li.2)))).
Proof.
  intros H Hl. unfold bind_listener. destruct t as [name p s|a p s|a p s|path s]; simplify_eq/=.
  - rewrite (proj2 (parse_dns_ok addr name p (scheme_name s))) by eauto. by rewrite H.
  - rewrite (proj2 (parse_ip4_ok addr (SocketAddr_new (V4 a) p) (scheme_name s))) by eauto.
    by rewrite H.
  - rewrite (proj2 (parse_ip6_ok addr (SocketAddr_new (V6 a) p) (scheme_name s))) by eauto.
    by rewrite H.
Qed.

Lemma bind_listener_unix self addr path s :
  iter addr = target_protocols (TUnix path s) ->
  bind_listener self addr =
    try_bind (io (UnixListener_bind path)) (fun uds => ret (Ok (addr, (router self, UnixIncoming uds)))).
Proof.
  intros H. unfold bind_listener.
  rewrite (proj2 (parse_unix_ok addr path (scheme_name s))) by eauto. by rewrite H.
Qed.

Lemma bind_listener_none self addr n :
  no_target addr -> exists e, bind_listener self addr n = (Ret (Err e), n).
Proof.
  intros H. destruct (parse_no_target addr H) as ([? E1] & [? E2] & [? E3] & [? E4]).
  unfold bind_listener. rewrite E1, E2, E3, E4.
  destruct (iter addr) as [|[] ?]; simpl; unfold try_bind, bind, ret; eauto.
Qed.

Lemma target_dec addr : no_target addr \/ exists t, iter addr = target_protocols t.
Proof.
  destruct (parse_dns addr) as [[[n p] h]|] eqn:E1;
    [apply parse_dns_ok in E1 as (s & ? & _); eauto|].
  destruct (parse_ip4 addr) as [[a h]|] eqn:E2;
    [apply parse_ip4_ok in E2 as (v & s & _ & ? & _); eauto|].
  destruct (parse_ip6 addr) as [[a h]|] eqn:E3;
    [apply parse_ip6_ok in E3 as (v & s & _ & ? & _); eauto|].
  destruct (parse_unix addr) as [[n h]|] eqn:E4;
    [apply parse_unix_ok in E4 as (s & ? & _); eauto|].
  left. intros t Ht. destruct t as [n p s|a p s|a p s|n s].
  - rewrite (proj2 (parse_dns_ok addr n p (scheme_name s))) in E1 by eauto. done.
  - rewrite (proj2 (parse_ip4_ok addr (SocketAddr_new (V4 a) p) (scheme_name s))) in E2 by eauto. done.
  - rewrite (proj2 (parse_ip6_ok addr (SocketAddr_new (V6 a) p) (scheme_name s))) in E3 by eauto. done.
  - rewrite (proj2 (parse_unix_ok addr n (scheme_name s))) in E4 by eauto. done.
Qed.

Lemma bind_listener_spec self addr n :
  (exists e, bind_listener self addr n = (Ret (Err e), n) /\ no_target addr) \/
  (exists t, iter addr = target_protocols t /\
    ((exists addr' l n' t', bind_listener self addr n = (Ret (Ok (addr', (router self, l))), n') /\
        listens t l t' n n' /\ iter addr' = target_protocols t') \/
     (exists e n', bind_listener self addr n = (Ret (Err e), n') /\ refuses t e n n'))).
Proof.
  destruct (target_dec addr) as [H|[t H]].
  { left. destruct (bind_listener_none self addr n H) as [e E]. eauto. }
  right. exists t. split; [done|].
  destruct (target_listen t) as [where_|] eqn:Hl.
  - rewrite (bind_listener_tcp self addr t where_) by done.
    destruct (tcp_listener_and_update_target addr t where_ n H Hl)
      as [(addr' & l & n' & t' & E & ? & ?)|(e & n' & E & ?)]; unfold try_bind, bind; rewrite E.
    + left. exists addr', (TcpIncoming l), n', t'. done.
    + right. by exists e, n'.
  - destruct t as [| | |path s]; simplify_eq/=. rewrite (bind_listener_unix self addr path s) by done.
    unfold try_bind, bind, io, listens, refuses. simpl.
    destruct (UnixListener_bind path n) as [[l|e] n'] eqn:E.
    + left. exists addr, (UnixIncoming l), n', (TUnix path s). split_and!; eauto.
    + right. exists e, n'. eauto.
Qed.

(** C17: a bound server can be reached at the address it reports.  [bind] never
    panics.  An address without a target is refused before anything is bound.
    For an address with a target, [bind] listens on what the target names; the
    error of the operating system is returned, and on success the local address
    is the given one with the port the listener got (unchanged for a socket
    file), which a client turns into the endpoint of exactly that port.  The
    server has a cancel handle and serves the router of the builder. *)
Theorem bind_local_addr self addr n :
  exists r n', ServerBuilder_bind self addr n = (Ret r, n') /\
    (no_target addr -> n' = n /\ exists e, r = Err e) /\
    (forall t, iter addr = target_protocols t ->
       match r with
       | Ok srv =>
           exists l t', server srv = (router self, l) /\ cancel_handle srv = Some tt /\
             listens t l t' n n' /\ iter (local_addr srv) = target_protocols t' /\
             endpoint_from_multiaddr (local_addr srv) = target_endpoint t'
       | Err e => refuses t e n n'
       end).
Proof.
  unfold ServerBuilder_bind.
  destruct (bind_listener_spec self addr n) as [(e & E & He)|(t & Ht & [H|H])].
  - exists (Err e), n. unfold try_bind, bind. rewrite E. split_and!; [done|eauto|].
    intros t Ht. by destruct (He t).
  - destruct H as (addr' & l & n' & t' & E & Hl & Hi).
    eexists (Ok _), n'. unfold try_bind, bind at 1. rewrite E. split; [reflexivity|].
    split; [intros Hn; by destruct (Hn t)|]. intros t1 Ht1.
    rewrite Ht in Ht1. apply target_protocols_inj in Ht1 as <-.
    exists l, t'. split_and!; try done. by apply endpoint_of_target.
  - destruct H as (e & n' & E & Hr). exists (Err e), n'. unfold try_bind, bind. rewrite E.
    split; [done|]. split; [intros Hn; by destruct (Hn t)|]. intros t1 Ht1.
    rewrite Ht in Ht1. by apply target_protocols_inj in Ht1 as <-.
Qed.

End network.

(** ** Request lifetimes *)

Open Scope nat_scope.

Section lifetimes.
Implicit Types (p : string) (s : lifetimes) (m : gmap nat (option string)).

Definition on (p : string) (x : option string) : nat := if decide (x = Some p) then 1 else 0.

#[local] Instance lifetime_event_eq_dec : EqDecision lifetime_event.
Proof. solve_decision. Defined.

Lemma on_None p : on p None = 0.
Proof. done. Qed.

(** The live values that carry a path, and the calls of the provider. *)
Definition live p m : nat := size (filter (fun ix : nat * option string => ix.2 = Some p) m).

Definition starts p (l : list lifetime_event) : nat :=
  length (filter (fun e => e = OnStart p) l).
Definition drops p (l : list lifetime_event) : nat :=
  length (filter (fun e => e = OnDrop p) l).

(** How often an already started value is cloned. *)
Fixpoint copies p s (ops : list lifetime_op) : nat :=
  match ops with
  | [] => 0
  | op :: ops' =>
      match op with
      | OpClone i => on p (default None (lt_path s !! i))
      | _ => 0
      end + copies p (lifetime_step op s) ops'
  end.

Lemma live_insert p m i x : m !! i = None -> live p (<[i := x]> m) = live p m + on p x.
Proof.
  intros H. unfold live, on. destruct (decide (x = Some p)) as [->|Hx].
  - rewrite map_filter_insert_True by done. rewrite map_size_insert_None; [lia|].
    by rewrite map_lookup_filter, H.
  - rewrite map_filter_insert_False by done. rewrite delete_id by done. lia.
Qed.

Lemma live_delete p m i x : m !! i = Some x -> live p (delete i m) + on p x = live p m.
Proof.
  intros H. rewrite <- (insert_delete_id m i x H) at 2.
  by rewrite live_insert by apply lookup_delete_eq.
Qed.

Lemma starts_snoc p l e :
  starts p (l ++ [e]) = starts p l + match e with OnStart q => on p (Some q) | OnDrop _ => 0 end.
Proof.
  unfold starts, on. rewrite filter_app, length_app. f_equal. rewrite filter_cons, filter_nil.
  destruct e; repeat case_decide; naive_solver.
Qed.

Lemma drops_snoc p l e :
  drops p (l ++ [e]) = drops p l + match e with OnDrop q => on p (Some q) | OnStart _ => 0 end.
Proof.
  unfold drops, on. rewrite filter_app, length_app. f_equal. rewrite filter_cons, filter_nil.
  destruct e; repeat case_decide; naive_solver.
Qed.

Definition bounded s : Prop := forall i, is_Some (lt_path s !! i) -> i < lt_next s.

Lemma bounded_fresh s : bounded s -> lt_path s !! lt_next s = None.
Proof. intros H. apply eq_None_not_Some. intros H'%H. lia. Qed.

Lemma bounded_step op s : bounded s -> bounded (lifetime_step op s).
Proof.
  intros H.
  assert (Hadd : forall x, bounded (add_lifetime x s)).
  { intros x i. simpl. rewrite lookup_insert_is_Some'. intros [<-|Hi%H]; lia. }
  destruct op as [|i path|i|i]; simpl; [apply Hadd| | |].
  - destruct (lt_path s !! i) as [[]|] eqn:E; [done| |done].
    intros j. simpl. rewrite lookup_insert_is_Some'. intros [<-|Hj]; [apply H; eauto|by apply H].
  - by destruct (lt_path s !! i) as [x|].
  - assert (forall l, bounded (mkLifetimes (delete i (lt_path s)) (lt_next s) l)).
    { intros l j. simpl. rewrite lookup_delete_is_Some. intros [_ Hj]. by apply H. }
    by destruct (lt_path s !! i) as [[]|].
Qed.

(** One operation: what it starts, copies, drops and leaves alive. *)
Lemma balance_step p op s :
  bounded s ->
  starts p (lt_events (lifetime_step op s)) + copies p s [op] +
    (drops p (lt_events s) + live p (lt_path s)) =
  starts p (lt_events s) +
    (drops p (lt_events (lifetime_step op s)) + live p (lt_path (lifetime_step op s))).
Proof.
  intros Hb. pose proof (bounded_fresh s Hb) as Hf. simpl copies.
  destruct op as [|i path|i|i]; simpl.
  - rewrite live_insert by done. rewrite on_None. lia.
  - destruct (lt_path s !! i) as [[q|]|] eqn:E; simpl; try lia.
    rewrite starts_snoc, drops_snoc, <- insert_delete_eq.
    rewrite live_insert by apply lookup_delete_eq.
    pose proof (live_delete p _ _ _ E) as Hl. rewrite on_None in Hl. lia.
  - destruct (lt_path s !! i) as [x|] eqn:E; simpl.
    + rewrite live_insert by done. lia.
    + lia.
  - destruct (lt_path s !! i) as [[q|]|] eqn:E; simpl.
    + rewrite starts_snoc, drops_snoc. pose proof (live_delete p _ _ _ E). lia.
    + pose proof (live_delete p _ _ _ E) as Hl. rewrite on_None in Hl. lia.
    + rewrite delete_id by done. lia.
Qed.

Lemma balance_run p ops : forall s,
  bounded s ->
  let s' := foldl (fun s op => lifetime_step op s) s ops in
  starts p (lt_events s') + copies p s ops + (drops p (lt_events s) + live p (lt_path s)) =
  starts p (lt_events s) + (drops p (lt_events s') + live p (lt_path s')).
Proof.
  induction ops as [|op ops IH]; intros s Hb; [simpl; lia|].
  pose proof (IH _ (bounded_step op s Hb)) as H1. pose proof (balance_step p op s Hb) as H2.
  simpl in *. lia.
Qed.

(** C36: the start and drop calls of requests.  For every path and every
    sequence of layering, calling, cloning and dropping, the drops seen and the
    values still alive for the path are the starts seen plus the clones made of
    values that had already started.  So once all values are gone each start
    has had its drop; and each clone of a started value causes one more drop,
    without a start. *)
Theorem request_lifetime_balance p (ops : list lifetime_op) :
  let s := run_lifetimes ops in
  drops p (lt_events s) + live p (lt_path s) = starts p (lt_events s) + copies p no_lifetimes ops.
Proof.
  pose proof (balance_run p ops no_lifetimes) as H. simpl in H. unfold run_lifetimes. simpl.
  unfold live at 1 in H. rewrite map_filter_empty, map_size_empty in H. simpl in H.
  rewrite <- H; [lia|]. intros i. simpl. rewrite lookup_empty. by intros [].
Qed.

End lifetimes.
