(* ===== verification/ServerLife.v ===== *)
(** * The life of a server (mysten-network/src/server.rs)

    [bind] makes a one-shot channel whose receiver tells the server to stop; the
    sender is the cancel handle, which [take_cancel_handle] moves out of the
    server.  The receiver is mapped to [()], so that dropping the handle stops
    the server like using it does.  [serve] consumes the server: a handle that
    was not taken stays inside. *)
From S2P Require Import Prelude Bytes Multiaddr Network.
Open Scope nat_scope.

Section server_life.
Context {MC : MultiaddrCrate} {TP : Transport}.

(** The handle once it is out of the server. *)
Inductive taken_handle : Type := Held | Used | Dropped.

(** Before [serve], while its future runs, and after it has completed. *)
Inductive server_phase : Type := Bound | Serving | Stopped.

Record server_life : Type := mkServerLife {
  sl_server : Server;
  sl_phase : server_phase;
  sl_handle : option taken_handle;
}.

(** [rx_cancellation.map(|_| ())] is ready: the sender was used or dropped. *)
Definition cancelled (l : server_life) : bool :=
  match sl_handle l with Some Used | Some Dropped => true | Some Held | None => false end.

(** [take_cancel_handle] as its caller keeps what it answers. *)
Definition taking (l : server_life) : server_life :=
  let (h, s) := take_cancel_handle (sl_server l) in
  mkServerLife s (sl_phase l) (match h with Some _ => Some Held | None => sl_handle l end).

(** What can happen to a server: its owner takes the handle or serves it, the
    handle is used or dropped, and the future ends, on its own only with an
    error. *)
Inductive server_step : server_life -> server_life -> Prop :=
| server_take l : sl_phase l = Bound -> server_step l (taking l)
| server_serve s h : server_step (mkServerLife s Bound h) (mkServerLife s Serving h)
| server_cancel s p : server_step (mkServerLife s p (Some Held)) (mkServerLife s p (Some Used))
| server_drop_handle s p :
    server_step (mkServerLife s p (Some Held)) (mkServerLife s p (Some Dropped))
| server_shut_down s h :
    cancelled (mkServerLife s Serving h) = true ->
    server_step (mkServerLife s Serving h) (mkServerLife s Stopped h)
| server_fails s h : server_step (mkServerLife s Serving h) (mkServerLife s Stopped h).

(** A server as [bind] answers it. *)
Definition server_bound (s : Server) : server_life := mkServerLife s Bound None.

(** ** Theorems *)

(** The handle is in one place. *)
Definition server_life_ok (s : Server) (l : server_life) : Prop :=
  server (sl_server l) = server s /\ local_addr (sl_server l) = local_addr s /\
  cancel_handle (sl_server l) = (match sl_handle l with None => Some tt | Some _ => None end).

Lemma server_step_ok s l l' : server_life_ok s l -> server_step l l' -> server_life_ok s l'.
Proof.
  intros (Hs & Ha & Hc) Hstep. destruct Hstep as [[sv p h] _|sv h|sv p|sv p|sv h _|sv h]; try done.
  unfold taking, take_cancel_handle, server_life_ok in *; simpl in *. rewrite Hc. by destruct h.
Qed.

Lemma server_reachable_ok s l :
  cancel_handle s = Some tt -> rtc server_step (server_bound s) l -> server_life_ok s l.
Proof.
  intros Hc. revert l. apply (rtc_ind_r (server_life_ok s)); [by split_and!|].
  intros l l' _ Hstep IH. by eapply server_step_ok.
Qed.

(** A served server that has its handle keeps it. *)
Lemma served_keeps_handle l l' :
  sl_phase l <> Bound /\ sl_handle l = None -> server_step l l' ->
  sl_phase l' <> Bound /\ sl_handle l' = None.
Proof. intros [Hp Hh] Hstep. destruct Hstep; simpl in *; by subst. Qed.

(** What a cancel handle is good for.  There is one, which can be taken once and
    only before [serve]; a server that is served with the handle inside cannot
    be asked to stop ever after; taken, the handle stops the server when it is
    used and also when it is only dropped, and until then the server ends by an
    error alone. *)
Theorem server_cancel_handle (s : Server) (l : server_life) :
  cancel_handle s = Some tt -> rtc server_step (server_bound s) l ->
  (taking (taking l) = taking l /\ (sl_handle l = None <-> sl_handle (taking l) <> sl_handle l)) /\
  (sl_phase l <> Bound -> sl_handle l = None ->
     forall l', rtc server_step l l' -> cancelled l' = false) /\
  (forall h, sl_handle l = Some h -> sl_phase l = Serving ->
     (cancelled l = true <-> h = Used \/ h = Dropped) /\
     exists l', rtc server_step l l' /\ cancelled l' = true /\ sl_phase l' = Stopped).
Proof.
  intros Hc Hl. destruct (server_reachable_ok s l Hc Hl) as (_ & _ & Hin). split_and!.
  - unfold taking, take_cancel_handle; simpl. rewrite Hin. destruct l as [sv p [h|]]; simpl in *; [|done].
    by destruct sv; simpl in *; subst.
  - unfold taking, take_cancel_handle; simpl. rewrite Hin. by destruct (sl_handle l).
  - intros Hp Hh l' Hrtc.
    assert (sl_phase l' <> Bound /\ sl_handle l' = None) as [_ Hh'].
    { revert l' Hrtc. apply (rtc_ind_r (fun l' => sl_phase l' <> Bound /\ sl_handle l' = None)); [done|].
      intros l1 l2 _ Hstep IH. by eapply served_keeps_handle. }
    unfold cancelled. by rewrite Hh'.
  - intros h Hh Hp. destruct l as [sv p h']; simpl in *; subst. split.
    + unfold cancelled; simpl. by destruct h; naive_solver.
    + destruct h.
      * exists (mkServerLife sv Stopped (Some Used)). split; [|done].
        eapply rtc_l; [apply server_cancel|]. by apply rtc_once, server_shut_down.
      * exists (mkServerLife sv Stopped (Some Used)). split; [|done]. by apply rtc_once, server_shut_down.
      * exists (mkServerLife sv Stopped (Some Dropped)). split; [|done]. by apply rtc_once, server_shut_down.
Qed.

End server_life.
