(* ===== verification/MallocSize.v ===== *)
(** * Heap sizes (mysten-util-mem, mysten-util-mem-derive)

    [MallocSizeOf] measures what a value owns on the heap.  A measurement
    threads the operations object, whose pointer predicate has state.  The
    containers are modelled by what the code asks of them: the elements in
    iteration order, the capacity, and the address of the first element.  The
    crate is built with its default features, so that vectors, boxes and strings
    are estimated (sizeof.rs). *)
From S2P Require Import Prelude.
Open Scope Z_scope.

(** Whether arithmetic overflow panics or wraps. *)
Class Profile : Type := { checks : bool }.

(** ** The operations object *)

(** A boxed closure: its state and its code. *)
Record closure : Type := mkClosure {
  cl_type : Type;
  cl_state : cl_type;
  cl_call : cl_type -> Z -> bool * cl_type;
}.

Definition call (c : closure) (ptr : Z) : bool * closure :=
  let (b, s) := cl_call c (cl_state c) ptr in (b, mkClosure (cl_type c) s (cl_call c)).

Record MallocSizeOfOps : Type := MallocSizeOfOps_new {
  size_of_op : Z -> Z;
  enclosing_size_of_op : option (Z -> Z);
  have_seen_ptr_op : option closure;
}.

(** A measurement. *)
Definition Ms (A : Type) : Type := comp MallocSizeOfOps A.

(** The address of an empty allocation is below 256. *)
Definition is_empty (ptr : Z) : bool := ptr <=? 256.

Definition malloc_size_of (ptr : Z) : Ms Z :=
  if is_empty ptr then ret 0 else gets (fun ops => size_of_op ops ptr).

Definition has_malloc_enclosing_size_of : Ms bool :=
  gets (fun ops => bool_decide (is_Some (enclosing_size_of_op ops))).

Definition malloc_enclosing_size_of (ptr : Z) : Ms Z :=
  if is_empty ptr then panic "assertion failed: !MallocSizeOfOps::is_empty(ptr)"
  else
    f <- gets enclosing_size_of_op ;;
    f <- expect "called `Option::unwrap()` on a `None` value" f ;;
    ret (f ptr).

Definition have_seen_ptr (ptr : Z) : Ms bool :=
  c <- gets have_seen_ptr_op ;;
  c <- expect "missing have_seen_ptr_op" c ;;
  let (b, c) := call c ptr in
  modify (fun ops => MallocSizeOfOps_new (size_of_op ops) (enclosing_size_of_op ops) (Some c)) ;;
  ret b.

(** [new_malloc_size_ops] of the default build: the allocator must not be
    asked, no enclosing sizes, no pointer predicate. *)
Definition new_malloc_size_ops (malloc_usable_size : Z -> Z) : MallocSizeOfOps :=
  MallocSizeOfOps_new malloc_usable_size None None.

Section malloc.
Context {PR : Profile}.

Definition add_usize (a b : Z) : Ms Z :=
  if a + b <? u64_modulus then ret (a + b)
  else if checks then panic "attempt to add with overflow" else ret (wrap64 (a + b)).

Definition mul_usize (a b : Z) : Ms Z :=
  if a * b <? u64_modulus then ret (a * b)
  else if checks then panic "attempt to multiply with overflow" else ret (wrap64 (a * b)).

(** ** The traits *)

Class MallocSizeOf (A : Type) : Type := {
  size_of : A -> Ms Z;
  constant_size : option Z;
}.

Class MallocShallowSizeOf (A : Type) : Type := { shallow_size_of : A -> Ms Z }.

(** The same for shared values: always, or only at the first sight. *)
Class MallocUnconditionalSizeOf (A : Type) : Type := { unconditional_size_of : A -> Ms Z }.
Class MallocUnconditionalShallowSizeOf (A : Type) : Type :=
  { unconditional_shallow_size_of : A -> Ms Z }.
Class MallocConditionalSizeOf (A : Type) : Type := { conditional_size_of : A -> Ms Z }.
Class MallocConditionalShallowSizeOf (A : Type) : Type :=
  { conditional_shallow_size_of : A -> Ms Z }.

(** [std::mem::size_of::<T>()]. *)
Class SizeOf (A : Type) : Type := { mem_size : N }.

Definition usize_size : Z := 8.

Definition malloc_size {A} `{!MallocSizeOf A} (malloc_usable_size : Z -> Z) (t : A) : outcome Z :=
  (size_of t (new_malloc_size_ops malloc_usable_size)).1.

(** [iter().fold(n, |acc, elem| acc + elem.size_of(ops))]. *)
Fixpoint fold_size {A} (f : A -> Ms Z) (acc : Z) (l : list A) : Ms Z :=
  match l with
  | [] => ret acc
  | x :: l' => s <- f x ;; acc <- add_usize acc s ;; fold_size f acc l'
  end.

(** The tail of [size_of] of the containers of one type. *)
Definition add_elements {A} `{!MallocSizeOf A} (n : Z) (l : list A) : Ms Z :=
  match constant_size (A:=A) with
  | Some t => m <- mul_usize (Z.of_nat (length l)) t ;; add_usize n m
  | None => fold_size size_of n l
  end.

(** The same for maps: [acc + k.size_of(ops) + v.size_of(ops)]. *)
Fixpoint fold_entries {K V} `{!MallocSizeOf K, !MallocSizeOf V} (acc : Z) (l : list (K * V)) : Ms Z :=
  match l with
  | [] => ret acc
  | (k, v) :: l' =>
      s <- size_of k ;; acc <- add_usize acc s ;;
      s <- size_of v ;; acc <- add_usize acc s ;; fold_entries acc l'
  end.

Definition entries_constant (K V : Type) `{!MallocSizeOf K, !MallocSizeOf V} : option (Z * Z) :=
  match constant_size (A:=K), constant_size (A:=V) with
  | Some k, Some v => Some (k, v)
  | _, _ => None
  end.

Definition add_entries {K V} `{!MallocSizeOf K, !MallocSizeOf V} (n : Z) (l : list (K * V)) : Ms Z :=
  match entries_constant K V with
  | Some (k, v) =>
      kv <- add_usize k v ;; m <- mul_usize (Z.of_nat (length l)) kv ;; add_usize n m
  | None => fold_entries n l
  end.

(** ** Values *)

(** What is asked of a container. *)
Record storage (A : Type) : Type := mkStorage { items : list A; capacity : N; first_ptr : Z }.

Inductive Box (A : Type) : Type := mkBox (ptr : Z) (a : A).
Inductive reference (A : Type) : Type := mkRef (ptr : Z).
Inductive Cell (A : Type) : Type := mkCell (a : A).
Inductive RefCell (A : Type) : Type := mkRefCell (a : A).
Inductive Reverse (A : Type) : Type := mkReverse (a : A).
Inductive Cow (B : Type) : Type := Borrowed | Owned (b : B).
Inductive OnceCell (A : Type) : Type := mkOnceCell (a : option A).
Inductive Mutex (A : Type) : Type := mkMutex (a : A) (poisoned : bool).
Inductive RwLock (A : Type) : Type := mkRwLock (a : A) (poisoned : bool).
Inductive Arc (A : Type) : Type := mkArc (ptr : Z) (a : A).
Inductive rust_string : Type := mkString (text : string) (cap : N).
Inductive slice (A : Type) : Type := mkSlice (l : list A).
Inductive Vec (A : Type) : Type := mkVec (s : storage A).
Inductive VecDeque (A : Type) : Type := mkVecDeque (s : storage A).
Inductive HashSet (A : Type) : Type := mkHashSet (s : storage A).
Inductive BTreeSet (A : Type) : Type := mkBTreeSet (s : storage A).
Inductive SmallVec (A : Type) : Type := mkSmallVec (s : storage A) (spilled : bool).
Inductive HashMap (K V : Type) : Type := mkHashMap (s : storage (K * V)).
Inductive BTreeMap (K V : Type) : Type := mkBTreeMap (s : storage (K * V)).
Inductive IndexMap (K V : Type) : Type := mkIndexMap (s : storage (K * V)).

(** A type that [malloc_size_of_is_0!] is applied to: numbers, [bool], [str],
    atomics, ranges, arrays of bytes, instants. *)
Inductive is_0 : Type := mkIs0 (name : string).

(** [PhantomData<T>], for any [T] ([malloc_size_of_is_0!(any: ..)]). *)
Inductive PhantomData (A : Type) : Type := mkPhantom.

(** ** Implementations (malloc_size.rs, sizeof.rs, external_impls.rs) *)

#[export] Instance is_0_size : MallocSizeOf is_0 :=
  {| size_of _ := ret 0; constant_size := Some 0 |}.

#[export] Instance PhantomData_size {A} : MallocSizeOf (PhantomData A) :=
  {| size_of _ := ret 0; constant_size := Some 0 |}.

#[export] Instance ref_size {A} : MallocSizeOf (reference A) :=
  {| size_of _ := ret 0; constant_size := Some 0 |}.

#[export] Instance Box_shallow {A} `{!SizeOf A} : MallocShallowSizeOf (Box A) :=
  {| shallow_size_of _ := ret (Z.of_N (mem_size (A:=A))) |}.

#[export] Instance Box_size {A} `{!SizeOf A, !MallocSizeOf A} : MallocSizeOf (Box A) := {|
  size_of b := n <- shallow_size_of b ;; let '(mkBox _ _ a) := b in s <- size_of a ;; add_usize n s;
  constant_size := None |}.

#[export] Instance unit_size : MallocSizeOf unit :=
  {| size_of _ := ret 0; constant_size := Some 0 |}.

(** Tuples add their components from the left; longer ones are nested pairs.
    Constants are small, so that their sum is not reduced. *)
#[export] Instance pair_size {A B} `{!MallocSizeOf A, !MallocSizeOf B} : MallocSizeOf (A * B) := {|
  size_of ab := a <- size_of ab.1 ;; r <- add_usize 0 a ;; b <- size_of ab.2 ;; add_usize r b;
  constant_size :=
    match constant_size (A:=A) with
    | Some s => (fun t => s + t) <$> constant_size (A:=B)
    | None => None
    end |}.

#[export] Instance option_size {A} `{!MallocSizeOf A} : MallocSizeOf (option A) := {|
  size_of o := match o with Some val => size_of val | None => ret 0 end;
  constant_size :=
    match constant_size (A:=A) with Some s => if s =? 0 then Some s else None | None => None end |}.

#[export] Instance result_size {A E} `{!MallocSizeOf A, !MallocSizeOf E} : MallocSizeOf (result A E) := {|
  size_of r := match r with Ok x => size_of x | Err e => size_of e end;
  constant_size :=
    match constant_size (A:=A), constant_size (A:=E) with
    | Some t, Some e => if e =? t then Some e else None
    | _, _ => None
    end |}.

#[export] Instance Cell_size {A} `{!MallocSizeOf A} : MallocSizeOf (Cell A) :=
  {| size_of '(mkCell _ a) := size_of a; constant_size := constant_size (A:=A) |}.

#[export] Instance RefCell_size {A} `{!MallocSizeOf A} : MallocSizeOf (RefCell A) :=
  {| size_of '(mkRefCell _ a) := size_of a; constant_size := constant_size (A:=A) |}.

#[export] Instance Reverse_size {A} `{!MallocSizeOf A} : MallocSizeOf (Reverse A) :=
  {| size_of '(mkReverse _ a) := size_of a; constant_size := constant_size (A:=A) |}.

#[export] Instance Cow_size {B} `{!MallocSizeOf B} : MallocSizeOf (Cow B) :=
  {| size_of c := match c with Borrowed _ => ret 0 | Owned _ b => size_of b end; constant_size := None |}.

#[export] Instance slice_size {A} `{!MallocSizeOf A} : MallocSizeOf (slice A) :=
  {| size_of '(mkSlice _ l) := add_elements 0 l; constant_size := None |}.

#[export] Instance Vec_shallow {A} `{!SizeOf A} : MallocShallowSizeOf (Vec A) :=
  {| shallow_size_of '(mkVec _ s) := mul_usize (Z.of_N (capacity _ s)) (Z.of_N (mem_size (A:=A))) |}.

#[export] Instance Vec_size {A} `{!SizeOf A, !MallocSizeOf A} : MallocSizeOf (Vec A) := {|
  size_of v := n <- shallow_size_of v ;; let '(mkVec _ s) := v in add_elements n (items _ s);
  constant_size := None |}.

(** An interior pointer when the allocator can use it, else an estimate [e]. *)
Definition interior {A} (s : storage A) (e : Ms Z) : Ms Z :=
  has <- has_malloc_enclosing_size_of ;;
  if (has : bool) then
    match items _ s with
    | [] => ret 0
    | _ :: _ => malloc_enclosing_size_of (first_ptr _ s)
    end
  else e.

#[export] Instance VecDeque_shallow {A} `{!SizeOf A} : MallocShallowSizeOf (VecDeque A) :=
  {| shallow_size_of '(mkVecDeque _ s) :=
       interior s (mul_usize (Z.of_N (capacity _ s)) (Z.of_N (mem_size (A:=A)))) |}.

#[export] Instance VecDeque_size {A} `{!SizeOf A, !MallocSizeOf A} : MallocSizeOf (VecDeque A) := {|
  size_of v := n <- shallow_size_of v ;; let '(mkVecDeque _ s) := v in add_elements n (items _ s);
  constant_size := None |}.

#[export] Instance HashSet_shallow {A} `{!SizeOf A} : MallocShallowSizeOf (HashSet A) :=
  {| shallow_size_of '(mkHashSet _ s) :=
       interior s (e <- add_usize (Z.of_N (mem_size (A:=A))) usize_size ;;
                   mul_usize (Z.of_N (capacity _ s)) e) |}.

#[export] Instance HashSet_size {A} `{!SizeOf A, !MallocSizeOf A} : MallocSizeOf (HashSet A) := {|
  size_of v := n <- shallow_size_of v ;; let '(mkHashSet _ s) := v in add_elements n (items _ s);
  constant_size := None |}.

#[export] Instance BTreeSet_shallow {A} `{!SizeOf A} : MallocShallowSizeOf (BTreeSet A) :=
  {| shallow_size_of '(mkBTreeSet _ s) :=
       interior s (e <- add_usize (Z.of_N (mem_size (A:=A))) usize_size ;;
                   mul_usize (Z.of_nat (length (items _ s))) e) |}.

#[export] Instance BTreeSet_size {A} `{!SizeOf A, !MallocSizeOf A} : MallocSizeOf (BTreeSet A) := {|
  size_of v := n <- shallow_size_of v ;; let '(mkBTreeSet _ s) := v in add_elements n (items _ s);
  constant_size := None |}.

(** [size_of::<V>() + size_of::<K>() + size_of::<usize>()]. *)
Definition entry_size (K V : Type) `{!SizeOf K, !SizeOf V} : Ms Z :=
  vk <- add_usize (Z.of_N (mem_size (A:=V))) (Z.of_N (mem_size (A:=K))) ;; add_usize vk usize_size.

#[export] Instance HashMap_shallow {K V} `{!SizeOf K, !SizeOf V} : MallocShallowSizeOf (HashMap K V) :=
  {| shallow_size_of '(mkHashMap _ _ s) :=
       interior s (e <- entry_size K V ;; mul_usize (Z.of_N (capacity _ s)) e) |}.

#[export] Instance HashMap_size {K V} `{!SizeOf K, !SizeOf V, !MallocSizeOf K, !MallocSizeOf V} :
    MallocSizeOf (HashMap K V) := {|
  size_of v := n <- shallow_size_of v ;; let '(mkHashMap _ _ s) := v in add_entries n (items _ s);
  constant_size := None |}.

#[export] Instance BTreeMap_shallow {K V} `{!SizeOf K, !SizeOf V} : MallocShallowSizeOf (BTreeMap K V) :=
  {| shallow_size_of '(mkBTreeMap _ _ s) :=
       interior s (e <- entry_size K V ;; mul_usize (Z.of_nat (length (items _ s))) e) |}.

#[export] Instance BTreeMap_size {K V} `{!SizeOf K, !SizeOf V, !MallocSizeOf K, !MallocSizeOf V} :
    MallocSizeOf (BTreeMap K V) := {|
  size_of v := n <- shallow_size_of v ;; let '(mkBTreeMap _ _ s) := v in add_entries n (items _ s);
  constant_size := None |}.

(** [self.capacity() * (size_of::<K>() + size_of::<V>() + 2 * size_of::<usize>())]. *)
#[export] Instance IndexMap_shallow {K V} `{!SizeOf K, !SizeOf V} : MallocShallowSizeOf (IndexMap K V) :=
  {| shallow_size_of '(mkIndexMap _ _ s) :=
       kv <- add_usize (Z.of_N (mem_size (A:=K))) (Z.of_N (mem_size (A:=V))) ;;
       u <- mul_usize 2 usize_size ;;
       e <- add_usize kv u ;;
       mul_usize (Z.of_N (capacity _ s)) e |}.

(** In the second branch the fold starts from [n] and its result is added to
    [n]. *)
#[export] Instance IndexMap_size {K V} `{!SizeOf K, !SizeOf V, !MallocSizeOf K, !MallocSizeOf V} :
    MallocSizeOf (IndexMap K V) := {|
  size_of m :=
    n <- shallow_size_of m ;;
    let '(mkIndexMap _ _ s) := m in
    match entries_constant K V with
    | Some (k, v) =>
        kv <- add_usize k v ;; x <- mul_usize (Z.of_nat (length (items _ s))) kv ;; add_usize n x
    | None => x <- fold_entries n (items _ s) ;; add_usize n x
    end;
  constant_size := None |}.

(** Spilled: [capacity * size_of::<T>()]; else nothing of its own. *)
#[export] Instance SmallVec_size {A} `{!SizeOf A, !MallocSizeOf A} : MallocSizeOf (SmallVec A) := {|
  size_of '(mkSmallVec _ s spilled) :=
    n <- (if spilled : bool then mul_usize (Z.of_N (capacity _ s)) (Z.of_N (mem_size (A:=A))) else ret 0) ;;
    add_elements n (items _ s);
  constant_size := None |}.

#[export] Instance rust_string_size : MallocSizeOf rust_string :=
  {| size_of '(mkString _ cap) := mul_usize (Z.of_N cap) 1; constant_size := None |}.

#[export] Instance OnceCell_size {A} `{!MallocSizeOf A} : MallocSizeOf (OnceCell A) :=
  {| size_of '(mkOnceCell _ o) := match o with Some v => size_of v | None => ret 0 end;
     constant_size := None |}.

(** [lock().unwrap()] and [read().unwrap()] panic on a poisoned lock. *)
Definition poison_error : string := "called `Result::unwrap()` on an `Err` value: PoisonError { .. }".

#[export] Instance Mutex_size {A} `{!MallocSizeOf A} : MallocSizeOf (Mutex A) :=
  {| size_of '(mkMutex _ a poisoned) := if (poisoned : bool) then panic poison_error else size_of a;
     constant_size := None |}.

#[export] Instance RwLock_size {A} `{!MallocSizeOf A} : MallocSizeOf (RwLock A) :=
  {| size_of '(mkRwLock _ a poisoned) := if (poisoned : bool) then panic poison_error else size_of a;
     constant_size := None |}.

(** *** Shared values *)

#[export] Instance Arc_unconditional_shallow {A} `{!SizeOf A} : MallocUnconditionalShallowSizeOf (Arc A) :=
  {| unconditional_shallow_size_of _ := ret (Z.of_N (mem_size (A:=A))) |}.

#[export] Instance Arc_unconditional {A} `{!SizeOf A, !MallocSizeOf A} : MallocUnconditionalSizeOf (Arc A) := {|
  unconditional_size_of self :=
    n <- unconditional_shallow_size_of self ;;
    let '(mkArc _ _ a) := self in s <- size_of a ;; add_usize n s |}.

Definition arc_ptr {A} (self : Arc A) : Z := let '(mkArc _ ptr _) := self in ptr.

#[export] Instance Arc_conditional_shallow {A} `{!SizeOf A} : MallocConditionalShallowSizeOf (Arc A) := {|
  conditional_shallow_size_of self :=
    seen <- have_seen_ptr (arc_ptr self) ;;
    if (seen : bool) then ret 0 else unconditional_shallow_size_of self |}.

#[export] Instance Arc_conditional {A} `{!SizeOf A, !MallocSizeOf A} : MallocConditionalSizeOf (Arc A) := {|
  conditional_size_of self :=
    seen <- have_seen_ptr (arc_ptr self) ;;
    if (seen : bool) then ret 0 else unconditional_size_of self |}.

#[export] Instance Arc_size {A} `{!SizeOf A, !MallocSizeOf A} : MallocSizeOf (Arc A) :=
  {| size_of := unconditional_size_of; constant_size := None |}.

(** ** The derive macro *)

Inductive Meta : Type :=
| MetaPath (path : string)
| MetaList (path : string)
| MetaNameValue (path : string).

Definition IGNORE : string := "ignore_malloc_size_of".

Definition quote : string := String (Ascii.ascii_of_nat 34) EmptyString.

Definition should_explain : string :=
  "#[ignore_malloc_size_of] should have an explanation, e.g. #[ignore_malloc_size_of = " +:+
  quote +:+ "because reasons" +:+ quote +:+ "]".

(** [attrs.iter().any(..)]: the first attribute that says so, or a panic.  An
    attribute is what [parse_meta] makes of it. *)
Fixpoint ignored (attrs : list (result Meta string)) : comp unit bool :=
  match attrs with
  | [] => ret false
  | meta :: attrs' =>
      meta <- unwrap "called `Result::unwrap()` on an `Err` value" meta ;;
      match meta with
      | MetaPath path | MetaList path =>
          if bool_decide (path = IGNORE) then panic should_explain else ignored attrs'
      | MetaNameValue path =>
          if bool_decide (path = IGNORE) then ret true else ignored attrs'
      end
  end.

(** A field that the generated code measures: an array is iterated. *)
Inductive binding : Type :=
| Plain (A : Type) (m : MallocSizeOf A) (x : A)
| Array (A : Type) (m : MallocSizeOf A) (xs : list A).

(** What the generated code does for the fields that are not ignored. *)
Fixpoint sum_bindings (sum : Z) (bs : list binding) : Ms Z :=
  match bs with
  | [] => ret sum
  | Plain A m x :: bs' => s <- size_of x ;; sum <- add_usize sum s ;; sum_bindings sum bs'
  | Array A m xs :: bs' => sum <- fold_size size_of sum xs ;; sum_bindings sum bs'
  end.

(** The fields the macro keeps: it runs at compile time. *)
Fixpoint kept (fields : list (list (result Meta string) * binding)) : comp unit (list binding) :=
  match fields with
  | [] => ret []
  | (attrs, b) :: fields' =>
      ignore <- ignored attrs ;;
      bs <- kept fields' ;;
      ret (if (ignore : bool) then bs else b :: bs)
  end.

Definition derived_size_of (fields : list (list (result Meta string) * binding)) : outcome (Ms Z) :=
  match (kept fields tt).1 with
  | Ret bs => Ret (sum_bindings 0 bs)
  | Panicked msg => Panicked msg
  end.

End malloc.
