(* ===== verification/MallocTheorems.v ===== *)
(** * Theorems on heap sizes

    [deep] is the reference: the size of a value's own allocation, by the
    estimate the code uses for its kind, plus that of every element, summed one
    by one.  [Measured] says that the measurement of
    the code is that number, whichever shortcut it takes. *)
From S2P Require Import Prelude MallocSize.
Open Scope Z_scope.

Set Default Proof Using "Type*".

Class Deep (A : Type) : Type := deep : A -> Z.

Section measured.
Context {PR : Profile}.

(** Nothing but the default operations: no interior pointers. *)
Definition estimates (ops : MallocSizeOfOps) : Prop := enclosing_size_of_op ops = None.

Class Measured (A : Type) {MS : MallocSizeOf A} {D : Deep A} : Prop := {
  deep_nonneg (a : A) : 0 <= deep a;
  deep_constant c : constant_size (A:=A) = Some c -> forall a : A, deep a = c;
  size_of_deep (a : A) ops :
    estimates ops -> u64 (deep a) -> size_of a ops = (Ret (deep a), ops);
}.

(** Types are far smaller than the address space. *)
Class SmallType (A : Type) {S : SizeOf A} : Prop := small_type : Z.of_N (mem_size (A:=A)) < 2 ^ 61.

Lemma add_usize_ok a b ops : 0 <= a -> 0 <= b -> u64 (a + b) -> add_usize a b ops = (Ret (a + b), ops).
Proof. unfold add_usize, u64. intros. by rewrite (proj2 (Z.ltb_lt _ _)) by lia. Qed.

Lemma mul_usize_ok a b ops : u64 (a * b) -> mul_usize a b ops = (Ret (a * b), ops).
Proof. unfold mul_usize, u64. intros. by rewrite (proj2 (Z.ltb_lt _ _)) by lia. Qed.

Definition total {A} `{!Deep A} (l : list A) : Z := foldr (fun a n => deep a + n) 0 l.

Lemma total_cons {A} `{!Deep A} (a : A) l : total (a :: l) = deep a + total l.
Proof. done. Qed.

Section sums.
Context {A : Type} `{MA : Measured A}.

Lemma total_nonneg (l : list A) : 0 <= total l.
Proof. induction l as [|a l IH]; simpl; [lia|]. pose proof (deep_nonneg a). lia. Qed.

Lemma total_constant c (l : list A) :
  constant_size (A:=A) = Some c -> total l = Z.of_nat (length l) * c.
Proof.
  intros Hc. induction l as [|a l IH]; [done|]. simpl total. rewrite IH, (deep_constant c Hc a).
  simpl length. lia.
Qed.

Lemma fold_size_ok (l : list A) acc ops :
  estimates ops -> 0 <= acc -> u64 (acc + total l) ->
  fold_size size_of acc l ops = (Ret (acc + total l), ops).
Proof.
  intros He. revert acc. induction l as [|a l IH]; intros acc Hacc Hu.
  - unfold total. simpl. by rewrite Z.add_0_r.
  - rewrite total_cons in *. simpl fold_size. pose proof (deep_nonneg a). pose proof (total_nonneg l). unfold u64 in *. unfold bind at 1.
    rewrite size_of_deep by (done || (unfold u64; lia)). unfold bind.
    rewrite add_usize_ok by (unfold u64; lia).
    rewrite IH by lia. by rewrite Z.add_assoc.
Qed.

Lemma add_elements_ok n (l : list A) ops :
  estimates ops -> 0 <= n -> u64 (n + total l) -> add_elements n l ops = (Ret (n + total l), ops).
Proof.
  intros He Hn Hu. unfold add_elements. destruct (constant_size (A:=A)) as [c|] eqn:Hc.
  - pose proof (total_nonneg l). rewrite (total_constant c) in * by done. unfold u64 in *.
    unfold bind. rewrite mul_usize_ok by (unfold u64; lia).
    by rewrite add_usize_ok by (unfold u64; lia).
  - by apply fold_size_ok.
Qed.

End sums.

(** ** Maps *)

#[export] Instance pair_deep {A B} `{!Deep A, !Deep B} : Deep (A * B) := fun ab => deep ab.1 + deep ab.2.

Lemma deep_pair {A B} `{!Deep A, !Deep B} (a : A) (b : B) : deep (a, b) = deep a + deep b.
Proof. done. Qed.

Section entries.
Context {K V : Type} `{MK : Measured K} `{MV : Measured V}.

Lemma entry_nonneg (kv : K * V) : 0 <= deep kv.
Proof. pose proof (deep_nonneg kv.1). pose proof (deep_nonneg kv.2). unfold deep, pair_deep. lia. Qed.

Lemma entries_nonneg (l : list (K * V)) : 0 <= total l.
Proof. induction l as [|kv l IH]; simpl; [lia|]. pose proof (entry_nonneg kv). lia. Qed.

Lemma entries_total_constant k v (l : list (K * V)) :
  entries_constant K V = Some (k, v) -> total l = Z.of_nat (length l) * (k + v).
Proof.
  unfold entries_constant. intros H.
  destruct (constant_size (A:=K)) as [k'|] eqn:Hk; [|done].
  destruct (constant_size (A:=V)) as [v'|] eqn:Hv; simplify_eq.
  induction l as [|[x y] l IH]; [done|]. simpl total. rewrite IH.
  unfold deep at 1, pair_deep. simpl. rewrite (deep_constant _ Hk x), (deep_constant _ Hv y).
  lia.
Qed.

Lemma fold_entries_ok (l : list (K * V)) acc ops :
  estimates ops -> 0 <= acc -> u64 (acc + total l) ->
  fold_entries acc l ops = (Ret (acc + total l), ops).
Proof.
  intros He. revert acc. induction l as [|[x y] l IH]; intros acc Hacc Hu.
  - unfold total. simpl. by rewrite Z.add_0_r.
  - rewrite total_cons, deep_pair in *. simpl fold_entries.
    pose proof (deep_nonneg x). pose proof (deep_nonneg y). pose proof (entries_nonneg l).
    unfold u64 in *. unfold bind at 1. rewrite size_of_deep by (done || (unfold u64; lia)).
    unfold bind at 1. rewrite add_usize_ok by (unfold u64; lia).
    unfold bind at 1. rewrite size_of_deep by (done || (unfold u64; lia)).
    unfold bind. rewrite add_usize_ok by (unfold u64; lia).
    rewrite IH by lia. by rewrite !Z.add_assoc.
Qed.

(** The constants of keys and values, when both have one, can be added. *)
Definition constants_fit : Prop :=
  forall k v, entries_constant K V = Some (k, v) -> 0 <= k /\ 0 <= v /\ u64 (k + v).

Lemma add_entries_ok n (l : list (K * V)) ops :
  constants_fit -> estimates ops -> 0 <= n -> u64 (n + total l) ->
  add_entries n l ops = (Ret (n + total l), ops).
Proof.
  intros Hf He Hn Hu. unfold add_entries. destruct (entries_constant K V) as [[k v]|] eqn:Hc.
  - destruct (Hf k v Hc) as (? & ? & ?). pose proof (entries_nonneg l).
    rewrite (entries_total_constant k v) in * by done. unfold u64 in *.
    unfold bind. rewrite add_usize_ok by done. rewrite mul_usize_ok by (unfold u64; lia).
    by rewrite add_usize_ok by (unfold u64; lia).
  - by apply fold_entries_ok.
Qed.

End entries.

(** ** The reference sizes *)

Definition size_z (A : Type) `{!SizeOf A} : Z := Z.of_N (mem_size (A:=A)).
Definition cap {A} (s : storage A) : Z := Z.of_N (capacity _ s).
Definition len {A} (s : storage A) : Z := Z.of_nat (length (items _ s)).

#[export] Instance is_0_deep : Deep is_0 := fun _ => 0.
#[export] Instance unit_deep : Deep unit := fun _ => 0.
#[export] Instance ref_deep {A} : Deep (reference A) := fun _ => 0.
#[export] Instance rust_string_deep : Deep rust_string := fun '(mkString _ c) => Z.of_N c.

Section deeps.
Context {A : Type} `{!SizeOf A, !Deep A}.

#[export] Instance Box_deep : Deep (Box A) := fun '(mkBox _ _ a) => size_z A + deep a.
#[export] Instance Arc_deep : Deep (Arc A) := fun '(mkArc _ _ a) => size_z A + deep a.
#[export] Instance option_deep : Deep (option A) :=
  fun o => match o with Some a => deep a | None => 0 end.
#[export] Instance OnceCell_deep : Deep (OnceCell A) := fun '(mkOnceCell _ o) => deep o.
#[export] Instance Cell_deep : Deep (Cell A) := fun '(mkCell _ a) => deep a.
#[export] Instance RefCell_deep : Deep (RefCell A) := fun '(mkRefCell _ a) => deep a.
#[export] Instance Reverse_deep : Deep (Reverse A) := fun '(mkReverse _ a) => deep a.
#[export] Instance Cow_deep : Deep (Cow A) :=
  fun c => match c with Borrowed _ => 0 | Owned _ a => deep a end.
#[export] Instance slice_deep : Deep (slice A) := fun '(mkSlice _ l) => total l.
#[export] Instance Vec_deep : Deep (Vec A) :=
  fun '(mkVec _ s) => cap s * size_z A + total (items _ s).
#[export] Instance VecDeque_deep : Deep (VecDeque A) :=
  fun '(mkVecDeque _ s) => cap s * size_z A + total (items _ s).
#[export] Instance HashSet_deep : Deep (HashSet A) :=
  fun '(mkHashSet _ s) => cap s * (size_z A + usize_size) + total (items _ s).
#[export] Instance BTreeSet_deep : Deep (BTreeSet A) :=
  fun '(mkBTreeSet _ s) => len s * (size_z A + usize_size) + total (items _ s).
#[export] Instance SmallVec_deep : Deep (SmallVec A) :=
  fun '(mkSmallVec _ s spilled) =>
    (if (spilled : bool) then cap s * size_z A else 0) + total (items _ s).

End deeps.

#[export] Instance result_deep {A E} `{!Deep A, !Deep E} : Deep (result A E) :=
  fun r => match r with Ok a => deep a | Err e => deep e end.
#[export] Instance HashMap_deep {K V} `{!SizeOf K, !SizeOf V, !Deep K, !Deep V} : Deep (HashMap K V) :=
  fun '(mkHashMap _ _ s) => cap s * (size_z V + size_z K + usize_size) + total (items _ s).
#[export] Instance BTreeMap_deep {K V} `{!SizeOf K, !SizeOf V, !Deep K, !Deep V} : Deep (BTreeMap K V) :=
  fun '(mkBTreeMap _ _ s) => len s * (size_z V + size_z K + usize_size) + total (items _ s).

(** ** The implementations measure them *)

Lemma size_z_range A `{S : !SizeOf A, !SmallType A} : 0 <= size_z A < 2 ^ 61.
Proof. unfold size_z. split; [lia|]. apply small_type. Qed.

Lemma interior_estimates {A} (s : storage A) e ops : estimates ops -> interior s e ops = e ops.
Proof. unfold interior, has_malloc_enclosing_size_of, bind, gets. by intros ->. Qed.

(** A shallow size computed first, then the elements. *)
Lemma shallow_then {A} `{MA : Measured A} (m : Ms Z) n (l : list A) ops :
  estimates ops -> 0 <= n -> u64 (n + total l) ->
  (u64 n -> m ops = (Ret n, ops)) ->
  bind m (fun n => add_elements n l) ops = (Ret (n + total l), ops).
Proof.
  intros He Hn Hu Hm. pose proof (total_nonneg l). unfold bind. rewrite Hm by (unfold u64 in *; lia).
  by apply add_elements_ok.
Qed.

Lemma shallow_then_entries {K V} `{MK : Measured K} `{MV : Measured V} (m : Ms Z) n
    (l : list (K * V)) ops :
  constants_fit (K:=K) (V:=V) -> estimates ops -> 0 <= n -> u64 (n + total l) ->
  (u64 n -> m ops = (Ret n, ops)) ->
  bind m (fun n => add_entries n l) ops = (Ret (n + total l), ops).
Proof.
  intros Hf He Hn Hu Hm. pose proof (entries_nonneg l). unfold bind.
  rewrite Hm by (unfold u64 in *; lia). by apply add_entries_ok.
Qed.

#[export] Instance is_0_measured : Measured is_0.
Proof. split; [done|by intros c [= <-]|done]. Qed.

#[export] Instance unit_measured : Measured unit.
Proof. split; [done|by intros c [= <-]|done]. Qed.

#[export] Instance ref_measured {A} : Measured (reference A).
Proof. split; [done|by intros c [= <-]|done]. Qed.

#[export] Instance rust_string_measured : Measured rust_string.
Proof.
  split; [intros [t c]; unfold deep; simpl; lia|done|].
  intros [t c] ops _ Hu. unfold deep in *. simpl in *.
  rewrite mul_usize_ok by (unfold u64 in *; lia). by rewrite Z.mul_1_r.
Qed.

(** A wrapper around one value. *)
Ltac measured_wrapper :=
  let a := fresh "a" in
  split;
  [ intros [a]; apply (deep_nonneg a)
  | intros c Hc [a];
    lazymatch type of a with
    | ?A => change (constant_size (A:=A) = Some c) in Hc; apply (deep_constant c Hc a)
    end
  | intros [a]; apply (size_of_deep a) ].

Section wrappers.
Context {A : Type} {SA : SizeOf A} {ST : SmallType A} `{MA : Measured A}.

#[export] Instance Cell_measured : Measured (Cell A).
Proof. measured_wrapper. Qed.
#[export] Instance RefCell_measured : Measured (RefCell A).
Proof. measured_wrapper. Qed.
#[export] Instance Reverse_measured : Measured (Reverse A).
Proof. measured_wrapper. Qed.

#[export] Instance Cow_measured : Measured (Cow A).
Proof.
  split; [intros [|a]; [done|apply (deep_nonneg a)]|done|].
  intros [|a] ops He Hu; [done|by apply (size_of_deep a)].
Qed.

#[export] Instance option_measured : Measured (option A).
Proof.
  split.
  - intros [a|]; [apply (deep_nonneg a)|done].
  - intros c. simpl. destruct (constant_size (A:=A)) as [s|] eqn:Hs; [|done].
    destruct (Z.eqb_spec s 0) as [->|]; [|done]. intros [= <-] [a|]; [|done].
    apply (deep_constant 0 Hs).
  - intros [a|] ops He Hu; [by apply (size_of_deep a)|done].
Qed.

#[export] Instance OnceCell_measured : Measured (OnceCell A).
Proof.
  split; [intros [[a|]]; [apply (deep_nonneg a)|done]|done|].
  intros [[a|]] ops He Hu; [by apply (size_of_deep a)|done].
Qed.

Lemma own_then_inner (a : A) ops :
  estimates ops -> u64 (size_z A + deep a) ->
  bind (size_of a) (add_usize (size_z A)) ops = (Ret (size_z A + deep a), ops).
Proof.
  intros He Hu. pose proof (deep_nonneg a). pose proof (size_z_range A). unfold u64 in *. unfold bind.
  rewrite size_of_deep by (done || (unfold u64; lia)). by rewrite add_usize_ok by (unfold u64; lia).
Qed.

#[export] Instance Box_measured : Measured (Box A).
Proof.
  split; [|done|].
  - intros [p a]. pose proof (deep_nonneg a). pose proof (size_z_range A). unfold deep; simpl. lia.
  - intros [p a] ops He Hu. by apply own_then_inner.
Qed.

#[export] Instance Arc_measured : Measured (Arc A).
Proof.
  split; [|done|].
  - intros [p a]. pose proof (deep_nonneg a). pose proof (size_z_range A). unfold deep; simpl. lia.
  - intros [p a] ops He Hu. by apply own_then_inner.
Qed.

#[export] Instance slice_measured : Measured (slice A).
Proof.
  split; [intros [l]; apply total_nonneg|done|].
  intros [l] ops He Hu. by apply (add_elements_ok 0 l).
Qed.

Lemma own_nonneg (c z : Z) (l : list A) : 0 <= c -> 0 <= z -> 0 <= c * z + total l.
Proof. pose proof (total_nonneg l). nia. Qed.

#[export] Instance Vec_measured : Measured (Vec A).
Proof.
  pose proof (size_z_range A). split; [|done|].
  - intros [s]. apply own_nonneg; unfold cap; lia.
  - intros [s] ops He Hu. apply (shallow_then _ (cap s * size_z A)); [done| |done|apply mul_usize_ok].
    unfold cap. nia.
Qed.

#[export] Instance VecDeque_measured : Measured (VecDeque A).
Proof.
  pose proof (size_z_range A). split; [|done|].
  - intros [s]. apply own_nonneg; unfold cap; lia.
  - intros [s] ops He Hu. apply (shallow_then _ (cap s * size_z A)); [done| |done|].
    + unfold cap. nia.
    + intros Hn. simpl. rewrite interior_estimates by done. by apply mul_usize_ok.
Qed.

(** [n * (size_of::<T>() + size_of::<usize>())]. *)
Lemma own_with_usize n ops :
  u64 (n * (size_z A + usize_size)) ->
  (e <- add_usize (size_z A) usize_size ;; mul_usize n e) ops =
    (Ret (n * (size_z A + usize_size)), ops).
Proof.
  intros Hu. pose proof (size_z_range A). unfold bind, usize_size in *.
  rewrite add_usize_ok by (unfold u64, u64_modulus; lia). by apply mul_usize_ok.
Qed.

#[export] Instance HashSet_measured : Measured (HashSet A).
Proof.
  pose proof (size_z_range A). split; [|done|].
  - intros [s]. apply own_nonneg; unfold cap, usize_size; lia.
  - intros [s] ops He Hu.
    apply (shallow_then _ (cap s * (size_z A + usize_size))); [done| |done|].
    + unfold cap, usize_size. nia.
    + intros Hn. simpl. rewrite interior_estimates by done. by apply own_with_usize.
Qed.

#[export] Instance BTreeSet_measured : Measured (BTreeSet A).
Proof.
  pose proof (size_z_range A). split; [|done|].
  - intros [s]. apply own_nonneg; unfold len, usize_size; lia.
  - intros [s] ops He Hu.
    apply (shallow_then _ (len s * (size_z A + usize_size))); [done| |done|].
    + unfold len, usize_size. nia.
    + intros Hn. simpl. rewrite interior_estimates by done. by apply own_with_usize.
Qed.

#[export] Instance SmallVec_measured : Measured (SmallVec A).
Proof.
  pose proof (size_z_range A). split; [|done|].
  - intros [s []]; [apply own_nonneg; unfold cap; lia|apply total_nonneg].
  - intros [s []] ops He Hu.
    + apply (shallow_then _ (cap s * size_z A)); [done| |done|apply mul_usize_ok]. unfold cap. nia.
    + by apply (shallow_then _ 0).
Qed.

End wrappers.

#[export] Instance result_measured {A E} `{MA : Measured A} `{ME : Measured E} : Measured (result A E).
Proof.
  split.
  - intros [a|e]; [apply (deep_nonneg a)|apply (deep_nonneg e)].
  - intros c. simpl. destruct (constant_size (A:=A)) as [t|] eqn:Ha; [|done].
    destruct (constant_size (A:=E)) as [e|] eqn:He; [|done].
    destruct (Z.eqb_spec e t) as [->|]; [|done]. intros [= <-] [x|x].
    + apply (deep_constant t Ha).
    + apply (deep_constant t He).
  - intros [a|e] ops He Hu; [by apply (size_of_deep a)|by apply (size_of_deep e)].
Qed.

#[export] Instance pair_measured {A B} `{MA : Measured A} `{MB : Measured B} : Measured (A * B).
Proof.
  split.
  - intros [a b]. pose proof (deep_nonneg a). pose proof (deep_nonneg b). rewrite deep_pair. lia.
  - intros c. simpl. destruct (constant_size (A:=A)) as [s|] eqn:Ha; [|done].
    destruct (constant_size (A:=B)) as [t|] eqn:Hb; [|done]. intros [= <-] [a b].
    by rewrite deep_pair, (deep_constant s Ha a), (deep_constant t Hb b).
  - intros [a b] ops He Hu. rewrite deep_pair in *.
    pose proof (deep_nonneg a). pose proof (deep_nonneg b). unfold u64 in *. simpl. unfold bind.
    rewrite size_of_deep by (done || (unfold u64; lia)).
    rewrite add_usize_ok by (unfold u64; lia).
    rewrite size_of_deep by (done || (unfold u64; lia)).
    by rewrite add_usize_ok by (unfold u64; lia).
Qed.

(** ** Maps *)

Section maps.
Context {K V : Type} {SK : SizeOf K} {SV : SizeOf V} {TK : SmallType K} {TV : SmallType V}
  `{MK : Measured K} `{MV : Measured V} (Hfit : constants_fit (K:=K) (V:=V)).

Definition entry_z : Z := size_z V + size_z K + usize_size.

Lemma entry_z_range : 0 <= entry_z < 2 ^ 63.
Proof.
  unfold entry_z, usize_size. pose proof (size_z_range K). pose proof (size_z_range V). lia.
Qed.

Lemma entry_size_ok ops : entry_size K V ops = (Ret entry_z, ops).
Proof.
  pose proof (size_z_range K). pose proof (size_z_range V). unfold entry_size, entry_z, bind.
  fold (size_z K) (size_z V). unfold usize_size.
  by rewrite !add_usize_ok by (unfold u64, u64_modulus; lia).
Qed.

Lemma own_entries n ops :
  u64 (n * entry_z) -> (e <- entry_size K V ;; mul_usize n e) ops = (Ret (n * entry_z), ops).
Proof. intros Hu. unfold bind. rewrite entry_size_ok. by apply mul_usize_ok. Qed.

Lemma HashMap_measured : Measured (HashMap K V).
Proof using Hfit MK MV TK TV.
  pose proof entry_z_range. split; [|done|].
  - intros [s]. pose proof (entries_nonneg (items _ s)). change (0 <= cap s * entry_z + total (items _ s)).
    unfold cap. nia.
  - intros [s] ops He Hu.
    apply (shallow_then_entries _ (cap s * entry_z)); [done|done| |done|].
    + unfold cap. nia.
    + intros Hn. simpl. rewrite interior_estimates by done. by apply own_entries.
Qed.

Lemma BTreeMap_measured : Measured (BTreeMap K V).
Proof using Hfit MK MV TK TV.
  pose proof entry_z_range. split; [|done|].
  - intros [s]. pose proof (entries_nonneg (items _ s)). change (0 <= len s * entry_z + total (items _ s)).
    unfold len. nia.
  - intros [s] ops He Hu.
    apply (shallow_then_entries _ (len s * entry_z)); [done|done| |done|].
    + unfold len. nia.
    + intros Hn. simpl. rewrite interior_estimates by done. by apply own_entries.
Qed.

(** *** IndexMap *)

Definition IndexMap_own (s : storage (K * V)) : Z := cap s * (size_z K + size_z V + 2 * usize_size).

Lemma IndexMap_shallow_ok (s : storage (K * V)) ops :
  u64 (IndexMap_own s) -> shallow_size_of (mkIndexMap K V s) ops = (Ret (IndexMap_own s), ops).
Proof.
  intros Hu. pose proof (size_z_range K). pose proof (size_z_range V). simpl.
  fold (size_z K) (size_z V). unfold IndexMap_own, usize_size in *. unfold bind.
  rewrite add_usize_ok by (unfold u64, u64_modulus; lia).
  rewrite mul_usize_ok by (unfold u64, u64_modulus; lia).
  rewrite add_usize_ok by (unfold u64, u64_modulus; lia). by apply mul_usize_ok.
Qed.

Lemma IndexMap_own_nonneg s : 0 <= IndexMap_own s.
Proof.
  pose proof (size_z_range K). pose proof (size_z_range V). unfold IndexMap_own, cap, usize_size. nia.
Qed.

(** C39: the size of an [IndexMap] counts its table twice.  When both the keys
    and the values have a constant size, the result is the table plus the
    entries, as for the other maps; otherwise the table is counted a second
    time. *)
Theorem indexmap_double_counts (s : storage (K * V)) ops :
  estimates ops -> u64 (2 * IndexMap_own s + total (items _ s)) ->
  size_of (mkIndexMap K V s) ops =
    (Ret ((match entries_constant K V with Some _ => 1 | None => 2 end) * IndexMap_own s +
          total (items _ s)), ops).
Proof using Hfit MK MV TK TV.
  intros He Hu. pose proof (IndexMap_own_nonneg s). pose proof (entries_nonneg (items _ s)).
  unfold u64 in Hu. change (size_of (mkIndexMap K V s)) with
    (n <- shallow_size_of (mkIndexMap K V s) ;;
     match entries_constant K V with
     | Some (k, v) =>
         kv <- add_usize k v ;; x <- mul_usize (Z.of_nat (length (items _ s))) kv ;; add_usize n x
     | None => x <- fold_entries n (items _ s) ;; add_usize n x
     end).
  unfold bind at 1. rewrite IndexMap_shallow_ok by (unfold u64; lia).
  destruct (entries_constant K V) as [[k v]|] eqn:Hc.
  - destruct (Hfit k v Hc) as (? & ? & ?).
    rewrite (entries_total_constant k v) in * by done. unfold bind.
    rewrite add_usize_ok by done. rewrite mul_usize_ok by (unfold u64; lia).
    rewrite add_usize_ok by (unfold u64; lia). f_equal. f_equal. lia.
  - unfold bind. rewrite fold_entries_ok by (done || (unfold u64; lia)).
    rewrite add_usize_ok by (unfold u64; lia). f_equal. f_equal. lia.
Qed.

End maps.

(** C19: the measurements are exact sums.  For any types whose own measurement
    is exact, so is that of every value and container listed here: with
    operations that know no enclosing sizes, so that the code estimates, it
    returns the estimate of the value's own allocation plus the size of each
    element, summed one by one, whether it iterates or multiplies a constant
    size, without an overflow when that number is a [usize], and it leaves the
    operations as they were.  A type that claims a constant size has that size
    for every value.  [IndexMap] and [LruCache] are not among them: they count
    their tables otherwise. *)
Theorem containers_measured {A B : Type} {SA : SizeOf A} {SB : SizeOf B}
    {TA : SmallType A} {TB : SmallType B} `{MA : Measured A} `{MB : Measured B} :
  constants_fit (K:=A) (V:=B) ->
  Measured (Box A) /\ Measured (A * B) /\ Measured (option A) /\ Measured (result A B) /\
  Measured (Cell A) /\ Measured (RefCell A) /\ Measured (Reverse A) /\ Measured (Cow A) /\
  Measured (OnceCell A) /\ Measured (slice A) /\ Measured (Vec A) /\ Measured (VecDeque A) /\
  Measured (HashSet A) /\ Measured (BTreeSet A) /\ Measured (SmallVec A) /\ Measured (Arc A) /\
  Measured (HashMap A B) /\ Measured (BTreeMap A B) /\ Measured (reference A) /\
  Measured rust_string /\ Measured is_0 /\ Measured unit.
Proof.
  intros Hfit. split_and!; try apply _; [by apply HashMap_measured|by apply BTreeMap_measured].
Qed.

(** ** Shared values *)

Section arcs.
Context {A : Type} {SA : SizeOf A} {ST : SmallType A} `{MA : Measured A}.

(** The pointer predicate the callers supply: a set of the pointers seen. *)
Definition seen_set (s : gset Z) : closure :=
  mkClosure (gset Z) s (fun s p => (bool_decide (p ∈ s), {[p]} ∪ s)).

Definition with_seen (s : gset Z) (ops : MallocSizeOfOps) : MallocSizeOfOps :=
  MallocSizeOfOps_new (size_of_op ops) (enclosing_size_of_op ops) (Some (seen_set s)).

(** The allocations, by address. *)
Definition allocations (heap : Z -> A) (l : list (Arc A)) : Prop :=
  Forall (fun '(mkArc _ p a) => a = heap p) l.

Definition sum_over (heap : Z -> A) (ps : list Z) : Z :=
  foldr (fun p n => size_z A + deep (heap p) + n) 0 ps.

Lemma sum_over_perm heap ps qs : ps ≡ₚ qs -> sum_over heap ps = sum_over heap qs.
Proof. induction 1; simpl; lia. Qed.

Lemma sum_over_nonneg heap ps : 0 <= sum_over heap ps.
Proof.
  induction ps as [|p ps IH]; simpl; [lia|]. pose proof (deep_nonneg (heap p)).
  pose proof (size_z_range A). lia.
Qed.

(** [have_seen_ptr] remembers the pointer and answers whether it was known. *)
Lemma conditional_run s p (a : A) ops :
  conditional_size_of (mkArc A p a) (with_seen s ops) =
    (if bool_decide (p ∈ s) then ret 0 else size_of (mkArc A p a)) (with_seen ({[p]} ∪ s) ops).
Proof.
  unfold conditional_size_of, Arc_conditional, have_seen_ptr, bind, gets, expect, modify, ret. simpl.
  by case_bool_decide.
Qed.

Lemma conditional_size_of_ok s p (a : A) ops :
  estimates ops -> u64 (size_z A + deep a) ->
  conditional_size_of (mkArc A p a) (with_seen s ops) =
    (Ret (if bool_decide (p ∈ s) then 0 else size_z A + deep a), with_seen ({[p]} ∪ s) ops).
Proof.
  intros He Hu. rewrite conditional_run. case_bool_decide; [done|].
  exact (size_of_deep (mkArc A p a) (with_seen ({[p]} ∪ s) ops) He Hu).
Qed.

(** The pointers met for the first time. *)
Fixpoint first_met (s : gset Z) (l : list (Arc A)) : list Z :=
  match l with
  | [] => []
  | mkArc _ p _ :: l' =>
      if bool_decide (p ∈ s) then first_met s l' else p :: first_met ({[p]} ∪ s) l'
  end.

Lemma first_met_in s l p : p ∈ first_met s l <-> p ∈ (arc_ptr <$> l) /\ p ∉ s.
Proof.
  revert s. induction l as [|[q a] l IH]; intros s; simpl.
  - split; [intros []%elem_of_nil|by intros [[]%elem_of_nil _]].
  - case_bool_decide as Hq; rewrite !elem_of_cons, IH; [naive_solver|].
    rewrite not_elem_of_union, not_elem_of_singleton.
    destruct (decide (p = q)) as [->|]; naive_solver.
Qed.

Lemma first_met_NoDup s l : NoDup (first_met s l).
Proof.
  revert s. induction l as [|[q a] l IH]; intros s; simpl; [constructor|].
  case_bool_decide; [done|]. constructor; [|done]. rewrite first_met_in, not_elem_of_union, not_elem_of_singleton. naive_solver.
Qed.

#[local] Arguments conditional_size_of : simpl never.

Lemma fold_conditional heap l s acc ops :
  estimates ops -> allocations heap l -> 0 <= acc ->
  u64 (acc + sum_over heap (first_met s l)) ->
  exists s', fold_size conditional_size_of acc l (with_seen s ops) =
    (Ret (acc + sum_over heap (first_met s l)), with_seen s' ops).
Proof.
  intros He. revert s acc. induction l as [|[p a] l IH]; intros s acc Hl Hacc Hu.
  - exists s. simpl. by rewrite Z.add_0_r.
  - inversion Hl as [|? ? Ha Hl']; subst. pose proof (deep_nonneg (heap p)).
    pose proof (size_z_range A). simpl in *. unfold bind at 1.
    assert (Hbound : u64 (size_z A + deep (heap p)) \/ p ∈ s).
    { destruct (decide (p ∈ s)); [by right|left]. rewrite bool_decide_false in Hu by done.
      simpl in Hu. pose proof (sum_over_nonneg heap (first_met ({[p]} ∪ s) l)). unfold u64 in *. lia. }
    destruct (decide (p ∈ s)) as [Hin|Hin].
    + rewrite bool_decide_true in Hu by done.
      rewrite conditional_run, !bool_decide_true by done. unfold ret at 1.
      pose proof (sum_over_nonneg heap (first_met s l)). unfold bind.
      rewrite add_usize_ok by (unfold u64 in *; lia). rewrite Z.add_0_r.
      rewrite (subseteq_union_1_L {[p]} s) by (by apply singleton_subseteq_l). by apply IH.
    + destruct Hbound as [Hb|]; [|done]. rewrite conditional_size_of_ok by done.
      rewrite !bool_decide_false in * by done. simpl in *.
      pose proof (sum_over_nonneg heap (first_met ({[p]} ∪ s) l)). unfold bind.
      rewrite add_usize_ok by (unfold u64 in *; lia).
      destruct (IH ({[p]} ∪ s) (acc + (size_z A + deep (heap p)))) as [s' E]; [done|lia| |].
      * unfold u64 in *. lia.
      * exists s'. rewrite E. f_equal. f_equal. lia.
Qed.

(** C38: shared allocations are counted once.  Measuring any list of [Arc]s with
    [conditional_size_of] and a predicate that remembers pointers adds up the
    size of every allocation they point to, each exactly once, in whatever
    order and however often it is shared. *)
Theorem arcs_counted_once (heap : Z -> A) (l : list (Arc A)) (ps : list Z) ops :
  estimates ops -> allocations heap l ->
  NoDup ps -> (forall p, p ∈ ps <-> p ∈ (arc_ptr <$> l)) ->
  u64 (sum_over heap ps) ->
  (fold_size conditional_size_of 0 l (with_seen ∅ ops)).1 = Ret (sum_over heap ps).
Proof.
  intros He Hl Hnd Hps Hu.
  assert (Hp : ps ≡ₚ first_met ∅ l).
  { apply NoDup_Permutation; [done|apply first_met_NoDup|]. intros p.
    rewrite first_met_in, Hps. pose proof (not_elem_of_empty (C:=gset Z) p). naive_solver. }
  rewrite (sum_over_perm heap _ _ Hp) in *.
  destruct (fold_conditional heap l ∅ 0 ops) as [s' E]; [done|done|lia|done|].
  by rewrite E.
Qed.

End arcs.

(** ** The derive macro *)

Definition binding_measured (b : binding) (n : Z) : Prop :=
  match b with
  | Plain A m x => exists D, @Measured A m D /\ n = @deep A D x
  | Array A m xs => exists D, @Measured A m D /\ n = @total A D xs
  end.

Lemma sum_bindings_ok bs ns sum ops :
  Forall2 binding_measured bs ns -> estimates ops -> 0 <= sum ->
  u64 (sum + foldr Z.add 0 ns) ->
  sum_bindings sum bs ops = (Ret (sum + foldr Z.add 0 ns), ops).
Proof.
  intros H He. revert sum.
  assert (Hnn : Forall (Z.le 0) ns).
  { induction H as [|b n bs ns Hb _ IH]; constructor; [|done].
    destruct b; destruct Hb as (D & HM & ->); [apply deep_nonneg|apply total_nonneg]. }
  induction H as [|b n bs ns Hb _ IH]; intros sum Hs Hu; simpl in *; [by rewrite Z.add_0_r|].
  apply Forall_cons in Hnn as [Hn Hnn].
  assert (0 <= foldr Z.add 0 ns) by (clear -Hnn; induction Hnn; simpl; lia).
  unfold u64 in *. destruct b as [A m x|A m xs]; destruct Hb as (D & HM & ->); unfold bind.
  - rewrite size_of_deep by (done || (unfold u64; lia)).
    rewrite add_usize_ok by (unfold u64; lia). rewrite IH by (done || lia). by rewrite Z.add_assoc.
  - rewrite fold_size_ok by (done || (unfold u64; lia)). rewrite IH by (done || lia).
    by rewrite Z.add_assoc.
Qed.

(** The macro keeps the fields whose attributes do not say to ignore them, and
    the generated code adds up their sizes. *)
Lemma derived_size_of_ok (fields : list (list (result Meta string) * binding)) (flags : list bool)
    (ns : list Z) ops :
  Forall2 (fun f flag => (ignored f.1 tt).1 = Ret flag) fields flags ->
  Forall2 (fun f n => binding_measured f.2 n) fields ns -> estimates ops ->
  let kept_sizes := map snd (filter (fun fn => fn.1 = false) (zip flags ns)) in
  u64 (foldr Z.add 0 kept_sizes) ->
  exists f, derived_size_of fields = Ret f /\ f ops = (Ret (foldr Z.add 0 kept_sizes), ops).
Proof.
  intros Hf Hn He kept_sizes Hu.
  assert (exists bs, kept fields tt = (Ret bs, tt) /\ Forall2 binding_measured bs kept_sizes) as (bs & Hk & Hb).
  { subst kept_sizes. clear Hu. revert ns Hn.
    induction Hf as [|[attrs b] flag fields flags Hig _ IH]; intros ns Hn.
    - inversion Hn; subst. exists []. by split; [|constructor].
    - inversion Hn as [|? n ? ns' Hbn Hn']; subst. destruct (IH ns' Hn') as (bs & Hk & Hb).
      simpl in Hig. simpl. unfold bind. destruct (ignored attrs tt) as [o []]. simpl in Hig.
      rewrite Hig, Hk. rewrite filter_cons. simpl. destruct flag; simpl.
      + by exists bs.
      + exists (b :: bs). split; [done|]. by constructor. }
  exists (sum_bindings 0 bs). unfold derived_size_of. rewrite Hk. split; [done|].
  by apply (sum_bindings_ok bs kept_sizes 0).
Qed.

End measured.
