(* ===== verification/MallocMore.v ===== *)
(** * Further sizes, and the allocation tracker (mysten-util-mem)

    The implementations behind crate features (hashbrown, parking_lot, lru) and
    for aggregate signatures and bitmaps, the [Measurable] wrapper, the
    extension method, and the tracker of allocator statistics, which this build
    does not implement. *)
From S2P Require Import Prelude MallocSize MallocTheorems.
Open Scope Z_scope.

(** ** Values *)

Inductive plMutex (A : Type) : Type := mkPlMutex (a : A).
Inductive plRwLock (A : Type) : Type := mkPlRwLock (a : A).
Inductive hbHashMap (K V : Type) : Type := mkHbHashMap (s : storage (K * V)).
Inductive LruCache (K V : Type) : Type := mkLruCache (s : storage (K * V)).

(** fastcrypto's [Ed25519AggregateSignature { sigs: Vec<..> }]; a bitmap by the
    size it serializes to. *)
Record Ed25519AggregateSignature : Type := mkAggregate { sigs : Vec is_0 }.
Record RoaringBitmap : Type := mkRoaringBitmap { serialized_size : N }.

Record Measurable (A : Type) : Type := mkMeasurable { measurable_0 : A }.

Section more.
Context {PR : Profile}.

(** ** Implementations *)

#[export] Instance plMutex_size {A} `{!MallocSizeOf A} : MallocSizeOf (plMutex A) :=
  {| size_of '(mkPlMutex _ a) := size_of a; constant_size := None |}.

#[export] Instance plRwLock_size {A} `{!MallocSizeOf A} : MallocSizeOf (plRwLock A) :=
  {| size_of '(mkPlRwLock _ a) := size_of a; constant_size := None |}.

#[export] Instance hbHashMap_shallow {K V} `{!SizeOf K, !SizeOf V} :
    MallocShallowSizeOf (hbHashMap K V) :=
  {| shallow_size_of '(mkHbHashMap _ _ s) :=
       interior s (e <- MallocSize.entry_size K V ;; mul_usize (Z.of_N (capacity _ s)) e) |}.

#[export] Instance hbHashMap_size {K V} `{!SizeOf K, !SizeOf V, !MallocSizeOf K, !MallocSizeOf V} :
    MallocSizeOf (hbHashMap K V) := {|
  size_of m := n <- shallow_size_of m ;; let '(mkHbHashMap _ _ s) := m in add_entries n (items _ s);
  constant_size := None |}.

(** The cache starts from 0: its table is not counted. *)
#[export] Instance LruCache_size {K V} `{!MallocSizeOf K, !MallocSizeOf V} :
    MallocSizeOf (LruCache K V) := {|
  size_of '(mkLruCache _ _ s) := add_entries 0 (items _ s);
  constant_size := None |}.

#[export] Instance Ed25519AggregateSignature_size `{!SizeOf is_0} :
    MallocSizeOf Ed25519AggregateSignature :=
  {| size_of self := size_of (sigs self); constant_size := None |}.

#[export] Instance RoaringBitmap_size : MallocSizeOf RoaringBitmap :=
  {| size_of self := ret (Z.of_N (serialized_size self)); constant_size := None |}.

(** [Deref] and [DerefMut] of [Measurable]. *)
Definition deref {A} (self : Measurable A) : A := measurable_0 A self.
Definition deref_mut {A} (f : A -> A) (self : Measurable A) : Measurable A :=
  mkMeasurable A (f (measurable_0 A self)).

(** [MallocSizeOfExt::malloc_size_of]: with operations of its own. *)
Definition ext_malloc_size_of {A} `{!MallocSizeOf A} (malloc_usable_size : Z -> Z) (self : A) :
    outcome Z :=
  (size_of self (new_malloc_size_ops malloc_usable_size)).1.

(** ** The tracker (lib.rs, memory_stats_noop.rs) *)

Inductive Unimplemented : Type := mkUnimplemented.

Definition Unimplemented_display (e : Unimplemented) : string := "unimplemented".

Record MemoryStatsError : Type := mkMemoryStatsError { stats_error : Unimplemented }.

Definition MemoryStatsError_display (e : MemoryStatsError) : string :=
  Unimplemented_display (stats_error e).

Inductive noop_tracker : Type := mkNoopTracker.

Record MemoryAllocationSnapshot : Type := mkSnapshot { resident : Z; allocated : Z }.

Definition noop_new : result noop_tracker Unimplemented := Err mkUnimplemented.

Definition noop_snapshot (self : noop_tracker) :
    outcome (result MemoryAllocationSnapshot Unimplemented) :=
  Panicked "not implemented".

Record MemoryAllocationTracker : Type := mkTracker { tracker_0 : noop_tracker }.

Definition MemoryAllocationTracker_new : result MemoryAllocationTracker MemoryStatsError :=
  map_err mkMemoryStatsError (map_ok mkTracker noop_new).

Definition MemoryAllocationTracker_snapshot (self : MemoryAllocationTracker) :
    outcome (result MemoryAllocationSnapshot MemoryStatsError) :=
  match noop_snapshot (tracker_0 self) with
  | Ret r => Ret (map_err mkMemoryStatsError r)
  | Panicked msg => Panicked msg
  end.

(** A tracker cannot be made, so no snapshot is ever asked for. *)
Lemma tracker_unimplemented :
  MemoryAllocationTracker_new = Err (mkMemoryStatsError mkUnimplemented) /\
  MemoryStatsError_display (mkMemoryStatsError mkUnimplemented) = "unimplemented"%string.
Proof. done. Qed.

(** ** They measure exactly, the cache without its table *)

Set Default Proof Using "Type*".

#[export] Instance plMutex_deep {A} `{!Deep A} : Deep (plMutex A) := fun '(mkPlMutex _ a) => deep a.
#[export] Instance plRwLock_deep {A} `{!Deep A} : Deep (plRwLock A) := fun '(mkPlRwLock _ a) => deep a.
#[export] Instance hbHashMap_deep {K V} `{!SizeOf K, !SizeOf V, !Deep K, !Deep V} :
    Deep (hbHashMap K V) :=
  fun '(mkHbHashMap _ _ s) => cap s * (size_z V + size_z K + usize_size) + total (items _ s).
#[export] Instance LruCache_entries {K V} `{!Deep K, !Deep V} : Deep (LruCache K V) :=
  fun '(mkLruCache _ _ s) => total (items _ s).

Section locks.
Context {A : Type} `{MA : Measured A}.

#[export] Instance plMutex_measured : Measured (plMutex A).
Proof.
  split; [by intros [a]; apply (deep_nonneg a)|done|].
  intros [a] ops. apply (size_of_deep a).
Qed.

#[export] Instance plRwLock_measured : Measured (plRwLock A).
Proof.
  split; [by intros [a]; apply (deep_nonneg a)|done|].
  intros [a] ops. apply (size_of_deep a).
Qed.

End locks.

Section tables.
Context {K V : Type} {SK : SizeOf K} {SV : SizeOf V} {TK : SmallType K} {TV : SmallType V}.
Context `{MK : Measured K} `{MV : Measured V} (Hfit : constants_fit (K:=K) (V:=V)).

Lemma hbHashMap_measured : Measured (hbHashMap K V).
Proof using Hfit MK MV TK TV.
  pose proof (entry_z_range (K:=K) (V:=V) Hfit). split; [|done|].
  - intros [s]. change (0 <= cap s * entry_z (K:=K) (V:=V) + total (items _ s)).
    apply Z.add_nonneg_nonneg; [apply Z.mul_nonneg_nonneg; [unfold cap|]; lia|].
    apply entries_nonneg.
  - intros [s] ops He Hu.
    apply (shallow_then_entries _ (cap s * entry_z (K:=K) (V:=V))); [done|done| |done|].
    + unfold cap. nia.
    + intros Hn. simpl. rewrite interior_estimates by done. by apply (own_entries Hfit).
Qed.

Lemma LruCache_measured : Measured (LruCache K V).
Proof using Hfit MK MV.
  split; [|done|].
  - intros [s]. apply (entries_nonneg (items _ s)).
  - intros [s] ops He Hu. pose proof (entries_nonneg (items _ s)).
    change (add_entries 0 (items _ s) ops = (Ret (total (items _ s)), ops)).
    rewrite add_entries_ok; [by rewrite Z.add_0_l|try done..].
Qed.

End tables.

End more.
