(* ===== verification/Rccheck.v ===== *)
(** * Pre-shared keys for TLS (rccheck/src/lib.rs)

    A [Psk] is the DER form of an X.509 SubjectPublicKeyInfo, with what the
    parser makes of it; it verifies certificates by making its key the trust
    anchor of webpki's verification.  The parsers of x509-parser and webpki, and
    webpki's verification, are parameters. *)
From S2P Require Import Prelude Bytes.
Open Scope Z_scope.

(** [webpki::Error]: the variants the code matches on; the others by their
    display. *)
Inductive webpki_error : Type :=
| BadDer
| BadDerTime
| InvalidSignatureForPublicKey
| UnsupportedSignatureAlgorithm
| UnsupportedSignatureAlgorithmForPublicKey
| OtherWebpkiError (e : string).

(** [rustls::Error]: the variants the code makes. *)
Inductive rustls_error : Type :=
| InvalidCertificateData (e : string)
| InvalidCertificateEncoding
| InvalidCertificateSignature
| InvalidCertificateSignatureType
| FailedToGetCurrentTime
| UnsupportedNameType
| General (e : string).

Definition Certificate : Type := bytes.

Inductive ServerName : Type := DnsName (name : string) | IpAddress (addr : string).

(** [webpki::TrustAnchor]. *)
Record TrustAnchor : Type := mkTrustAnchor {
  subject : bytes;
  anchor_spki : bytes;
  name_constraints : option bytes;
}.

Class Pki : Type := {
  (* x509_parser: SubjectPublicKeyInfo, parsed from the front of the input *)
  SubjectPublicKeyInfo : Type;
  spki_eq_dec :: EqDecision SubjectPublicKeyInfo;
  spki_from_der : bytes -> result (bytes * SubjectPublicKeyInfo) string;
  spki_raw : SubjectPublicKeyInfo -> bytes;
  (* webpki *)
  EndEntityCert : Type;
  EndEntityCert_try_from : bytes -> result EndEntityCert webpki_error;
  try_from_cert_der : bytes -> result TrustAnchor webpki_error;
  SystemTime : Type;
  Time : Type;
  Time_try_from : SystemTime -> result Time unit;
  DnsNameRef : Type;
  try_from_ascii_str : string -> result DnsNameRef unit;
  SignatureAlgorithm : Type;
  ECDSA_P256_SHA256 : SignatureAlgorithm;
  ED25519 : SignatureAlgorithm;
  verify_is_valid_tls_client_cert :
    EndEntityCert -> list SignatureAlgorithm -> list TrustAnchor -> list bytes -> Time ->
    result unit webpki_error;
  verify_is_valid_tls_server_cert :
    EndEntityCert -> list SignatureAlgorithm -> list TrustAnchor -> list bytes -> Time ->
    result unit webpki_error;
  verify_is_valid_for_dns_name : EndEntityCert -> DnsNameRef -> result unit webpki_error;
}.

(** DER: a SEQUENCE is its tag, its length, its contents; a length below 128 is
    one byte, a longer one is preceded by the number of its bytes. *)
Definition der_sequence_tag : byte := Byte.x30.

Definition byte_of_nat (n : nat) : byte := default Byte.x00 (Byte.of_nat n).

Class PkiLaws {PK : Pki} : Type := {
  (* the raw bytes are the part of the input that was read *)
  spki_raw_spec b rest s : spki_from_der b = Ok (rest, s) -> b = spki_raw s ++ rest;
  (* a SubjectPublicKeyInfo is a SEQUENCE *)
  spki_contents : SubjectPublicKeyInfo -> bytes;
  spki_short s :
    (length (spki_contents s) < 128)%nat ->
    spki_raw s = der_sequence_tag :: byte_of_nat (length (spki_contents s)) :: spki_contents s;
  spki_long s :
    (128 <= length (spki_contents s))%nat ->
    exists n ls, spki_raw s = der_sequence_tag :: n :: ls ++ spki_contents s /\ ls <> [];
}.

Section rccheck.
Context {PK : Pki}.

Definition SUPPORTED_SIG_ALGS : list SignatureAlgorithm := [ECDSA_P256_SHA256; ED25519].

(** ** Keys *)

Record Psk : Type := mkPsk {
  key_bytes : bytes;
  psk_spki : SubjectPublicKeyInfo;
}.

(** Derived equality compares both fields. *)
#[export] Instance Psk_eq_dec : EqDecision Psk.
Proof. solve_decision. Defined.

(** What follows the key in the input is kept in [key_bytes]. *)
Definition Psk_from_der (b : bytes) : result Psk string :=
  map_ok (fun rs => mkPsk b rs.2) (spki_from_der b).

Definition Psk_clone (self : Psk) : outcome Psk :=
  match Psk_from_der (key_bytes self) with
  | Ok psk => Ret psk
  | Err _ => Panicked "called `Result::unwrap()` on an `Err` value"
  end.

(** [PartialOrd] and [Ord] compare the bytes. *)
Definition Psk_cmp (self other : Psk) : comparison := bytes_compare (key_bytes self) (key_bytes other).

(** Serialized as its bytes, read back by the visitor. *)
Definition Psk_serialize (self : Psk) : bytes := key_bytes self.
Definition Psk_visit_bytes (v : bytes) : result Psk string := Psk_from_der v.

(** A [BTreeSet<Psk>] is ordered by [cmp]: one key for each byte string. *)
Record PskSet : Type := mkPskSet { spki_set : gmap bytes Psk }.

Definition set_insert (m : gmap bytes Psk) (p : Psk) : gmap bytes Psk := <[key_bytes p := p]> m.

Definition PskSet_from_der (bytes_array : list bytes) : result PskSet string :=
  map_ok (fun ps => mkPskSet (foldl set_insert ∅ ps)) (collect Psk_from_der bytes_array).

(** ** Verification *)

Definition pki_error (error : webpki_error) : rustls_error :=
  match error with
  | BadDer | BadDerTime => InvalidCertificateEncoding
  | InvalidSignatureForPublicKey => InvalidCertificateSignature
  | UnsupportedSignatureAlgorithm | UnsupportedSignatureAlgorithmForPublicKey =>
      InvalidCertificateSignatureType
  | OtherWebpkiError e => InvalidCertificateData ("invalid peer certificate: " +:+ e)
  end.

(** [root_spki.get(2..)]. *)
Definition get_from_2 (b : bytes) : option bytes :=
  if (length b <? 2)%nat then None else Some (drop 2 b).

Definition prepare_certificates_for_root_spki (end_entity : Certificate)
    (intermediates : list Certificate) (root_spki : bytes) :
    result (EndEntityCert * list bytes * list TrustAnchor) rustls_error :=
  res_bind (map_err pki_error (EndEntityCert_try_from end_entity)) (fun cert =>
  res_bind (map_err pki_error (try_from_cert_der (default end_entity (last intermediates)))) (fun root_anchor =>
  res_bind (ok_or (get_from_2 root_spki) (General "Invalid root spki provided")) (fun spki =>
  Ok (cert, intermediates,
      [mkTrustAnchor (subject root_anchor) spki (name_constraints root_anchor)])))).

(** Both verifiers ask every client for a certificate, refuse a client without
    one, and hint at no issuer. *)
Definition offer_client_auth : bool := true.
Definition client_auth_mandatory : option bool := Some true.
Definition client_auth_root_subjects : option (list bytes) := Some [].

Definition Psk_verify_client_cert (self : Psk) (end_entity : Certificate)
    (intermediates : list Certificate) (now : SystemTime) : result unit rustls_error :=
  let root_spki := spki_raw (psk_spki self) in
  res_bind (prepare_certificates_for_root_spki end_entity intermediates root_spki)
    (fun '(cert, chain, trustroots) =>
  res_bind (map_err (fun _ => FailedToGetCurrentTime) (Time_try_from now)) (fun now =>
  map_err pki_error
    (verify_is_valid_tls_client_cert cert SUPPORTED_SIG_ALGS trustroots chain now))).

(** The transparency data and the OCSP response are only traced. *)
Definition Psk_verify_server_cert (self : Psk) (end_entity : Certificate)
    (intermediates : list Certificate) (server_name : ServerName) (now : SystemTime) :
    result unit rustls_error :=
  let root_spki := spki_raw (psk_spki self) in
  res_bind (prepare_certificates_for_root_spki end_entity intermediates root_spki)
    (fun '(cert, chain, trustroots) =>
  res_bind (map_err (fun _ => FailedToGetCurrentTime) (Time_try_from now)) (fun webpki_now =>
  res_bind
    (match server_name with
     | DnsName dns_name => map_err (fun _ => UnsupportedNameType) (try_from_ascii_str dns_name)
     | IpAddress _ => Err UnsupportedNameType
     end) (fun dns_nameref =>
  res_bind
    (map_err pki_error
       (verify_is_valid_tls_server_cert cert SUPPORTED_SIG_ALGS trustroots chain webpki_now)) (fun _ =>
  map_err pki_error (verify_is_valid_for_dns_name cert dns_nameref))))).

Definition not_in_set : rustls_error :=
  InvalidCertificateData
    "invalid peer certificate: Provided public key is not in the set of accepted public keys".

(** [Psk::from_der(root_spki).unwrap()]. *)
Definition PskSet_verify_client_cert (self : PskSet) (root_spki : bytes) (end_entity : Certificate)
    (intermediates : list Certificate) (now : SystemTime) : outcome (result unit rustls_error) :=
  match Psk_from_der root_spki with
  | Err _ => Panicked "called `Result::unwrap()` on an `Err` value"
  | Ok root_psk =>
      if bool_decide (is_Some (spki_set self !! key_bytes root_psk)) then
        Ret (Psk_verify_client_cert root_psk end_entity intermediates now)
      else Ret (Err not_in_set)
  end.

Definition PskSet_verify_server_cert (self : PskSet) (root_spki : bytes) (end_entity : Certificate)
    (intermediates : list Certificate) (server_name : ServerName) (now : SystemTime) :
    outcome (result unit rustls_error) :=
  match Psk_from_der root_spki with
  | Err _ => Panicked "called `Result::unwrap()` on an `Err` value"
  | Ok root_psk =>
      if bool_decide (is_Some (spki_set self !! key_bytes root_psk)) then
        Ret (Psk_verify_server_cert root_psk end_entity intermediates server_name now)
      else Ret (Err not_in_set)
  end.

(** ** Theorems *)

Lemma from_der_bytes b p : Psk_from_der b = Ok p -> key_bytes p = b.
Proof. unfold Psk_from_der. destruct (spki_from_der b); simpl; [intros [= <-]|]; done. Qed.

(** A key that [from_der] made. *)
Definition valid_psk (p : Psk) : Prop := Psk_from_der (key_bytes p) = Ok p.

Lemma from_der_valid b p : Psk_from_der b = Ok p -> valid_psk p.
Proof. intros H. unfold valid_psk. by rewrite (from_der_bytes b p H). Qed.

(** keys are their bytes.  For keys made by [from_der] the order is that of
    their bytes and says equal exactly when the derived equality does, so a
    [BTreeSet] of them has no two equal keys and loses none; a clone never
    panics and is the key, and the bytes a key serializes to are read back as
    that key. *)
Theorem psk_is_its_bytes (p q : Psk) :
  valid_psk p -> valid_psk q ->
  (Psk_cmp p q = Eq <-> p = q) /\ Psk_cmp q p = CompOpp (Psk_cmp p q) /\
  Psk_clone p = Ret p /\ Psk_visit_bytes (Psk_serialize p) = Ok p.
Proof.
  unfold Psk_cmp, Psk_clone, Psk_visit_bytes, Psk_serialize. intros Hp Hq. split_and!.
  - rewrite bytes_compare_eq. split; [|by intros ->].
    intros E. unfold valid_psk in *. congruence.
  - apply bytes_compare_antisym.
  - by rewrite Hp.
  - done.
Qed.

Lemma PskSet_lookup bs ps m b :
  Forall2 (fun b p => Psk_from_der b = Ok p) bs ps ->
  is_Some (foldl set_insert m ps !! b) <-> b ∈ bs \/ is_Some (m !! b).
Proof.
  intros H. revert m. induction H as [|x p bs ps Hp _ IH]; intros m; simpl.
  - rewrite elem_of_nil. naive_solver.
  - rewrite IH, elem_of_cons. unfold set_insert.
    rewrite (from_der_bytes _ _ Hp), lookup_insert_is_Some'. naive_solver.
Qed.

Lemma PskSet_from_der_contains bs set b :
  PskSet_from_der bs = Ok set -> is_Some (spki_set set !! b) <-> b ∈ bs.
Proof.
  unfold PskSet_from_der. destruct (collect Psk_from_der bs) as [ps|] eqn:E; simpl; [|done].
  intros [= <-]. simpl. apply collect_ok in E. rewrite (PskSet_lookup _ _ _ _ E).
  rewrite lookup_empty. pose proof (is_Some_None (A:=Psk)). naive_solver.
Qed.

(** What webpki checked when a client certificate is accepted under a key. *)
Definition client_checked (spki : bytes) (end_entity : Certificate) (intermediates : list Certificate)
    (now : SystemTime) : Prop :=
  exists cert anchor t,
    EndEntityCert_try_from end_entity = Ok cert /\
    try_from_cert_der (default end_entity (last intermediates)) = Ok anchor /\
    Time_try_from now = Ok t /\
    verify_is_valid_tls_client_cert cert SUPPORTED_SIG_ALGS
      [mkTrustAnchor (subject anchor) spki (name_constraints anchor)] intermediates t = Ok tt.

Definition server_checked (spki : bytes) (end_entity : Certificate) (intermediates : list Certificate)
    (server_name : ServerName) (now : SystemTime) : Prop :=
  exists cert anchor t name dns,
    EndEntityCert_try_from end_entity = Ok cert /\
    try_from_cert_der (default end_entity (last intermediates)) = Ok anchor /\
    Time_try_from now = Ok t /\ server_name = DnsName name /\ try_from_ascii_str name = Ok dns /\
    verify_is_valid_tls_server_cert cert SUPPORTED_SIG_ALGS
      [mkTrustAnchor (subject anchor) spki (name_constraints anchor)] intermediates t = Ok tt /\
    verify_is_valid_for_dns_name cert dns = Ok tt.

Ltac res_cases :=
  repeat match goal with
  | |- context [match ?r with Ok _ => _ | Err _ => _ end] => destruct r eqn:?; simpl
  | |- context [map_err _ ?r] => destruct r eqn:?; simpl
  end.

Lemma prepare_ok end_entity intermediates root_spki cert chain roots :
  prepare_certificates_for_root_spki end_entity intermediates root_spki = Ok (cert, chain, roots) <->
  exists anchor, EndEntityCert_try_from end_entity = Ok cert /\ chain = intermediates /\
    try_from_cert_der (default end_entity (last intermediates)) = Ok anchor /\
    (2 <= length root_spki)%nat /\
    roots = [mkTrustAnchor (subject anchor) (drop 2 root_spki) (name_constraints anchor)].
Proof.
  unfold prepare_certificates_for_root_spki, get_from_2.
  destruct (EndEntityCert_try_from end_entity) as [c|]; simpl; [|naive_solver].
  destruct (try_from_cert_der _) as [a|]; simpl; [|naive_solver].
  destruct (Nat.ltb_spec (length root_spki) 2); simpl; [|naive_solver].
  split; [done|]. intros (? & ? & ? & ? & ? & ?). lia.
Qed.

Lemma client_ok p end_entity intermediates now :
  Psk_verify_client_cert p end_entity intermediates now = Ok tt <->
  (2 <= length (spki_raw (psk_spki p)))%nat /\
  client_checked (drop 2 (spki_raw (psk_spki p))) end_entity intermediates now.
Proof.
  unfold Psk_verify_client_cert, client_checked. split.
  - intros (((cert & chain) & roots) & Hp & (t & Ht & Hv)%res_bind_ok)%res_bind_ok.
    apply prepare_ok in Hp as (anchor & ? & -> & ? & ? & ->). split; [done|].
    exists cert, anchor, t. split_and!; [done|done| |].
    + by destruct (Time_try_from now); simplify_eq/=.
    + by destruct (verify_is_valid_tls_client_cert _ _ _ _ _) as [[]|]; simplify_eq/=.
  - intros (Hl & cert & anchor & t & Hc & Ha & Ht & Hv).
    rewrite (proj2 (prepare_ok _ _ _ cert intermediates _)) by (by exists anchor). simpl. rewrite Ht. simpl. by rewrite Hv.
Qed.

Lemma server_ok p end_entity intermediates name now :
  Psk_verify_server_cert p end_entity intermediates name now = Ok tt <->
  (2 <= length (spki_raw (psk_spki p)))%nat /\
  server_checked (drop 2 (spki_raw (psk_spki p))) end_entity intermediates name now.
Proof.
  unfold Psk_verify_server_cert, server_checked. split.
  - intros (((cert & chain) & roots) & Hp & (t & Ht & (dns & Hd & ([] & Hv & Hn)%res_bind_ok)%res_bind_ok)%res_bind_ok)%res_bind_ok.
    apply prepare_ok in Hp as (anchor & ? & -> & ? & ? & ->). split; [done|].
    destruct name as [name|]; [|done].
    exists cert, anchor, t, name, dns. split_and!; try done.
    + by destruct (Time_try_from now); simplify_eq/=.
    + by destruct (try_from_ascii_str name); simplify_eq/=.
    + by destruct (verify_is_valid_tls_server_cert _ _ _ _ _) as [[]|]; simplify_eq/=.
    + by destruct (verify_is_valid_for_dns_name _ _) as [[]|]; simplify_eq/=.
  - intros (Hl & cert & anchor & t & name' & dns & Hc & Ha & Ht & -> & Hd & Hv & Hn).
    rewrite (proj2 (prepare_ok _ _ _ cert intermediates _)) by (by exists anchor). simpl. rewrite Ht. simpl.
    rewrite Hd. simpl. rewrite Hv. simpl. by rewrite Hn.
Qed.

(** Whether the two bytes that are dropped are all of the header. *)
Lemma anchor_key `{PL : !PkiLaws} s :
  (2 <= length (spki_raw s))%nat /\
  (drop 2 (spki_raw s) = spki_contents s <-> (length (spki_contents s) < 128)%nat).
Proof.
  destruct (decide (length (spki_contents s) < 128)%nat) as [H|H].
  - rewrite (spki_short s H). simpl. split; [lia|done].
  - destruct (spki_long s) as (n & ls & -> & Hls); [lia|]. simpl. split; [lia|].
    split; [|done]. rewrite drop_0. intros E. apply (f_equal length) in E.
    rewrite length_app in E. destruct ls; simpl in *; [done|lia].
Qed.

(** The verifiers of a set, under a root that parses. *)
Lemma set_verifies `{PL : !PkiLaws} bs set root end_entity intermediates name now rest s :
  PskSet_from_der bs = Ok set -> spki_from_der root = Ok (rest, s) ->
  (PskSet_verify_client_cert set root end_entity intermediates now = Ret (Ok tt) <->
     root ∈ bs /\ client_checked (drop 2 (spki_raw s)) end_entity intermediates now) /\
  (PskSet_verify_server_cert set root end_entity intermediates name now = Ret (Ok tt) <->
     root ∈ bs /\ server_checked (drop 2 (spki_raw s)) end_entity intermediates name now) /\
  (root ∉ bs ->
     PskSet_verify_client_cert set root end_entity intermediates now = Ret (Err not_in_set)).
Proof.
  intros Hset Hs. unfold PskSet_verify_client_cert, PskSet_verify_server_cert, Psk_from_der.
  rewrite Hs. simpl. pose proof (PskSet_from_der_contains bs set root Hset) as Hin.
  destruct (anchor_key s) as [Hl _].
  pose proof (client_ok (mkPsk root s) end_entity intermediates now) as Hc.
  pose proof (server_ok (mkPsk root s) end_entity intermediates name now) as Hv. simpl in Hc, Hv.
  destruct (decide (root ∈ bs)) as [Hr|Hr].
  - rewrite bool_decide_true by (by apply Hin). split_and!; [| |done].
    + split; [intros [= [_ H]%Hc]; done|intros [_ H]; f_equal; by apply Hc].
    + split; [intros [= [_ H]%Hv]; done|intros [_ H]; f_equal; by apply Hv].
  - rewrite bool_decide_false by (by rewrite Hin). split_and!; [| |done];
      by split; [|intros [? _]].
Qed.

(** C18: only accepted keys are trusted.  A set made of some keys accepts a
    certificate under a root key exactly when the root is one of them, byte for
    byte, and webpki verified the certificate with one trust anchor, which
    has the root's key; a server also needs a DNS name that the certificate is
    valid for.  The anchor has the key of the root without its first two bytes,
    which is the key as webpki expects it for every key shorter than 128 bytes,
    and no longer one.  A root that is not in the set is refused without any
    verification, and one that does not parse panics. *)
Theorem pskset_accepts_only_members `{PL : !PkiLaws} bs set root end_entity intermediates name now :
  PskSet_from_der bs = Ok set ->
  (forall e, spki_from_der root = Err e ->
     PskSet_verify_client_cert set root end_entity intermediates now =
       Panicked "called `Result::unwrap()` on an `Err` value") /\
  (forall rest s, spki_from_der root = Ok (rest, s) ->
     (PskSet_verify_client_cert set root end_entity intermediates now = Ret (Ok tt) <->
        root ∈ bs /\ client_checked (drop 2 (spki_raw s)) end_entity intermediates now) /\
     (PskSet_verify_server_cert set root end_entity intermediates name now = Ret (Ok tt) <->
        root ∈ bs /\ server_checked (drop 2 (spki_raw s)) end_entity intermediates name now) /\
     (root ∉ bs ->
        PskSet_verify_client_cert set root end_entity intermediates now = Ret (Err not_in_set)) /\
     (drop 2 (spki_raw s) = spki_contents s <-> (length (spki_contents s) < 128)%nat)).
Proof.
  intros Hset. split; [by intros e; unfold PskSet_verify_client_cert, Psk_from_der; intros ->|].
  intros rest s Hs.
  destruct (set_verifies bs set root end_entity intermediates name now rest s Hset Hs) as (? & ? & ?).
  destruct (anchor_key s). by split_and!.
Qed.

End rccheck.
