(* ===== verification/Certgen.v ===== *)
(** * Certificates for ed25519 keys (rccheck/src/ed25519_certgen.rs)

    How a key pair becomes a self-signed certificate, a signing request or the
    SubjectPublicKeyInfo that a [Psk] reads, and how a request is signed.
    ed25519-dalek, pkcs8 and rcgen are parameters.  The last theorem puts these
    keys into the sets of Rccheck.v. *)
From S2P Require Import Prelude Bytes Rccheck.
Open Scope nat_scope.

(** [ed25519::KeypairBytes]. *)
Record KeypairBytes : Type := mkKeypairBytes {
  secret_key : bytes;
  public_key : option bytes;
}.

(** What is set of rcgen's [CertificateParams]; [DistinguishedName::new()] has
    no entries. *)
Record CertificateParams (KP Alg : Type) : Type := mkCertificateParams {
  subject_alt_names : list string;
  params_key_pair : option KP;
  distinguished_name : list (string * string);
  params_alg : option Alg;            (* [None]: the default of [new] *)
}.
Arguments mkCertificateParams {KP Alg}.
Arguments params_key_pair {KP Alg}.
Arguments params_alg {KP Alg}.

(** [pkcs8::spki::SubjectPublicKeyInfo]. *)
Record SpkiInfo (Oid : Type) : Type := mkSpkiInfo {
  info_oid : Oid;
  info_parameters : option bytes;
  info_key : bytes;
}.
Arguments mkSpkiInfo {Oid}.

Class CertCrates : Type := {
  DalekSecret : Type;
  DalekPublic : Type;
  secret_to_bytes : DalekSecret -> bytes;
  public_as_bytes : DalekPublic -> bytes;
  to_pkcs8_der : KeypairBytes -> result bytes string;
  RcgenAlgorithm : Type;
  PKCS_ED25519 : RcgenAlgorithm;
  RcgenKeyPair : Type;
  KeyPair_from_der_and_sign_algo : bytes -> RcgenAlgorithm -> result RcgenKeyPair string;
  RcgenCertificate : Type;
  Certificate_from_params : CertificateParams RcgenKeyPair RcgenAlgorithm -> result RcgenCertificate string;
  serialize_der : RcgenCertificate -> result bytes string;
  serialize_request_der : RcgenCertificate -> result bytes string;
  RcgenCsr : Type;
  Csr_from_der : bytes -> result RcgenCsr string;
  serialize_der_with_signer : RcgenCsr -> RcgenCertificate -> result bytes string;
  ObjectIdentifier : Type;
  ED25519_OID : ObjectIdentifier;
  spki_to_vec : SpkiInfo ObjectIdentifier -> result bytes string;
}.

(** rcgen refuses parameters only when the key is not of their algorithm, and a
    parsed key pair is of the one it was parsed for.  RFC 8410: the
    SubjectPublicKeyInfo of an ed25519 key is this header, for the OID without
    parameters and a bit string, and the 32 bytes of the key. *)
Definition ed25519_spki_header : bytes :=
  [Byte.x30; Byte.x2a; Byte.x30; Byte.x05; Byte.x06; Byte.x03; Byte.x2b; Byte.x65; Byte.x70;
   Byte.x03; Byte.x21; Byte.x00].

Class CertLaws `{CC : CertCrates} : Type := {
  key_alg : RcgenKeyPair -> RcgenAlgorithm;
  from_der_alg der a kp : KeyPair_from_der_and_sign_algo der a = Ok kp -> key_alg kp = a;
  from_params_compatible p kp :
    params_key_pair p = Some kp -> params_alg p = Some (key_alg kp) ->
    exists c, Certificate_from_params p = Ok c;
  public_key_length k : length (public_as_bytes k) = 32;
  public_as_bytes_inj k k' : public_as_bytes k = public_as_bytes k' -> k = k';
  spki_to_vec_ed25519 key :
    length key = 32 -> spki_to_vec (mkSpkiInfo ED25519_OID None key) = Ok (ed25519_spki_header ++ key);
}.

Section certgen.
Context {CC : CertCrates}.

Record Keypair : Type := mkKeypair { secret : DalekSecret; public : DalekPublic }.

Definition dalek_to_keypair_bytes (dalek_kp : Keypair) : KeypairBytes :=
  mkKeypairBytes (secret_to_bytes (secret dalek_kp)) None.

Definition keypair_bytes_to_pkcs8_n_algo (kpb : KeypairBytes) :
    result (bytes * RcgenAlgorithm) string :=
  res_bind (to_pkcs8_der kpb) (fun pkcs8 => Ok (pkcs8, PKCS_ED25519)).

Definition unreachable_params : string :=
  "unreachable! from_params should only fail if the key is incompatible with params.algo".

(** The parameters all certificates get. *)
Definition cert_params (names : list string) (kp : RcgenKeyPair) (alg : RcgenAlgorithm) :
    CertificateParams RcgenKeyPair RcgenAlgorithm :=
  mkCertificateParams names (Some kp) [] (Some alg).

(** [rcgen::Certificate::from_params(..).expect(..)]. *)
Definition expect_certificate (p : CertificateParams RcgenKeyPair RcgenAlgorithm) :
    outcome RcgenCertificate :=
  match Certificate_from_params p with
  | Ok c => Ret c
  | Err _ => Panicked unreachable_params
  end.

Definition gen_certificate (subject_names : list string) (key_pair : bytes * RcgenAlgorithm) :
    outcome (result bytes string) :=
  match KeyPair_from_der_and_sign_algo key_pair.1 key_pair.2 with
  | Err e => Ret (Err e)
  | Ok kp =>
      match expect_certificate (cert_params subject_names kp key_pair.2) with
      | Panicked msg => Panicked msg
      | Ret cert => Ret (serialize_der cert)
      end
  end.

Definition sign_certificate_signing_request (csr_der : bytes) (key_pair : bytes * RcgenAlgorithm) :
    outcome (result bytes string) :=
  match KeyPair_from_der_and_sign_algo key_pair.1 key_pair.2 with
  | Err e => Ret (Err e)
  | Ok kp =>
      match Csr_from_der csr_der with
      | Err e => Ret (Err e)
      | Ok csr =>
          match expect_certificate (cert_params ["localhost"%string] kp key_pair.2) with
          | Panicked msg => Panicked msg
          | Ret cert => Ret (serialize_der_with_signer csr cert)
          end
      end
  end.

Definition keypair_to_certificate (subject_names : list string) (kp : Keypair) :
    outcome (result bytes string) :=
  match keypair_bytes_to_pkcs8_n_algo (dalek_to_keypair_bytes kp) with
  | Err e => Ret (Err e)
  | Ok (pkcs_bytes, alg) => gen_certificate subject_names (pkcs_bytes, alg)
  end.

Definition public_key_to_spki (public_key : DalekPublic) : outcome bytes :=
  match spki_to_vec (mkSpkiInfo ED25519_OID None (public_as_bytes public_key)) with
  | Ok b => Ret b
  | Err _ => Panicked "Dalek public key should be valid!"
  end.

Definition sign_certificate_request (certificate_request_der : bytes) (kp : Keypair) :
    outcome (result bytes string) :=
  match keypair_bytes_to_pkcs8_n_algo (dalek_to_keypair_bytes kp) with
  | Err e => Ret (Err e)
  | Ok (pkcs_bytes, alg) => sign_certificate_signing_request certificate_request_der (pkcs_bytes, alg)
  end.

Definition keypair_to_der_certificate_request (subject_names : list string) (kp : Keypair) :
    outcome (result bytes string) :=
  match keypair_bytes_to_pkcs8_n_algo (dalek_to_keypair_bytes kp) with
  | Err e => Ret (Err e)
  | Ok (pkcs_bytes, alg) =>
      match KeyPair_from_der_and_sign_algo pkcs_bytes alg with
      | Err e => Ret (Err e)
      | Ok kp =>
          match expect_certificate (cert_params subject_names kp alg) with
          | Panicked msg => Panicked msg
          | Ret cert => Ret (serialize_request_der cert)
          end
      end
  end.

(** The trait [Certifiable] (lib.rs) and its implementation by [Ed25519]. *)
Record Certifiable : Type := mkCertifiable {
  PublicKey : Type;
  KeyPair : Type;
  cert_keypair_to_certificate : list string -> KeyPair -> outcome (result bytes string);
  cert_public_key_to_spki : PublicKey -> outcome bytes;
  cert_keypair_to_der_certificate_request : list string -> KeyPair -> outcome (result bytes string);
  cert_sign_certificate_request : bytes -> KeyPair -> outcome (result bytes string);
}.

Definition Ed25519 : Certifiable := {|
  PublicKey := DalekPublic;
  KeyPair := Keypair;
  cert_keypair_to_certificate := keypair_to_certificate;
  cert_public_key_to_spki := public_key_to_spki;
  cert_keypair_to_der_certificate_request := keypair_to_der_certificate_request;
  cert_sign_certificate_request := sign_certificate_request;
|}.

(** ** Theorems *)

Context {CL : CertLaws}.
Set Default Proof Using "Type*".

(** The key rcgen signs with: of the secret alone, as PKCS#8 version 1. *)
Definition signing_key (kp : Keypair) : result RcgenKeyPair string :=
  res_bind (to_pkcs8_der (mkKeypairBytes (secret_to_bytes (secret kp)) None)) (fun pkcs8 =>
  KeyPair_from_der_and_sign_algo pkcs8 PKCS_ED25519).

Lemma signing_key_alg kp k : signing_key kp = Ok k -> key_alg k = PKCS_ED25519.
Proof.
  unfold signing_key. intros (der & _ & Hk)%res_bind_ok. by eapply from_der_alg.
Qed.

(** The certificate of a signing key exists. *)
Lemma expect_certificate_ok names k :
  key_alg k = PKCS_ED25519 ->
  exists c, Certificate_from_params (cert_params names k PKCS_ED25519) = Ok c /\
            expect_certificate (cert_params names k PKCS_ED25519) = Ret c.
Proof.
  intros Hk. destruct (from_params_compatible (cert_params names k PKCS_ED25519) k) as [c Hc];
    [done|by simpl; rewrite Hk|].
  exists c. split; [done|]. unfold expect_certificate. by rewrite Hc.
Qed.

(** making certificates never panics, for no key, names or request: where
    the code says unreachable, it is.  A certificate, a request and a signature
    on a request are all made with the one signing key of the key pair, from its
    secret alone, under the given names and no distinguished name; the first
    library that fails has its error returned, the key before the request. *)
Theorem certgen_spec (names : list string) (csr : bytes) (kp : Keypair) :
  match signing_key kp with
  | Err e =>
      keypair_to_certificate names kp = Ret (Err e) /\
      keypair_to_der_certificate_request names kp = Ret (Err e) /\
      sign_certificate_request csr kp = Ret (Err e)
  | Ok k => exists cert signer,
      Certificate_from_params (cert_params names k PKCS_ED25519) = Ok cert /\
      Certificate_from_params (cert_params ["localhost"%string] k PKCS_ED25519) = Ok signer /\
      keypair_to_certificate names kp = Ret (serialize_der cert) /\
      keypair_to_der_certificate_request names kp = Ret (serialize_request_der cert) /\
      sign_certificate_request csr kp =
        Ret (res_bind (Csr_from_der csr) (fun csr => serialize_der_with_signer csr signer))
  end.
Proof.
  pose proof (signing_key_alg kp) as Halg. unfold signing_key in *.
  unfold keypair_to_certificate, keypair_to_der_certificate_request, sign_certificate_request,
    keypair_bytes_to_pkcs8_n_algo, dalek_to_keypair_bytes.
  destruct (to_pkcs8_der _) as [der|e]; simpl in *; [|done].
  unfold gen_certificate, sign_certificate_signing_request. simpl.
  destruct (KeyPair_from_der_and_sign_algo der PKCS_ED25519) as [k|e]; [|done].
  specialize (Halg k eq_refl).
  destruct (expect_certificate_ok names k Halg) as (cert & Hc & ->).
  destruct (expect_certificate_ok ["localhost"%string] k Halg) as (signer & Hs & ->).
  exists cert, signer. split_and!; try done. by destruct (Csr_from_der csr).
Qed.

Lemma public_key_to_spki_ok k : public_key_to_spki k = Ret (ed25519_spki_header ++ public_as_bytes k).
Proof.
  unfold public_key_to_spki. by rewrite spki_to_vec_ed25519 by apply public_key_length.
Qed.

(** ** The keys as pre-shared keys *)

Context {PK : Pki} {PL : PkiLaws}.

(** The parser reads these keys to their end. *)
Definition parses_ed25519 : Prop :=
  forall key, length key = 32 -> exists s, spki_from_der (ed25519_spki_header ++ key) = Ok ([], s).

(** What the header's two bytes of a SEQUENCE precede. *)
Definition ed25519_contents (k : DalekPublic) : bytes :=
  drop 2 ed25519_spki_header ++ public_as_bytes k.

Lemma psk_of_key k :
  parses_ed25519 ->
  exists s, spki_from_der (ed25519_spki_header ++ public_as_bytes k) = Ok ([], s) /\
    spki_raw s = ed25519_spki_header ++ public_as_bytes k /\
    Psk_from_der (ed25519_spki_header ++ public_as_bytes k) =
      Ok (mkPsk (ed25519_spki_header ++ public_as_bytes k) s).
Proof.
  intros Hparse. destruct (Hparse _ (public_key_length k)) as [s Hs]. exists s.
  split; [done|]. split.
  - apply spki_raw_spec in Hs. by rewrite app_nil_r in Hs.
  - unfold Psk_from_der. by rewrite Hs.
Qed.

Lemma spkis_of_keys ks :
  collect (fun k => match public_key_to_spki k with Ret b => Ok b | Panicked msg => Err msg end) ks =
  Ok (map (fun k => ed25519_spki_header ++ public_as_bytes k) ks).
Proof.
  apply collect_ok. induction ks as [|k ks IH]; [constructor|].
  constructor; [by rewrite public_key_to_spki_ok|done].
Qed.

Lemma spki_in_set k ks :
  ed25519_spki_header ++ public_as_bytes k ∈
    map (fun k => ed25519_spki_header ++ public_as_bytes k) ks <-> k ∈ ks.
Proof.
  split.
  - intros (k' & Hk & Hin)%list_elem_of_fmap. apply app_inv_head, public_as_bytes_inj in Hk. by subst.
  - intros Hin. apply list_elem_of_fmap. by exists k.
Qed.

(** C25: a set of pre-shared keys made from public keys is made without an error
    or a panic and trusts exactly those keys: under the SubjectPublicKeyInfo of
    a key it accepts a client's or a server's certificate exactly when the key
    is one of them and webpki verified the certificate with an anchor that holds
    that key, the whole of it and nothing else; for these keys the two bytes the
    verifier drops are all of the header. *)
Theorem pskset_of_public_keys (ks : list DalekPublic) (k : DalekPublic) end_entity intermediates name now :
  parses_ed25519 ->
  exists spkis set root,
    collect (fun k => match public_key_to_spki k with Ret b => Ok b | Panicked msg => Err msg end) ks
      = Ok spkis /\
    PskSet_from_der spkis = Ok set /\ public_key_to_spki k = Ret root /\
    (PskSet_verify_client_cert set root end_entity intermediates now = Ret (Ok tt) <->
       k ∈ ks /\ client_checked (ed25519_contents k) end_entity intermediates now) /\
    (PskSet_verify_server_cert set root end_entity intermediates name now = Ret (Ok tt) <->
       k ∈ ks /\ server_checked (ed25519_contents k) end_entity intermediates name now).
Proof.
  intros Hparse. rewrite spkis_of_keys. eexists.
  assert (exists set, PskSet_from_der (map (fun k => ed25519_spki_header ++ public_as_bytes k) ks) = Ok set)
    as [set Hset].
  { assert (exists ps, collect Psk_from_der (map (fun k => ed25519_spki_header ++ public_as_bytes k) ks) = Ok ps)
      as [ps Hps].
    { induction ks as [|k' ks [ps IH]]; [by exists []|].
      destruct (psk_of_key k' Hparse) as (s & _ & _ & Hk). cbn [map collect]. rewrite Hk, IH.
      by eexists. }
    unfold PskSet_from_der. rewrite Hps. by eexists. }
  exists set. eexists. rewrite public_key_to_spki_ok.
  do 3 (split; [done|]).
  destruct (psk_of_key k Hparse) as (s & Hs & Hraw & _).
  destruct (set_verifies _ set _ end_entity intermediates name now _ _ Hset Hs) as [Hc Hv].
  destruct Hv as [Hv _]. rewrite spki_in_set, Hraw in Hc, Hv. by split.
Qed.

End certgen.
