(* ===== verification/Component.v ===== *)
(** * The supervisor (component/src/lib.rs)

    A [Supervisor] starts a component as a task, waits for an irrecoverable
    error on a channel or for the end of the task, lets the component handle the
    failure, and starts it again.  Channels, one-shot cancellations and tasks
    live in a shared [System]; the tasks run concurrently, so the whole is a
    step relation whose supervisor steps are the code's functions. *)
From stdpp Require Import relations.
From S2P Require Import Prelude.
Open Scope nat_scope.

Definition CHANNEL_SIZE : nat := 10.

(** An [eyre::Report], by its message. *)
Definition Report : Type := string.

Definition unexpected_shutdown : Report :=
  "An unexpected shutdown was observed in a component.".

(** ** Channels, cancellations, tasks *)

Record channel : Type := mkChannel {
  ch_buffer : list Report;
  ch_sender : bool;       (* some sender is alive *)
  ch_receiver : bool;     (* the receiver is alive *)
}.

(** A component task: the error channel and the cancellation it was given, and
    whether it has ended (returned or panicked). *)
Record task : Type := mkTask {
  task_tx : nat;
  task_rx : nat;
  task_finished : bool;
}.

(** What the supervisor did, latest last. *)
Inductive log_entry : Type :=
| Started (join_handle : nat)
| Handled (irrecoverable : Report) (ok : bool).

Record System : Type := mkSystem {
  sy_channels : gmap nat channel;
  sy_cancel : gmap nat bool;   (* whether the cancellation's sender is alive *)
  sy_tasks : gmap nat task;
  sy_next : nat;
  sy_log : list log_entry;
}.

Definition System_init : System := mkSystem ∅ ∅ ∅ 0 [].

Definition set_channels (x : gmap nat channel) (sy : System) : System :=
  mkSystem x (sy_cancel sy) (sy_tasks sy) (sy_next sy) (sy_log sy).
Definition set_cancel (x : gmap nat bool) (sy : System) : System :=
  mkSystem (sy_channels sy) x (sy_tasks sy) (sy_next sy) (sy_log sy).
Definition set_tasks (x : gmap nat task) (sy : System) : System :=
  mkSystem (sy_channels sy) (sy_cancel sy) x (sy_next sy) (sy_log sy).
Definition set_log (x : list log_entry) (sy : System) : System :=
  mkSystem (sy_channels sy) (sy_cancel sy) (sy_tasks sy) (sy_next sy) x.

Definition fresh : comp System nat :=
  fun sy => (Ret (sy_next sy),
             mkSystem (sy_channels sy) (sy_cancel sy) (sy_tasks sy) (S (sy_next sy)) (sy_log sy)).

Definition log (e : log_entry) : comp System unit := modify (fun sy => set_log (sy_log sy ++ [e]) sy).

(** [channel(CHANNEL_SIZE)] and [oneshotChannel()]: both ends are alive. *)
Definition new_channel : comp System nat :=
  c <- fresh ;;
  modify (fun sy => set_channels (<[c := mkChannel [] true true]> (sy_channels sy)) sy) ;;
  ret c.

Definition oneshotChannel : comp System nat :=
  c <- fresh ;; modify (fun sy => set_cancel (<[c := true]> (sy_cancel sy)) sy) ;; ret c.

(** Dropping ends of channels.  A dropped receiver loses what is buffered. *)
Definition drop_sender (c : nat) : comp System unit :=
  modify (fun sy =>
    set_channels (alter (fun ch => mkChannel (ch_buffer ch) false (ch_receiver ch)) c (sy_channels sy)) sy).

Definition drop_receiver (c : nat) : comp System unit :=
  modify (fun sy =>
    set_channels (alter (fun ch => mkChannel [] (ch_sender ch) false) c (sy_channels sy)) sy).

Definition drop_cancellation (c : option nat) : comp System unit :=
  match c with
  | Some c => modify (fun sy => set_cancel (<[c := false]> (sy_cancel sy)) sy)
  | None => ret tt
  end.

Section supervisor.

(** The component: how it handles an irrecoverable error.  Its [start] launches
    a task; what the task does is up to the component. *)
Class Manageable (Mg : Type) : Type := {
  handle_irrecoverable : Mg -> Report -> result unit Report * Mg;
}.

Context {Mg : Type} `{!Manageable Mg}.

Definition start (self : Mg) (tx_irrecoverable rx_cancellation : nat) : comp System nat :=
  h <- fresh ;;
  modify (fun sy =>
    set_tasks (<[h := mkTask tx_irrecoverable rx_cancellation false]> (sy_tasks sy)) sy) ;;
  log (Started h) ;;
  ret h.

Record Supervisor : Type := mkSupervisor {
  irrecoverable_signal : nat;
  cancellation_signal : option nat;
  join_handle : option nat;
  manageable : Mg;
}.

(** The sender of the first channel is dropped at once. *)
Definition Supervisor_new (component : Mg) : comp System Supervisor :=
  tr_irrecoverable <- new_channel ;;
  drop_sender tr_irrecoverable ;;
  ret (mkSupervisor tr_irrecoverable None None component).

(** [spawn] up to [run], and [restart]: start the component on fresh signals,
    then let go of the old ones. *)
Definition restart (self : Supervisor) : comp System Supervisor :=
  irrecoverable <- new_channel ;;
  cancellation <- oneshotChannel ;;
  wrapped_handle <- start (manageable self) irrecoverable cancellation ;;
  drop_receiver (irrecoverable_signal self) ;;
  drop_cancellation (cancellation_signal self) ;;
  ret (mkSupervisor irrecoverable (Some cancellation) (Some wrapped_handle) (manageable self)).

Definition spawn (self : Supervisor) : comp System Supervisor :=
  irrecoverable <- new_channel ;;
  cancellation <- oneshotChannel ;;
  wrapped_handle <- start (manageable self) irrecoverable cancellation ;;
  drop_receiver (irrecoverable_signal self) ;;
  drop_cancellation (cancellation_signal self) ;;
  ret (mkSupervisor irrecoverable (Some cancellation) (Some wrapped_handle) (manageable self)).

(** ** The loop *)

(** The branches of [select!]; which one of several ready ones runs is random. *)
Inductive branch : Type := BranchRecv | BranchJoin.

(** [Some(m) = self.irrecoverable_signal.recv()]: the oldest buffered error. *)
Definition recv (c : nat) : comp System (option Report) :=
  fun sy =>
    match sy_channels sy !! c with
    | Some (mkChannel (m :: q) s r) =>
        (Ret (Some m), set_channels (<[c := mkChannel q s r]> (sy_channels sy)) sy)
    | _ => (Ret None, sy)
    end.

(** The wait on the join handle is evaluated in every turn. *)
Definition select (b : branch) (self : Supervisor) : comp System (option Report) :=
  h <- expect "called `Option::unwrap()` on a `None` value" (join_handle self) ;;
  match b with
  | BranchRecv => recv (irrecoverable_signal self)
  | BranchJoin =>
      t <- gets (fun sy => sy_tasks sy !! h) ;;
      ret (match t with
           | Some t => if task_finished t then Some unexpected_shutdown else None
           | None => None
           end)
  end.

Inductive phase : Type :=
| Spawning (self : Supervisor)
| Running (self : Supervisor)
| Restarting (self : Supervisor)
| Ended (r : result unit Report).

(** Dropping the supervisor. *)
Definition drop_supervisor (self : Supervisor) : comp System unit :=
  drop_receiver (irrecoverable_signal self) ;; drop_cancellation (cancellation_signal self).

(** One turn of the loop in [run], up to the restart; [None] when the branch is
    not ready. *)
Definition run_turn (b : branch) (self : Supervisor) : comp System (option phase) :=
  message <- select b self ;;
  match message with
  | None => ret None
  | Some message =>
      let (r, m) := handle_irrecoverable (manageable self) message in
      log (Handled message (is_ok r)) ;;
      let self :=
        mkSupervisor (irrecoverable_signal self) (cancellation_signal self) (join_handle self) m in
      match r with
      | Ok _ => ret (Some (Restarting self))
      | Err e => drop_supervisor self ;; ret (Some (Ended (Err e)))
      end
  end.

(** ** The system *)

(** What can happen to a task and what it was given, wherever it moved it. *)
Inductive task_step (h : nat) : System -> System -> Prop :=
| task_send sy t ch m :
    sy_tasks sy !! h = Some t ->
    sy_channels sy !! task_tx t = Some ch -> ch_sender ch = true -> ch_receiver ch = true ->
    length (ch_buffer ch) < CHANNEL_SIZE ->
    task_step h sy
      (set_channels (<[task_tx t := mkChannel (ch_buffer ch ++ [m]) true true]> (sy_channels sy)) sy)
| task_drop_sender sy t :
    sy_tasks sy !! h = Some t ->
    task_step h sy (drop_sender (task_tx t) sy).2
| task_finish sy t :
    sy_tasks sy !! h = Some t ->
    task_step h sy
      (set_tasks (<[h := mkTask (task_tx t) (task_rx t) true]> (sy_tasks sy)) sy).

Inductive step : phase * System -> phase * System -> Prop :=
| step_spawn self sy self' sy' :
    spawn self sy = (Ret self', sy') -> step (Spawning self, sy) (Running self', sy')
| step_turn b self sy p sy' :
    run_turn b self sy = (Ret (Some p), sy') -> step (Running self, sy) (p, sy')
| step_restart self sy self' sy' :
    restart self sy = (Ret self', sy') -> step (Restarting self, sy) (Running self', sy')
| step_task h p sy sy' :
    task_step h sy sy' -> step (p, sy) (p, sy').

(** [Supervisor::new(component).spawn()]. *)
Definition initial (component : Mg) : phase * System :=
  match Supervisor_new component System_init with
  | (Ret s, sy) => (Spawning s, sy)
  | (Panicked _, sy) => (Ended (Ok tt), sy)
  end.

Definition reachable (component : Mg) : phase * System -> Prop := rtc step (initial component).

End supervisor.
