(* ===== verification/ComponentTheorems.v ===== *)
(** * Theorems on the supervisor *)
From stdpp Require Import relations.
From S2P Require Import Prelude Component.
Open Scope nat_scope.

Section supervisor.
Context {Mg : Type} `{!Manageable Mg}.
Implicit Types (sy : System) (s : Supervisor (Mg:=Mg)) (mg : Mg).

(** ** What the code computes, in one step each *)

Definition restarted s sy : Supervisor :=
  mkSupervisor (sy_next sy) (Some (S (sy_next sy))) (Some (S (S (sy_next sy)))) (manageable s).

Definition drop_cancel (c : option nat) (m : gmap nat bool) : gmap nat bool :=
  match c with Some c => <[c := false]> m | None => m end.

Definition close (ch : channel) : channel := mkChannel [] (ch_sender ch) false.

Definition restarted_sys s sy : System :=
  let n := sy_next sy in
  mkSystem
    (alter close (irrecoverable_signal s) (<[n := mkChannel [] true true]> (sy_channels sy)))
    (drop_cancel (cancellation_signal s) (<[S n := true]> (sy_cancel sy)))
    (<[S (S n) := mkTask n (S n) false]> (sy_tasks sy))
    (S (S (S n)))
    (sy_log sy ++ [Started (S (S n))]).

Lemma restart_eq s sy : restart s sy = (Ret (restarted s sy), restarted_sys s sy).
Proof. by destruct s as [? [] ? ?]. Qed.

Lemma spawn_eq s sy : spawn s sy = (Ret (restarted s sy), restarted_sys s sy).
Proof. by destruct s as [? [] ? ?]. Qed.

Definition with_manageable mg s : Supervisor :=
  mkSupervisor (irrecoverable_signal s) (cancellation_signal s) (join_handle s) mg.

Definition dropped_sys s sy : System :=
  mkSystem (alter close (irrecoverable_signal s) (sy_channels sy))
    (drop_cancel (cancellation_signal s) (sy_cancel sy)) (sy_tasks sy) (sy_next sy) (sy_log sy).

(** The rest of a turn once a report was selected. *)
Definition handled_turn s (message : Report) sy : phase * System :=
  match handle_irrecoverable (manageable s) message with
  | (Ok _, mg) =>
      (Restarting (with_manageable mg s), set_log (sy_log sy ++ [Handled message true]) sy)
  | (Err e, mg) =>
      (Ended (Err e), dropped_sys s (set_log (sy_log sy ++ [Handled message false]) sy))
  end.

Lemma run_turn_eq b s sy :
  run_turn b s sy =
    match select b s sy with
    | (Ret (Some m), sy') => (Ret (Some (handled_turn s m sy').1), (handled_turn s m sy').2)
    | (Ret None, sy') => (Ret None, sy')
    | (Panicked e, sy') => (Panicked e, sy')
    end.
Proof.
  unfold run_turn, bind at 1. destruct (select b s sy) as [[[m|]|] sy']; try done.
  unfold handled_turn. destruct (handle_irrecoverable _ _) as [[[]|] mg]; [done|].
  by destruct s as [? [] ? ?].
Qed.

(** The reports the supervisor can get in a state: what [select!] may choose. *)
Definition offered s sy (message : Report) : Prop :=
  (exists h t, join_handle s = Some h /\ sy_tasks sy !! h = Some t /\ task_finished t = true /\
     message = unexpected_shutdown) \/
  (exists ch, sy_channels sy !! irrecoverable_signal s = Some ch /\ head (ch_buffer ch) = Some message).

Definition taken (b : branch) s sy : System :=
  match b with
  | BranchRecv =>
      set_channels
        (alter (fun ch => mkChannel (tail (ch_buffer ch)) (ch_sender ch) (ch_receiver ch))
           (irrecoverable_signal s) (sy_channels sy)) sy
  | BranchJoin => sy
  end.

Lemma System_eta sy :
  sy = mkSystem (sy_channels sy) (sy_cancel sy) (sy_tasks sy) (sy_next sy) (sy_log sy).
Proof. by destruct sy. Qed.

Lemma alter_insert_eq (f : channel -> channel) c x (m : gmap nat channel) :
  m !! c = Some x -> alter f c m = <[c := f x]> m.
Proof.
  intros H. apply map_eq. intros i. destruct (decide (i = c)) as [->|].
  - by rewrite lookup_alter_eq, lookup_insert_eq, H.
  - by rewrite lookup_alter_ne, lookup_insert_ne.
Qed.

Lemma select_some b s sy m sy' :
  select b s sy = (Ret (Some m), sy') -> offered s sy m /\ sy' = taken b s sy.
Proof.
  unfold select, bind, expect. destruct (join_handle s) as [h|] eqn:Hh; [|done]. simpl.
  destruct b; simpl.
  - unfold recv. destruct (sy_channels sy !! _) as [[[|m' q] a r]|] eqn:Hc; simpl; [done| |done].
    intros [= -> <-]. split; [right; eauto|].
    by rewrite (alter_insert_eq _ _ _ _ Hc).
  - unfold gets. destruct (sy_tasks sy !! h) as [t|] eqn:Ht; simpl; [|done].
    destruct (task_finished t) eqn:Hf; [|done]. intros [= <- <-]. split; [|done].
    left. by exists h, t.
Qed.

Lemma select_offered s sy m :
  is_Some (join_handle s) -> offered s sy m -> exists b sy', select b s sy = (Ret (Some m), sy').
Proof.
  intros [h0 Hh0] [(h & t & Hh & Ht & Hf & ->)|(ch & Hc & Hm)].
  - exists BranchJoin, sy. unfold select, bind, expect, gets. rewrite Hh. simpl. by rewrite Ht, Hf.
  - exists BranchRecv. unfold select, bind, expect. rewrite Hh0. simpl. unfold recv.
    rewrite Hc. destruct ch as [[|m' q] a r]; simplify_eq/=. eauto.
Qed.

Lemma select_total b s sy :
  is_Some (join_handle s) -> exists o sy', select b s sy = (Ret o, sy').
Proof.
  intros [h Hh]. unfold select, bind, expect, recv, gets. rewrite Hh. simpl. destruct b; simpl.
  - destruct (sy_channels sy !! _) as [[[|] ? ?]|]; eauto.
  - destruct (sy_tasks sy !! h); eauto.
Qed.

Lemma taken_next b s sy : sy_next (taken b s sy) = sy_next sy.
Proof. by destruct b. Qed.

Lemma taken_tasks b s sy : sy_tasks (taken b s sy) = sy_tasks sy.
Proof. by destruct b. Qed.

(** ** The invariant *)

(** The component after it handled some reports, all of them with success. *)
Fixpoint survive mg (reports : list Report) : option Mg :=
  match reports with
  | [] => Some mg
  | m :: reports' =>
      match handle_irrecoverable mg m with
      | (Ok _, mg') => survive mg' reports'
      | (Err _, _) => None
      end
  end.

(** The log of a start and of restarts, each after a handled report. *)
Definition life (h0 : nat) (hs : list (Report * nat)) : list log_entry :=
  Started h0 :: flat_map (fun mh => [Handled mh.1 true; Started mh.2]) hs.

Definition current (h0 : nat) (hs : list (Report * nat)) : nat := default h0 (last hs.*2).

(** Every task but the current one is cancelled, and nobody listens to it. *)
Definition others_stopped (cur : option nat) sy : Prop :=
  forall h t, sy_tasks sy !! h = Some t ->
    h < sy_next sy /\ task_tx t < sy_next sy /\ task_rx t < sy_next sy /\
    exists ch, sy_channels sy !! task_tx t = Some ch /\
      if decide (cur = Some h) then ch_receiver ch = true /\ sy_cancel sy !! task_rx t = Some true
      else ch_receiver ch = false /\ sy_cancel sy !! task_rx t = Some false.

(** The supervisor holds the other ends of what its current task was given. *)
Definition watches s sy (h : nat) : Prop :=
  join_handle s = Some h /\
  exists t, sy_tasks sy !! h = Some t /\ task_tx t = irrecoverable_signal s /\
    cancellation_signal s = Some (task_rx t).

Definition supervised (component : Mg) (p : phase) sy : Prop :=
  match p with
  | Spawning s =>
      sy_tasks sy = ∅ /\ sy_log sy = [] /\ cancellation_signal s = None /\ manageable s = component /\
      irrecoverable_signal s < sy_next sy
  | Running s =>
      exists h0 hs, sy_log sy = life h0 hs /\ watches s sy (current h0 hs) /\
        others_stopped (Some (current h0 hs)) sy /\ survive component hs.*1 = Some (manageable s)
  | Restarting s =>
      exists h0 hs m, sy_log sy = life h0 hs ++ [Handled m true] /\
        watches s sy (current h0 hs) /\ others_stopped (Some (current h0 hs)) sy /\
        survive component (hs.*1 ++ [m]) = Some (manageable s)
  | Ended r =>
      exists h0 hs m mg e, r = Err e /\ sy_log sy = life h0 hs ++ [Handled m false] /\
        others_stopped None sy /\ survive component hs.*1 = Some mg /\
        (handle_irrecoverable mg m).1 = Err e
  end.

Lemma survive_app mg l m :
  survive mg (l ++ [m]) =
    match survive mg l with
    | Some mg' => match handle_irrecoverable mg' m with (Ok _, mg2) => Some mg2 | (Err _, _) => None end
    | None => None
    end.
Proof.
  revert mg. induction l as [|x l IH]; intros mg; simpl.
  - by destruct (handle_irrecoverable mg m) as [[]].
  - by destruct (handle_irrecoverable mg x) as [[] ?].
Qed.

Lemma life_snoc h0 hs m h : life h0 (hs ++ [(m, h)]) = life h0 hs ++ [Handled m true; Started h].
Proof. unfold life. rewrite flat_map_app. done. Qed.

Lemma current_snoc h0 hs m h : current h0 (hs ++ [(m, h)]) = h.
Proof. unfold current. rewrite fmap_app. simpl. by rewrite last_snoc. Qed.

(** A change of channels that keeps who listens. *)
Definition keeps_receivers sy sy' : Prop :=
  sy_next sy' = sy_next sy /\ sy_cancel sy' = sy_cancel sy /\ sy_log sy' = sy_log sy /\
  (forall c ch, sy_channels sy !! c = Some ch ->
     exists ch', sy_channels sy' !! c = Some ch' /\ ch_receiver ch' = ch_receiver ch) /\
  (forall h t', sy_tasks sy' !! h = Some t' ->
     exists t, sy_tasks sy !! h = Some t /\ task_tx t' = task_tx t /\ task_rx t' = task_rx t) /\
  (forall h t, sy_tasks sy !! h = Some t ->
     exists t', sy_tasks sy' !! h = Some t' /\ task_tx t' = task_tx t /\ task_rx t' = task_rx t).

Lemma keeps_channels sy x :
  (forall c ch, sy_channels sy !! c = Some ch ->
     exists ch', x !! c = Some ch' /\ ch_receiver ch' = ch_receiver ch) ->
  keeps_receivers sy (set_channels x sy).
Proof. intros H. unfold keeps_receivers. split_and!; eauto. Qed.

Lemma keeps_alter sy c f :
  (forall ch, ch_receiver (f ch) = ch_receiver ch) ->
  keeps_receivers sy (set_channels (alter f c (sy_channels sy)) sy).
Proof.
  intros Hf. apply keeps_channels. intros c' ch Hc. destruct (decide (c' = c)) as [->|].
  - rewrite lookup_alter_eq, Hc. simpl. eauto.
  - rewrite lookup_alter_ne by done. eauto.
Qed.

Lemma keeps_task_step h sy sy' : task_step h sy sy' -> keeps_receivers sy sy'.
Proof.
  destruct 1 as [sy t ch m Ht Hc Hs Hr _|sy t Ht|sy t Ht].
  - apply keeps_channels. intros c ch' Hc'. destruct (decide (c = task_tx t)) as [->|].
    + rewrite lookup_insert_eq. simplify_eq. eauto.
    + rewrite lookup_insert_ne by done. eauto.
  - by apply keeps_alter.
  - unfold keeps_receivers, set_tasks. simpl. split_and!; eauto.
    + intros h' t' H'. destruct (decide (h' = h)) as [->|].
      * rewrite lookup_insert_eq in H'. simplify_eq. eauto.
      * rewrite lookup_insert_ne in H' by done. eauto.
    + intros h' t' H'. destruct (decide (h' = h)) as [->|].
      * rewrite lookup_insert_eq. simplify_eq. eauto.
      * rewrite lookup_insert_ne by done. eauto.
Qed.

Lemma keeps_taken b s sy : keeps_receivers sy (taken b s sy).
Proof. destruct b; simpl; [by apply keeps_alter|]. unfold keeps_receivers. split_and!; eauto. Qed.

Lemma keeps_others cur sy sy' : keeps_receivers sy sy' -> others_stopped cur sy -> others_stopped cur sy'.
Proof.
  intros (Hn & Hc & _ & Hch & Ht & _) H h t' Hh.
  destruct (Ht h t' Hh) as (t & Hh' & -> & ->). rewrite Hn, Hc.
  destruct (H h t Hh') as (? & ? & ? & ch & Hx & Hr). split_and!; try done.
  destruct (Hch _ _ Hx) as (ch' & ? & E). exists ch'. by rewrite E.
Qed.

Lemma keeps_watches s sy sy' h : keeps_receivers sy sy' -> watches s sy h -> watches s sy' h.
Proof.
  intros (_ & _ & _ & _ & _ & Ht) [Hj (t & Hh & Htx & Hrx)].
  destruct (Ht h t Hh) as (t' & Hh' & Etx & Erx). split; [done|].
  exists t'. split_and!; congruence.
Qed.

Lemma keeps_supervised component p sy sy' :
  keeps_receivers sy sy' -> supervised component p sy -> supervised component p sy'.
Proof.
  intros Hk. pose proof Hk as (Hn & _ & Hl & _ & Ht & _).
  destruct p as [s|s|s|r]; simpl; rewrite ?Hl, ?Hn.
  - intros (He & ?). split; [|done]. apply map_eq. intros h. rewrite lookup_empty.
    destruct (sy_tasks sy' !! h) as [t'|] eqn:E; [|done].
    destruct (Ht h t' E) as (t & E' & _). by rewrite He in E'.
  - intros (h0 & hs & ? & ? & ? & ?). exists h0, hs.
    split_and!; eauto using keeps_others, keeps_watches.
  - intros (h0 & hs & m & ? & ? & ? & ?). exists h0, hs, m.
    split_and!; eauto using keeps_others, keeps_watches.
  - intros (h0 & hs & m & mg & e & ? & ? & ? & ? & ?). exists h0, hs, m, mg, e.
    split_and!; eauto using keeps_others.
Qed.

(** ** Preservation *)

(** Dropping the supervisor's ends stops the task it watches. *)
Lemma dropped_others s sy cur :
  others_stopped cur sy -> (forall h, cur = Some h -> watches s sy h) ->
  others_stopped None (dropped_sys s sy).
Proof.
  intros H Hw h t Hh. simpl in Hh. destruct (H h t Hh) as (Hlt & Htx & Hrx & ch & Hch & Hif).
  split_and!; try done. simpl.
  assert (Hcl : exists ch' : channel,
    alter close (irrecoverable_signal s) (sy_channels sy) !! task_tx t = Some ch' /\
    (ch' = ch \/ ch' = close ch) /\ (task_tx t = irrecoverable_signal s -> ch' = close ch)).
  { destruct (decide (task_tx t = irrecoverable_signal s)) as [E|].
    - rewrite <- E, lookup_alter_eq, Hch. simpl. eauto.
    - rewrite lookup_alter_ne by done. rewrite Hch. naive_solver. }
  destruct Hcl as (ch' & Hch' & Hor & Himp). exists ch'. split; [done|].
  destruct (decide (cur = Some h)) as [E|].
  - destruct (Hw h E) as (_ & t' & Ht' & Etx & Erx). simplify_eq.
    rewrite Himp by done. rewrite Erx. simpl. by rewrite lookup_insert_eq.
  - destruct Hif as [Hr Hc]. split; [destruct Hor as [->| ->]; done|].
    destruct (cancellation_signal s) as [c|]; simpl; [|done].
    destruct (decide (c = task_rx t)) as [->|]; [by rewrite lookup_insert_eq|].
    by rewrite lookup_insert_ne.
Qed.

Lemma drop_cancel_ne c i m : c <> Some i -> drop_cancel c m !! i = m !! i.
Proof. destruct c as [c|]; [|done]. intros H. simpl. rewrite lookup_insert_ne; congruence. Qed.

(** Starting the component again: the new task is current, the rest stopped. *)
Lemma restarted_others s sy cur :
  others_stopped cur sy -> (forall h, cur = Some h -> watches s sy h) ->
  irrecoverable_signal s < sy_next sy -> cancellation_signal s <> Some (S (sy_next sy)) ->
  others_stopped (Some (S (S (sy_next sy)))) (restarted_sys s sy).
Proof.
  intros H Hw Hirr Hcan h t Hh. simpl in Hh.
  destruct (decide (h = S (S (sy_next sy)))) as [->|Hne].
  - rewrite lookup_insert_eq in Hh. simplify_eq/=. split_and!; try lia.
    rewrite lookup_alter_ne, lookup_insert_eq by lia. eexists. split; [done|].
    rewrite decide_True by done. split; [done|].
    by rewrite drop_cancel_ne, lookup_insert_eq.
  - rewrite lookup_insert_ne in Hh by done.
    destruct (dropped_others s sy cur H Hw h t Hh) as (Hlt & Htx & Hrx & ch & Hch & Hr & Hc).
    simpl in *. split_and!; try lia. exists ch. rewrite decide_False by congruence.
    split; [|split; [done|]].
    + rewrite <- Hch. destruct (decide (task_tx t = irrecoverable_signal s)) as [E|].
      * by rewrite E, !lookup_alter_eq, lookup_insert_ne by lia.
      * by rewrite !lookup_alter_ne, lookup_insert_ne by (done || lia).
    + rewrite <- Hc. destruct (cancellation_signal s) as [c|]; simpl.
      * destruct (decide (c = task_rx t)) as [->|]; [by rewrite !lookup_insert_eq|].
        by rewrite !(lookup_insert_ne _ c), lookup_insert_ne by (done || lia).
      * by rewrite lookup_insert_ne by lia.
Qed.

Lemma restarted_watches s sy : watches (restarted s sy) (restarted_sys s sy) (S (S (sy_next sy))).
Proof.
  split; [done|]. eexists. split; [simpl; by rewrite lookup_insert_eq|done].
Qed.

Lemma watches_bounds s sy h :
  others_stopped (Some h) sy -> watches s sy h ->
  irrecoverable_signal s < sy_next sy /\ cancellation_signal s <> Some (S (sy_next sy)).
Proof.
  intros H (_ & t & Ht & Htx & Hrx). destruct (H h t Ht) as (_ & ? & ? & _).
  rewrite Hrx. split; [lia|]. intros [= E]. lia.
Qed.

Lemma supervised_turn component s m sy :
  supervised component (Running s) sy ->
  supervised component (handled_turn s m sy).1 (handled_turn s m sy).2.
Proof.
  intros (h0 & hs & Hl & Hw & Ho & Hs). unfold handled_turn.
  destruct (handle_irrecoverable (manageable s) m) as [[u|e] mg] eqn:Hm; simpl.
  - exists h0, hs, m. rewrite survive_app, Hs, Hm, Hl. split_and!; done.
  - exists h0, hs, m, (manageable s), e. rewrite Hm, Hl. split_and!; try done.
    eapply (dropped_others s); [done|]. by intros h [= <-].
Qed.

Lemma supervised_restart component s sy :
  supervised component (Restarting s) sy ->
  supervised component (Running (restarted s sy)) (restarted_sys s sy).
Proof.
  intros (h0 & hs & m & Hl & Hw & Ho & Hs).
  destruct (watches_bounds s sy _ Ho Hw) as [Hi Hc].
  exists h0, (hs ++ [(m, S (S (sy_next sy)))]). rewrite current_snoc, life_snoc. split_and!.
  - simpl. by rewrite Hl, <- app_assoc.
  - apply restarted_watches.
  - eapply restarted_others; [done| |done|done]. by intros h [= <-].
  - by rewrite fmap_app.
Qed.

Lemma supervised_spawn component s sy :
  supervised component (Spawning s) sy ->
  supervised component (Running (restarted s sy)) (restarted_sys s sy).
Proof.
  intros (He & Hl & Hc & Hm & Hi). exists (S (S (sy_next sy))), []. split_and!.
  - simpl. by rewrite Hl.
  - apply restarted_watches.
  - apply (restarted_others s sy None); [|done|done|by rewrite Hc].
    intros h t Ht. by rewrite He in Ht.
  - simpl. by rewrite Hm.
Qed.

Lemma supervised_step component p sy p' sy' :
  supervised component p sy -> step (p, sy) (p', sy') -> supervised component p' sy'.
Proof.
  intros H. inversion 1 as [? ? ? ? E|b s ? ? ? E|? ? ? ? E|h ? ? ? E]; subst.
  - rewrite spawn_eq in E. simplify_eq. by apply supervised_spawn.
  - rewrite run_turn_eq in E. destruct (select b s sy) as [[[m|]|] sy1] eqn:Hsel; simplify_eq.
    apply select_some in Hsel as [_ ->]. apply supervised_turn.
    eapply keeps_supervised; [apply keeps_taken|done].
  - rewrite restart_eq in E. simplify_eq. by apply supervised_restart.
  - eapply keeps_supervised; [by eapply keeps_task_step|done].
Qed.

Lemma supervised_initial component : supervised component (initial component).1 (initial component).2.
Proof. cbv -[gmap_empty]. by split_and!. Qed.

Lemma supervised_reachable component p sy :
  reachable component (p, sy) -> supervised component p sy.
Proof.
  unfold reachable. intros H. remember (p, sy) as c eqn:E.
  enough (supervised component c.1 c.2) by (by subst).
  clear p sy E. revert H. apply (rtc_ind_r (fun c => supervised component c.1 c.2)).
  - apply supervised_initial.
  - intros [p1 s1] [p2 s2] _ Hs IH. by eapply supervised_step.
Qed.

(** C15: supervision.  In every reachable state the log of the supervisor is a
    start followed by restarts, each of them after a failure that the component
    handled with success, and the component is in the state those handlings
    produced.  While the supervisor runs it watches exactly the task it started
    last, whose cancellation is not signalled; all earlier tasks are cancelled
    and cannot report any more.  Supervision ends only with an error, namely
    the one with which the component refused to handle a failure, and then all
    its tasks are cancelled. *)
Theorem supervisor_invariant component p sy :
  reachable component (p, sy) ->
  match p with
  | Spawning _ => sy_log sy = []
  | Running s =>
      exists h0 hs, sy_log sy = life h0 hs /\ watches s sy (current h0 hs) /\
        others_stopped (Some (current h0 hs)) sy /\ survive component hs.*1 = Some (manageable s)
  | Restarting s =>
      exists h0 hs m, sy_log sy = life h0 hs ++ [Handled m true] /\
        watches s sy (current h0 hs) /\ others_stopped (Some (current h0 hs)) sy /\
        survive component (hs.*1 ++ [m]) = Some (manageable s)
  | Ended r =>
      exists h0 hs m mg e, r = Err e /\ sy_log sy = life h0 hs ++ [Handled m false] /\
        others_stopped None sy /\ survive component hs.*1 = Some mg /\
        (handle_irrecoverable mg m).1 = Err e
  end.
Proof.
  intros H%supervised_reachable. destruct p; simpl in H; try done. by destruct H as (_ & ? & _).
Qed.

(** C16: no failure goes unnoticed.  In a reachable running state, [select!] can
    take the end of the watched task (with the generic report) or its oldest
    unread report and nothing else, and never panics.  What it takes is handled
    by the component.  When that succeeds the component is started again: a
    fresh task is watched, with an empty error channel, and the old task is
    cancelled and its unread reports are lost; otherwise the supervisor
    returns the error. *)
Theorem supervisor_restarts component s sy m :
  reachable component (Running s, sy) ->
  (forall b, exists o sy', select b s sy = (Ret o, sy') /\ (o = Some m -> offered s sy m)) /\
        (offered s sy m ->
   exists b sy1,
     select b s sy = (Ret (Some m), sy1) /\
        match handle_irrecoverable (manageable s) m with
     | (Ok _, mg) =>
         exists s1 sy2 s2 sy3 h t h' t' c,
           step (Running s, sy) (Restarting s1, sy2) /\ step (Restarting s1, sy2) (Running s2, sy3) /\
        manageable s2 = mg /\
        join_handle s = Some h /\ sy_tasks sy3 !! h = Some t /\
        sy_cancel sy3 !! task_rx t = Some false /\
        sy_channels sy3 !! irrecoverable_signal s = Some (mkChannel [] c false) /\
        watches s2 sy3 h' /\ sy_tasks sy3 !! h' = Some t' /\ sy_tasks sy !! h' = None /\
        task_finished t' = false /\
        sy_channels sy3 !! irrecoverable_signal s2 = Some (mkChannel [] true true)
     | (Err e, _) => exists sy2, step (Running s, sy) (Ended (Err e), sy2)
     end).
Proof.
  intros (h0 & hs & _ & Hw & Ho & _)%supervised_reachable.
  pose proof (watches_bounds s sy _ Ho Hw) as [Hi Hc].
  pose proof Hw as [Hj (t & Ht & Htx & Hrx)]. split.
  { intros b. destruct (select_total b s sy) as (o & sy' & E); [by rewrite Hj|].
    exists o, sy'. split; [done|]. intros ->. by apply select_some in E as []. }
  intros Hoff. destruct (select_offered s sy m) as (b & sy1 & Hsel); [by rewrite Hj|done|].
  exists b, sy1. split; [done|]. pose proof (run_turn_eq b s sy) as Hrun. rewrite Hsel in Hrun.
  unfold handled_turn in Hrun.
  destruct (handle_irrecoverable (manageable s) m) as [[u|e] mg] eqn:Hm; simpl in Hrun;
    [|eexists; by eapply step_turn].
  apply select_some in Hsel as [_ ->].
  destruct (Ho _ _ Ht) as (Hlt & _ & Hlt' & ch & Hch & _).
  eexists _, _, _, _, (current h0 hs), t, (S (S (sy_next sy))), _, (ch_sender ch).
  split; [by eapply step_turn|]. split; [eapply step_restart, restart_eq|].
  rewrite <- (taken_next b s sy). unfold restarted_sys, restarted. simpl.
  rewrite (taken_next b s sy), (taken_tasks b s sy).
  split_and!; try done.
  - by rewrite lookup_insert_ne by lia.
  - rewrite Hrx. simpl. by rewrite lookup_insert_eq.
  - rewrite lookup_alter_eq, lookup_insert_ne by lia. destruct b; simpl.
    + rewrite lookup_alter_eq, <- Htx, Hch. reflexivity.
    + rewrite <- Htx, Hch. reflexivity.
  - split; [done|]. eexists. simpl. by rewrite lookup_insert_eq.
  - by rewrite lookup_insert_eq.
  - apply eq_None_not_Some. intros [t2 [Hbad _]%Ho]. lia.
  - done.
  - simpl. by rewrite lookup_alter_ne, lookup_insert_eq by lia.
Qed.

End supervisor.
