(* ===== verification/Store.v ===== *)
(** * The store actor (typed-store/src/lib.rs)

    [Store::new] spawns a task that serves commands from a bounded channel, one
    at a time, over a map; readers of absent keys are parked as obligations
    until the key is written or deleted.  The actor is modelled over the [Map]
    interface: [keyed_db] is any instance that keeps [MapLaws].  A one-shot
    channel is a ticket; sending on it adds to the list of replies. *)
From S2P Require Import Prelude Bytes Platform MetricsData World Errors Traits.
Open Scope nat_scope.

Definition ticket : Type := nat.

(** [channel(100)]. *)
Definition CHANNEL_CAPACITY : nat := 100.

(** The senders waiting for each key, oldest first. *)
Abbreviation obligations K := (gmap K (list ticket)).

Section store.
Context {PF : Platform} {T K V : Type} `{!Map T K V, !EqDecision K, !Countable K}.

Abbreviation StoreResult A := (result A (Error (T:=T) (K:=K) (V:=V))).

Inductive StoreCommand : Type :=
| Write (key : K) (value : V) (sender : option ticket)
| WriteAll (key_values : list (K * V)) (sender : ticket)
| Delete (key : K)
| DeleteAll (keys : list K) (sender : ticket)
| Read (key : K) (sender : ticket)
| ReadRawBytes (key : K) (sender : ticket)
| ReadAll (keys : list K) (sender : ticket)
| NotifyRead (key : K) (sender : ticket)
| Iter (predicate : option (K * V -> bool)) (sender : ticket).

(** What goes through a one-shot channel. *)
Inductive reply : Type :=
| UnitReply (r : StoreResult unit)
| ReadReply (r : StoreResult (option V))
| RawReply (r : StoreResult (option bytes))
| ReadAllReply (r : StoreResult (list (option V)))
| IterReply (r : gmap K V).

Definition sent : Type := list (ticket * reply).

(** [if let Some(mut senders) = obligations.remove(&key) { while let Some(s) =
    senders.pop_front() { let _ = s.send(msg); } }] *)
Definition release (key : K) (msg : reply) (obl : obligations K) : obligations K * sent :=
  match obl !! key with
  | Some senders => (delete key obl, map (fun s => (s, msg)) senders)
  | None => (obl, [])
  end.

Fixpoint release_all (keys : list K) (msg : reply) (obl : obligations K) : obligations K * sent :=
  match keys with
  | [] => (obl, [])
  | key :: keys' =>
      let (obl1, out1) := release key msg obl in
      let (obl2, out2) := release_all keys' msg obl1 in
      (obl2, out1 ++ out2)
  end.

(** [obligations.entry(key).or_insert_with(VecDeque::new).push_back(sender)] *)
Definition park (key : K) (sender : ticket) (obl : obligations K) : obligations K :=
  <[key := default [] (obl !! key) ++ [sender]]> obl.

(** [keyed_db.iter().filter(func).collect::<HashMap<_, _>>()] *)
Definition collect_iter (fuel : nat) (keyed_db : T) (predicate : option (K * V -> bool)) :
    M (gmap K V) :=
  it <- iter keyed_db ;;
  items <- drain Iterator_next fuel it ;;
  items <- expect "out of fuel" items ;;
  let kept :=
    match predicate with
    | Some func => filter (fun kv => func kv = true) items
    | None => items
    end in
  ret (foldl (fun m kv => <[kv.1 := kv.2]> m) ∅ kept).

(** One turn of the task's loop: [match command { .. }].  [fuel] bounds the
    iteration over the table. *)
Definition handle (fuel : nat) (keyed_db : T) (obl : obligations K) (command : StoreCommand) :
    M (obligations K * sent) :=
  match command with
  | Write key value sender =>
      response <- insert keyed_db key value ;;
      let (obl, out) :=
        if is_ok response then release key (ReadReply (Ok (Some value))) obl else (obl, []) in
      ret (obl, out ++ match sender with Some replier => [(replier, UnitReply response)] | None => [] end)
  | WriteAll key_values sender =>
      response <- multi_insert keyed_db key_values ;;
      let (obl, out) :=
        if is_ok response then release_all key_values.*1 (ReadReply (Ok None)) obl else (obl, []) in
      ret (obl, out ++ [(sender, UnitReply response)])
  | Delete key =>
      _ <- remove keyed_db key ;;
      ret (release key (ReadReply (Ok None)) obl)
  | DeleteAll keys sender =>
      response <- multi_remove keyed_db keys ;;
      let (obl, out) :=
        if is_ok response then release_all keys (ReadReply (Ok None)) obl else (obl, []) in
      ret (obl, out ++ [(sender, UnitReply response)])
  | Read key sender =>
      response <- get keyed_db key ;;
      ret (obl, [(sender, ReadReply response)])
  | ReadAll keys sender =>
      response <- multi_get keyed_db keys ;;
      ret (obl, [(sender, ReadAllReply response)])
  | NotifyRead key sender =>
      response <- get keyed_db key ;;
      match response with
      | Ok (Some _) => ret (obl, [(sender, ReadReply response)])
      | _ => ret (park key sender obl, [])
      end
  | Iter predicate sender =>
      response <- collect_iter fuel keyed_db predicate ;;
      ret (obl, [(sender, IterReply response)])
  | ReadRawBytes key sender =>
      response <- get_raw_bytes keyed_db key ;;
      ret (obl, [(sender, RawReply response)])
  end.

(** ** The store as a system: clients, channel, task

    The store's own handle of the database ([rocksdb]) is that of the map it was
    made from; clients do not use it here. *)

Record store_system : Type := mkStoreSystem {
  st_world : World;
  st_obl : obligations K;
  st_queue : list StoreCommand;
  st_replies : sent;
  st_next : ticket;
  st_alive : bool;
}.

(** [Store::new]. *)
Definition Store_new (w : World) : store_system := mkStoreSystem w ∅ [] [] 0 true.

(** The task takes the oldest command.  A panic in the handler ends the task:
    the queue and the parked senders are dropped. *)
Definition serve (fuel : nat) (keyed_db : T) (s : store_system) : store_system :=
  match st_alive s, st_queue s with
  | true, c :: q =>
      match handle fuel keyed_db (st_obl s) c (st_world s) with
      | (Ret (obl, out), w) =>
          mkStoreSystem w obl q (st_replies s ++ out) (st_next s) true
      | (Panicked _, w) => mkStoreSystem w ∅ [] (st_replies s) (st_next s) false
      end
  | _, _ => s
  end.

(** *** Clients *)

(** [oneshot::channel()]. *)
Definition oneshot_channel : comp store_system ticket :=
  fun s => (Ret (st_next s),
            mkStoreSystem (st_world s) (st_obl s) (st_queue s) (st_replies s) (S (st_next s))
              (st_alive s)).

(** [self.channel.send(command).await], once there is room: an error, because
    the task is gone, becomes a panic. *)
Definition send (what : string) (c : StoreCommand) : comp store_system unit :=
  fun s =>
    if st_alive s then
      (Ret tt, mkStoreSystem (st_world s) (st_obl s) (st_queue s ++ [c]) (st_replies s)
                 (st_next s) (st_alive s))
    else (Panicked ("Failed to send " +:+ what +:+ " command to store: channel closed"), s).

(** [receiver.await.expect(..)]: the reply if it has arrived, a panic if the
    sender was dropped without one, [None] while still waiting. *)
Definition receive (what : string) (t : ticket) (s : store_system) : option (outcome reply) :=
  match list_find (fun tr => tr.1 = t) (st_replies s) with
  | Some (_, (_, r)) => Some (Ret r)
  | None =>
      if st_alive s then None
      else Some (Panicked ("Failed to receive reply to " +:+ what +:+ " command from store"))
  end.

(** The first half of a client call, up to its wait; the second is [receive]. *)
Definition async_write (key : K) (value : V) : comp store_system unit :=
  send "Write" (Write key value None).

Definition sync_write (key : K) (value : V) : comp store_system ticket :=
  t <- oneshot_channel ;; send "Write" (Write key value (Some t)) ;; ret t.

Definition sync_write_all (key_value_pairs : list (K * V)) : comp store_system ticket :=
  t <- oneshot_channel ;; send "WriteAll" (WriteAll key_value_pairs t) ;; ret t.

Definition store_remove (key : K) : comp store_system unit := send "Delete" (Delete key).

Definition remove_all_keys (keys : list K) : comp store_system ticket :=
  t <- oneshot_channel ;; send "DeleteAll" (DeleteAll keys t) ;; ret t.

Definition read_raw_bytes (key : K) : comp store_system ticket :=
  t <- oneshot_channel ;; send "ReadRawBytes" (ReadRawBytes key t) ;; ret t.

Definition read (key : K) : comp store_system ticket :=
  t <- oneshot_channel ;; send "Read" (Read key t) ;; ret t.

Definition read_all (keys : list K) : comp store_system ticket :=
  t <- oneshot_channel ;; send "ReadAll" (ReadAll keys t) ;; ret t.

Definition notify_read (key : K) : comp store_system ticket :=
  t <- oneshot_channel ;; send "NotifyRead" (NotifyRead key t) ;; ret t.

Definition store_iter (predicate : option (K * V -> bool)) : comp store_system ticket :=
  t <- oneshot_channel ;; send "Iter" (Iter predicate t) ;; ret t.

(** The calls a client can make. *)
Inductive client_call : comp store_system ticket -> Prop :=
| call_sync_write k v : client_call (sync_write k v)
| call_sync_write_all kvs : client_call (sync_write_all kvs)
| call_remove_all ks : client_call (remove_all_keys ks)
| call_read_raw k : client_call (read_raw_bytes k)
| call_read k : client_call (read k)
| call_read_all ks : client_call (read_all ks)
| call_notify_read k : client_call (notify_read k)
| call_iter p : client_call (store_iter p).

(** A call with or without a reply gets room in the channel. *)
Inductive client_step (s s' : store_system) : Prop :=
| step_call f t :
    client_call f -> length (st_queue s) < CHANNEL_CAPACITY -> f s = (Ret t, s') ->
    client_step s s'
| step_async_write k v :
    length (st_queue s) < CHANNEL_CAPACITY -> async_write k v s = (Ret tt, s') -> client_step s s'
| step_remove k :
    length (st_queue s) < CHANNEL_CAPACITY -> store_remove k s = (Ret tt, s') -> client_step s s'.

(** Steps of the system: a client calls or the task serves a command.  Any
    interleaving. *)
Inductive store_step (fuel : nat) (keyed_db : T) (s : store_system) : store_system -> Prop :=
| step_client s' : client_step s s' -> store_step fuel keyed_db s s'
| step_serve : store_step fuel keyed_db s (serve fuel keyed_db s).

Inductive store_reachable (fuel : nat) (keyed_db : T) (w : World) : store_system -> Prop :=
| reach_new : store_reachable fuel keyed_db w (Store_new w)
| reach_step s s' :
    store_reachable fuel keyed_db w s -> store_step fuel keyed_db s s' ->
    store_reachable fuel keyed_db w s'.

End store.
