(* ===== verification/StoreTheorems.v ===== *)
(** * The contract of the store actor

    Every request is answered at most once and none is lost; the actor
    implements an atomic map, against any map that keeps [MapLaws]; and what
    the readers waiting for a key are told. *)
From stdpp Require Import list_tactics.
From S2P Require Import Prelude Bytes Platform MetricsData World Errors Traits Store.
Open Scope nat_scope.

Section tickets.
Context {PF : Platform} {T K V : Type} `{!Map T K V, !EqDecision K, !Countable K}.
Implicit Types (obl : obligations K) (c : StoreCommand (K:=K) (V:=V)) (s : store_system (T:=T) (K:=K) (V:=V)).

(** The senders a command carries. *)
Definition cmd_tickets c : list ticket :=
  match c with
  | Write _ _ sender => option_list sender
  | Delete _ => []
  | WriteAll _ t | DeleteAll _ t | Read _ t | ReadRawBytes _ t | ReadAll _ t
  | NotifyRead _ t | Iter _ t => [t]
  end.

(** The senders parked for a key. *)
Definition parked obl : list ticket := concat (map_to_list obl).*2.

Lemma parked_delete obl key senders :
  obl !! key = Some senders -> parked obl ≡ₚ senders ++ parked (delete key obl).
Proof.
  intros Hk. unfold parked.
  rewrite <- (insert_delete_id obl key senders Hk) at 1.
  rewrite map_to_list_insert by (by rewrite lookup_delete_eq). done.
Qed.

Lemma parked_park obl key t : parked (park key t obl) ≡ₚ t :: parked obl.
Proof.
  unfold park. rewrite (parked_delete (<[key := _]> obl) key (default [] (obl !! key) ++ [t]))
    by apply lookup_insert_eq.
  rewrite delete_insert_eq. destruct (obl !! key) as [senders|] eqn:Hk; simpl.
  - rewrite (parked_delete obl key senders Hk). solve_Permutation.
  - by rewrite delete_id.
Qed.

Lemma release_tickets key (msg : reply (T:=T) (K:=K) (V:=V)) obl :
  parked obl ≡ₚ parked (release key msg obl).1 ++ (release key msg obl).2.*1.
Proof.
  unfold release. destruct (obl !! key) as [senders|] eqn:Hk; simpl.
  - rewrite (parked_delete _ _ _ Hk), Permutation_app_comm. f_equiv.
    rewrite <- list_fmap_compose. by rewrite list_fmap_id.
  - by rewrite app_nil_r.
Qed.

Lemma release_all_tickets keys (msg : reply (T:=T) (K:=K) (V:=V)) obl :
  parked obl ≡ₚ parked (release_all keys msg obl).1 ++ (release_all keys msg obl).2.*1.
Proof.
  revert obl. induction keys as [|key keys IH]; intros obl; simpl.
  - by rewrite app_nil_r.
  - pose proof (release_tickets key msg obl) as H1.
    destruct (release key msg obl) as [obl1 out1]; simpl in H1. specialize (IH obl1).
    destruct (release_all keys msg obl1) as [obl2 out2]; simpl in *.
    rewrite H1, IH, fmap_app. solve_Permutation.
Qed.

(** Releasing after a successful operation only. *)
Lemma release_if_tickets (b : bool) (rel : obligations K * sent (T:=T) (K:=K) (V:=V)) obl obl' out :
  (parked obl ≡ₚ parked rel.1 ++ rel.2.*1) ->
  (if b then rel else (obl, [])) = (obl', out) -> parked obl ≡ₚ parked obl' ++ out.*1.
Proof.
  intros Hrel. destruct b; [by intros ->|]. intros [= <- <-]. simpl. by rewrite app_nil_r.
Qed.

(** One turn of the task answers or parks what it has taken, and keeps the
    rest. *)
Lemma handle_tickets fuel (db : T) obl c w obl' out w' :
  handle fuel db obl c w = (Ret (obl', out), w') ->
  cmd_tickets c ++ parked obl ≡ₚ parked obl' ++ out.*1.
Proof.
  destruct c; cbn [handle cmd_tickets]; unfold bind;
    lazymatch goal with
    | |- context [match ?m w with _ => _ end] => destruct (m w) as [[response|] w1]; [|done]
    end.
  - destruct (if is_ok response then _ else _) as [obl1 out1] eqn:Hrel. intros [= <- <- _].
    apply release_if_tickets in Hrel; [|apply release_tickets].
    rewrite Hrel, fmap_app. destruct sender; simpl; solve_Permutation.
  - destruct (if is_ok response then _ else _) as [obl1 out1] eqn:Hrel. intros [= <- <- _].
    apply release_if_tickets in Hrel; [|apply release_all_tickets].
    rewrite Hrel, fmap_app. simpl. solve_Permutation.
  - intros [= Hr _]. pose proof (release_tickets key (ReadReply (Ok None)) obl) as Hp.
    by rewrite Hr in Hp.
  - destruct (if is_ok response then _ else _) as [obl1 out1] eqn:Hrel. intros [= <- <- _].
    apply release_if_tickets in Hrel; [|apply release_all_tickets].
    rewrite Hrel, fmap_app. simpl. solve_Permutation.
  - intros [= <- <- _]. simpl. solve_Permutation.
  - intros [= <- <- _]. simpl. solve_Permutation.
  - intros [= <- <- _]. simpl. solve_Permutation.
  - destruct response as [[v|]|e]; intros [= <- <- _]; simpl;
      rewrite ?app_nil_r, ?parked_park; solve_Permutation.
  - intros [= <- <- _]. simpl. solve_Permutation.
Qed.

(** [t] is parked on [key]. *)
Definition waits obl (key : K) (t : ticket) : Prop :=
  exists senders, obl !! key = Some senders /\ t ∈ senders.

Lemma waits_park obl key t key' t' :
  waits (park key' t' obl) key t <-> waits obl key t \/ key = key' /\ t = t'.
Proof.
  unfold waits, park. destruct (decide (key = key')) as [<-|Hne].
  - rewrite lookup_insert_eq. split.
    + intros (senders & [= <-] & [Hin| ->%list_elem_of_singleton]%elem_of_app); [|by right].
      left. destruct (obl !! key) as [senders|]; [by exists senders|by apply not_elem_of_nil in Hin].
    + intros H. eexists. split; [done|].
      destruct H as [(senders & -> & Hin)|[_ ->]]; rewrite elem_of_app; [by left|right; left].
  - rewrite lookup_insert_ne by done. naive_solver.
Qed.

(** Who waits is told or goes on waiting. *)
Lemma waits_release obl key t key' (msg : reply (T:=T) (K:=K) (V:=V)) :
  waits obl key t ->
  t ∈ (release key' msg obl).2.*1 \/ key <> key' /\ waits (release key' msg obl).1 key t.
Proof.
  intros (senders & Hk & Hin). unfold release. destruct (decide (key = key')) as [<-|Hne].
  - rewrite Hk. left. simpl. by rewrite <- list_fmap_compose, list_fmap_id.
  - right. split; [done|]. destruct (obl !! key'); [|by exists senders].
    exists senders. simpl. by rewrite lookup_delete_ne.
Qed.

Lemma waits_release_all keys (msg : reply (T:=T) (K:=K) (V:=V)) key t : forall obl,
  waits obl key t ->
  t ∈ (release_all keys msg obl).2.*1 \/ waits (release_all keys msg obl).1 key t.
Proof.
  induction keys as [|key' keys IH]; intros obl Hw; [by right|]. simpl.
  pose proof (waits_release obl key t key' msg Hw) as H.
  destruct (release key' msg obl) as [obl1 out1]; simpl in H. specialize (IH obl1).
  destruct (release_all keys msg obl1) as [obl2 out2]; simpl in *.
  rewrite fmap_app, elem_of_app. naive_solver.
Qed.

Lemma waits_release_if (b : bool) (rel : obligations K * sent (T:=T) (K:=K) (V:=V)) obl obl' out key t :
  (waits obl key t -> t ∈ rel.2.*1 \/ waits rel.1 key t) ->
  (if b then rel else (obl, [])) = (obl', out) ->
  waits obl key t -> t ∈ out.*1 \/ waits obl' key t.
Proof. intros Hrel. destruct b; [by intros ->|]. intros [= <- <-]. by right. Qed.

(** A turn leaves nobody out: who waits on a key goes on or is told, and a
    [NotifyRead] is told or waits. *)
Lemma handle_waits fuel (db : T) obl c w obl' out w' key t :
  handle fuel db obl c w = (Ret (obl', out), w') ->
  waits obl key t \/ c = NotifyRead key t -> t ∈ out.*1 \/ waits obl' key t.
Proof.
  destruct c as [k v sender|kvs t'|k|ks t'|k t'|k t'|ks t'|k t'|p t']; cbn [handle]; unfold bind;
    lazymatch goal with
    | |- context [match ?m w with _ => _ end] => destruct (m w) as [[response|] w1]; [|done]
    end.
  1,2,4: destruct (if is_ok response then _ else _) as [obl1 out1] eqn:Hrel; intros [= <- <- _] [Hw|Hc];
    [|done]; rewrite fmap_app, elem_of_app.
  - eapply waits_release_if in Hrel; [naive_solver| |done].
    intros H. apply (waits_release _ _ _ k (ReadReply (Ok (Some v)))) in H. naive_solver.
  - eapply waits_release_if in Hrel; [naive_solver| |done]. apply waits_release_all.
  - eapply waits_release_if in Hrel; [naive_solver| |done]. apply waits_release_all.
  - intros [= Hr _] [Hw|Hc]; [|done].
    apply (waits_release _ _ _ k (ReadReply (Ok None))) in Hw. rewrite Hr in Hw. naive_solver.
  - intros [= <- <- _] [Hw|Hc]; [by right|done].
  - intros [= <- <- _] [Hw|Hc]; [by right|done].
  - intros [= <- <- _] [Hw|Hc]; [by right|done].
  - intros Hr Hw. destruct response as [[v|]|e]; injection Hr as <- <- _.
    + destruct Hw as [Hw|[= -> ->]]; [by right|left; left].
    + right. apply waits_park. naive_solver.
    + right. apply waits_park. naive_solver.
  - intros [= <- <- _] [Hw|Hc]; [by right|done].
Qed.

(** What a command makes the task tell a reader parked on [key]. *)
Definition told c (key : K) (r : reply (T:=T) (K:=K) (V:=V)) : Prop :=
  match c with
  | Write k v _ => k = key /\ r = ReadReply (Ok (Some v))
  | WriteAll kvs _ => key ∈ kvs.*1 /\ r = ReadReply (Ok None)
  | Delete k => k = key /\ r = ReadReply (Ok None)
  | DeleteAll ks _ => key ∈ ks /\ r = ReadReply (Ok None)
  | _ => False
  end.

(** [after]: what was parked or told was parked before. *)
Lemma release_from key (msg : reply (T:=T) (K:=K) (V:=V)) obl :
  (forall t r, (t, r) ∈ (release key msg obl).2 -> waits obl key t /\ r = msg) /\
  (forall key' t, waits (release key msg obl).1 key' t -> waits obl key' t).
Proof.
  unfold release, waits. destruct (obl !! key) as [senders|] eqn:Hk; simpl; split.
  - intros t r Hin. apply list_elem_of_fmap in Hin as (t' & [= -> ->] & Hin). split; [by exists senders|done].
  - intros key' t (senders' & Hl & Hin). apply lookup_delete_Some in Hl as [_ Hl]. by exists senders'.
  - by intros t r ?%not_elem_of_nil.
  - done.
Qed.

Lemma release_all_from keys (msg : reply (T:=T) (K:=K) (V:=V)) : forall obl,
  (forall t r, (t, r) ∈ (release_all keys msg obl).2 ->
     (exists key, key ∈ keys /\ waits obl key t) /\ r = msg) /\
  (forall key' t, waits (release_all keys msg obl).1 key' t -> waits obl key' t).
Proof.
  induction keys as [|key keys IH]; intros obl; simpl.
  { split; [by intros t r ?%not_elem_of_nil|done]. }
  destruct (release_from key msg obl) as [H1 H2].
  destruct (release key msg obl) as [obl1 out1]; simpl in *. destruct (IH obl1) as [H3 H4].
  destruct (release_all keys msg obl1) as [obl2 out2]; simpl in *. split.
  - intros t r [Hin|Hin]%elem_of_app.
    + destruct (H1 t r Hin) as [Hw ->]. split; [|done]. exists key. split; [by left|done].
    + destruct (H3 t r Hin) as [(key' & Hk & Hw) ->]. split; [|done].
      exists key'. split; [by right|by apply H2].
  - intros key' t Hw. by apply H2, H4.
Qed.

(** Who waits after a turn waited before or is a [NotifyRead] of this turn; who
    is told something sent the command, or waited and is told what it makes
    known. *)
Lemma handle_from fuel (db : T) obl c w obl' out w' :
  handle fuel db obl c w = (Ret (obl', out), w') ->
  (forall t r, (t, r) ∈ out -> t ∈ cmd_tickets c \/ exists key, waits obl key t /\ told c key r) /\
  (forall key t, waits obl' key t -> waits obl key t \/ c = NotifyRead key t).
Proof.
  destruct c as [k v sender|kvs t'|k|ks t'|k t'|k t'|ks t'|k t'|p t']; cbn [handle]; unfold bind;
    lazymatch goal with
    | |- context [match ?m w with _ => _ end] => destruct (m w) as [[response|] w1]; [|done]
    end.
  - pose proof (release_from k (ReadReply (Ok (Some v))) obl) as [H1 H2].
    destruct (is_ok response); [destruct (release k _ obl) as [obl1 out1]|]; intros [= <- <- _];
      (split; [|naive_solver]); intros t r; destruct sender; set_solver.
  - pose proof (release_all_from kvs.*1 (ReadReply (Ok None)) obl) as [H1 H2].
    destruct (is_ok response); [destruct (release_all _ _ obl) as [obl1 out1]|]; intros [= <- <- _];
      (split; [|naive_solver]); set_solver.
  - pose proof (release_from k (ReadReply (Ok None)) obl) as [H1 H2].
    intros [= Hr _]. rewrite Hr in H1, H2. split; [|naive_solver]. set_solver.
  - pose proof (release_all_from ks (ReadReply (Ok None)) obl) as [H1 H2].
    destruct (is_ok response); [destruct (release_all _ _ obl) as [obl1 out1]|]; intros [= <- <- _];
      (split; [|naive_solver]); set_solver.
  - intros [= <- <- _]. split; [set_solver|naive_solver].
  - intros [= <- <- _]. split; [set_solver|naive_solver].
  - intros [= <- <- _]. split; [set_solver|naive_solver].
  - destruct response as [[v|]|e]; intros [= <- <- _]; (split; [set_solver|]);
      [naive_solver|intros key t Hw%waits_park; naive_solver..].
  - intros [= <- <- _]. split; [set_solver|naive_solver].
Qed.

(** With more fuel a loop that ended does the same. *)
Lemma drain_more {A J} (next : J -> M (option A * J)) fuel fuel' it w l w' :
  fuel <= fuel' -> drain next fuel it w = (Ret (Some l), w') ->
  drain next fuel' it w = (Ret (Some l), w').
Proof.
  revert fuel' it w l w'.
  induction fuel as [|fuel IH]; intros fuel' it w l w' Hle; [by intros [=]|].
  destruct fuel' as [|fuel']; [lia|]. cbn [drain].
  unfold bind. destruct (next it w) as [[[[a|] it']|msg] w1]; [|done|done].
  destruct (drain next fuel it' w1) as [[[rest|]|msg] w2] eqn:Hd; [|done|done].
  by rewrite (IH fuel' it' w1 rest w2) by (lia || done).
Qed.

Lemma handle_more fuel fuel' (self : T) obl c w r w' :
  fuel <= fuel' -> handle fuel self obl c w = (Ret r, w') ->
  handle fuel' self obl c w = (Ret r, w').
Proof.
  intros Hle. destruct c; cbn [handle]; try done.
  unfold collect_iter, bind. destruct (iter self w) as [[it|msg] w1]; [|done].
  destruct (drain _ fuel it w1) as [[[items|]|msg] w2] eqn:Hd; [|done|done].
  by rewrite (drain_more _ _ _ _ _ _ _ Hle Hd).
Qed.

(** A write that succeeds tells all who wait on its key. *)
Lemma handle_write_tells fuel (db : T) obl k v sender w obl' out w' t :
  handle fuel db obl (Write k v sender) w = (Ret (obl', out), w') ->
  (insert db k v w).1 = Ret (Ok tt) -> waits obl k t -> t ∈ out.*1.
Proof.
  cbn [handle]. unfold bind. destruct (insert db k v w) as [o w1]; simpl. intros Hr -> Hw.
  cbn [is_ok] in Hr. apply (waits_release _ _ _ k (ReadReply (Ok (Some v)))) in Hw.
  destruct (release k _ obl) as [obl1 out1]; simpl in *. injection Hr as <- <- _.
  rewrite fmap_app, elem_of_app. left. by destruct Hw as [?|[? _]].
Qed.

(** All senders in flight: queued, parked, answered. *)
Definition in_flight s : list ticket :=
  concat (map cmd_tickets (st_queue s)) ++ parked (st_obl s) ++ (st_replies s).*1.

Definition tickets_ok s : Prop :=
  if st_alive s then in_flight s ≡ₚ seq 0 (st_next s)
  else NoDup (st_replies s).*1.

Lemma tickets_ok_nodup s : tickets_ok s -> NoDup (st_replies s).*1.
Proof.
  unfold tickets_ok, in_flight. destruct (st_alive s); [|done]. intros Hp.
  pose proof (NoDup_seq 0 (st_next s)) as Hnd. rewrite <- Hp in Hnd.
  by apply NoDup_app in Hnd as (_ & _ & (_ & _ & Hnd)%NoDup_app).
Qed.

Lemma serve_tickets fuel (db : T) s : tickets_ok s -> tickets_ok (serve fuel db s).
Proof.
  intros Hok. pose proof (tickets_ok_nodup s Hok) as Hnd. unfold serve.
  destruct (st_alive s) eqn:Ha; [|done]. destruct (st_queue s) as [|c q] eqn:Hq; [done|].
  unfold tickets_ok, in_flight in Hok. rewrite Ha, Hq in Hok.
  destruct (handle fuel db (st_obl s) c (st_world s)) as [[[obl out]|msg] w] eqn:Hh; [|done].
  apply handle_tickets in Hh. unfold tickets_ok, in_flight; simpl in *. rewrite <- Hok.
  rewrite fmap_app, (Permutation_app_comm (st_replies s).*1 out.*1).
  rewrite (app_assoc (parked obl)), <- Hh. solve_Permutation.
Qed.

(** A call that gets room in the channel queues one command with a new sender. *)
Lemma call_queues f s t s' :
  client_call f -> f s = (Ret t, s') ->
  exists c, cmd_tickets c = [st_next s] /\ st_alive s = true /\
    s' = mkStoreSystem (st_world s) (st_obl s) (st_queue s ++ [c]) (st_replies s)
           (S (st_next s)) true.
Proof.
  intros Hf. destruct Hf; cbv [sync_write sync_write_all remove_all_keys read_raw_bytes read read_all
    notify_read store_iter bind oneshot_channel send ret]; simpl;
    destruct (st_alive s); intros [= _ <-];
    (eexists; split; [|split; [done|reflexivity]]; reflexivity).
Qed.

(** A call adds a command to the channel of a running store, nothing else that
    the task sees. *)
Lemma client_effect s s' :
  client_step s s' ->
  st_world s' = st_world s /\ st_replies s' = st_replies s /\
  st_alive s = true /\ st_alive s' = true /\ exists extra, st_queue s' = st_queue s ++ extra.
Proof.
  intros [f t Hf _ Hcall|k v _ Hcall|k _ Hcall].
  - destruct (call_queues f s t s' Hf Hcall) as (c & _ & Ha & ->). split_and!; [done..|by eexists].
  - unfold async_write, send in Hcall. destruct (st_alive s) eqn:Ha; [|done].
    injection Hcall as <-. simpl. split_and!; [done..|by eexists].
  - unfold store_remove, send in Hcall. destruct (st_alive s) eqn:Ha; [|done].
    injection Hcall as <-. simpl. split_and!; [done..|by eexists].
Qed.

Lemma client_obligations s s' : client_step s s' -> st_obl s' = st_obl s.
Proof.
  intros [f t Hf _ Hcall|k v _ Hcall|k _ Hcall].
  - by destruct (call_queues f s t s' Hf Hcall) as (c & _ & _ & ->).
  - unfold async_write, send in Hcall. destruct (st_alive s); [|done]. by injection Hcall as <-.
  - unfold store_remove, send in Hcall. destruct (st_alive s); [|done]. by injection Hcall as <-.
Qed.

Lemma enqueue_tickets s c n :
  tickets_ok s -> st_alive s = true -> cmd_tickets c = seq (st_next s) n ->
  tickets_ok (mkStoreSystem (st_world s) (st_obl s) (st_queue s ++ [c]) (st_replies s)
                (st_next s + n) true).
Proof.
  unfold tickets_ok, in_flight. intros Hok Ha Hc. rewrite Ha in Hok. simpl.
  rewrite map_app, concat_app. simpl. rewrite app_nil_r, Hc, seq_app, <- Hok. simpl.
  solve_Permutation.
Qed.

Lemma step_tickets fuel (db : T) s s' : store_step fuel db s s' -> tickets_ok s -> tickets_ok s'.
Proof.
  intros [s1 Hclient|] IH; [|by apply serve_tickets].
  destruct Hclient as [f t Hf _ Hcall|k v _ Hcall|k _ Hcall].
  - destruct (call_queues f s t s1 Hf Hcall) as (c & Hc & Ha & ->).
    rewrite <- Nat.add_1_r. by apply enqueue_tickets.
  - unfold async_write, send in Hcall. destruct (st_alive s) eqn:Ha; [|done].
    injection Hcall as <-. rewrite <- (Nat.add_0_r (st_next s)). by apply enqueue_tickets.
  - unfold store_remove, send in Hcall. destruct (st_alive s) eqn:Ha; [|done].
    injection Hcall as <-. rewrite <- (Nat.add_0_r (st_next s)). by apply enqueue_tickets.
Qed.

Lemma new_tickets w : tickets_ok (Store_new w).
Proof. unfold tickets_ok, in_flight, parked; simpl. by rewrite map_to_list_empty. Qed.

Lemma reachable_tickets fuel (db : T) w s : store_reachable fuel db w s -> tickets_ok s.
Proof. induction 1; [apply new_tickets|by eapply step_tickets]. Qed.

(** C5: no reply is sent twice and no request is lost.  In every reachable state
    of clients, channel and task, each one-shot sender has been used at most
    once, and while the task runs every request made so far is in exactly one
    place: still queued, parked on its key, or answered. *)
Theorem store_replies_once fuel (db : T) w s :
  store_reachable fuel db w s ->
  NoDup (st_replies s).*1 /\
  (st_alive s = true ->
   concat (map cmd_tickets (st_queue s)) ++ parked (st_obl s) ++ (st_replies s).*1
     ≡ₚ seq 0 (st_next s)).
Proof.
  intros Hs%reachable_tickets. split; [by apply tickets_ok_nodup|].
  unfold tickets_ok in Hs. intros Ha. by rewrite Ha in Hs.
Qed.

End tickets.

(** ** The store as an atomic map *)

Section refinement.
Context {PF : Platform} {T K V : Type} `{!Map T K V, !EqDecision K, !Countable K, !MapLaws T K V}.
Implicit Types (obl : obligations K) (c : StoreCommand (K:=K) (V:=V)) (m : K -> option V) (w : World).

(** The abstract specification: a partial function, updated and read by one
    command at a time. *)
Definition spec_update m c : K -> option V :=
  match c with
  | Write k v _ => <[k := Some v]> m
  | WriteAll kvs _ => insert_all m kvs
  | Delete k => <[k := None]> m
  | DeleteAll ks _ => remove_all m ks
  | _ => m
  end.

Definition accepts (predicate : option (K * V -> bool)) (kv : K * V) : Prop :=
  match predicate with Some func => func kv = true | None => True end.

(** What the sender of a command may be told; reads may also report errors. *)
Definition spec_answer m c (r : reply (T:=T) (K:=K) (V:=V)) : Prop :=
  match c, r with
  | (Write _ _ _ | WriteAll _ _ | DeleteAll _ _), UnitReply r => r = Ok tt
  | Read k _, ReadReply r => forall x, r = Ok x -> x = m k
  | NotifyRead k _, ReadReply r => exists v, r = Ok (Some v) /\ m k = Some v
  | ReadAll ks _, ReadAllReply r => forall xs, r = Ok xs -> xs = map m ks
  | ReadRawBytes _ _, RawReply _ => True
  | Iter p _, IterReply g => forall k v, g !! k = Some v <-> m k = Some v /\ accepts p (k, v)
  | _, _ => False
  end.

(** What the map says to the update a command makes. *)
Definition write_response (db : T) c w : outcome (result unit (Error (T:=T) (K:=K) (V:=V))) :=
  match c with
  | Write k v _ => (insert db k v w).1
  | WriteAll kvs _ => (multi_insert db kvs w).1
  | Delete k => (remove db k w).1
  | DeleteAll ks _ => (multi_remove db ks w).1
  | _ => Ret (Ok tt)
  end.

(** A [NotifyRead] is left waiting when its key is absent or cannot be read. *)
Definition left_waiting (db : T) m c w : Prop :=
  match c with
  | NotifyRead k _ => m k = None \/ exists e, (get db k w).1 = Ret (Err e)
  | _ => False
  end.

(** A turn in abstract terms: first come messages to parked readers, then the
    answer to the command's own sender, one that the specification allows; only
    a [NotifyRead] may instead be parked, and nobody is told anything then. *)
Definition refines (db : T) obl m c w (o : outcome (obligations K * sent (T:=T) (K:=K) (V:=V))) : Prop :=
  exists obl' out own, o = Ret (obl', out ++ own) /\
    (forall t, t ∈ out.*1 -> t ∈ parked obl) /\
    (forall r, r ∈ own.*2 -> spec_answer m c r) /\
    (own.*1 = cmd_tickets c \/
     left_waiting db m c w /\ out ++ own = [] /\ parked obl' ≡ₚ cmd_tickets c ++ parked obl).

Lemma refines_own db obl m c w obl' out own :
  (forall t, t ∈ out.*1 -> t ∈ parked obl) -> own.*1 = cmd_tickets c ->
  (forall r, r ∈ own.*2 -> spec_answer m c r) ->
  refines db obl m c w (Ret (obl', out ++ own)).
Proof. intros Hout Hown Hr. exists obl', out, own. split_and!; [done..|by left]. Qed.

(** A command that is answered at once. *)
Lemma refines_answer db obl m c w t r :
  cmd_tickets c = [t] -> spec_answer m c r -> refines db obl m c w (Ret (obl, [(t, r)])).
Proof.
  intros Ht Hr. apply (refines_own db obl m c w obl [] [(t, r)]); [|done|].
  - by intros t' ?%not_elem_of_nil.
  - by intros r' ->%list_elem_of_singleton.
Qed.

Lemma refines_waiting db obl m k t w :
  left_waiting db m (NotifyRead k t) w ->
  refines db obl m (NotifyRead k t) w (Ret (park k t obl, [])).
Proof.
  intros Hw. exists (park k t obl), [], []. split_and!; [done|by intros ? ?%not_elem_of_nil..|].
  right. split_and!; [done..|]. by rewrite parked_park.
Qed.

Lemma release_parked key (msg : reply (T:=T) (K:=K) (V:=V)) obl t :
  t ∈ (release key msg obl).2.*1 -> t ∈ parked obl.
Proof. rewrite (release_tickets key msg obl), elem_of_app. by right. Qed.

Lemma release_all_parked keys (msg : reply (T:=T) (K:=K) (V:=V)) obl t :
  t ∈ (release_all keys msg obl).2.*1 -> t ∈ parked obl.
Proof. rewrite (release_all_tickets keys msg obl), elem_of_app. by right. Qed.

(** The two premises of a write turn: what it answered and what it left. *)
Lemma wp_response {A} (c : M (result A (Error (T:=T) (K:=K) (V:=V)))) (Q : World -> Prop) a w :
  (c w).1 = Ret (Ok a) ->
  wp c (fun o w' => exists r, o = Ret r /\ (r = Ok a -> Q w')) w ->
  wp c (fun o w' => o = Ret (Ok a) /\ Q w') w.
Proof. unfold wp. intros Hc (r & Hr & HQ). split; [done|]. apply HQ. congruence. Qed.

Lemma foldl_insert_lookup (kvs : list (K * V)) (g : gmap K V) k v :
  NoDup kvs.*1 -> (forall k, k ∈ kvs.*1 -> g !! k = None) ->
  foldl (fun (m : gmap K V) kv => <[kv.1 := kv.2]> m) g kvs !! k = Some v <->
  (k, v) ∈ kvs \/ g !! k = Some v.
Proof.
  revert g. induction kvs as [|[k' v'] kvs IH]; intros g Hnd Hg; simpl.
  - split; [by right|]. by intros [?%not_elem_of_nil|].
  - rewrite fmap_cons in Hnd. apply NoDup_cons in Hnd as [Hk' Hnd]. simpl in Hk'.
    rewrite IH; [|done|].
    + rewrite lookup_insert_Some, elem_of_cons. specialize (Hg k' ltac:(left)).
      split; [intros [?|[[<- <-]|[_ ?]]]; auto|].
      intros [[[= -> ->]|?]|Hl]; [by right; left|by left|right; right]. split; [|done]. congruence.
    + intros k2 Hk2. rewrite lookup_insert_ne by (by intros <-). apply Hg. by right.
Qed.

Lemma collect_iter_spec (db : T) p w m :
  models db w m ->
  exists n, forall fuel, n < fuel ->
    wp (collect_iter fuel db p) (fun o w' => models db w' m /\ exists g, o = Ret g /\
      forall k v, g !! k = Some v <-> m k = Some v /\ accepts p (k, v)) w.
Proof.
  intros Hm. pose proof (iter_law db w m Hm) as Hiter.
  unfold wp at 1 in Hiter. destruct Hiter as (Hm1 & it & Hit & n & Hdrain).
  exists n. intros fuel Hfuel.
  unfold collect_iter. apply wp_bind. unfold wp at 1. rewrite Hit.
  apply wp_bind. eapply wp_mono; [by apply Hdrain|].
  intros o w2 (Hm2 & kvs & -> & Hnd & Hel). apply wp_bind, wp_ret, wp_ret. split; [done|].
  eexists. split; [done|]. intros k v.
  set (kept := match p with Some func => _ | None => _ end).
  assert (NoDup kept.*1 /\ forall kv, kv ∈ kept <-> accepts p kv /\ kv ∈ kvs) as [Hnd' Hel'].
  { unfold kept, accepts. destruct p as [func|]; [|split; [done|naive_solver]]. split.
    - eapply sublist_NoDup; [exact Hnd|]. apply fmap_sublist, sublist_filter.
    - intros kv. by rewrite list_elem_of_filter. }
  rewrite foldl_insert_lookup by (done || intros; apply lookup_empty).
  rewrite lookup_empty, Hel', Hel. naive_solver.
Qed.

(** One turn, command by command. *)
Lemma handle_spec (db : T) obl c w m :
  models db w m -> write_response db c w = Ret (Ok tt) ->
  exists n, forall fuel, n < fuel ->
    wp (handle fuel db obl c) (fun o w' =>
      models db w' (spec_update m c) /\ refines db obl m c w o) w.
Proof.
  intros Hm Hresp. destruct c as [k v sender|kvs t|k|ks t|k t|k t|ks t|k t|p t].
  9: { destruct (collect_iter_spec db p w m Hm) as [n Hn]. exists n. intros fuel Hfuel.
       cbn [handle]. apply wp_bind. eapply wp_mono; [by apply Hn|].
       intros o w' (Hm' & g & -> & Hg). apply wp_ret. split; [done|]. by apply refines_answer. }
  all: exists 0; intros fuel _; cbn [handle spec_update]; apply wp_bind; cbn in Hresp.
  - eapply wp_mono; [eapply (wp_response _ _ tt w Hresp), insert_law, Hm|].
    intros o w' [-> Hm']. cbn [is_ok].
    pose proof (release_parked k (ReadReply (Ok (Some v))) obl) as Hp.
    destruct (release _ _ _). apply wp_ret. split; [done|].
    apply refines_own; [done|by destruct sender|]. by destruct sender; intros r Hr; set_solver.
  - eapply wp_mono; [eapply (wp_response _ _ tt w Hresp), multi_insert_law, Hm|].
    intros o w' [-> Hm']. cbn [is_ok].
    pose proof (release_all_parked kvs.*1 (ReadReply (Ok None)) obl) as Hp.
    destruct (release_all _ _ _). apply wp_ret. split; [done|].
    apply refines_own; [done..|]. by intros r ->%list_elem_of_singleton.
  - eapply wp_mono; [eapply (wp_response _ _ tt w Hresp), remove_law, Hm|].
    intros o w' [-> Hm']. apply wp_ret. split; [done|].
    pose proof (release_parked k (ReadReply (Ok None)) obl) as Hp.
    destruct (release _ _ _) as [obl' out]. rewrite <- (app_nil_r out).
    apply refines_own; [done..|]. by intros r ?%not_elem_of_nil.
  - eapply wp_mono; [eapply (wp_response _ _ tt w Hresp), multi_remove_law, Hm|].
    intros o w' [-> Hm']. cbn [is_ok].
    pose proof (release_all_parked ks (ReadReply (Ok None)) obl) as Hp.
    destruct (release_all _ _ _). apply wp_ret. split; [done|].
    apply refines_own; [done..|]. by intros r ->%list_elem_of_singleton.
  - eapply wp_mono; [apply get_law, Hm|]. intros o w' (Hm' & r & -> & Hr). apply wp_ret.
    split; [done|]. by apply refines_answer.
  - eapply wp_mono; [apply get_raw_bytes_law, Hm|]. intros o w' (Hm' & r & ->). apply wp_ret.
    split; [done|]. by apply refines_answer.
  - eapply wp_mono; [apply multi_get_law, Hm|]. intros o w' (Hm' & r & -> & Hr). apply wp_ret.
    split; [done|]. by apply refines_answer.
  - pose proof (get_law db w m k Hm) as Hget. unfold wp in Hget |- *.
    destruct Hget as (Hm' & r & Hr & Hx). rewrite Hr. destruct r as [[v|]|e].
    + apply wp_ret. split; [done|]. apply refines_answer; [done|].
      exists v. split; [done|]. by rewrite <- (Hx _ eq_refl).
    + apply wp_ret. split; [done|]. by apply refines_waiting; left; rewrite <- (Hx _ eq_refl).
    + apply wp_ret. split; [done|]. by apply refines_waiting; right; exists e.
Qed.

(** What a turn leaves and sends when the map refuses the update: the command's
    sender is told so and everybody waits on, but a [Delete], which has no sender
    to tell, lets go of the readers of its key as if it had succeeded. *)
Definition refused_turn obl c (e : Error (T:=T) (K:=K) (V:=V)) :
    obligations K * sent (T:=T) (K:=K) (V:=V) :=
  match c with
  | Write _ _ (Some t) => (obl, [(t, UnitReply (Err e))])
  | WriteAll _ t | DeleteAll _ t => (obl, [(t, UnitReply (Err e))])
  | Delete k => release k (ReadReply (Ok None)) obl
  | _ => (obl, [])
  end.

Lemma handle_refused (db : T) obl c e fuel w :
  write_response db c w = Ret (Err e) -> (handle fuel db obl c w).1 = Ret (refused_turn obl c e).
Proof.
  destruct c as [k v sender|kvs t|k|ks t|k t|k t|ks t|k t|p t]; cbn [write_response handle];
    intros H; try discriminate H; unfold bind;
    lazymatch goal with
    | |- context [match ?m w with _ => _ end] => destruct (m w) as [o w1]
    end; simpl in H; subst o; [by destruct sender|done..].
Qed.

(** A message of the turn that is not for the command's sender goes to a reader
    that waited, and says what the command makes known of its key. *)
Definition parked_told obl c (o : outcome (obligations K * sent (T:=T) (K:=K) (V:=V))) : Prop :=
  forall obl' out t r, o = Ret (obl', out) -> (t, r) ∈ out ->
    t ∈ cmd_tickets c \/ exists key, waits obl key t /\ told c key r.


(** A turn that completes refines the specification, however much fuel it had. *)
Lemma handle_refines fuel (db : T) obl c w m r w' :
  models db w m -> write_response db c w = Ret (Ok tt) ->
  handle fuel db obl c w = (Ret r, w') ->
  models db w' (spec_update m c) /\ refines db obl m c w (Ret r).
Proof.
  intros Hm Hresp Hh. destruct (handle_spec db obl c w m Hm Hresp) as [n Hn].
  specialize (Hn (S (n + fuel)) ltac:(lia)). unfold wp in Hn.
  by rewrite (handle_more fuel (S (n + fuel)) _ _ _ _ _ _ ltac:(lia) Hh) in Hn.
Qed.

(** ** What waiting readers are told *)

(** C14: a write serves the readers waiting for its key.  When the map accepts
    the value, every parked reader of the key is sent that value, in the order
    the readers came, before the writer gets its own answer, and none remains
    parked; when the map refuses it, they all stay parked and only the writer
    is told. *)
Theorem write_notifies_fifo (db : T) obl k v sender w m fuel :
  models db w m ->
  wp (handle fuel db obl (Write k v sender)) (fun o w' => exists r,
    let own := match sender with Some t => [(t, UnitReply r)] | None => [] end in
    match r with
    | Ok _ =>
        models db w' (<[k := Some v]> m) /\
        o = Ret (delete k obl,
                 map (fun t => (t, ReadReply (Ok (Some v)))) (default [] (obl !! k)) ++ own)
    | Err _ => o = Ret (obl, own)
    end) w.
Proof.
  intros Hm. cbn [handle]. apply wp_bind. eapply wp_mono; [by apply insert_law|].
  intros o w' (r & -> & Hr). exists r. destruct r as [[]|e]; cbn [is_ok]; [|done].
  split; [|]; cycle 1.
  - unfold release. destruct (obl !! k) eqn:Hk; [done|]. simpl. by rewrite delete_id.
  - unfold release. destruct (obl !! k); by apply Hr.
Qed.

Lemma release_other k k' (msg : reply (T:=T) (K:=K) (V:=V)) obl :
  k' <> k -> (release k' msg obl).1 !! k = obl !! k.
Proof.
  intros Hne. unfold release. destruct (obl !! k'); simpl; [|done]. by apply lookup_delete_ne.
Qed.

Lemma release_all_covers keys k t (msg : reply (T:=T) (K:=K) (V:=V)) obl senders :
  k ∈ keys -> obl !! k = Some senders -> t ∈ senders ->
  (t, msg) ∈ (release_all keys msg obl).2 /\ (release_all keys msg obl).1 !! k = None.
Proof.
  assert (forall keys obl, obl !! k = None -> (release_all keys msg obl).1 !! k = None) as Hnone.
  { clear. induction keys as [|k' keys IH]; intros obl Hk; simpl; [done|].
    destruct (release k' msg obl) as [obl1 out1] eqn:Hr. specialize (IH obl1).
    destruct (release_all keys msg obl1); simpl in *. apply IH.
    unfold release in Hr. destruct (obl !! k'); simplify_eq; [|done].
    rewrite lookup_delete_None. by right. }
  intros Hin. revert obl. induction keys as [|k' keys IH]; intros obl Hk Ht.
  { by apply not_elem_of_nil in Hin. }
  simpl. destruct (decide (k' = k)) as [->|Hne].
  - unfold release. rewrite Hk. specialize (Hnone keys (delete k obl) (lookup_delete_eq _ _)).
    destruct (release_all keys msg (delete k obl)) as [obl2 out2]; simpl in *. split; [|done].
    apply elem_of_app. left. apply list_elem_of_fmap. by exists t.
  - pose proof (release_other k k' msg obl Hne) as Hother.
    destruct (release k' msg obl) as [obl1 out1]; simpl in Hother.
    apply elem_of_cons in Hin as [?|Hin]; [by subst|].
    destruct (IH Hin obl1) as [H1 H2]; [congruence|done|].
    destruct (release_all keys msg obl1) as [obl2 out2]; simpl in *. split; [|done].
    apply elem_of_app. by right.
Qed.

(** a bulk write does not deliver the values it wrote.  When [WriteAll]
    succeeds, a reader waiting for one of its keys is released, but with
    [Ok(None)], the answer for an absent key, although the key now has a value;
    [Write] would have sent the value. *)
Theorem write_all_notifies_none (db : T) obl kvs sender k t senders w m fuel :
  models db w m -> (multi_insert db kvs w).1 = Ret (Ok tt) ->
  k ∈ kvs.*1 -> obl !! k = Some senders -> t ∈ senders ->
  wp (handle fuel db obl (WriteAll kvs sender)) (fun o w' => exists obl' out,
    o = Ret (obl', out) /\ (t, ReadReply (Ok None)) ∈ out /\ obl' !! k = None /\
    exists m', models db w' m' /\ is_Some (m' k)) w.
Proof.
  intros Hm Hresp Hk Hobl Ht. cbn [handle]. apply wp_bind.
  eapply wp_mono; [eapply (wp_response _ _ tt w Hresp), multi_insert_law, Hm|].
  intros o w' [-> Hm']. cbn [is_ok].
  destruct (release_all_covers kvs.*1 k t (ReadReply (Ok None)) obl senders Hk Hobl Ht) as [H1 H2].
  destruct (release_all _ _ _) as [obl' out]; simpl in *.
  apply wp_ret. exists obl', (out ++ [(sender, UnitReply (Ok tt))]). split_and!; [done| |done|].
  - apply elem_of_app. by left.
  - exists (insert_all m kvs). split; [done|]. clear -Hk EqDecision0.
    assert (forall (kvs : list (K * V)) m, is_Some (m k) \/ k ∈ kvs.*1 -> is_Some (insert_all m kvs k))
      as Hgen; [|apply Hgen; by right].
    clear. induction kvs as [|[k' v'] kvs IH]; intros m [Hm|Hk]; simpl; [done|by apply not_elem_of_nil in Hk| |];
      apply IH; destruct (decide (k' = k)) as [->|Hne];
      rewrite ?fn_lookup_insert, ?fn_lookup_insert_ne by done; eauto.
    rewrite fmap_cons in Hk. apply elem_of_cons in Hk as [?|?]; [by subst|by right].
Qed.

(** failures the waiting readers are not told about.  A [Delete] that the map
    refuses still tells every waiting reader that the key is absent, and tells
    nobody that it failed; a [NotifyRead] whose lookup fails is parked without an
    answer, like one of an absent key. *)
Theorem store_hides_errors (db : T) obl k sender w fuel :
  (forall e w', remove db k w = (Ret (Err e), w') ->
     handle fuel db obl (Delete k) w =
       (Ret (delete k obl, map (fun t => (t, ReadReply (Ok None))) (default [] (obl !! k))), w')) /\
  (forall e w', get db k w = (Ret (Err e), w') ->
     handle fuel db obl (NotifyRead k sender) w = (Ret (park k sender obl, []), w')).
Proof.
  split; intros e w' Hfail; cbn [handle]; unfold bind; rewrite Hfail; [|done].
  unfold release. destruct (obl !! k) eqn:Hk; [done|]. simpl. by rewrite delete_id.
Qed.

End refinement.
