(* ===== verification/StoreHistory.v ===== *)
(** * What clients see of a store (typed-store/src/lib.rs)

    A history is the sequence of the calls that clients made of one store and
    of the replies they were sent.  Clients know nothing else, so that this is
    the level at which a store promises to be an atomic map: the theorem says
    that histories without a refused update are linearizable, and where waiting
    readers come in.  The map may share its database with others that keep to their own tables. *)
From S2P Require Import Prelude Bytes Platform MetricsData World Errors Traits Store StoreTheorems.
Open Scope nat_scope.
Set Default Proof Using "Type*".

Section history.
Context {PF : Platform} {T K V : Type} `{!Map T K V, !EqDecision K, !Countable K, !MapLaws T K V}.
Implicit Types (c : StoreCommand (K:=K) (V:=V)) (m : K -> option V)
  (s : store_system (T:=T) (K:=K) (V:=V)).

Inductive event : Type :=
| Called (c : StoreCommand (K:=K) (V:=V))
| Answered (t : ticket) (r : reply (T:=T) (K:=K) (V:=V)).
Implicit Types (tr : list event).

Definition calls tr : list (StoreCommand (K:=K) (V:=V)) :=
  omap (fun e => match e with Called c => Some c | Answered _ _ => None end) tr.

Definition answers tr : sent (T:=T) (K:=K) (V:=V) :=
  omap (fun e => match e with Called _ => None | Answered t r => Some (t, r) end) tr.

(** The map accepts the update of the next command. *)
Definition next_accepted (db : T) s : Prop :=
  match st_queue s with c :: _ => write_response db c (st_world s) = Ret (Ok tt) | [] => True end.

(** The replies of the next turn. *)
Definition turn_replies fuel (db : T) s : sent (T:=T) (K:=K) (V:=V) :=
  drop (length (st_replies s)) (st_replies (serve fuel db s)).

Definition elsewhere (w : World) s : store_system :=
  mkStoreSystem w (st_obl s) (st_queue s) (st_replies s) (st_next s) (st_alive s).

(** The histories of a store whose map refuses no update, with the state they
    lead to: clients call, the task serves, and others change the world without
    changing what the map stands for. *)
Inductive history (db : T) (w : World) : store_system -> list event -> Prop :=
| history_new : history db w (Store_new w) []
| history_call s s' c tr :
    history db w s tr -> client_step s s' -> st_queue s' = st_queue s ++ [c] ->
    history db w s' (tr ++ [Called c])
| history_serve fuel s tr :
    history db w s tr -> next_accepted db s ->
    history db w (serve fuel db s) (tr ++ map (uncurry Answered) (turn_replies fuel db s))
| history_elsewhere s tr w' :
    history db w s tr -> (forall m, models db (st_world s) m -> models db w' m) ->
    history db w (elsewhere w' s) tr.

(** The abstract map after some commands. *)
Definition after m (lin : list (StoreCommand (K:=K) (V:=V))) : K -> option V :=
  foldl spec_update m lin.

(** [r] is right for command [c] at position [i] of the order [lin]: what the
    specification allows there, or, for a [NotifyRead], what a later command of
    [lin] makes known of its key. *)
Definition right_answer m lin i c (t : ticket) (r : reply (T:=T) (K:=K) (V:=V)) : Prop :=
  spec_answer (after m (take i lin)) c r \/
  exists k j c', c = NotifyRead k t /\ i < j /\ lin !! j = Some c' /\ told c' k r.

Lemma right_answer_snoc m lin c' i c t r :
  i < length lin -> right_answer m lin i c t r -> right_answer m (lin ++ [c']) i c t r.
Proof.
  intros Hi [Hs|(k & j & c2 & -> & Hij & Hj & Ht)].
  - left. by rewrite take_app_le by lia.
  - right. exists k, j, c2. split_and!; [done..| |done]. by apply lookup_app_l_Some.
Qed.

Lemma calls_app tr tr' : calls (tr ++ tr') = calls tr ++ calls tr'.
Proof. apply omap_app. Qed.

Lemma answers_app tr tr' : answers (tr ++ tr') = answers tr ++ answers tr'.
Proof. apply omap_app. Qed.

Lemma calls_answered out : calls (map (uncurry Answered) out) = [].
Proof. by induction out as [|[t r] out IH]. Qed.

Lemma answers_answered out : answers (map (uncurry Answered) out) = out.
Proof. induction out as [|[t r] out IH]; [done|]. cbn. f_equal. exact IH. Qed.

(** Every answer of the history is right in [lin], for a command that was called
    before the answer. *)
Definition answered_right m lin tr : Prop :=
  forall p t r, tr !! p = Some (Answered t r) -> exists i c,
    lin !! i = Some c /\ t ∈ cmd_tickets c /\ i < length (calls (take p tr)) /\
    right_answer m lin i c t r.

Record history_ok m s tr lin : Prop := {
  ho_calls : if st_alive s then calls tr = lin ++ st_queue s else lin `prefix_of` calls tr;
  ho_answers : answers tr = st_replies s;
  ho_tickets : tickets_ok s;
  ho_waits k t : st_alive s = true -> waits (st_obl s) k t -> exists i, lin !! i = Some (NotifyRead k t);
  ho_right : answered_right m lin tr;
}.

(** One more call: nothing that was answered changes. *)
Lemma answered_right_call m lin tr c : answered_right m lin tr -> answered_right m lin (tr ++ [Called c]).
Proof.
  intros Hr p t r Hp. apply lookup_app_Some in Hp as [Hp|[Hle Hp]].
  - destruct (Hr p t r Hp) as (i & c' & ? & ? & Hi & ?). exists i, c'. split_and!; [done..| |done].
    apply lookup_lt_Some in Hp. by rewrite take_app_le by lia.
  - by destruct (p - length tr).
Qed.

(** One more turn, whose replies are right for the longer order. *)
Lemma answered_right_turn m lin c tr out :
  answered_right m lin tr -> length lin < length (calls tr) ->
  (forall t r, (t, r) ∈ out -> exists i c', (lin ++ [c]) !! i = Some c' /\ t ∈ cmd_tickets c' /\
     right_answer m (lin ++ [c]) i c' t r) ->
  answered_right m (lin ++ [c]) (tr ++ map (uncurry Answered) out).
Proof.
  intros Hr Hlen Hout p t r Hp. apply lookup_app_Some in Hp as [Hp|[Hle Hp]].
  - destruct (Hr p t r Hp) as (i & c' & Hi & ? & Hc & ?). pose proof (lookup_lt_Some _ _ _ Hi).
    exists i, c'. apply lookup_lt_Some in Hp.
    split_and!; [by apply lookup_app_l_Some|done|by rewrite take_app_le by lia|by apply right_answer_snoc].
  - rewrite list_lookup_fmap in Hp. apply fmap_Some in Hp as ([t' r'] & Hl & [= <- <-]).
    destruct (Hout t r) as (i & c' & Hi & Ht & Hra); [by eapply list_elem_of_lookup_2|].
    exists i, c'. split_and!; [done..| |done]. apply lookup_lt_Some in Hi.
    rewrite length_app in Hi; simpl in Hi.
    rewrite take_app, take_ge, calls_app, length_app by lia. lia.
Qed.

(** A command's own sender is not parked already. *)
Lemma own_not_parked s c q t :
  tickets_ok s -> st_alive s = true -> st_queue s = c :: q -> t ∈ cmd_tickets c ->
  t ∉ parked (st_obl s).
Proof.
  unfold tickets_ok, in_flight. intros Hok Ha Hq Ht Hp. rewrite Ha, Hq in Hok. simpl in Hok.
  pose proof (NoDup_seq 0 (st_next s)) as Hnd. rewrite <- Hok, <- app_assoc in Hnd.
  apply NoDup_app in Hnd as (_ & Hnd & _). apply (Hnd t Ht). rewrite !elem_of_app. auto.
Qed.

(** The replies of a turn are right at the place of its command. *)
Lemma turn_right fuel (db : T) s m0 lin c q obl' out w' tr :
  history_ok m0 s tr lin -> st_alive s = true -> st_queue s = c :: q ->
  models db (st_world s) (after m0 lin) -> write_response db c (st_world s) = Ret (Ok tt) ->
  handle fuel db (st_obl s) c (st_world s) = (Ret (obl', out), w') ->
  forall t r, (t, r) ∈ out -> exists i c', (lin ++ [c]) !! i = Some c' /\ t ∈ cmd_tickets c' /\
    right_answer m0 (lin ++ [c]) i c' t r.
Proof.
  intros [_ _ Htk Hwt _] Ha Hq Hm Hresp Hh t r Hin.
  destruct (handle_from _ _ _ _ _ _ _ _ Hh) as [Hfrom _].
  destruct (Hfrom t r Hin) as [Hown|(k & Hw & Htold)].
  - exists (length lin), c. split_and!; [by apply list_lookup_middle|done|]. left.
    rewrite take_app_length.
    destruct (handle_refines fuel db _ c _ _ _ _ Hm Hresp Hh) as [_ Href].
    destruct Href as (obl2 & out1 & own & [= <- ->] & Hparked & Hspec & _).
    apply elem_of_app in Hin as [Hin|Hin].
    + exfalso. eapply own_not_parked; [exact Htk|done..|].
      apply Hparked. apply list_elem_of_fmap. by exists (t, r).
    + apply Hspec. apply list_elem_of_fmap. by exists (t, r).
  - destruct (Hwt k t Ha Hw) as [i Hi]. exists i, (NotifyRead k t).
    split_and!; [by apply lookup_app_l_Some|by left|]. right.
    exists k, (length lin), c. split_and!; [done|by eapply lookup_lt_Some|by apply list_lookup_middle|done].
Qed.

(** *** The steps keep it *)

Definition linearized db m0 s tr : Prop :=
  exists lin, history_ok m0 s tr lin /\ (st_alive s = true -> models db (st_world s) (after m0 lin)).

Lemma linearized_call db m0 s s' c tr :
  linearized db m0 s tr -> client_step s s' -> st_queue s' = st_queue s ++ [c] ->
  linearized db m0 s' (tr ++ [Called c]).
Proof.
  intros (lin & [Hc Hans Htk Hw Hr] & Hm) Hstep Hq. exists lin.
  destruct (client_effect s s' Hstep) as (Hworld & Hrep & Ha & Ha' & _).
  pose proof (client_obligations s s' Hstep) as Hobl.
  rewrite Ha in Hc. split; [split|].
  - rewrite Ha', calls_app, Hc, Hq. cbn. by rewrite app_assoc.
  - rewrite answers_app, Hrep, Hans. cbn. by rewrite app_nil_r.
  - eapply (step_tickets 0 db); [by apply step_client|done].
  - intros k t _. rewrite Hobl. by apply Hw.
  - by apply answered_right_call.
  - intros _. rewrite Hworld. by apply Hm.
Qed.

(** A turn without a command, or one that ends the task. *)
Lemma linearized_silent db m0 fuel s tr :
  linearized db m0 s tr -> st_replies (serve fuel db s) = st_replies s ->
  (serve fuel db s = s \/ st_alive (serve fuel db s) = false /\ st_alive s = true) ->
  linearized db m0 (serve fuel db s) (tr ++ map (uncurry Answered) (turn_replies fuel db s)).
Proof.
  intros (lin & [Hc Hans Htk Hw Hr] & Hm) Hrep Hs. unfold turn_replies.
  rewrite Hrep, drop_all. cbn [map]. rewrite app_nil_r. exists lin.
  destruct Hs as [->|[Hd Ha]]; [by split|]. split; [split|by rewrite Hd].
  - rewrite Hd. rewrite Ha in Hc. rewrite Hc. by apply prefix_app_r.
  - by rewrite Hrep.
  - by apply serve_tickets.
  - by rewrite Hd.
  - done.
Qed.

Lemma linearized_serve db m0 fuel s tr :
  linearized db m0 s tr -> next_accepted db s ->
  linearized db m0 (serve fuel db s) (tr ++ map (uncurry Answered) (turn_replies fuel db s)).
Proof.
  intros Hlin Hacc. unfold next_accepted in Hacc.
  destruct (st_alive s) eqn:Ha.
  2: { assert (serve fuel db s = s) as E by (unfold serve; by rewrite Ha).
       apply linearized_silent; [done|by rewrite E|by left]. }
  destruct (st_queue s) as [|c q] eqn:Hq.
  { assert (serve fuel db s = s) as E by (unfold serve; by rewrite Ha, Hq).
    apply linearized_silent; [done|by rewrite E|by left]. }
  destruct (handle fuel db (st_obl s) c (st_world s)) as [[[obl' out]|msg] w'] eqn:Hh.
  2: { assert (serve fuel db s = mkStoreSystem w' ∅ [] (st_replies s) (st_next s) false) as E
         by (unfold serve; by rewrite Ha, Hq, Hh).
       apply linearized_silent; [done|by rewrite E|right; by rewrite E]. }
  destruct Hlin as (lin & Hok & Hm). pose proof Hok as [Hc Hans Htk Hw Hr]. specialize (Hm Ha).
  pose proof (turn_right fuel db s m0 lin c q obl' out w' tr Hok Ha Hq Hm Hacc Hh) as Hright.
  destruct (handle_from _ _ _ _ _ _ _ _ Hh) as [_ Hfrom].
  pose proof (serve_tickets fuel db s Htk) as Htk'.
  assert (serve fuel db s = mkStoreSystem w' obl' q (st_replies s ++ out) (st_next s) true) as E
    by (unfold serve; by rewrite Ha, Hq, Hh).
  unfold turn_replies. rewrite E in Htk' |- *. cbn [st_replies]. rewrite drop_app_length.
  rewrite Ha, Hq in Hc. exists (lin ++ [c]). split; [split|].
  - cbn [st_alive st_queue]. rewrite calls_app, calls_answered, Hc, app_nil_r. by rewrite <- app_assoc.
  - cbn [st_replies]. by rewrite answers_app, answers_answered, Hans.
  - exact Htk'.
  - intros k t _ Hwt. destruct (Hfrom k t Hwt) as [Hwt'| ->].
    + destruct (Hw k t Ha Hwt') as [i Hi]. exists i. by apply lookup_app_l_Some.
    + exists (length lin). by apply list_lookup_middle.
  - apply answered_right_turn; [done| |done]. rewrite Hc, length_app. simpl. lia.
  - intros _. cbn [st_world]. unfold after. rewrite foldl_app.
    by apply (handle_refines fuel db _ c _ _ _ _ Hm Hacc Hh).
Qed.

Lemma history_linearized db w m0 s tr :
  models db w m0 -> history db w s tr -> linearized db m0 s tr.
Proof.
  intros Hm0. induction 1 as [|s s' c tr _ IH Hstep Hq|fuel s tr _ IH Hacc|s tr w' _ IH Hsame].
  - exists []. split; [split|done]; [done..| | |].
    + apply new_tickets.
    + intros k t _ (senders & Hl & _). simpl in Hl. by rewrite lookup_empty in Hl.
    + by intros p t r Hp.
  - by eapply linearized_call.
  - by apply linearized_serve.
  - destruct IH as (lin & [Hc Hans Htk Hw Hr] & Hm). exists lin.
    split; [by split|]. intros Ha. by apply Hsame, Hm.
Qed.

(** C7: a store whose map refuses no update is linearizable.  For every history
    of calls and replies in which the map accepts the updates that are served
    (after a refused one, such as a [Delete] that fails unnoticed, the contract
    leaves open what is stored) there is one order of commands, that of the
    calls, of which the task has taken a beginning, such that: nobody is answered
    twice; every reply that a client has been sent is, at the place of its
    command in this order, what an atomic map would answer (a read may also
    report an error, and raw bytes are not constrained), and this place is before
    all calls made after the reply, so that real time is respected; a reader that
    waited with [notify_read] may instead be answered by a later write or removal
    of its key in the order; and while the task runs the stored map is what all
    commands of the order make of the first one. *)
Theorem store_linearizable (db : T) (w : World) m0 s tr :
  models db w m0 -> history db w s tr ->
  NoDup (answers tr).*1 /\
  exists lin,
    (if st_alive s then calls tr = lin ++ st_queue s else lin `prefix_of` calls tr) /\
    (forall p t r, tr !! p = Some (Answered t r) -> exists i c,
       lin !! i = Some c /\ t ∈ cmd_tickets c /\ i < length (calls (take p tr)) /\
       right_answer m0 lin i c t r) /\
    (st_alive s = true -> models db (st_world s) (after m0 lin)).
Proof.
  intros Hm0 Hh. destruct (history_linearized db w m0 s tr Hm0 Hh) as (lin & [Hc Hans Htk _ Hr] & Hm).
  split; [rewrite Hans; by apply tickets_ok_nodup|]. by exists lin.
Qed.

End history.
