(* ===== verification/StoreGroup.v ===== *)
(** * The stores of a struct (typed-store-derive, typed-store/src/lib.rs)

    For a struct of [Store]s the generated [open_tables_read_write] puts every
    opened table through [Store::new]: one task per field, all over the column
    families of one database.  [Stores] is the struct, a store per field over
    one shared world; its steps are those of any of its stores, in any
    interleaving.  The theorem is that each store is an atomic map whatever the
    others do: Isolation bounds what a step of another store can change. *)
From S2P Require Import Prelude Bytes Platform MetricsData World Sampling Metrics Errors Traits Rocks RocksIter RocksMap RocksSpec MapTheorems BatchTheorems IterTheorems MapContract Isolation Derive DeriveTheorems Store StoreTheorems StoreHistory.
Open Scope nat_scope.
Set Default Proof Using "Type*".

Section fields.
Context {PF : Platform}.

(** A field of a struct of stores: an opened table whose key can be hashed. *)
Record StoreField : Type := mkStoreField {
  sf_table : OpenTable;
  sf_hash : KeyHash (t_K (ot_table sf_table));
}.

Definition sf_key (f : StoreField) : Type := t_K (ot_table (sf_table f)).
Definition sf_value (f : StoreField) : Type := t_V (ot_table (sf_table f)).

#[export] Instance sf_serde_key f : Serde (sf_key f) := t_serde_K (ot_table (sf_table f)).
#[export] Instance sf_serde_value f : Serde (sf_value f) := t_serde_V (ot_table (sf_table f)).
#[export] Instance sf_eq f : EqDecision (sf_key f) := kh_eq _ (sf_hash f).
#[export] Instance sf_countable f : Countable (sf_key f) := kh_countable _ (sf_hash f).

Definition sf_map (f : StoreField) : DBMap (sf_key f) (sf_value f) := ot_map (sf_table f).

(** A store of the field: its channel, obligations and replies. *)
Definition field_store (f : StoreField) : Type :=
  store_system (T:=DBMap (sf_key f) (sf_value f)) (K:=sf_key f) (V:=sf_value f).

(** The store of an opened table, if its key can be hashed; else the generated
    code does not type-check. *)
Definition store_field (o : OpenTable) : option StoreField :=
  h ← t_hash (ot_table o); Some (mkStoreField o h).

(** The fields of a struct by their position. *)
Definition field_at (fields : list StoreField) (i : fin (length fields)) : StoreField :=
  list_to_vec fields !!! i.

End fields.

(** ** The struct and its steps *)

Section group.
Context {PF : Platform} {I : Type} (field : I -> StoreField).

Record Stores : Type := mkStores {
  ss_world : World;
  ss_store : forall i, field_store (field i);
}.

(** [#( field_names: Store::new(inner.field_names), )*] *)
Definition new_stores (w : World) : Stores := mkStores w (fun i => Store_new w).

(** A store in the world as the others left it. *)
Definition view (g : Stores) (i : I) : field_store (field i) :=
  let s := ss_store g i in
  mkStoreSystem (ss_world g) (st_obl s) (st_queue s) (st_replies s) (st_next s) (st_alive s).

(** Store [i] moves by [R], the others stay as they are. *)
Definition moves (i : I) (R : field_store (field i) -> field_store (field i) -> Prop)
    (g g' : Stores) : Prop :=
  R (view g i) (ss_store g' i) /\ ss_world g' = st_world (ss_store g' i) /\
  forall j, j <> i -> ss_store g' j = ss_store g j.

(** A step of the struct: a step of one of its stores. *)
Inductive stores_step (g g' : Stores) : Prop :=
| step_of i fuel : moves i (store_step fuel (sf_map (field i))) g g' -> stores_step g g'.

Definition stores_reachable (w : World) : Stores -> Prop := rtc stores_step (new_stores w).

(** *** What a store has done

    The turns its task has completed, with the world and the obligations they
    started from, for a store of field [f]. *)

Record turn (f : StoreField) : Type := mkTurn {
  tn_world : World;
  tn_obl : obligations (sf_key f);
  tn_command : StoreCommand (K:=sf_key f) (V:=sf_value f);
  tn_result : obligations (sf_key f) *
              sent (T:=DBMap (sf_key f) (sf_value f)) (K:=sf_key f) (V:=sf_value f);
}.

(** The turn of a call of [serve], if it takes a command and completes. *)
Definition turn_of (fuel : nat) (f : StoreField) (s : field_store f) : list (turn f) :=
  match st_alive s, st_queue s with
  | true, c :: _ =>
      match handle fuel (sf_map f) (st_obl s) c (st_world s) with
      | (Ret r, _) => [mkTurn f (st_world s) (st_obl s) c r]
      | (Panicked _, _) => []
      end
  | _, _ => []
  end.

(** A run of the struct with the turns of store [i], oldest first. *)
Inductive run (w : World) (i : I) : Stores -> list (turn (field i)) -> Prop :=
| run_new : run w i (new_stores w) []
| run_elsewhere j fuel g g' h :
    run w i g h -> j <> i -> moves j (store_step fuel (sf_map (field j))) g g' -> run w i g' h
| run_client g g' h : run w i g h -> moves i client_step g g' -> run w i g' h
| run_serve fuel g g' h :
    run w i g h -> moves i (fun s s' => s' = serve fuel (sf_map (field i)) s) g g' ->
    run w i g' (h ++ turn_of fuel (field i) (view g i)).

(** Every reachable state has its history, and only those do. *)
Lemma run_reachable w i g h : run w i g h -> stores_reachable w g.
Proof.
  unfold stores_reachable.
  induction 1 as [|j fuel g g' h _ IH _ Hm|g g' h _ IH Hm|fuel g g' h _ IH Hm]; [done|..];
    (eapply rtc_r; [exact IH|]).
  - by exists j fuel.
  - destruct Hm as (Hc & Hrest). exists i 0. by split; [apply step_client|].
  - destruct Hm as (Hc & Hrest). exists i fuel. split; [|done]. rewrite Hc. apply step_serve.
Qed.

Lemma reachable_run `{!EqDecision I} w i g : stores_reachable w g -> exists h, run w i g h.
Proof.
  revert g. apply (rtc_ind_r (fun g => exists h, run w i g h)).
  - exists []. constructor.
  - intros g1 g2 _ [j fuel Hm] [h IH]. destruct (decide (j = i)) as [->|Hne].
    + destruct Hm as [Hs Hrest]. inversion Hs as [s' Hc Heq|Heq].
      * exists h. eapply run_client; [done|]. by split.
      * eexists. eapply run_serve; [done|]. split; [|exact Hrest]. symmetry. exact Heq.
    + exists h. by eapply run_elsewhere.
Qed.

End group.

(** ** What a turn of a store can change *)

Section turns.
Context {PF : Platform} {RL : RocksLaws} {K V : Type} `{!Serde K, !Serde V, !EqDecision K, !Countable K}.
Implicit Types (self : DBMap K V).

(** A turn touches only the family of the store's map, which stays open. *)
Lemma handle_contained fuel self obl c w : opened self w -> contained self (handle fuel self obl c) w.
Proof.
  intros Ho. pose proof Ho as [d Hd].
  destruct c as [k v sender|kvs t|k|ks t|k t|k t|ks t|k t|p t]; cbn [handle];
    (apply contained_bind; [|intros r w' Hw'; repeat case_match; by apply contained_ret]).
  - by apply insert_contained.
  - by apply multi_insert_contained.
  - by apply remove_contained.
  - by apply multi_remove_contained.
  - by apply get_contained.
  - eapply contained_reads; [done|by apply get_raw_reads].
  - eapply contained_reads; [done|by apply multi_get_reads].
  - by apply get_contained.
  - apply contained_same; [done|]. unfold collect_iter. apply wp_bind.
    eapply wp_reads; [by apply iter_reads|]. intros w1 H1. apply wp_bind.
    eapply wp_mono; [eapply drain_same; [apply Iter_steps|by eapply first_iter_spec]|].
    intros [items|msg] w2 H2; [|by etrans]. apply wp_bind.
    destruct items; [apply wp_ret, wp_ret|apply wp_panic]; by etrans.
Qed.

End turns.

(** ** Every store of a struct is an atomic map *)

Section atomic.
Context {PF : Platform} {RL : RocksLaws} {I : Type} (field : I -> StoreField).
Implicit Types (g : Stores field) (i j : I).

(** The struct as [open_tables_read_write] leaves it: every map is open, and
    no two are the same table. *)
Record opened_struct (w : World) : Prop := {
  os_opened i : opened (sf_map (field i)) w;
  os_apart i j : i <> j -> apart (sf_map (field i)) (sf_map (field j));
}.

Lemma serve_effect fuel (f : StoreField) (s : field_store f) :
  opened (sf_map f) (st_world s) ->
  touches (rocksdb (sf_map f)) (dbmap_cf (sf_map f)) (st_world s) (st_world (serve fuel (sf_map f) s)) /\
  opened (sf_map f) (st_world (serve fuel (sf_map f) s)).
Proof.
  intros Ho. assert (touches (rocksdb (sf_map f)) (dbmap_cf (sf_map f)) (st_world s) (st_world s)).
  { destruct Ho as [d Hd]. by eapply touches_same; [apply Hd|]. }
  unfold serve. destruct (st_alive s), (st_queue s) as [|c q]; try done.
  pose proof (handle_contained fuel (sf_map f) (st_obl s) c (st_world s) Ho) as Hc.
  unfold contained, wp in Hc. by destruct (handle _ _ _ _ _) as [[[obl out]|msg] w'].
Qed.

(** A step of store [j] touches its own family only, and leaves its map open. *)
Lemma step_effect j fuel g g' :
  opened (sf_map (field j)) (ss_world field g) ->
  moves field j (store_step fuel (sf_map (field j))) g g' ->
  touches (rocksdb (sf_map (field j))) (dbmap_cf (sf_map (field j)))
    (ss_world field g) (ss_world field g') /\
  opened (sf_map (field j)) (ss_world field g').
Proof.
  intros Ho (Hs & -> & _). inversion Hs as [s' Hc Heq|Heq].
  - apply client_effect in Hc as (-> & _). simpl. split; [|done].
    destruct Ho as [d Hd]. by eapply touches_same; [apply Hd|].
  - exact (serve_effect fuel (field j) (view field g j) Ho).
Qed.

Lemma moves_opened j fuel g g' :
  (forall i, opened (sf_map (field i)) (ss_world field g)) ->
  moves field j (store_step fuel (sf_map (field j))) g g' ->
  forall i, opened (sf_map (field i)) (ss_world field g').
Proof.
  intros Ho Hm i. destruct (step_effect j fuel g g' (Ho j) Hm) as [Ht [dj Hj]].
  destruct (Ho i) as [d Hd].
  destruct (decide (rocksdb (sf_map (field i)) = rocksdb (sf_map (field j)) /\
    dbmap_cf (sf_map (field i)) = dbmap_cf (sf_map (field j)))) as [[Ha Hc]|Hne].
  - exists dj. destruct Hd as (Hwf & _), Hj as (_ & ? & ?).
    split_and!; [done|by rewrite Ha|by rewrite Hc].
  - destruct (touches_open _ _ _ _ _ Hne Ht Hd) as (d' & Ho' & _). by exists d'.
Qed.

Context (i : I).
Context `{!SerdeLaws (sf_key (field i)), !SerdeLaws (sf_value (field i))}.
Implicit Types (h : list (turn (field i))) (m : sf_key (field i) -> option (sf_value (field i))).

(** What the map answered to the update of a turn. *)
Definition accepted (tn : turn (field i)) : Prop :=
  write_response (sf_map (field i)) (tn_command _ tn) (tn_world _ tn) = Ret (Ok tt).

(** The abstract map after some turns. *)
Definition after m h := foldl (fun m tn => spec_update m (tn_command _ tn)) m h.

(** A turn does what the specification allows from [m]. *)
Definition turn_refines m (tn : turn (field i)) : Prop :=
  refines (sf_map (field i)) (tn_obl _ tn) m (tn_command _ tn) (tn_world _ tn) (Ret (tn_result _ tn)).

Fixpoint turns_refine m h : Prop :=
  match h with
  | [] => True
  | tn :: h' => turn_refines m tn /\ turns_refine (spec_update m (tn_command _ tn)) h'
  end.

Lemma turns_refine_snoc m h tn :
  turns_refine m (h ++ [tn]) <-> turns_refine m h /\ turn_refines (after m h) tn.
Proof.
  revert m. induction h as [|tn' h IH]; intros m; simpl; [naive_solver|].
  rewrite IH. unfold after. naive_solver.
Qed.

(** The invariant of a run, from the map [m0] of store [i] on. *)
Record run_invariant m0 g h : Prop := {
  inv_opened j : opened (sf_map (field j)) (ss_world field g);
  inv_tickets : tickets_ok (view field g i);
  inv_replies : st_replies (ss_store field g i) = concat (map (fun tn => (tn_result _ tn).2) h);
  inv_refines : Forall accepted h -> turns_refine m0 h;
  inv_models : Forall accepted h -> st_alive (ss_store field g i) = true ->
    DBMap_models (sf_map (field i)) (ss_world field g) (after m0 h);
}.

Lemma invariant_serve m0 fuel g g' h :
  run_invariant m0 g h -> moves field i (fun s s' => s' = serve fuel (sf_map (field i)) s) g g' ->
  run_invariant m0 g' (h ++ turn_of fuel (field i) (view field g i)).
Proof.
  intros [Ho Ht Hr Hre Hm] (Hs & Hw & Hrest).
  assert (forall j, opened (sf_map (field j)) (ss_world field g')) as Ho'.
  { eapply moves_opened; [exact Ho|]. split; [|by split]. rewrite Hs. apply step_serve. }
  assert (tickets_ok (view field g' i)) as Ht'.
  { change (tickets_ok (ss_store field g' i)). rewrite Hs. by apply serve_tickets. }
  rewrite Hs in Hw. revert Hs Hw. unfold serve, turn_of, view; simpl.
  destruct (st_alive (ss_store field g i)) eqn:Ha.
  2: { intros Hs Hw. rewrite app_nil_r. simpl in Hw.
       split; [done|done|by rewrite Hs|done|by rewrite Hs]. }
  destruct (st_queue (ss_store field g i)) as [|c q] eqn:Hq.
  { intros Hs Hw. rewrite app_nil_r. split; [done|done|by rewrite Hs|done|].
    intros Hacc _. rewrite Hw. simpl. by apply Hm. }
  destruct (handle fuel (sf_map (field i)) (st_obl (ss_store field g i)) c (ss_world field g))
    as [[[obl out]|msg] w'] eqn:Hh; intros Hs Hw; simpl in Hw.
  2: { rewrite app_nil_r. split; [done|done|by rewrite Hs|done|by rewrite Hs]. }
  assert (forall tn, Forall accepted (h ++ [tn]) -> Forall accepted h /\ accepted tn) as Hsplit.
  { intros tn. by rewrite Forall_app, Forall_singleton. }
  split; [done|done| | |].
  - rewrite Hs. simpl. rewrite map_app, concat_app, <- Hr. simpl. by rewrite app_nil_r.
  - intros [Hacc Htn]%Hsplit. apply turns_refine_snoc. split; [by apply Hre|].
    by eapply (handle_refines (MapLaws0:=DBMap_MapLaws)); [apply Hm| |].
  - intros [Hacc Htn]%Hsplit _. rewrite Hw. unfold after. rewrite foldl_app.
    by eapply (handle_refines (MapLaws0:=DBMap_MapLaws) fuel _ _ _ _ _ _ _ (Hm Hacc eq_refl)).
Qed.

Lemma run_invariants w m0 g h :
  opened_struct w -> DBMap_models (sf_map (field i)) w m0 -> run field w i g h ->
  run_invariant m0 g h.
Proof.
  intros Hst Hm0. induction 1 as [|j fuel g g' h _ IH Hne Hm|g g' h _ IH Hm|fuel g g' h _ IH Hm].
  - split; [apply Hst|apply new_tickets|done..].
  - destruct IH as [Ho Ht Hr Hre Hmo]. pose proof (moves_opened _ _ _ _ Ho Hm) as Ho'.
    destruct (step_effect j fuel g g' (Ho j) Hm) as [Hto _].
    destruct Hm as (_ & _ & Hrest). specialize (Hrest i ltac:(done)).
    split; [done| |by rewrite Hrest|done|].
    + unfold view. rewrite Hrest. exact Ht.
    + rewrite Hrest. intros Hacc Ha.
      apply (touches_models (sf_map (field j)) (sf_map (field i)) _ _ _ (os_apart w Hst j i Hne) Hto).
      by apply Hmo.
  - destruct IH as [Ho Ht Hr Hre Hmo].
    assert (moves field i (store_step 0 (sf_map (field i))) g g') as Hm'.
    { destruct Hm as (Hc & Hrest). split; [by apply step_client|done]. }
    pose proof (moves_opened _ _ _ _ Ho Hm') as Ho'. destruct Hm as (Hc & Hw & _).
    assert (tickets_ok (ss_store field g' i)) as Ht'.
    { eapply (step_tickets 0 (sf_map (field i))); [by apply step_client|exact Ht]. }
    apply client_effect in Hc as (Hcw & Hcr & Hca & _). simpl in *.
    split; [done|exact Ht'|by rewrite Hcr|done|].
    intros Hacc _. rewrite Hw, Hcw. by apply Hmo.
  - by apply invariant_serve.
Qed.

(** C8: every store of a struct is an atomic map, whatever the others do.  For
    any interleaving of the tasks and clients of all the stores that
    [open_tables_read_write] starts over one database: each reply of a store is
    sent once, the replies are those of its own turns in order, and, as long as
    its map accepts its own updates, every turn of its task does what the
    specification allows from the abstract map that its earlier turns left;
    while its task runs the map stands for all turns so far, and it goes on: with
    enough fuel for the loops, serving a command does not end the task. *)
Theorem struct_stores_atomic w m0 g h :
  opened_struct w -> DBMap_models (sf_map (field i)) w m0 -> run field w i g h ->
  let s := ss_store field g i in
  NoDup (st_replies s).*1 /\
  st_replies s = concat (map (fun tn => (tn_result _ tn).2) h) /\
  (Forall accepted h ->
     turns_refine m0 h /\
     (st_alive s = true ->
        DBMap_models (sf_map (field i)) (ss_world field g) (after m0 h) /\
        (forall c q, st_queue s = c :: q ->
           write_response (sf_map (field i)) c (ss_world field g) = Ret (Ok tt) ->
           exists n, forall fuel, n < fuel ->
             st_alive (serve fuel (sf_map (field i)) (view field g i)) = true))).
Proof.
  intros Hst Hm0 Hrun s. destruct (run_invariants w m0 g h Hst Hm0 Hrun) as [Ho Ht Hr Hre Hm].
  split; [exact (tickets_ok_nodup _ Ht)|]. split; [exact Hr|].
  intros Hacc. split; [by apply Hre|]. intros Ha. split; [by apply Hm|].
  intros c q Hq Hresp.
  destruct (handle_spec (MapLaws0:=DBMap_MapLaws) (sf_map (field i)) (st_obl s) c _ _
    (Hm Hacc Ha) Hresp) as [n Hn].
  exists n. intros fuel Hfuel. specialize (Hn fuel Hfuel). unfold wp in Hn.
  unfold serve, view; simpl. fold s. rewrite Ha, Hq.
  destruct Hn as (_ & obl' & out & own & Heq & _).
  by destruct (handle _ _ _ _ _) as [[[obl'' out'']|msg] w'].
Qed.

(** *** Histories of one store of a struct *)

(** What the clients of store [i] see while the others run. *)
Inductive struct_history (w : World) : Stores field ->
    list (event (T:=DBMap (sf_key (field i)) (sf_value (field i)))
            (K:=sf_key (field i)) (V:=sf_value (field i))) -> Prop :=
| struct_new : struct_history w (new_stores field w) []
| struct_elsewhere j fuel g g' tr :
    struct_history w g tr -> j <> i -> moves field j (store_step fuel (sf_map (field j))) g g' ->
    struct_history w g' tr
| struct_call g g' c tr :
    struct_history w g tr -> moves field i client_step g g' ->
    st_queue (ss_store field g' i) = st_queue (ss_store field g i) ++ [c] ->
    struct_history w g' (tr ++ [Called c])
| struct_serve fuel g g' tr :
    struct_history w g tr -> next_accepted (sf_map (field i)) (view field g i) ->
    moves field i (fun s s' => s' = serve fuel (sf_map (field i)) s) g g' ->
    struct_history w g'
      (tr ++ map (uncurry Answered) (turn_replies fuel (sf_map (field i)) (view field g i))).

Lemma moved_view R g g' : moves field i R g g' -> view field g' i = ss_store field g' i.
Proof. intros (_ & Hw & _). unfold view. rewrite Hw. by destruct (ss_store field g' i). Qed.

(** They are histories of a store that is alone but for what happens elsewhere:
    the other stores only touch their own tables. *)
Lemma struct_history_alone w g tr :
  opened_struct w -> struct_history w g tr ->
  (forall j, opened (sf_map (field j)) (ss_world field g)) /\
  history (MapLaws0:=DBMap_MapLaws) (sf_map (field i)) w (view field g i) tr.
Proof.
  intros Hst. induction 1 as [|j fuel g g' tr _ [Ho IH] Hne Hm|g g' c tr _ [Ho IH] Hm Hq
    |fuel g g' tr _ [Ho IH] Hacc Hm].
  - split; [apply Hst|constructor].
  - split; [by eapply moves_opened|]. destruct (step_effect j fuel g g' (Ho j) Hm) as [Hto _].
    destruct Hm as (_ & _ & Hrest). specialize (Hrest i ltac:(done)).
    assert (view field g' i = elsewhere (ss_world field g') (view field g i)) as ->
      by (unfold view, elsewhere; by rewrite Hrest).
    apply history_elsewhere; [done|]. intros m.
    by apply (touches_models (sf_map (field j)) (sf_map (field i)) _ _ _ (os_apart w Hst j i Hne) Hto).
  - split.
    + eapply (moves_opened i 0); [exact Ho|]. destruct Hm as (Hc & Hrest).
      split; [by apply step_client|done].
    + rewrite (moved_view _ _ _ Hm). destruct Hm as (Hc & _). by eapply history_call.
  - split.
    + eapply (moves_opened i fuel); [exact Ho|]. destruct Hm as (Hs & Hrest).
      split; [rewrite Hs; apply step_serve|done].
    + rewrite (moved_view _ _ _ Hm). destruct Hm as (-> & _). by apply history_serve.
Qed.

End atomic.

(** ** Opening a struct of stores *)

Section opening.
Context {PF : Platform}.

(** A struct of stores: its fields and the stores over them. *)
Record StoreStruct : Type := mkStoreStruct {
  ss_fields : list StoreField;
  ss_stores : Stores (field_at ss_fields);
}.

(** [open_tables_read_write] of a struct of stores. *)
Definition open_stores_read_write (tables : list Table) (path : path)
    (global_db_options_override : option options)
    (tables_db_options_override : option DBMapTableConfigMap) : M (option StoreStruct) :=
  inner <- open_tables_impl tables path None global_db_options_override tables_db_options_override ;;
  w <- gets id ;;
  ret (fields ← mapM store_field inner; Some (mkStoreStruct fields (new_stores (field_at fields) w))).

Lemma mapM_store_field (ots : OpenTables) :
  Forall (fun o => is_Some (t_hash (ot_table o))) ots ->
  exists fields, mapM store_field ots = Some fields /\ map sf_table fields = ots.
Proof.
  induction 1 as [|o ots [h Hh] _ (fields & IH & Hmap)]; [by exists []|].
  assert (store_field o = Some (mkStoreField o h)) as Ho by (unfold store_field; by rewrite Hh).
  exists (mkStoreField o h :: fields). cbn [mapM]. rewrite Ho, IH. by rewrite <- Hmap.
Qed.

Lemma field_at_lookup fields i : fields !! fin_to_nat i = Some (field_at fields i).
Proof.
  pose proof (proj1 (vlookup_lookup (list_to_vec fields) i _) eq_refl) as H.
  by rewrite vec_to_list_to_vec in H.
Qed.

(** Maps of the fields of a struct that are open, over families of distinct
    names. *)
Lemma fields_opened (fields : list StoreField) w :
  Forall (fun o => opened (ot_map o) w /\ dbmap_cf (ot_map o) = t_name (ot_table o))
    (map sf_table fields) ->
  NoDup (map t_name (map ot_table (map sf_table fields))) ->
  opened_struct (field_at fields) w.
Proof.
  intros Hall Hnd. rewrite Forall_forall in Hall.
  assert (forall i, sf_table (field_at fields i) ∈ map sf_table fields) as Hin.
  { intros i. apply list_elem_of_fmap. eexists. split; [done|].
    eapply list_elem_of_lookup_2, field_at_lookup. }
  split; [intros i; apply (Hall _ (Hin i))|].
  intros i j Hne [_ Hcf]. apply Hne, fin_to_nat_inj.
  assert (t_name (ot_table (sf_table (field_at fields i))) =
    t_name (ot_table (sf_table (field_at fields j)))) as Hname.
  { rewrite <- (proj2 (Hall _ (Hin i))), <- (proj2 (Hall _ (Hin j))). symmetry. exact Hcf. }
  rewrite !map_map in Hnd.
  eapply (NoDup_lookup _ _ _ (t_name (ot_table (sf_table (field_at fields i)))) Hnd);
    rewrite list_lookup_fmap, field_at_lookup; simpl; congruence.
Qed.

End opening.

Section opening_theorem.
Context {PF : Platform} {RL : RocksLaws}.

(** C13: opening a struct of stores.  When the options can be computed, the field
    names are distinct, the key types can be hashed and RocksDB opens the
    database, [open_tables_read_write] starts one new store per field, in the
    order of the fields, each over the open column family of its own name, no
    two over the same table, in the one new database; when RocksDB refuses, it
    panics. *)
Theorem open_stores_spec (tables : list Table) (p : path) (o : options)
    (ov : option DBMapTableConfigMap) (w : World) dflt opt_cfs m :
  default_db_options w = (Ret dflt, w) ->
  map_m (table_options ov) tables w = (Ret opt_cfs, w) ->
  opt_cfs.*1 = map t_name tables -> NoDup (map t_name tables) -> w_once w = Some m ->
  Forall (fun t => is_Some (t_hash t)) tables ->
  exists descs,
    match open_cf_descriptors (create_missing_column_families true (create_if_missing true o)) p
            descs (w_fs w) with
    | (Ok d, _) =>
        exists fields w',
          open_stores_read_write tables p (Some o) ov w =
            (Ret (Some (mkStoreStruct fields (new_stores (field_at fields) w'))), w') /\
          map (fun f => ot_table (sf_table f)) fields = tables /\
          opened_struct (field_at fields) w' /\
          (forall i, open_at (sf_map (field_at fields i)) w' d)
    | (Err e, _) => (open_stores_read_write tables p (Some o) ov w).1 = Panicked "Cannot open DB."
    end.
Proof.
  intros Hdflt Hopts Hnames Hnd Hm Hhash.
  destruct (open_tables_spec tables p o ov w dflt opt_cfs m Hdflt Hopts Hnames Hnd Hm)
    as (descs & _ & Hopen).
  exists descs. destruct (open_cf_descriptors _ p descs (w_fs w)) as [[d|e] fs'].
  - destruct Hopen as (ots & w' & Hrun & Hd & Htab & Hots).
    destruct (mapM_store_field ots) as (fields & Hfields & Hmap).
    { rewrite <- Htab in Hhash. by apply Forall_fmap in Hhash. }
    exists fields, w'. subst ots. rewrite map_map in Htab. split_and!; [|done|..].
    + unfold open_stores_read_write. unfold open_tables_read_write in Hrun.
      rewrite (bind_run _ _ _ _ _ Hrun). unfold bind, gets, ret. by rewrite Hfields.
    + apply fields_opened; [|by rewrite (map_map sf_table ot_table), Htab].
      eapply Forall_impl; [exact Hots|]. intros x (_ & Hc & Ho). split; [by exists d|done].
    + intros i. rewrite Forall_forall in Hots. apply Hots, list_elem_of_fmap.
      eexists. split; [done|]. eapply list_elem_of_lookup_2, field_at_lookup.
  - unfold open_stores_read_write. unfold open_tables_read_write in Hopen.
    unfold bind. destruct (open_tables_impl _ _ _ _ _ w) as [[ots|msg] w']; [done|]. simpl in *. by injection Hopen as ->.
Qed.

End opening_theorem.
