(* ===== verification/StoreLife.v ===== *)
(** * The life of a store: handles, shutdown, progress (typed-store/src/lib.rs)

    A [Store] is a sender of the task's channel and can be cloned; the task's
    [while let Some(command) = rx.recv().await] ends when the last sender is
    gone and the channel is empty.  Over a [DBMap], under a scheduler that does
    not neglect the task for ever, every request is answered and a store that
    nobody holds ends, after it has served what was queued.  Infinite runs are
    functions from the number of a step to the state before it. *)
From S2P Require Import Prelude Bytes Platform MetricsData World Sampling Metrics Errors Traits Rocks RocksIter RocksMap RocksSpec MapTheorems BatchTheorems IterTheorems MapContract Isolation Derive DeriveTheorems Store StoreTheorems StoreGroup.
Open Scope nat_scope.
Set Default Proof Using "Type*".

Section life.
Context {PF : Platform} {T K V : Type} `{!Map T K V, !EqDecision K, !Countable K}.

(** The store with the number of its clones ([#[derive(Clone)]]). *)
Record store_life : Type := mkLife {
  lf_system : store_system (T:=T) (K:=K) (V:=V);
  lf_handles : nat;
}.

Definition store_started (w : World) : store_life := mkLife (Store_new w) 1.

(** [rx.recv()] answers [None]: the task returns and drops what it holds. *)
Definition task_returned (s : store_system (T:=T) (K:=K) (V:=V)) : store_system :=
  mkStoreSystem (st_world s) ∅ [] (st_replies s) (st_next s) false.

(** What the holders of the store do: call, clone, drop. *)
Inductive holder_step : store_life -> store_life -> Prop :=
| holder_call s s' h : 0 < h -> client_step s s' -> holder_step (mkLife s h) (mkLife s' h)
| holder_clone s h : 0 < h -> holder_step (mkLife s h) (mkLife s (S h))
| holder_drop s h : holder_step (mkLife s (S h)) (mkLife s h).

(** What the task does: serve the oldest command, or return. *)
Inductive task_step (enough : World -> nat -> Prop) (keyed_db : T) : store_life -> store_life -> Prop :=
| task_serve fuel s h :
    st_alive s = true -> st_queue s <> [] -> enough (st_world s) fuel ->
    task_step enough keyed_db (mkLife s h) (mkLife (serve fuel keyed_db s) h)
| task_return s :
    st_alive s = true -> st_queue s = [] ->
    task_step enough keyed_db (mkLife s 0) (mkLife (task_returned s) 0).

(** The task can move: there is a command, or nobody left to send one. *)
Definition task_ready (l : store_life) : Prop :=
  st_alive (lf_system l) = true /\ (st_queue (lf_system l) <> [] \/ lf_handles l = 0).

(** An infinite run: at each step a holder or the task moves, or nothing does. *)
Definition life_run (enough : World -> nat -> Prop) (keyed_db : T) (r : nat -> store_life) : Prop :=
  forall n, holder_step (r n) (r (S n)) \/ task_step enough keyed_db (r n) (r (S n)) \/ r (S n) = r n.

(** The scheduler does not neglect the task: it is not ready for ever without
    moving. *)
Definition task_fair (enough : World -> nat -> Prop) (keyed_db : T) (r : nat -> store_life) : Prop :=
  forall n, exists m, n <= m /\
    (task_step enough keyed_db (r m) (r (S m)) \/ ~ task_ready (r m)).

End life.

(** ** Turns over a [DBMap] always complete *)

Section total.
Context {PF : Platform} {RL : RocksLaws} {K V : Type} `{!Serde K, !Serde V, !EqDecision K, !Countable K}.
Implicit Types (self : DBMap K V) (c : StoreCommand (K:=K) (V:=V)).

(** Enough fuel for a loop over the table. *)
Definition covers_table self (w : World) (fuel : nat) : Prop :=
  forall d, w_dbs w !! rocksdb self = Some d -> length (rows self d) < fuel.

(** A bind that starts with something that returns, and ends in a pure answer. *)
Lemma then_pure {A B} (m : M A) (k : A -> M B) w x w1 :
  m w = (Ret x, w1) -> (exists y, k x w1 = (Ret y, w1)) -> exists y, bind m k w = (Ret y, w1).
Proof. intros Hm [y Hy]. exists y. unfold bind. by rewrite Hm. Qed.

Lemma reads_run {A} (m : M A) r w : reads m r w -> exists w', m w = (Ret r, w').
Proof. intros [Ho _]. destruct (m w) as [o w']. simpl in Ho. subst o. by exists w'. Qed.

Lemma writes_run {A} a (m : M A) rd w : writes a m rd w -> exists w', m w = (Ret rd.1, w').
Proof. intros [Ho _]. destruct (m w) as [o w']. simpl in Ho. subst o. by exists w'. Qed.

Lemma collect_iter_total fuel self p w d :
  open_at self w d -> length (rows self d) < fuel ->
  exists g w', collect_iter fuel self p w = (Ret g, w').
Proof.
  intros Ho Hf. destruct (first_iter_spec self w d Ho) as (Hok & _ & Hp).
  destruct (reads_run _ _ _ (iter_reads self w d Ho)) as [w1 Hi].
  assert (wp (drain Iter_next fuel (first_iter self d)) (fun o w' =>
    same_store w1 w' /\ o = Ret (Some (decode_prefix decode_entry (Iter_pending (first_iter self d))))) w1)
    as [_ Hd] by (apply (drain_spec _ _ _ _ Iter_steps); [done|by rewrite Hp]).
  unfold collect_iter. rewrite (bind_run _ _ _ _ _ Hi). cbn [Iterator_next DBMap_Map].
  destruct (drain Iter_next fuel (first_iter self d) w1) as [o w2] eqn:Hdr. simpl in Hd. subst o.
  rewrite (bind_run _ _ _ _ _ Hdr). by eexists _, w2.
Qed.

Lemma handle_total fuel self obl c w :
  opened self w -> covers_table self w fuel ->
  exists r w', handle fuel self obl c w = (Ret r, w') /\ opened self w'.
Proof.
  intros Ho Hf. pose proof (handle_contained fuel self obl c w Ho) as Hc.
  unfold contained, wp in Hc. destruct Hc as [_ Ho'].
  assert (exists r w', handle fuel self obl c w = (Ret r, w')) as (r & w' & Hr).
  2: { rewrite Hr in Ho'. by exists r, w'. }
  clear Ho'. destruct Ho as [d Hd]. specialize (Hf d (proj1 (proj2 Hd))).
  assert (forall A B (m : M A) (k : A -> M B), (exists x w1, m w = (Ret x, w1) /\
    exists y, k x w1 = (Ret y, w1)) -> exists r w', bind m k w = (Ret r, w')) as Hbind.
  { intros A B m k (x & w1 & Hm & Hk). destruct (then_pure m k w x w1 Hm Hk) as [y Hy]. by exists y, w1. }
  destruct c as [k v sender|kvs t|k|ks t|k t|k t|ks t|k t|p t]; cbn [handle]; apply Hbind.
  - destruct (writes_run _ _ _ _ (insert_writes self w d k v Hd)) as [w1 H1]. eexists _, w1.
    split; [exact H1|]. destruct (if is_ok _ then _ else _). by eexists.
  - destruct (writes_run _ _ _ _ (multi_insert_writes self w d kvs Hd)) as [w1 H1]. eexists _, w1.
    split; [exact H1|]. destruct (if is_ok _ then _ else _). by eexists.
  - destruct (writes_run _ _ _ _ (remove_writes self w d k Hd)) as [w1 H1]. eexists _, w1.
    split; [exact H1|]. by eexists.
  - destruct (writes_run _ _ _ _ (multi_remove_writes self w d ks Hd)) as [w1 H1]. eexists _, w1.
    split; [exact H1|]. destruct (if is_ok _ then _ else _). by eexists.
  - destruct (reads_run _ _ _ (get_reads self w d k Hd)) as [w1 H1]. eexists _, w1.
    split; [exact H1|]. by eexists.
  - destruct (reads_run _ _ _ (get_raw_reads self w d k Hd)) as [w1 H1]. eexists _, w1.
    split; [exact H1|]. by eexists.
  - destruct (reads_run _ _ _ (multi_get_reads self w d ks Hd)) as [w1 H1]. eexists _, w1.
    split; [exact H1|]. by eexists.
  - destruct (reads_run _ _ _ (get_reads self w d k Hd)) as [w1 H1]. eexists _, w1.
    split; [exact H1|]. destruct (get_core _ _ _) as [[v|]|e]; by eexists.
  - destruct (collect_iter_total fuel self p w d Hd Hf) as (g & w1 & H1). exists g, w1.
    split; [exact H1|]. by eexists.
Qed.

(** A command's own sender is answered in its turn, unless it is a [NotifyRead]. *)
Definition is_notify c : bool := match c with NotifyRead _ _ => true | _ => false end.

Lemma handle_answers fuel self obl c w obl' out w' t :
  handle fuel self obl c w = (Ret (obl', out), w') -> is_notify c = false -> t ∈ cmd_tickets c ->
  t ∈ out.*1.
Proof.
  destruct c; cbn [handle cmd_tickets is_notify]; unfold bind;
    lazymatch goal with
    | |- context [match ?m w with _ => _ end] => destruct (m w) as [[response|] w1]; [|done]
    end; try done.
  - destruct (if is_ok response then _ else _) as [obl1 out1]. intros [= <- <- _] _ Ht.
    rewrite fmap_app, elem_of_app. right. by destruct sender.
  - destruct (if is_ok response then _ else _) as [obl1 out1]. intros [= <- <- _] _ Ht.
    rewrite fmap_app, elem_of_app. by right.
  - intros _ _ ?%not_elem_of_nil. done.
  - destruct (if is_ok response then _ else _) as [obl1 out1]. intros [= <- <- _] _ Ht.
    rewrite fmap_app, elem_of_app. by right.
  - by intros [= <- <- _].
  - by intros [= <- <- _].
  - by intros [= <- <- _].
  - by intros [= <- <- _].
Qed.
End total.

(** ** Progress *)

Section progress.
Context {PF : Platform} {RL : RocksLaws} {K V : Type} `{!Serde K, !Serde V, !EqDecision K, !Countable K}.
Context (self : DBMap K V).
Implicit Types (l : store_life (T:=DBMap K V) (K:=K) (V:=V)) (r : nat -> store_life (T:=DBMap K V) (K:=K) (V:=V)).

Abbreviation queue l := (st_queue (lf_system l)).
Abbreviation replies l := (st_replies (lf_system l)).
Abbreviation alive l := (st_alive (lf_system l)).
Abbreviation obligations l := (st_obl (lf_system l)).
Abbreviation run_of := (life_run (covers_table self) self).
Abbreviation fair := (task_fair (covers_table self) self).

(** The map stays open, and the task ends only when nobody can ask any more. *)
Definition life_ok l : Prop :=
  opened self (st_world (lf_system l)) /\ (alive l = false -> lf_handles l = 0 /\ queue l = []).

(** Holders only add to the queue, and none of them can once all are gone. *)
Lemma holder_effect l l' :
  holder_step l l' -> life_ok l ->
  life_ok l' /\ alive l' = alive l /\ replies l' = replies l /\ obligations l' = obligations l /\
  exists extra, queue l' = queue l ++ extra /\
    (lf_handles l = 0 -> lf_handles l' = 0 /\ extra = []).
Proof.
  intros [s s' h Hh Hc|s h Hh|s h] [Ho Ha]; unfold life_ok; simpl in *.
  - destruct (client_effect s s' Hc) as (Hw & Hr & Hal & Hal' & extra & Hq).
    split_and!; [by rewrite Hw|by rewrite Hal'|by rewrite Hal', Hal|done|by apply client_obligations|].
    exists extra. split; [done|lia].
  - split_and!; [done| |done|done|done|].
    + intros Hf. destruct (Ha Hf). lia.
    + exists []. rewrite app_nil_r. split; [done|lia].
  - split_and!; [done| |done|done|done|].
    + intros Hf. destruct (Ha Hf). lia.
    + exists []. rewrite app_nil_r. split; [done|lia].
Qed.

(** The task serves the head of the queue, or returns. *)
Lemma task_effect l l' :
  task_step (covers_table self) self l l' -> life_ok l ->
  life_ok l' /\ lf_handles l' = lf_handles l /\
  match queue l with
  | [] => alive l' = false /\ replies l' = replies l
  | c :: q => queue l' = q /\ alive l' = true /\ exists fuel out w',
      handle fuel self (obligations l) c (st_world (lf_system l)) = (Ret (obligations l', out), w') /\
      replies l' = replies l ++ out
  end.
Proof.
  intros [fuel s h Hal Hq Hf|s Hal Hq] [Ho Ha]; unfold life_ok; simpl in *.
  - destruct (st_queue s) as [|c q] eqn:Hqs; [done|]. unfold serve. rewrite Hal, Hqs.
    destruct (handle_total fuel self (st_obl s) c (st_world s) Ho Hf) as ([obl out] & w' & Hh & Ho').
    rewrite Hh. simpl. split_and!; [done..|]. by exists fuel, out, w'.
  - rewrite Hq. by split_and!.
Qed.

Lemma run_ok r : run_of r -> life_ok (r 0) -> forall n, life_ok (r n).
Proof.
  intros Hr H0 n. induction n as [|n IH]; [done|].
  destruct (Hr n) as [Hh|[Ht|Heq]].
  - by apply (holder_effect _ _ Hh IH).
  - by apply (task_effect _ _ Ht IH).
  - by rewrite Heq.
Qed.

(** A ready task moves, from a queue that others have only made longer. *)
Lemma ready_moves r n :
  run_of r -> fair r -> life_ok (r 0) -> task_ready (r n) ->
  exists m extra, n <= m /\ task_step (covers_table self) self (r m) (r (S m)) /\
    queue (r m) = queue (r n) ++ extra /\ replies (r m) = replies (r n) /\
    (lf_handles (r n) = 0 -> lf_handles (r m) = 0 /\ extra = []).
Proof.
  intros Hr Hfair H0. destruct (Hfair n) as (m & Hm & Hmove).
  remember (m - n) as k eqn:Hk. revert n Hm Hk. induction k as [|k IH]; intros n Hm Hk Hready.
  - assert (m = n) as -> by lia. exists n, []. rewrite app_nil_r.
    destruct Hmove as [Hmove|Hmove]; [|done]. by split_and!.
  - destruct (Hr n) as [Hh|[Ht|Heq]].
    + destruct (holder_effect _ _ Hh (run_ok r Hr H0 n)) as (_ & Ha & Hrep & _ & ex & Hq & Hz).
      destruct (IH (S n)) as (m' & ex' & Hle & Hstep & Hq' & Hrep' & Hz'); [lia|lia| |].
      { destruct Hready as [Hal Hor]. split; [by rewrite Ha|].
        destruct Hor as [Hne|Hzero]; [left; rewrite Hq; by destruct (queue (r n))|right; by apply Hz]. }
      exists m', (ex ++ ex'). rewrite Hq', Hq, Hrep', app_assoc. split_and!; [lia|done..|].
      intros Hzero. destruct (Hz Hzero) as [Hz1 ->]. by apply Hz'.
    + exists n, []. rewrite app_nil_r. by split_and!.
    + destruct (IH (S n)) as (m' & ex' & Hle & Hstep & Hrest); [lia|lia|by rewrite Heq|].
      rewrite Heq in Hrest. exists m', ex'. split_and!; [lia|done|apply Hrest..].
Qed.

Lemma queued_alive l c i : life_ok l -> queue l !! i = Some c -> alive l = true.
Proof.
  intros [_ Ha] Hc. destruct (alive l); [done|]. destruct (Ha eq_refl) as [_ Hq]. by rewrite Hq in Hc.
Qed.

(** The task comes to every place of the queue, with what is after it. *)
Lemma queue_taken r i c : forall n,
  run_of r -> fair r -> life_ok (r 0) -> queue (r n) !! i = Some c ->
  exists m ex, n <= m /\ task_step (covers_table self) self (r m) (r (S m)) /\
    queue (r m) = drop i (queue (r n)) ++ ex.
Proof.
  induction i as [|i IH]; intros n Hr Hfair H0 Hc;
    pose proof (queued_alive _ _ _ (run_ok r Hr H0 n) Hc) as Hal;
    (destruct (ready_moves r n Hr Hfair H0) as (m & ex & Hle & Hstep & Hq & _);
      [split; [done|left; intros Hnil; by rewrite Hnil in Hc]|]).
  - exists m, ex. by rewrite drop_0.
  - destruct (task_effect _ _ Hstep (run_ok r Hr H0 m)) as (_ & _ & Heff).
    destruct (queue (r n)) as [|c0 q] eqn:Hqn; [done|]. rewrite Hq in Heff; simpl in Heff, Hc.
    destruct Heff as (Hq' & _).
    destruct (IH (S m) Hr Hfair H0) as (m' & ex' & Hle' & Hstep' & Hdrop).
    { rewrite Hq', lookup_app_l; [exact Hc|]. by eapply lookup_lt_Some. }
    exists m', (ex ++ ex'). split_and!; [lia|done|]. rewrite Hdrop, Hq'. simpl.
    apply lookup_lt_Some in Hc. rewrite drop_app_le by lia. by rewrite app_assoc.
Qed.

Lemma drop_head {A} (l : list A) i x ex : l !! i = Some x -> drop i l ++ ex = x :: drop (S i) l ++ ex.
Proof. intros Hx. by rewrite (drop_S l x i Hx). Qed.

(** What a turn sent, and what it did to the readers on a key. *)
Lemma turn_sends l l' c q :
  task_step (covers_table self) self l l' -> life_ok l -> queue l = c :: q ->
  (forall t, is_notify c = false -> t ∈ cmd_tickets c -> t ∈ (replies l').*1) /\
  (forall k t, waits (obligations l) k t \/ c = NotifyRead k t ->
     t ∈ (replies l').*1 \/ waits (obligations l') k t) /\
  (forall k v s t, c = Write k v s -> waits (obligations l) k t ->
     (DBMap_insert self k v (st_world (lf_system l))).1 = Ret (Ok tt) -> t ∈ (replies l').*1).
Proof.
  intros Hstep Hok Hq. destruct (task_effect _ _ Hstep Hok) as (_ & _ & Heff). rewrite Hq in Heff.
  destruct Heff as (_ & _ & fuel & out & w' & Hh & Hrep). rewrite Hrep, fmap_app. split_and!.
  - intros t Hn Ht. rewrite elem_of_app. right. by eapply handle_answers.
  - intros k t Hw. rewrite elem_of_app. eapply handle_waits in Hh; [|exact Hw]. naive_solver.
  - intros k v s t -> Hw Hins. rewrite elem_of_app. right.
    by eapply (handle_write_tells (T:=DBMap K V)).
Qed.

(** A reader that waits is answered, or goes on waiting while the task runs. *)
Definition answered_or_waits k t l : Prop :=
  alive l = false \/ t ∈ (replies l).*1 \/ waits (obligations l) k t.

Lemma answered_or_waits_step r n k t :
  run_of r -> life_ok (r 0) -> answered_or_waits k t (r n) -> answered_or_waits k t (r (S n)).
Proof.
  intros Hr H0 Hw. pose proof (run_ok r Hr H0 n) as Hok. unfold answered_or_waits in *.
  destruct (Hr n) as [Hh|[Ht|Heq]]; [| |by rewrite Heq].
  - destruct (holder_effect _ _ Hh Hok) as (_ & -> & -> & -> & _). done.
  - destruct (task_effect _ _ Ht Hok) as (_ & _ & Heff).
    destruct (queue (r n)) as [|c q] eqn:Hq; [left; apply Heff|].
    destruct (turn_sends _ _ c q Ht Hok Hq) as (_ & Hwaits & _).
    destruct Heff as (_ & Hal & fuel & out & w' & _ & Hrep).
    destruct Hw as [Hw|[Hw|Hw]].
    + destruct Hok as [_ Ha]. destruct (Ha Hw) as [_ Hnil]. by rewrite Hq in Hnil.
    + right; left. rewrite Hrep, fmap_app, elem_of_app. by left.
    + right. by apply Hwaits; left.
Qed.

Lemma answered_or_waits_later r n m k t :
  run_of r -> life_ok (r 0) -> n <= m -> answered_or_waits k t (r n) -> answered_or_waits k t (r m).
Proof. intros Hr H0 Hle Hw. induction Hle as [|m _ IH]; [done|]. by apply answered_or_waits_step. Qed.

(** A request at any place of the queue is answered in the end. *)
Lemma queued_answered r i n c t :
  run_of r -> fair r -> life_ok (r 0) ->
  queue (r n) !! i = Some c -> is_notify c = false -> t ∈ cmd_tickets c ->
  exists m, n <= m /\ t ∈ (replies (r m)).*1.
Proof.
  intros Hr Hfair H0 Hc Hn Ht.
  destruct (queue_taken r i c n Hr Hfair H0 Hc) as (m & ex & Hle & Hstep & Hq).
  rewrite (drop_head _ _ _ _ Hc) in Hq.
  destruct (turn_sends _ _ _ _ Hstep (run_ok r Hr H0 m) Hq) as (Hown & _).
  exists (S m). split; [lia|by apply Hown].
Qed.

(** A reader ahead of a write to its key is answered before the write or by it. *)
Lemma notify_answered r i j n k t v s :
  run_of r -> fair r -> life_ok (r 0) -> i < j ->
  queue (r n) !! i = Some (NotifyRead k t) -> queue (r n) !! j = Some (Write k v s) ->
  exists m q, n <= m /\ queue (r m) = Write k v s :: q /\ queue (r (S m)) = q /\
    ((DBMap_insert self k v (st_world (lf_system (r m)))).1 = Ret (Ok tt) ->
     t ∈ (replies (r (S m))).*1).
Proof.
  intros Hr Hfair H0 Hij Hi Hj.
  destruct (queue_taken r i _ n Hr Hfair H0 Hi) as (m1 & ex & Hle & Hstep & Hq).
  rewrite (drop_head _ _ _ _ Hi) in Hq. pose proof (run_ok r Hr H0 m1) as Hok1.
  destruct (turn_sends _ _ _ _ Hstep Hok1 Hq) as (_ & Hw & _). specialize (Hw k t (or_intror eq_refl)).
  destruct (task_effect _ _ Hstep Hok1) as (_ & _ & Heff). rewrite Hq in Heff. destruct Heff as (Hq1 & _).
  assert (queue (r (S m1)) !! (j - S i) = Some (Write k v s)) as Hj1.
  { rewrite Hq1, lookup_app_l; [rewrite lookup_drop; by replace (S i + (j - S i)) with j by lia|].
    apply lookup_lt_Some in Hj. rewrite length_drop. lia. }
  destruct (queue_taken r (j - S i) _ (S m1) Hr Hfair H0 Hj1) as (m2 & ex2 & Hle2 & Hstep2 & Hq2).
  rewrite (drop_head _ _ _ _ Hj1) in Hq2. pose proof (run_ok r Hr H0 m2) as Hok2.
  destruct (turn_sends _ _ _ _ Hstep2 Hok2 Hq2) as (_ & _ & Htell).
  destruct (task_effect _ _ Hstep2 Hok2) as (_ & _ & Heff2). rewrite Hq2 in Heff2.
  destruct Heff2 as (Hq3 & _ & fuel & out & w' & _ & Hrep).
  eexists m2, _. split_and!; [lia|exact Hq2|exact Hq3|]. intros Hins.
  destruct (answered_or_waits_later r (S m1) m2 k t Hr H0 Hle2 (or_intror Hw)) as [Hd|[Ha|Hp]].
  - destruct Hok2 as [_ Hend]. destruct (Hend Hd) as [_ Hnil]. by rewrite Hnil in Hq2.
  - rewrite Hrep, fmap_app, elem_of_app. by left.
  - by eapply Htell.
Qed.

(** A store that nobody holds ends once its queue is empty. *)
Lemma released_ends r n :
  run_of r -> fair r -> life_ok (r 0) -> lf_handles (r n) = 0 ->
  exists m, n <= m /\ alive (r m) = false.
Proof.
  intros Hr Hfair H0. remember (length (queue (r n))) as k eqn:Hk. revert n Hk.
  induction k as [|k IH]; intros n Hk Hz;
    (destruct (alive (r n)) eqn:Hal; [|by exists n]);
    (destruct (ready_moves r n Hr Hfair H0) as (m & ex & Hle & Hstep & Hq & _ & Hzm); [by split; [|right]|]);
    destruct (Hzm Hz) as [Hzm' ->]; rewrite app_nil_r in Hq;
    destruct (task_effect _ _ Hstep (run_ok r Hr H0 m)) as (_ & Hh & Heff); rewrite Hq in Heff;
    destruct (queue (r n)) as [|c q]; try done.
  - exists (S m). split; [lia|apply Heff].
  - destruct (IH (S m)) as (m' & Hle' & Hend); [destruct Heff as (-> & _); by injection Hk|congruence|].
    exists m'. split; [lia|done].
Qed.

(** C9: no request starves, and a store ends when it is released.  Over an open
    map, under any scheduling of holders and task that does not neglect the
    task for ever: the task never dies of a panic, for it ends only when every
    clone of the store is dropped and the channel is empty; every request that
    was sent, except a [NotifyRead], is answered, also one still queued when
    the last clone is dropped, and after that the task returns; and a
    [NotifyRead] that is ahead of a write to its key has been answered when that
    write was served, if the map accepted the write. *)
Theorem store_answers_and_ends r w :
  opened self w -> r 0 = store_started w -> run_of r -> fair r ->
  (forall n, alive (r n) = false -> lf_handles (r n) = 0 /\ queue (r n) = []) /\
  (forall n c t, c ∈ queue (r n) -> is_notify c = false -> t ∈ cmd_tickets c ->
     exists m, n <= m /\ t ∈ (replies (r m)).*1) /\
  (forall n, lf_handles (r n) = 0 -> exists m, n <= m /\ alive (r m) = false) /\
  (forall n i j k t v s, i < j ->
     queue (r n) !! i = Some (NotifyRead k t) -> queue (r n) !! j = Some (Write k v s) ->
     exists m q, n <= m /\ queue (r m) = Write k v s :: q /\ queue (r (S m)) = q /\
       ((DBMap_insert self k v (st_world (lf_system (r m)))).1 = Ret (Ok tt) ->
        t ∈ (replies (r (S m))).*1)).
Proof.
  intros Ho Hstart Hr Hfair.
  assert (life_ok (r 0)) as H0 by (rewrite Hstart; by split).
  split_and!.
  - intros n. apply (run_ok r Hr H0 n).
  - intros n c t [i Hc]%list_elem_of_lookup. by eapply queued_answered.
  - intros n. by apply released_ends.
  - intros n i j k t v s. by apply notify_answered.
Qed.

End progress.
