(* ===== verification/Telemetry.v ===== *)
(** * Set-up of tracing (telemetry-subscribers/src/lib.rs, span_latency_prom.rs)

    The configuration of a process' tracing, from code and from the environment,
    [init] with the layers it stacks, the handle that changes the log filter
    later, the panic hook, and the layer that observes the latency of every span
    in a Prometheus histogram.  tracing, tracing-subscriber and the exporters
    are parameters ([Tracing]); the process-wide things they set (the default
    subscriber, the panic hook, the filter cells) are the state. *)
From Stdlib Require Import SpecFloat.
From S2P Require Import Prelude Bytes Platform World.
Open Scope Z_scope.

(** Crate features, levels, metadata of spans and events, filters. *)
Class Tracing : Type := {
  feature_tokio_console : bool;
  feature_chrome : bool;
  feature_jaeger : bool;
  Level : Type;
  INFO : Level;
  level_le : Level -> Level -> bool;
  Level_from_str : string -> option Level;
  Metadata : Type;
  is_span : Metadata -> bool;
  meta_level : Metadata -> Level;
  meta_name : Metadata -> string;
  EnvFilter : Type;
  EnvFilter_try_new : string -> result EnvFilter string;
  EnvFilter_new : string -> EnvFilter;
  EnvFilter_try_from_default_env : gmap string os_str -> result EnvFilter string;
  EnvFilter_from_env_lossy : Level -> gmap string os_str -> EnvFilter;
  EnvFilter_to_string : EnvFilter -> string;
  stderr_is_tty : bool;
  install_batch : string -> Z -> bool -> result unit string;
  powf : f64 -> f64 -> f64;
  exponential_buckets : f64 -> f64 -> Z -> result (list f64) string;
}.

Section telemetry.
Context {PF : Platform} {TR : Tracing}.

(** ** Configuration *)

Record TelemetryConfig : Type := mkTelemetryConfig {
  service_name : string;
  enable_jaeger : bool;
  tokio_console : bool;
  json_log_output : bool;
  chrome_trace_output : bool;
  log_file : option string;
  log_string : option string;
  span_level : option Level;
  panic_hook : bool;
  crash_on_panic : bool;
  prom_registry : option arc;
}.

Definition TelemetryConfig_new (service_name : string) : TelemetryConfig :=
  mkTelemetryConfig service_name false false false false None None None true false None.

Definition with_log_level (self : TelemetryConfig) (log_string : string) : TelemetryConfig :=
  mkTelemetryConfig (service_name self) (enable_jaeger self) (tokio_console self)
    (json_log_output self) (chrome_trace_output self) (log_file self) (Some log_string)
    (span_level self) (panic_hook self) (crash_on_panic self) (prom_registry self).

Definition with_span_level (self : TelemetryConfig) (span_level : Level) : TelemetryConfig :=
  mkTelemetryConfig (service_name self) (enable_jaeger self) (tokio_console self)
    (json_log_output self) (chrome_trace_output self) (log_file self) (log_string self)
    (Some span_level) (panic_hook self) (crash_on_panic self) (prom_registry self).

Definition with_log_file (self : TelemetryConfig) (filename : string) : TelemetryConfig :=
  mkTelemetryConfig (service_name self) (enable_jaeger self) (tokio_console self)
    (json_log_output self) (chrome_trace_output self) (Some filename) (log_string self)
    (span_level self) (panic_hook self) (crash_on_panic self) (prom_registry self).

Definition with_prom_registry (self : TelemetryConfig) (registry : arc) : TelemetryConfig :=
  mkTelemetryConfig (service_name self) (enable_jaeger self) (tokio_console self)
    (json_log_output self) (chrome_trace_output self) (log_file self) (log_string self)
    (span_level self) (panic_hook self) (crash_on_panic self) (Some registry).

(** ** The process *)

Record HistogramVec : Type := mkHistogramVec {
  hv_name : string;
  hv_labels : list string;
  hv_buckets : list f64;
}.

(** Where log lines go; the non-blocking writer of an output has its guard. *)
Inductive output : Type :=
| RollingDaily (directory prefix : string)
| Stderr.

(** A boxed layer.  A filter on spans is its level, one on logs its cell. *)
Inductive tracing_layer : Type :=
| ConsoleLayer
| ChromeLayer
| SpanLatencyLayer (span_latencies : HistogramVec) (span_filter : Level)
| OpenTelemetryLayer (service : string) (span_filter : Level)
| BunyanLayer (service : string) (out : output) (log_filter : nat)
| FmtLayer (ansi : bool) (out : output) (log_filter : nat).

Inductive subscriber : Type :=
| LayeredRegistry (layers : list tracing_layer)
| FmtTestSubscriber (filter : EnvFilter).

(** The hook [std::panic] runs: the standard one, or the closure of
    [set_panic_hook] with the hook it has taken. *)
Inductive panic_handler : Type :=
| StdHook
| LogHook (crash_on_panic : bool) (default_panic_handler : panic_handler).

(** A [once_cell] [Lazy]: its closure runs once; if it panicked, the cell is
    poisoned. *)
Inductive lazy_cell : Type := Unforced | Forced | Poisoned.

Record Process : Type := mkProcess {
  p_env : gmap string os_str;
  p_registries : gmap arc registry;
  p_filters : gmap nat EnvFilter;     (* the cells of the reload layers *)
  p_default : option subscriber;      (* the global default *)
  p_hook : panic_handler;
  p_propagator : bool;                (* a text map propagator is set *)
  p_logger : lazy_cell;               (* the LOGGER of init_for_testing *)
}.

Definition set_p_registries x (p : Process) : Process :=
  mkProcess (p_env p) x (p_filters p) (p_default p) (p_hook p) (p_propagator p) (p_logger p).
Definition set_p_filters x (p : Process) : Process :=
  mkProcess (p_env p) (p_registries p) x (p_default p) (p_hook p) (p_propagator p) (p_logger p).
Definition set_p_default x (p : Process) : Process :=
  mkProcess (p_env p) (p_registries p) (p_filters p) x (p_hook p) (p_propagator p) (p_logger p).
Definition set_p_hook x (p : Process) : Process :=
  mkProcess (p_env p) (p_registries p) (p_filters p) (p_default p) x (p_propagator p) (p_logger p).
Definition set_p_propagator x (p : Process) : Process :=
  mkProcess (p_env p) (p_registries p) (p_filters p) (p_default p) (p_hook p) x (p_logger p).
Definition set_p_logger x (p : Process) : Process :=
  mkProcess (p_env p) (p_registries p) (p_filters p) (p_default p) (p_hook p) (p_propagator p) x.

(** [std::env::var(name)]: unset and non-Unicode values are errors. *)
Definition env_lookup (name : string) (env : gmap string os_str) : option string :=
  v ← env !! name; to_str v.

Definition env_is_ok (name : string) (env : gmap string os_str) : bool :=
  bool_decide (is_Some (env_lookup name env)).

(** [if cond { self.field = true }]. *)
Definition or_set (cond field : bool) : bool := if cond then true else field.

Definition with_env (self : TelemetryConfig) : comp Process TelemetryConfig :=
  env <- gets p_env ;;
  level <- match env_lookup "TOKIO_SPAN_LEVEL" env with
           | Some s => l <- expect "Cannot parse TOKIO_SPAN_LEVEL" (Level_from_str s) ;; ret (Some l)
           | None => ret (span_level self)
           end ;;
  ret (mkTelemetryConfig (service_name self)
        (or_set (env_is_ok "TOKIO_JAEGER" env) (enable_jaeger self))
        (or_set (env_is_ok "TOKIO_CONSOLE" env) (tokio_console self))
        (or_set (env_is_ok "ENABLE_JSON_LOGS" env) (json_log_output self))
        (or_set (env_is_ok "TOKIO_CHROME" env) (chrome_trace_output self))
        (match env_lookup "RUST_LOG_FILE" env with
         | Some filepath => Some filepath
         | None => log_file self
         end)
        (log_string self) level (panic_hook self)
        (or_set (env_is_ok "CRASH_ON_PANIC" env) (crash_on_panic self))
        (prom_registry self)).

(** ** The log filter *)

(** [reload::Layer::new]: a cell for the filter. *)
Definition reload_new (f : EnvFilter) : comp Process nat :=
  cells <- gets p_filters ;;
  let c := fresh (dom cells) in
  modify (set_p_filters (<[c := f]> cells)) ;; ret c.

(** A [FilterHandle] points to its cell weakly. *)
Definition FilterHandle : Type := nat.

Definition subscriber_gone : string := "subscriber no longer exists".

Definition FilterHandle_update (self : FilterHandle) (directives : string) :
    comp Process (result unit string) :=
  filter <-? ret (EnvFilter_try_new directives) ;;
  cells <- gets p_filters ;;
  match cells !! self with
  | Some _ => modify (set_p_filters (<[self := filter]> cells)) ;; ret (Ok tt)
  | None => ret (Err subscriber_gone)
  end.

Definition FilterHandle_get (self : FilterHandle) : comp Process (result string string) :=
  cells <- gets p_filters ;;
  ret (map_ok EnvFilter_to_string (ok_or (cells !! self) subscriber_gone)).

(** ** Output and panics *)

(** The writer, and the [WorkerGuard] of its output. *)
Definition get_output (log_file : option string) : output :=
  match log_file with
  | Some logfile_prefix => RollingDaily "" logfile_prefix
  | None => Stderr
  end.

Definition set_panic_hook (crash_on_panic : bool) : comp Process unit :=
  default_panic_handler <- gets p_hook ;;
  modify (set_p_hook (LogHook crash_on_panic default_panic_handler)).

(** What a hook does when the process panics, in order. *)
Inductive hook_action : Type :=
| LogError (location : option (string * Z * Z))
| DefaultHook
| FlushStderr
| FlushStdout
| Exit (code : Z).

Fixpoint run_hook (h : panic_handler) (location : option (string * Z * Z)) : list hook_action * bool :=
  match h with
  | StdHook => ([DefaultHook], false)
  | LogHook crash default_panic_handler =>
      let (acts, exited) := run_hook default_panic_handler location in
      if exited then (LogError location :: acts, true)
      else (LogError location :: acts ++ [FlushStderr; FlushStdout] ++
              (if crash then [Exit 12] else []), crash)
  end.

(** ** Span latencies: the layer *)

Inductive PrometheusSpanError : Type :=
| ZeroOrNegativeNumBuckets
| PromError (e : string).

Definition f64_mul (a b : f64) : f64 := SFmul 53 1024 a b.
Definition f64_div (a b : f64) : f64 := SFdiv 53 1024 a b.

Definition TOP_LATENCY_IN_NS : f64 := f64_mul (f64_of_Z 300) (f64_of_Z 1000000000).
Definition LOWEST_LATENCY_IN_NS : f64 := f64_of_Z 500.

Definition register_histogram_vec_with_registry (h : HistogramVec) (reg : arc) :
    comp Process (result HistogramVec string) :=
  fun p =>
    match p_registries p !! reg with
    | None => (Panicked dangling, p)
    | Some r =>
        let (res, r') := prom_register (hv_name h) r in
        (Ret (map_ok (fun _ => h) res), set_p_registries (<[reg := r']> (p_registries p)) p)
    end.

Definition try_new (reg : arc) (num_buckets : Z) : comp Process (result HistogramVec PrometheusSpanError) :=
  if num_buckets <? 1 then ret (Err ZeroOrNegativeNumBuckets)
  else
    let factor := powf (f64_div TOP_LATENCY_IN_NS LOWEST_LATENCY_IN_NS)
                       (f64_div (f64_of_Z 1) (f64_of_Z num_buckets)) in
    buckets <-? ret (map_err PromError (exponential_buckets LOWEST_LATENCY_IN_NS factor num_buckets)) ;;
    res <- register_histogram_vec_with_registry
             (mkHistogramVec "tracing_span_latencies" ["span_name"] buckets) reg ;;
    ret (map_err PromError res).

(** ** [init] *)

Record TelemetryGuards : Type := mkTelemetryGuards {
  worker_guard : output;
  chrome_guard : option unit;
}.

Definition span_filter (span_level : Level) (metadata : Metadata) : bool :=
  is_span metadata && level_le (meta_level metadata) span_level.

(** [SubscriberInitExt::init]: a process has at most one default. *)
Definition set_default (s : subscriber) (failure : string) : comp Process unit :=
  d <- gets p_default ;;
  match d with
  | Some _ => panic failure
  | None => modify (set_p_default (Some s))
  end.

Definition no_layers : comp Process (list tracing_layer) := ret [].

Definition prometheus_layers (config : TelemetryConfig) (span_level : Level) :
    comp Process (list tracing_layer) :=
  match prom_registry config with
  | Some registry =>
      r <- try_new registry 15 ;;
      span_lat_layer <- unwrap "Could not initialize span latency layer" r ;;
      ret [SpanLatencyLayer span_lat_layer span_level]
  | None => no_layers
  end.

Definition jaeger_layers (config : TelemetryConfig) (span_level : Level) :
    comp Process (list tracing_layer) :=
  if feature_jaeger && enable_jaeger config then
    _ <- unwrap "Could not create async Tracer" (install_batch (service_name config) 9216 true) ;;
    modify (set_p_propagator true) ;;
    ret [OpenTelemetryLayer (service_name config) span_level]
  else no_layers.

Definition output_layer (config : TelemetryConfig) (log_filter : nat) : tracing_layer :=
  let nb_output := get_output (log_file config) in
  if json_log_output config then BunyanLayer (service_name config) nb_output log_filter
  else FmtLayer (bool_decide (log_file config = None) && stderr_is_tty) nb_output log_filter.

Definition init (config : TelemetryConfig) : comp Process (TelemetryGuards * FilterHandle) :=
  let log_level := default "info" (log_string config) in
  env <- gets p_env ;;
  let env_filter := match EnvFilter_try_from_default_env env with
                    | Ok f => f
                    | Err _ => EnvFilter_new log_level
                    end in
  log_filter <- reload_new env_filter ;;
  let span_level := default INFO (span_level config) in
  let console := if feature_tokio_console && tokio_console config then [ConsoleLayer] else [] in
  let chrome := feature_chrome && chrome_trace_output config in
  let layers := console ++ (if chrome then [ChromeLayer] else []) in
  prom <- prometheus_layers config span_level ;;
  jaeger <- jaeger_layers config span_level ;;
  let layers := layers ++ prom ++ jaeger ++ [output_layer config log_filter] in
  set_default (LayeredRegistry layers) "failed to set global default subscriber" ;;
  when (panic_hook config) (set_panic_hook (crash_on_panic config)) ;;
  ret (mkTelemetryGuards (get_output (log_file config)) (if chrome then Some tt else None), log_filter).

(** The closure of [LOGGER], and [Lazy::force(&LOGGER)]. *)
Definition logger_closure : comp Process unit :=
  env <- gets p_env ;;
  set_default (FmtTestSubscriber (EnvFilter_from_env_lossy INFO env))
    "unable to initialize logging for tests".

Definition init_for_testing : comp Process unit :=
  logger <- gets p_logger ;;
  match logger with
  | Forced => ret tt
  | Poisoned => panic "Lazy instance has previously been poisoned"
  | Unforced =>
      on_panic (set_p_logger Poisoned) logger_closure ;;
      modify (set_p_logger Forced)
  end.

(** ** Span latencies: the callbacks *)

(** What the registry of tracing keeps for an open span: its metadata and, of
    its extensions, the [PromSpanTimestamp]. *)
Record SpanData : Type := mkSpanData {
  sd_meta : Metadata;
  sd_timestamp : option Z;
}.

(** Open spans, the clock in nanoseconds, the calls of [observe]. *)
Record Spans : Type := mkSpans {
  sp_open : gmap nat SpanData;
  sp_now : Z;
  sp_observed : list (string * f64);
}.

Definition no_span : string := "called `Option::unwrap()` on a `None` value".

(** [ExtensionsMut::insert] panics when the type is there already. *)
Definition on_new_span (id : nat) : comp Spans unit :=
  s <- gets sp_open ;;
  span <- expect no_span (s !! id) ;;
  match sd_timestamp span with
  | Some _ => panic "assertion failed: self.replace(val).is_none()"
  | None =>
      modify (fun s => mkSpans (<[id := mkSpanData (sd_meta span) (Some (sp_now s))]> (sp_open s))
                         (sp_now s) (sp_observed s))
  end.

(** [start_time.elapsed().as_nanos() as u64]. *)
Definition on_close (id : nat) : comp Spans unit :=
  s <- gets sp_open ;;
  span <- expect no_span (s !! id) ;;
  start_time <- expect "Could not find saved timestamp on span" (sd_timestamp span) ;;
  now <- gets sp_now ;;
  let elapsed_ns := wrap64 (Z.max 0 (now - start_time)) in
  modify (fun s => mkSpans (sp_open s) (sp_now s)
                     (sp_observed s ++ [(meta_name (sd_meta span), f64_of_Z elapsed_ns)])).

(** ** What happens to spans while the layer is installed under a filter *)

Inductive span_event : Type :=
| Pass (ns : N)                     (* time passes *)
| New (id : nat) (meta : Metadata)  (* a span is created *)
| Close (id : nat).                 (* the last handle of a span is dropped *)

Definition set_sp_open (x : gmap nat SpanData) (s : Spans) : Spans :=
  mkSpans x (sp_now s) (sp_observed s).

(** tracing's registry: it calls the layer for the spans its filter enables,
    with the span in place, never gives the id of an open span again, and
    forgets a span after its [on_close]. *)
Definition span_event_step (filter : Metadata -> bool) (e : span_event) : comp Spans unit :=
  match e with
  | Pass ns => modify (fun s => mkSpans (sp_open s) (sp_now s + Z.of_N ns) (sp_observed s))
  | New id meta =>
      s <- gets sp_open ;;
      match s !! id with
      | Some _ => ret tt
      | None =>
          modify (set_sp_open (<[id := mkSpanData meta None]> s)) ;;
          when (filter meta) (on_new_span id)
      end
  | Close id =>
      s <- gets sp_open ;;
      match s !! id with
      | None => ret tt
      | Some span =>
          when (filter (sd_meta span)) (on_close id) ;;
          modify (fun s => set_sp_open (delete id (sp_open s)) s)
      end
  end.

Definition run_spans (filter : Metadata -> bool) (es : list span_event) : comp Spans unit :=
  for_each (span_event_step filter) es.

Definition no_spans : Spans := mkSpans ∅ 0 [].

End telemetry.
