(* ===== verification/TelemetryTheorems.v ===== *)
(** * Theorems on the set-up of tracing

    What the environment adds to a configuration, what [init] installs and that
    it installs once, how the log filter is changed, and that every span is
    observed once with its own latency. *)
From S2P Require Import Prelude Bytes Platform World Telemetry.
Open Scope Z_scope.

Section config.
Context {PF : Platform} {TR : Tracing}.

(** The level [with_env] sets, or [None] when it panics. *)
Definition env_level (env : gmap string os_str) (field : option Level) : option (option Level) :=
  match env_lookup "TOKIO_SPAN_LEVEL" env with
  | Some s => Some <$> Level_from_str s
  | None => Some field
  end.

Lemma or_set_orb c f : or_set c f = c || f.
Proof. by destruct c. Qed.

Lemma with_env_level c p :
  (forall c' p', with_env c p = (Ret c', p') ->
     p' = p /\ env_level (p_env p) (span_level c) = Some (span_level c')) /\
  (env_level (p_env p) (span_level c) = None ->
     with_env c p = (Panicked "Cannot parse TOKIO_SPAN_LEVEL", p)).
Proof.
  unfold with_env, env_level, bind, gets, expect, ret, panic.
  destruct (env_lookup "TOKIO_SPAN_LEVEL" _) as [s|]; simpl.
  - destruct (Level_from_str s); simpl; split; by intros; simplify_eq/=.
  - split; by intros; simplify_eq/=.
Qed.

(** [with_env] turns options on and never off, takes the log file and the
    span level from the environment when they are there, touches nothing else,
    panics exactly on a level that does not parse, and applying it a second
    time changes nothing. *)
Theorem with_env_spec (c : TelemetryConfig) (p : Process) :
  match env_level (p_env p) (span_level c) with
  | None => with_env c p = (Panicked "Cannot parse TOKIO_SPAN_LEVEL", p)
  | Some level => exists c',
      with_env c p = (Ret c', p) /\ with_env c' p = (Ret c', p) /\
      span_level c' = level /\
      service_name c' = service_name c /\ log_string c' = log_string c /\
      panic_hook c' = panic_hook c /\ prom_registry c' = prom_registry c /\
      log_file c' = match env_lookup "RUST_LOG_FILE" (p_env p) with
                    | Some f => Some f | None => log_file c end /\
      enable_jaeger c' = env_is_ok "TOKIO_JAEGER" (p_env p) || enable_jaeger c /\
      tokio_console c' = env_is_ok "TOKIO_CONSOLE" (p_env p) || tokio_console c /\
      json_log_output c' = env_is_ok "ENABLE_JSON_LOGS" (p_env p) || json_log_output c /\
      chrome_trace_output c' = env_is_ok "TOKIO_CHROME" (p_env p) || chrome_trace_output c /\
      crash_on_panic c' = env_is_ok "CRASH_ON_PANIC" (p_env p) || crash_on_panic c
  end.
Proof.
  unfold env_level, with_env, bind, gets, expect, ret, panic.
  destruct (env_lookup "TOKIO_SPAN_LEVEL" _) as [s|]; simpl.
  2: { eexists. split; [reflexivity|]. simpl. rewrite !or_set_orb, !orb_assoc, !orb_diag.
       split_and!; try done. by destruct (env_lookup "RUST_LOG_FILE" _). }
  destruct (Level_from_str s) as [l|]; simpl; [|done].
  eexists. split; [reflexivity|]. simpl. rewrite !or_set_orb, !orb_assoc, !orb_diag.
  split_and!; try done. by destruct (env_lookup "RUST_LOG_FILE" _).
Qed.

(** ** [init] *)

(** The log filter a process starts with: RUST_LOG, else the configured one. *)
Definition initial_filter (c : TelemetryConfig) (p : Process) : EnvFilter :=
  match EnvFilter_try_from_default_env (p_env p) with
  | Ok f => f
  | Err _ => EnvFilter_new (default "info" (log_string c))
  end.

Definition latency_factor (num_buckets : Z) : f64 :=
  powf (f64_div TOP_LATENCY_IN_NS LOWEST_LATENCY_IN_NS) (f64_div (f64_of_Z 1) (f64_of_Z num_buckets)).

(** Each case of [try_new]. *)
Lemma try_new_cases reg n p r :
  p_registries p !! reg = Some r ->
  exists p',
    p' = (if n <? 1 then p
          else match exponential_buckets LOWEST_LATENCY_IN_NS (latency_factor n) n with
               | Err _ => p
               | Ok _ => set_p_registries
                   (<[reg := (prom_register "tracing_span_latencies" r).2]> (p_registries p)) p
               end) /\
    try_new reg n p =
      (Ret (if n <? 1 then Err ZeroOrNegativeNumBuckets
            else match exponential_buckets LOWEST_LATENCY_IN_NS (latency_factor n) n with
                 | Err e => Err (PromError e)
                 | Ok b => map_err PromError (map_ok
                     (fun _ => mkHistogramVec "tracing_span_latencies" ["span_name"] b)
                     (prom_register "tracing_span_latencies" r).1)
                 end), p').
Proof.
  intros Hr. eexists. split; [reflexivity|]. unfold try_new.
  destruct (n <? 1); [done|]. fold (latency_factor n).
  unfold try_bind, bind, ret.
  destruct (exponential_buckets _ _ _) as [b|e]; simpl; [|done].
  unfold register_histogram_vec_with_registry. simpl. rewrite Hr.
  by destruct (prom_register _ r).
Qed.

(** The layers of spans a configuration asks for. *)
Definition span_layers (c : TelemetryConfig) (buckets : list f64) : list tracing_layer :=
  let level := default INFO (span_level c) in
  (if feature_tokio_console && tokio_console c then [ConsoleLayer] else []) ++
  (if feature_chrome && chrome_trace_output c then [ChromeLayer] else []) ++
  (match prom_registry c with
   | Some _ => [SpanLatencyLayer
                  (mkHistogramVec "tracing_span_latencies" ["span_name"] buckets) level]
   | None => []
   end) ++
  (if feature_jaeger && enable_jaeger c then [OpenTelemetryLayer (service_name c) level] else []).

(** What [init] needs: a registry that does not have the histogram yet, and a
    tracer that can be installed. *)
Definition init_ready (c : TelemetryConfig) (p : Process) (buckets : list f64) : Prop :=
  p_default p = None /\
  (forall reg, prom_registry c = Some reg ->
     exponential_buckets LOWEST_LATENCY_IN_NS (latency_factor 15) 15 = Ok buckets /\
     exists r, p_registries p !! reg = Some r /\ exists u r',
       prom_register "tracing_span_latencies" r = (Ok u, r')) /\
  (feature_jaeger && enable_jaeger c = true -> is_ok (install_batch (service_name c) 9216 true) = true).

Lemma prometheus_layers_ready c p buckets level :
  init_ready c p buckets ->
  exists rs, prometheus_layers c level p =
    (Ret (match prom_registry c with
          | Some _ => [SpanLatencyLayer
              (mkHistogramVec "tracing_span_latencies" ["span_name"] buckets) level]
          | None => []
          end), set_p_registries rs p).
Proof.
  intros (_ & Hreg & _). unfold prometheus_layers.
  destruct (prom_registry c) as [reg|].
  2: { exists (p_registries p). by destruct p. }
  destruct (Hreg reg eq_refl) as (Hb & r & Hr & u & r' & Hu).
  destruct (try_new_cases reg 15 p r Hr) as (p' & -> & Ht). eexists.
  unfold bind at 1. rewrite Ht. simpl. rewrite Hb, Hu. simpl. reflexivity.
Qed.

Lemma jaeger_layers_ready c p level :
  (feature_jaeger && enable_jaeger c = true -> is_ok (install_batch (service_name c) 9216 true) = true) ->
  exists b, jaeger_layers c level p =
    (Ret (if feature_jaeger && enable_jaeger c
          then [OpenTelemetryLayer (service_name c) level] else []), set_p_propagator b p).
Proof.
  intros Hj. unfold jaeger_layers. destruct (feature_jaeger && enable_jaeger c).
  - exists true. destruct (install_batch _ _ _); [done | by specialize (Hj eq_refl)].
  - exists (p_propagator p). by destruct p.
Qed.

(** [init], symbolically. *)
Lemma init_ready_eq c p buckets :
  init_ready c p buckets ->
  exists p' h,
    init c p = (Ret (mkTelemetryGuards (get_output (log_file c))
                       (if feature_chrome && chrome_trace_output c then Some tt else None), h), p') /\
    p_default p' = Some (LayeredRegistry (span_layers c buckets ++ [output_layer c h])) /\
    p_filters p !! h = None /\ p_filters p' = <[h := initial_filter c p]> (p_filters p) /\
    p_hook p' = (if panic_hook c then LogHook (crash_on_panic c) (p_hook p) else p_hook p) /\
    p_env p' = p_env p /\ p_logger p' = p_logger p.
Proof.
  intros Hready. pose proof Hready as (Hd & _ & Hj).
  set (h := stdpp.base.fresh (dom (p_filters p))).
  set (p1 := set_p_filters (<[h := initial_filter c p]> (p_filters p)) p).
  assert (Hready1 : init_ready c p1 buckets) by exact Hready.
  destruct (prometheus_layers_ready c p1 buckets (default INFO (span_level c)) Hready1) as [rs Hp].
  destruct (jaeger_layers_ready c (set_p_registries rs p1) (default INFO (span_level c)) Hj) as [b Hjl].
  assert (Hr : reload_new (initial_filter c p) p = (Ret h, p1)) by reflexivity.
  unfold init. erewrite bind_run by reflexivity. cbv zeta.
  rewrite (bind_run _ _ _ _ _ Hr), (bind_run _ _ _ _ _ Hp), (bind_run _ _ _ _ _ Hjl).
  unfold set_default, bind, gets. simpl. rewrite Hd.
  assert (p_filters p !! h = None) by (apply not_elem_of_dom, is_fresh). unfold when.
  destruct (panic_hook c); (eexists _, h; split; [reflexivity|]); simpl;
    unfold span_layers; rewrite <- !app_assoc; done.
Qed.

(** Where a configuration logs to, and how. *)
Definition log_output (c : TelemetryConfig) : output :=
  match log_file c with Some prefix => RollingDaily "" prefix | None => Stderr end.

Definition log_layer (c : TelemetryConfig) (log_filter : nat) : tracing_layer :=
  match json_log_output c, log_file c with
  | true, _ => BunyanLayer (service_name c) (log_output c) log_filter
  | false, Some _ => FmtLayer false (log_output c) log_filter
  | false, None => FmtLayer stderr_is_tty (log_output c) log_filter
  end.

Lemma log_output_eq c : get_output (log_file c) = log_output c.
Proof. done. Qed.

Lemma log_layer_eq c h : output_layer c h = log_layer c h.
Proof.
  unfold output_layer, log_layer, log_output. destruct (json_log_output c); [done|].
  by destruct (log_file c).
Qed.

(** C27: [init] installs one subscriber: the layers the configuration and the
    features ask for, in order, the spans' ones under the span level and the
    output under a filter of its own, which is RUST_LOG when it parses and the
    configured log level otherwise; it returns the guards of what it opened and
    the handle of that filter; with a panic hook, a panic is then logged and
    handed to the earlier hook, the outputs are flushed, and the process exits
    with 12 exactly when crashing on panics is asked for. *)
Theorem init_spec (c : TelemetryConfig) (p : Process) (buckets : list f64) :
  init_ready c p buckets ->
  exists p' h,
    init c p = (Ret (mkTelemetryGuards (log_output c)
                       (if feature_chrome && chrome_trace_output c then Some tt else None), h), p') /\
    p_default p' = Some (LayeredRegistry (span_layers c buckets ++ [log_layer c h])) /\
    FilterHandle_get h p' = (Ret (Ok (EnvFilter_to_string (initial_filter c p))), p') /\
    (panic_hook c = false -> p_hook p' = p_hook p) /\
    (panic_hook c = true -> forall location acts,
       run_hook (p_hook p) location = (acts, false) ->
       run_hook (p_hook p') location =
         (LogError location :: acts ++ [FlushStderr; FlushStdout] ++
            (if crash_on_panic c then [Exit 12] else []), crash_on_panic c)).
Proof.
  intros (p' & h & Hi & Hd & _ & Hf & Hh & _)%init_ready_eq.
  exists p', h. split_and!; try done.
  - by rewrite Hd, log_layer_eq.
  - unfold FilterHandle_get, bind, gets, ret. by rewrite Hf, lookup_insert_eq.
  - by intros Hp; rewrite Hh, Hp.
  - intros Hp location acts Hacts. rewrite Hh, Hp. simpl. by rewrite Hacts.
Qed.

(** Steps that leave the subscriber and the panic hook alone. *)
Definition same_setup (p p' : Process) : Prop :=
  p_default p' = p_default p /\ p_hook p' = p_hook p.

Lemma try_new_setup reg n p : wp (try_new reg n) (fun _ => same_setup p) p.
Proof.
  unfold try_new. destruct (n <? 1); [done|]. unfold wp, try_bind, bind, ret.
  destruct (exponential_buckets _ _ _); simpl; [|done].
  unfold register_histogram_vec_with_registry.
  destruct (p_registries p !! reg); simpl; [|done]. by destruct (prom_register _ _).
Qed.

Lemma prometheus_layers_setup c level p : wp (prometheus_layers c level) (fun _ => same_setup p) p.
Proof.
  unfold prometheus_layers. destruct (prom_registry c) as [reg|]; [|done].
  apply wp_bind. eapply wp_mono; [apply try_new_setup|]. by intros [[h|e]|msg] p' Hs.
Qed.

Lemma jaeger_layers_setup c level p : wp (jaeger_layers c level) (fun _ => same_setup p) p.
Proof.
  unfold jaeger_layers. destruct (_ && _); [|done]. apply wp_bind.
  by destruct (install_batch _ _ _).
Qed.

Lemma set_default_taken s msg p : is_Some (p_default p) -> set_default s msg p = (Panicked msg, p).
Proof. intros [d Hd]. unfold set_default, bind, gets. by rewrite Hd. Qed.

(** C28: a process has one subscriber: once one is set, every [init] panics,
    whatever its configuration, and leaves the subscriber and the panic hook as
    they are; [init_for_testing] panics too unless it was what set it, and is
    then a no-op however often it is called. *)
Theorem init_once (c : TelemetryConfig) (p : Process) :
  is_Some (p_default p) ->
  (exists msg p', init c p = (Panicked msg, p') /\ p_default p' = p_default p /\
                  p_hook p' = p_hook p) /\
  (p_logger p = Unforced -> exists msg,
     init_for_testing p = (Panicked msg, set_p_logger Poisoned p)) /\
  (p_logger p = Forced -> init_for_testing p = (Ret tt, p)).
Proof.
  intros Hd. split; [|split].
  - assert (wp (init c) (fun o p' => exists msg, o = Panicked msg /\ same_setup p p') p) as (msg & Ho & Hs).
    2: { exists msg, (init c p).2. split; [|done]. rewrite <- Ho. by destruct (init c p). }
    unfold init. wp_steps. unfold reload_new. wp_steps.
    eapply wp_mono; [apply prometheus_layers_setup|]. intros [prom|msg] p1 [Hd1 Hh1]; [|by eexists].
    wp_steps. eapply wp_mono; [apply jaeger_layers_setup|].
    intros [jaeger|msg] p2 [Hd2 Hh2]; [|by eexists; split; [|split; [by rewrite Hd2, Hd1|by rewrite Hh2, Hh1]]].
    assert (Hp2 : p_default p2 = p_default p) by (by rewrite Hd2, Hd1).
    apply wp_bind. unfold wp at 1. rewrite set_default_taken by (by rewrite Hp2).
    eexists. split; [done|]. split; simpl; [done|]. by rewrite Hh2, Hh1.
  - intros Hl. eexists. unfold init_for_testing, bind, gets, on_panic, logger_closure.
    rewrite Hl. unfold bind, gets. by rewrite set_default_taken.
  - intros Hl. unfold init_for_testing, bind, gets. by rewrite Hl.
Qed.

(** ** The log filter *)

(** the handle of a process follows the directives: after any sequence of
    updates the log filter is the one of the last directives that parsed (at
    first [init]'s), [get] prints it, an update fails exactly when its
    directives do not parse, and nothing but the filter changes. *)
Theorem filter_handle_spec (h : FilterHandle) (f : EnvFilter) (ds : list string) (p : Process) :
  p_filters p !! h = Some f ->
  let last_ok := foldl (fun f d => match EnvFilter_try_new d with Ok f' => f' | Err _ => f end) f ds in
  let p' := set_p_filters (<[h := last_ok]> (p_filters p)) p in
  for_each (fun d => _ <- FilterHandle_update h d ;; ret tt) ds p = (Ret tt, p') /\
  FilterHandle_get h p' = (Ret (Ok (EnvFilter_to_string last_ok)), p') /\
  (forall d, exists p'',
     FilterHandle_update h d p' = (Ret (map_ok (fun _ => tt) (EnvFilter_try_new d)), p'')).
Proof.
  revert f p. induction ds as [|d ds IH]; intros f p Hf last_ok p'.
  - subst last_ok p'; simpl. rewrite (insert_id _ _ _ Hf).
    assert (set_p_filters (p_filters p) p = p) as -> by (by destruct p).
    split; [done|]. unfold FilterHandle_get, FilterHandle_update, try_bind, bind, gets, ret.
    rewrite Hf. split; [done|]. intros d. destruct (EnvFilter_try_new d); rewrite ?Hf; eexists; reflexivity.
  - set (f1 := match EnvFilter_try_new d with Ok f' => f' | Err _ => f end).
    set (p1 := set_p_filters (<[h := f1]> (p_filters p)) p).
    destruct (IH f1 p1) as (IH1 & IH2 & IH3); [apply lookup_insert_eq|].
    assert (Hp1 : set_p_filters (<[h := last_ok]> (p_filters p1)) p1 = p').
    { unfold p', p1, set_p_filters. simpl. by rewrite insert_insert_eq. }
    fold last_ok in IH1, IH2, IH3.
    change (foldl _ f1 ds) with last_ok in IH1, IH2, IH3. rewrite Hp1 in IH1, IH2, IH3.
    split; [|by split]. simpl. erewrite bind_run; [exact IH1|]. unfold p1, f1.
    unfold FilterHandle_update, try_bind, bind, gets, modify, ret.
    destruct (EnvFilter_try_new d); [by rewrite Hf|].
    rewrite insert_id by done. by destruct p.
Qed.

(** ** Span latencies *)

Implicit Types (flt : Metadata -> bool) (s : Spans).

(** The layer's invariant: the open spans its filter enables carry a timestamp
    that is not in the future, the others carry none. *)
Definition spans_ok flt s : Prop :=
  forall id sd, sp_open s !! id = Some sd ->
    if flt (sd_meta sd) then exists t, sd_timestamp sd = Some t /\ t <= sp_now s
    else sd_timestamp sd = None.

Definition pass (e : span_event) : Z := match e with Pass ns => Z.of_N ns | _ => 0 end.
Definition elapsed (es : list span_event) : Z := foldr (fun e t => pass e + t) 0 es.

Lemma elapsed_nonneg es : 0 <= elapsed es.
Proof. induction es as [|[] es IH]; simpl; lia. Qed.

(** What an event does to the open spans and the observations. *)
Definition span_event_effect flt (e : span_event) s : Spans :=
  match e with
  | Pass ns => mkSpans (sp_open s) (sp_now s + Z.of_N ns) (sp_observed s)
  | New id meta =>
      match sp_open s !! id with
      | Some _ => s
      | None => set_sp_open (<[id := mkSpanData meta
                  (if flt meta then Some (sp_now s) else None)]> (sp_open s)) s
      end
  | Close id =>
      match sp_open s !! id with
      | None => s
      | Some sd => mkSpans (delete id (sp_open s)) (sp_now s)
          (sp_observed s ++
           match sd_timestamp sd with
           | Some t => [(meta_name (sd_meta sd), f64_of_Z (wrap64 (sp_now s - t)))]
           | None => []
           end)
      end
  end.

Lemma span_event_step_eq flt e s :
  spans_ok flt s -> span_event_step flt e s = (Ret tt, span_event_effect flt e s).
Proof.
  intros Hok. destruct e as [ns|id meta|id]; simpl; [done| |].
  - unfold bind, gets. destruct (sp_open s !! id) eqn:Hid; [done|].
    unfold modify, when. destruct (flt meta); [|done].
    unfold on_new_span, bind, gets, expect. simpl. rewrite lookup_insert_eq. simpl.
    unfold modify, set_sp_open. simpl. by rewrite insert_insert_eq.
  - unfold bind, gets. destruct (sp_open s !! id) as [sd|] eqn:Hid; [|done].
    pose proof (Hok id sd Hid) as Hsd. unfold when.
    destruct (flt (sd_meta sd)).
    + destruct Hsd as (t & Ht & Hle). unfold on_close, bind, gets, expect. rewrite Hid. simpl.
      rewrite Ht. simpl. rewrite Z.max_r by lia. done.
    + unfold ret, modify. rewrite Hsd, app_nil_r. done.
Qed.

Lemma span_event_effect_ok flt e s : spans_ok flt s -> spans_ok flt (span_event_effect flt e s).
Proof.
  intros Hok. destruct e as [ns|id meta|id]; simpl.
  - intros id sd Hsd. specialize (Hok id sd Hsd). simpl.
    destruct (flt _); [|done]. destruct Hok as (t & Ht & Hle). exists t. split; [done|lia].
  - destruct (sp_open s !! id) eqn:Hid; [done|]. intros id' sd. simpl.
    rewrite lookup_insert_Some. intros [[<- <-]|[_ Hsd]]; simpl.
    + destruct (flt meta); [|done]. eexists; split; [done|lia].
    + by apply (Hok id').
  - destruct (sp_open s !! id) eqn:Hid; [|done]. intros id' sd.
    simpl. rewrite lookup_delete_Some. intros [_ Hsd]. by apply (Hok id').
Qed.

Definition spans_after flt (es : list span_event) s : Spans :=
  foldl (fun s e => span_event_effect flt e s) s es.

Lemma run_spans_eq flt es s :
  spans_ok flt s ->
  run_spans flt es s = (Ret tt, spans_after flt es s) /\ spans_ok flt (spans_after flt es s).
Proof.
  unfold run_spans, spans_after. revert s.
  induction es as [|e es IH]; intros s Hok; simpl; [done|].
  rewrite (bind_run _ _ _ _ _ (span_event_step_eq flt e s Hok)).
  apply IH. by apply span_event_effect_ok.
Qed.

Lemma no_spans_ok flt : spans_ok flt no_spans.
Proof. by intros id sd. Qed.

(** An open span keeps its data while it is not closed, and time adds up. *)
Lemma span_stays_open flt es s id sd :
  sp_open s !! id = Some sd -> Close id ∉ es ->
  sp_open (spans_after flt es s) !! id = Some sd /\
  sp_now (spans_after flt es s) = sp_now s + elapsed es.
Proof.
  unfold spans_after. revert s. induction es as [|e es IH]; intros s Hid Hin; simpl; [split; [done|lia]|].
  apply not_elem_of_cons in Hin as [He Hin].
  destruct (IH (span_event_effect flt e s)) as [Ho Hn]; [|done|].
  - destruct e as [ns|id' meta|id']; simpl; [done| |].
    + destruct (sp_open s !! id') eqn:Hid'; [done|]. simpl. rewrite lookup_insert_ne; congruence.
    + destruct (sp_open s !! id') eqn:Hid'; [|done]. simpl. rewrite lookup_delete_ne; congruence.
  - split; [done|]. rewrite Hn. destruct e as [ns|id' meta|id']; simpl; [lia| |];
      destruct (sp_open s !! id'); simpl; lia.
Qed.

(** C20: however spans are opened and closed, nested or interleaved, the layer
    never panics, and the closing of a span observes exactly one latency under
    the span's name, the time since it was created (in whole nanoseconds modulo
    2^64), when the filter enables it, and none when it does not; nothing else
    adds an observation. *)
Theorem span_latency_spec flt (es es' : list span_event) (id : nat) (meta : Metadata) :
  let opened := spans_after flt es no_spans in
  let before := spans_after flt (es ++ New id meta :: es') no_spans in
  sp_open opened !! id = None -> Close id ∉ es' ->
  exists after,
    run_spans flt (es ++ New id meta :: es') no_spans = (Ret tt, before) /\
    run_spans flt (es ++ New id meta :: es' ++ [Close id]) no_spans = (Ret tt, after) /\
    sp_observed after = sp_observed before ++
      (if flt meta then [(meta_name meta, f64_of_Z (wrap64 (elapsed es')))] else []) /\
    (forall e, (forall i, e <> Close i) ->
       sp_observed (span_event_effect flt e before) = sp_observed before).
Proof.
  intros opened before Hid Hin.
  assert (before = spans_after flt es' (span_event_effect flt (New id meta) opened)) as Hb.
  { unfold before, opened, spans_after. by rewrite foldl_app. }
  assert (Hsd : sp_open (span_event_effect flt (New id meta) opened) !! id =
                Some (mkSpanData meta (if flt meta then Some (sp_now opened) else None))).
  { simpl. rewrite Hid. simpl. by rewrite lookup_insert_eq. }
  destruct (span_stays_open flt es' _ _ _ Hsd Hin) as [Ho Hn]. rewrite <- Hb in Ho, Hn.
  exists (span_event_effect flt (Close id) before). split_and!.
  - apply run_spans_eq, no_spans_ok.
  - rewrite (proj1 (run_spans_eq flt _ _ (no_spans_ok flt))). do 2 f_equal.
    unfold before, spans_after. by rewrite app_comm_cons, app_assoc, foldl_app.
  - simpl. rewrite Ho. simpl. destruct (flt meta); [|done]. do 5 f_equal. rewrite Hn. simpl.
    rewrite Hid. simpl. lia.
  - intros [ns|i m|i] He; [done| |by destruct (He i)]. simpl. by destruct (sp_open before !! i).
Qed.

End config.
