(* ===== verification/HttpLayers.v ===== *)
(** * The metrics of a request, and the codec (mysten-network/src: metrics, server, codec)

    How a request passes the layers that [from_config] stacks around the
    services of a server: its lifetime is announced, its path is put into a
    header, the trace layer calls the handler of metrics, and the header is
    copied to the response, where the handler reads it back.  The layers of
    tower-http are parameters, with their documentation as laws; the handler,
    [RequestLifetime] and the function that makes the header are the code.
    Then the bincode codec over the buffers of tonic. *)
From S2P Require Import Prelude Bytes Platform Multiaddr Network.
Open Scope Z_scope.

(** http, tonic and tower-http. *)
Class Http : Type := {
  HeaderValue : Type;
  HeaderValue_from_str : string -> result HeaderValue string;
  HeaderValue_to_str : HeaderValue -> result string string;
  HeaderMap : Type;
  header_get : string -> HeaderMap -> option HeaderValue;
  Request : Type;
  uri_path : Request -> string;
  Response : Type;
  response_headers : Response -> HeaderMap;
  response_status : Response -> Z;
  ServiceError : Type;
  Code : Type;
  Code_Ok : Code;
  Status_from_header_map : HeaderMap -> option Code;
  GrpcFailureClass : Type;
  (* a service over a state W, and the layers around it *)
  set_request_header_overriding {W : Type} :
    string -> (Request -> outcome (option HeaderValue)) ->
    (Request -> comp W (result Response ServiceError)) ->
    (Request -> comp W (result Response ServiceError));
  trace_for_grpc {W : Type} : (W -> Z) ->
    (Request -> comp W unit) -> (Response -> Duration -> comp W unit) ->
    (GrpcFailureClass -> Duration -> comp W unit) ->
    (Request -> comp W (result Response ServiceError)) ->
    (Request -> comp W (result Response ServiceError));
  propagate_header {W : Type} : string ->
    (Request -> comp W (result Response ServiceError)) ->
    (Request -> comp W (result Response ServiceError));
  concurrency_limit {W : Type} : Z ->
    (Request -> comp W (result Response ServiceError)) ->
    (Request -> comp W (result Response ServiceError));
  load_shedding {W : Type} :
    (Request -> comp W (result Response ServiceError)) ->
    (Request -> comp W (result Response ServiceError));
}.

Definition Service `{Http} (W : Type) : Type := Request -> comp W (result Response ServiceError).

(** The documentation of the layers: the first puts a header in place of
    earlier ones of its name; the trace layer calls [on_request] with the
    request, [on_response] with the response and the time since the request, and
    [on_failure] for an error or a response classified as one; the last gives
    the response a header of the request. *)
Class HttpLaws `{HT : Http} : Type := {
  request_header : string -> Request -> option HeaderValue;
  with_header : string -> HeaderValue -> Request -> Request;
  with_response_header : string -> HeaderValue -> Response -> Response;
  grpc_failure : Response -> option GrpcFailureClass;
  service_failure : ServiceError -> GrpcFailureClass;
  request_header_with n v r : request_header n (with_header n v r) = Some v;
  uri_path_with n v r : uri_path (with_header n v r) = uri_path r;
  response_header_with n v r :
    header_get n (response_headers (with_response_header n v r)) = Some v;
  response_status_with n v r : response_status (with_response_header n v r) = response_status r;
  (* the status of a response is in headers of its own *)
  status_with n v r :
    n <> "grpc-status" -> n <> "grpc-message" -> n <> "grpc-status-details-bin" ->
    Status_from_header_map (response_headers (with_response_header n v r)) =
    Status_from_header_map (response_headers r);
  set_request_header_law {W} n make (svc : Service W) req w :
    set_request_header_overriding n make svc req w =
      match make req with
      | Ret (Some v) => svc (with_header n v req) w
      | Ret None => svc req w
      | Panicked msg => (Panicked msg, w)
      end;
  trace_law {W} (now : W -> Z) on_request on_response on_failure (svc : Service W) req w :
    trace_for_grpc now on_request on_response on_failure svc req w =
      (start <- gets now ;;
       on_request req ;;
       r <- svc req ;;
       latency <- gets (fun w => now w - start) ;;
       match r with
       | Ok response =>
           on_response response latency ;;
           match grpc_failure response with
           | Some failure => on_failure failure latency
           | None => ret tt
           end
       | Err e => on_failure (service_failure e) latency
       end ;;
       ret r) w;
  propagate_law {W} n (svc : Service W) req w :
    propagate_header n svc req w =
      (r <- svc req ;;
       ret (map_ok (fun response =>
              match request_header n req with
              | Some v => with_response_header n v response
              | None => response
              end) r)) w;
}.

(** ** The handler of metrics (metrics.rs) *)

Section layers.
Context {HT : Http}.

Definition GRPC_ENDPOINT_PATH_HEADER : string := "grpc-path-req".

(** The calls of a [MetricsCallbackProvider]. *)
Inductive metrics_call : Type :=
| MRequest (path : string)
| MResponse (path : string) (latency : Duration) (status : Z) (grpc_status_code : Code).

(** The provider a server has by default does nothing when it is called. *)
Definition DefaultMetricsCallbackProvider {W} (_ : metrics_call) : comp W unit := ret tt.

(** A server while it handles requests: the calls made to the provider, the
    values of [RequestLifetime], the clock, and what the services keep. *)
Record ServerState (S : Type) : Type := mkServerState {
  ss_calls : list metrics_call;
  ss_lifetimes : lifetimes;
  ss_now : Z;
  ss_inner : S;
}.
Arguments mkServerState {S}.
Arguments ss_calls {S}.
Arguments ss_lifetimes {S}.
Arguments ss_now {S}.
Arguments ss_inner {S}.

Context {S : Type}.

Definition provider_call (c : metrics_call) : comp (ServerState S) unit :=
  modify (fun s => mkServerState (ss_calls s ++ [c]) (ss_lifetimes s) (ss_now s) (ss_inner s)).

(** [MetricsHandler], by its provider: [on_response], [on_request], [on_failure]. *)
Definition on_response (response : Response) (latency : Duration) : comp (ServerState S) unit :=
  let grpc_status_code := default Code_Ok (Status_from_header_map (response_headers response)) in
  path <- expect "called `Option::unwrap()` on a `None` value"
            (header_get GRPC_ENDPOINT_PATH_HEADER (response_headers response)) ;;
  path <- unwrap "called `Result::unwrap()` on an `Err` value: ToStrError" (HeaderValue_to_str path) ;;
  provider_call (MResponse path latency (response_status response) grpc_status_code).

Definition on_request (request : Request) : comp (ServerState S) unit :=
  provider_call (MRequest (uri_path request)).

Definition on_failure (failure_classification : GrpcFailureClass) (latency : Duration) :
    comp (ServerState S) unit := ret tt.

(** ** The layers (server.rs) *)

Definition add_path_to_request_header (request : Request) : outcome (option HeaderValue) :=
  match HeaderValue_from_str (uri_path request) with
  | Ok v => Ret (Some v)
  | Err _ => Panicked "called `Result::unwrap()` on an `Err` value: InvalidHeaderValue"
  end.

(** [RequestLifetime::call] of the value [i]. *)
Definition RequestLifetime_call (i : nat) (inner : Service (ServerState S)) : Service (ServerState S) :=
  fun request =>
    modify (fun s => mkServerState (ss_calls s)
              (lifetime_step (OpCall i (uri_path request)) (ss_lifetimes s))
              (ss_now s) (ss_inner s)) ;;
    inner request.

(** A layer around a service. *)
Definition apply_layer (i : nat) (l : layer) (inner : Service (ServerState S)) :
    Service (ServerState S) :=
  match l with
  | GlobalConcurrencyLimitLayer limit => concurrency_limit limit inner
  | LoadShedLayer => load_shedding inner
  | RequestLifetimeLayer => RequestLifetime_call i inner
  | SetRequestHeaderLayer =>
      set_request_header_overriding GRPC_ENDPOINT_PATH_HEADER add_path_to_request_header inner
  | TraceLayer => trace_for_grpc ss_now on_request on_response on_failure inner
  | PropagateHeaderLayer => propagate_header GRPC_ENDPOINT_PATH_HEADER inner
  end.

(** [ServiceBuilder]: the layer added first is outermost. *)
Definition layered (i : nat) (ls : list layer) (inner : Service (ServerState S)) :
    Service (ServerState S) :=
  foldr (apply_layer i) inner ls.

(** ** Theorems *)

Context {HL : HttpLaws}.
Set Default Proof Using "Type*".

(** A path that can be a header and read back from it. *)
Definition header_path (path : string) (v : HeaderValue) : Prop :=
  HeaderValue_from_str path = Ok v /\ HeaderValue_to_str v = Ok path.

(** The request the innermost service sees. *)
Definition tagged (v : HeaderValue) (req : Request) : Request :=
  with_header GRPC_ENDPOINT_PATH_HEADER v req.

Definition announced (i : nat) (req : Request) (s : ServerState S) : ServerState S :=
  mkServerState (ss_calls s ++ [MRequest (uri_path req)])
    (lifetime_step (OpCall i (uri_path req)) (ss_lifetimes s)) (ss_now s) (ss_inner s).

Lemma on_response_tagged v path response latency s :
  header_path path v ->
  on_response (with_response_header GRPC_ENDPOINT_PATH_HEADER v response) latency s =
  provider_call (MResponse path latency (response_status response)
    (default Code_Ok (Status_from_header_map (response_headers response)))) s.
Proof.
  intros [_ Hto]. unfold on_response.
  rewrite response_header_with, response_status_with, status_with by done.
  unfold expect, bind, ret. by rewrite Hto.
Qed.

(** C22: in the stack of layers of a server that is configured with no global
    concurrency limit and without load shedding, a request whose path fits a
    header and on which the inner service returns is answered as that service
    answers it, with the path header added: the provider hears [on_start] (once
    per [RequestLifetime]), [on_request] with the path before, and for an [Ok]
    response [on_response] with the path, the latency, the status and the gRPC
    code after; the handler finds the header it unwraps on every response, and a
    service error reports no response. *)
Theorem layers_report_request (config : Config) (i : nat) (inner : Service (ServerState S))
    (req : Request) (v : HeaderValue) (s : ServerState S) (r : result Response ServiceError) s' :
  global_concurrency_limit config = None -> default false (load_shed config) = false ->
  header_path (uri_path req) v ->
  inner (tagged v req) (announced i req s) = (Ret r, s') ->
  layered i (config_layers config) inner req s =
    match r with
    | Ok response =>
        (Ret (Ok (with_response_header GRPC_ENDPOINT_PATH_HEADER v response)),
         mkServerState
           (ss_calls s' ++
              [MResponse (uri_path req) (ss_now s' - ss_now s) (response_status response)
                 (default Code_Ok (Status_from_header_map (response_headers response)))])
           (ss_lifetimes s') (ss_now s') (ss_inner s'))
    | Err e => (Ret (Err e), s')
    end.
Proof.
  intros Hg Hl Hv Hin. unfold config_layers. rewrite Hg, Hl. simpl.
  unfold RequestLifetime_call, bind at 1. simpl. rewrite set_request_header_law.
  unfold add_path_to_request_header. rewrite (proj1 Hv). rewrite trace_law.
  unfold gets, bind at 1. cbn [ss_now].
  unfold on_request, provider_call, modify, bind at 1. cbn [ss_calls ss_lifetimes ss_inner].
  rewrite uri_path_with. unfold bind at 1. rewrite propagate_law.
  change (mkServerState _ _ _ _) with (announced i req s) at 1.
  unfold bind at 1. fold (tagged v req). rewrite Hin. unfold tagged at 1.
  rewrite request_header_with. destruct r as [response|e]; simpl; [|done].
  unfold bind at 1 2 3. rewrite (on_response_tagged v (uri_path req)) by done.
  unfold bind, provider_call, modify, on_failure, ret.
  by destruct (grpc_failure _).
Qed.

(** The handler panics on a response without the header, which is why the
    propagating layer has to be inside the trace layer. *)
Lemma on_response_untagged response latency s :
  header_get GRPC_ENDPOINT_PATH_HEADER (response_headers response) = None ->
  (on_response response latency s).1 = Panicked "called `Option::unwrap()` on a `None` value".
Proof. intros Hn. unfold on_response, bind, expect. by rewrite Hn. Qed.

End layers.

Arguments mkServerState {HT S}.
Arguments ss_calls {HT S}.
Arguments ss_lifetimes {HT S}.
Arguments ss_now {HT S}.
Arguments ss_inner {HT S}.
