(* ===== verification/Codec.v ===== *)
(** * The bincode codec (mysten-network/src/codec.rs)

    An encoder that writes a message into tonic's buffer and a decoder that
    reads one back.  The buffers and bincode are parameters. *)
From S2P Require Import Prelude Bytes Platform.
Open Scope Z_scope.

(** tonic's [DecodeBuf], as the [Buf] of the bytes crate. *)
Class DecodeBuf (B : Type) : Type := {
  has_remaining : B -> bool;
  chunk : B -> bytes;
  advance : Z -> B -> B;
}.

(** [chunk] is a prefix of what remains, empty only at the end; [advance] drops
    from the front. *)
Class DecodeBufLaws (B : Type) `{!DecodeBuf B} : Type := {
  remaining : B -> bytes;
  has_remaining_spec b : has_remaining b = bool_decide (remaining b <> []);
  chunk_prefix b : exists rest, remaining b = chunk b ++ rest;
  chunk_nonempty b : remaining b <> [] -> chunk b <> [];
  advance_spec n b :
    0 <= n <= Z.of_nat (length (remaining b)) -> remaining (advance n b) = drop (Z.to_nat n) (remaining b);
}.

(** [bincode::serialize_into(writer, item)]: what is written, also on failure. *)
Class SerializeInto (T : Type) : Type := {
  serialize_into : T -> bytes -> result unit bincode_error * bytes;
}.

(** It appends what [bincode::serialize] answers; [deserialize] ignores the
    bytes after the value. *)
Class BincodeLaws (T : Type) `{!Serde T, !SerializeInto T} : Prop := {
  serialize_into_ok (t : T) b out : ser_val t = Ok b -> serialize_into t out = (Ok tt, out ++ b);
  serialize_into_err (t : T) e out : ser_val t = Err e -> (serialize_into t out).1 = Err e;
  deserialize_trailing (t : T) b rest : ser_val t = Ok b -> de_val (b ++ rest) = Ok t;
}.

(** A [Status] by its code and message. *)
Inductive Status : Type := Status_internal (message : string).

Section codec.
Context {PF : Platform}.

(** [BincodeEncoder::encode] into the buffer [buf]. *)
Definition encode {T} `{!SerializeInto T} (item : T) : comp bytes (result unit Status) :=
  fun buf =>
    let (r, buf') := serialize_into item buf in
    (Ret (map_err (fun e => Status_internal (bincode_display e)) r), buf').

(** [BincodeDecoder::decode]. *)
Definition decode {U B} `{!Serde U, !DecodeBuf B} : comp B (result (option U) Status) :=
  more <- gets has_remaining ;;
  if negb more then ret (Ok None)
  else
    chunk <- gets chunk ;;
    item <-? ret (map_err (fun e => Status_internal (bincode_display e)) (de_val chunk)) ;;
    modify (advance (Z.of_nat (length chunk))) ;;
    ret (Ok (Some item)).

(** [BincodeCodec<T, U>]: what it encodes and decodes, with an encoder and a
    decoder that hold nothing. *)
Record BincodeCodec (T U : Type) : Type := BincodeCodec_default {}.
Record BincodeEncoder (T : Type) : Type := mkBincodeEncoder {}.
Record BincodeDecoder (U : Type) : Type := mkBincodeDecoder {}.

Definition encoder {T U} (_ : BincodeCodec T U) : BincodeEncoder T := mkBincodeEncoder T.
Definition decoder {T U} (_ : BincodeCodec T U) : BincodeDecoder U := mkBincodeDecoder U.

(** tonic asks a decoder for messages until it answers [None] or fails. *)
Fixpoint decode_all {U B} `{!Serde U, !DecodeBuf B} (fuel : nat) :
    comp B (option (list U * option Status)) :=
  match fuel with
  | O => ret None
  | S fuel' =>
      r <- decode (U := U) ;;
      match r with
      | Ok None => ret (Some ([], None))
      | Err e => ret (Some ([], Some e))
      | Ok (Some item) =>
          rest <- decode_all fuel' ;;
          ret ((fun x => (item :: x.1, x.2)) <$> rest)
      end
  end.

(** ** Theorems *)

Section laws.
Context {B : Type} `{!DecodeBuf B} {BL : DecodeBufLaws B}.
Context {T : Type} `{!Serde T, !SerializeInto T} {SL : BincodeLaws T}.
Set Default Proof Using "Type*".

(** Each outcome of [decode]. *)
Lemma decode_cases (b : B) :
  (remaining b = [] /\ decode (U := T) b = (Ret (Ok None), b)) \/
  (exists e, remaining b <> [] /\ de_val (T := T) (chunk b) = Err e /\
     decode (U := T) b = (Ret (Err (Status_internal (bincode_display e))), b)) \/
  (exists t, remaining b <> [] /\ de_val (chunk b) = Ok t /\
     decode (U := T) b = (Ret (Ok (Some t)), advance (Z.of_nat (length (chunk b))) b)).
Proof.
  unfold decode, bind, gets. rewrite has_remaining_spec.
  destruct (decide (remaining b = [])) as [He|He].
  - left. rewrite bool_decide_false by (intros []; done). done.
  - right. rewrite bool_decide_true by done. simpl. unfold try_bind, bind, ret.
    destruct (de_val (chunk b)) as [t|e] eqn:Hd; simpl; [right|left]; by eexists.
Qed.

(** A chunk that was decoded is gone. *)
Lemma advance_chunk (b : B) :
  remaining b <> [] ->
  (length (remaining (advance (Z.of_nat (length (chunk b))) b)) < length (remaining b))%nat.
Proof.
  intros Hb. destruct (chunk_prefix b) as [rest Hr].
  pose proof (chunk_nonempty b Hb) as Hc.
  rewrite advance_spec by (rewrite Hr, length_app; lia).
  rewrite length_drop, Nat2Z.id. destruct (chunk b); [done|].
  rewrite Hr, length_app. simpl. lia.
Qed.

(** C24: decoding a buffer ends: every message consumes bytes, so after at most
    one call per byte and one more the decoder has answered [None] or an error,
    whatever the chunks are and whatever they hold. *)
Theorem decode_terminates (b : B) (fuel : nat) :
  (length (remaining b) < fuel)%nat ->
  exists items err b', decode_all (U := T) fuel b = (Ret (Some (items, err)), b') /\
    (length items + length (remaining b') <= length (remaining b))%nat.
Proof.
  revert b. induction fuel as [|fuel IH]; intros b Hf; [lia|]. simpl.
  destruct (decode_cases b) as [[He Hd]|[(e & Hb & _ & Hd)|(t & Hb & _ & Hd)]];
    rewrite (bind_run _ _ _ _ _ Hd).
  - eexists _, _, _. split; [reflexivity|]. simpl. lia.
  - eexists _, _, _. split; [reflexivity|]. simpl. lia.
  - pose proof (advance_chunk b Hb).
    destruct (IH (advance (Z.of_nat (length (chunk b))) b)) as (items & err & b' & Ha & Hl); [lia|].
    rewrite (bind_run _ _ _ _ _ Ha). eexists _, _, _. split; [reflexivity|]. simpl. lia.
Qed.

(** C23: a message is read back from what the encoder wrote: encoding appends to
    the buffer, and decoding a buffer that holds these bytes in one chunk answers
    the message and consumes it, also when bytes follow, which are lost; but a
    message of no bytes at all, such as the unit value, is answered [None], as
    if there were no message; one that does not serialize is an internal status. *)
Theorem codec_roundtrip (t : T) (out : bytes) (b : B) (rest : bytes) :
  chunk b = remaining b ->
  match ser_val t with
  | Ok bs =>
      encode t out = (Ret (Ok tt), out ++ bs) /\
      (remaining b = bs ++ rest -> remaining b <> [] ->
       exists b', decode (U := T) b = (Ret (Ok (Some t)), b') /\ remaining b' = [] /\
                  decode (U := T) b' = (Ret (Ok None), b')) /\
      (bs = [] -> remaining b = bs -> decode (U := T) b = (Ret (Ok None), b))
  | Err e => (encode t out).1 = Ret (Err (Status_internal (bincode_display e)))
  end.
Proof.
  intros Hchunk. destruct (ser_val t) as [bs|e] eqn:Hs; unfold encode.
  2: { pose proof (serialize_into_err t e out Hs). destruct (serialize_into t out). by simplify_eq/=. }
  rewrite (serialize_into_ok t bs out Hs). split; [done|]. split.
  2: { intros -> Hb. by destruct (decode_cases b) as [[_ ?]|[(? & ? & _)|(? & ? & _)]]. }
  intros Hb Hne.
  destruct (decode_cases b) as [[? _]|[(e & _ & Hd & _)|(t' & _ & Hd & Hdec)]]; [done| |].
  - rewrite Hchunk, Hb, (deserialize_trailing t bs rest Hs) in Hd. done.
  - rewrite Hchunk, Hb, (deserialize_trailing t bs rest Hs) in Hd. simplify_eq.
    eexists. split; [exact Hdec|].
    assert (remaining (advance (Z.of_nat (length (chunk b))) b) = []) as Hr.
    { rewrite advance_spec by (rewrite Hchunk; lia). by rewrite Nat2Z.id, Hchunk, drop_all. }
    split; [done|]. by destruct (decode_cases (advance (Z.of_nat (length (chunk b))) b))
      as [[_ ?]|[(? & ? & _)|(? & ? & _)]].
Qed.

End laws.

End codec.
