(* ===== verification/ClosureMetric.v ===== *)
(** * Metrics computed at collection time (prometheus-closure-metric/src/lib.rs)

    A [ClosureMetric] is a collector of one metric whose value a closure computes
    whenever metrics are gathered.  The order of label pairs and the descriptor
    come from the prometheus crate; its protobuf messages are records with the
    fields that are set. *)
From Stdlib Require Import Sorting.Sorted.
From S2P Require Import Prelude Platform.
Open Scope nat_scope.

(** proto::LabelPair, and the messages built around it. *)
Record LabelPair : Type := mkLabelPair { lp_name : string; lp_value : string }.

Inductive MetricType : Type := COUNTER | GAUGE.

Record ProtoMetric : Type := mkProtoMetric {
  pm_label : list LabelPair;
  pm_counter : option f64;
  pm_gauge : option f64;
}.

Record MetricFamily : Type := mkMetricFamily {
  mf_name : string;
  mf_help : string;
  mf_field_type : MetricType;
  mf_metric : list ProtoMetric;
}.

(** core::Desc. *)
Record Desc : Type := mkDesc {
  fq_name : string;
  desc_help : string;
  const_label_pairs : list LabelPair;
  variable_labels : list string;
}.

(** The [Ord] of label pairs, and [Describer]s. *)
Class PromCore : Type := {
  label_le : LabelPair -> LabelPair -> bool;
  Describer : Type;
  describe : Describer -> result Desc string;
}.

(** It is a total preorder; a descriptor has its constant pairs sorted. *)
Class PromCoreLaws `{PC : PromCore} : Prop := {
  label_le_total a b : label_le a b = true \/ label_le b a = true;
  label_le_trans a b c : label_le a b = true -> label_le b c = true -> label_le a c = true;
  describe_sorted d desc :
    describe d = Ok desc ->
    StronglySorted (fun a b => label_le a b = true) (const_label_pairs desc);
}.

Section closure_metric.
Context {PC : PromCore}.

(** [<[LabelPair]>::sort]: a stable sort; equal pairs keep their order. *)
Fixpoint sort_insert (x : LabelPair) (l : list LabelPair) : list LabelPair :=
  match l with
  | [] => [x]
  | y :: l' => if label_le x y then x :: l else y :: sort_insert x l'
  end.

Fixpoint sort (l : list LabelPair) : list LabelPair :=
  match l with
  | [] => []
  | x :: l' => sort_insert x (sort l')
  end.

Inductive ValueType : Type := Counter | Gauge.

Definition metric_type (self : ValueType) : MetricType :=
  match self with Counter => COUNTER | Gauge => GAUGE end.

Definition index_out_of_bounds : string := "index out of bounds".

(** The loop over the variable labels: [label_values[i]] is indexed. *)
Fixpoint push_labels (i : nat) (names label_values : list string) (label_pairs : list LabelPair) :
    outcome (list LabelPair) :=
  match names with
  | [] => Ret label_pairs
  | n :: names' =>
      match label_values !! i with
      | Some v => push_labels (S i) names' label_values (label_pairs ++ [mkLabelPair n v])
      | None => Panicked index_out_of_bounds
      end
  end.

Definition make_label_pairs (desc : Desc) (label_values : list string) :
    outcome (result (list LabelPair) string) :=
  if negb (length (variable_labels desc) =? length label_values)
  then Ret (Err "inconsistent cardinality")
  else
    let total_len := length (variable_labels desc) + length (const_label_pairs desc) in
    if total_len =? 0 then Ret (Ok [])
    else if length (variable_labels desc) =? 0 then Ret (Ok (const_label_pairs desc))
    else
      match push_labels 0 (variable_labels desc) label_values [] with
      | Ret label_pairs => Ret (Ok (sort (label_pairs ++ const_label_pairs desc)))
      | Panicked msg => Panicked msg
      end.

(** The closure runs in the state [W] of the program; its numbers go to [f64]. *)
Context {W T : Type} (into_f64 : T -> f64).

Record ClosureMetric : Type := mkClosureMetric {
  cm_desc : Desc;
  cm_f : comp W T;
  cm_value_type : ValueType;
  cm_label_pairs : list LabelPair;
}.

Definition ClosureMetric_new (describer : Describer) (value_type : ValueType) (f : comp W T)
    (label_values : list string) : outcome (result ClosureMetric string) :=
  match describe describer with
  | Err e => Ret (Err e)
  | Ok desc =>
      match make_label_pairs desc label_values with
      | Ret (Ok label_pairs) => Ret (Ok (mkClosureMetric desc f value_type label_pairs))
      | Ret (Err e) => Ret (Err e)
      | Panicked msg => Panicked msg
      end
  end.

Definition metric (self : ClosureMetric) : comp W ProtoMetric :=
  v <- cm_f self ;;
  let val := into_f64 v in
  ret match cm_value_type self with
      | Counter => mkProtoMetric (cm_label_pairs self) (Some val) None
      | Gauge => mkProtoMetric (cm_label_pairs self) None (Some val)
      end.

Definition collector_desc (self : ClosureMetric) : list Desc := [cm_desc self].

Definition collector_collect (self : ClosureMetric) : comp W (list MetricFamily) :=
  m <- metric self ;;
  ret [mkMetricFamily (fq_name (cm_desc self)) (desc_help (cm_desc self))
         (metric_type (cm_value_type self)) [m]].

(** ** Sorting *)

Lemma sort_insert_perm x l : sort_insert x l ≡ₚ x :: l.
Proof.
  induction l as [|y l IH]; simpl; [done|]. destruct (label_le x y); [done|].
  rewrite IH. apply Permutation_swap.
Qed.

Lemma sort_perm l : sort l ≡ₚ l.
Proof. induction l as [|x l IH]; simpl; [done|]. by rewrite sort_insert_perm, IH. Qed.

Lemma push_labels_ok names values i acc :
  length names + i = length values ->
  push_labels i names values acc = Ret (acc ++ zip_with mkLabelPair names (drop i values)).
Proof.
  revert i acc. induction names as [|n names IH]; intros i acc Hl; simpl in *.
  - by rewrite app_nil_r.
  - destruct (values !! i) as [v|] eqn:Hv.
    2: { apply lookup_ge_None in Hv. lia. }
    rewrite IH by lia. by rewrite (drop_S _ _ _ Hv), <- app_assoc.
Qed.

Context {PL : PromCoreLaws}.
Set Default Proof Using "Type*".

Abbreviation sorted := (StronglySorted (fun a b => label_le a b = true)).

Lemma sort_insert_sorted x l : sorted l -> sorted (sort_insert x l).
Proof.
  induction 1 as [|y l Hl IH Hy]; simpl; [by repeat constructor|].
  destruct (label_le x y) eqn:Hxy.
  - constructor; [by constructor|]. constructor; [done|].
    eapply Forall_impl; [exact Hy|]. intros z. by apply label_le_trans.
  - constructor; [done|]. rewrite sort_insert_perm. constructor; [|done].
    destruct (label_le_total x y); congruence.
Qed.

Lemma sort_sorted l : sorted (sort l).
Proof. induction l as [|x l IH]; simpl; [constructor|]. by apply sort_insert_sorted. Qed.

(** label pairs are made exactly when there is one value per variable
    label, and never by indexing out of range: they are then the variable
    labels with their values, position by position, and the constant pairs, in
    the order of label pairs whatever the order of the two lists; otherwise the
    cardinality is reported. *)
Theorem make_label_pairs_spec (describer : Describer) (desc : Desc) (values : list string) :
  describe describer = Ok desc ->
  (length (variable_labels desc) = length values ->
   exists pairs, make_label_pairs desc values = Ret (Ok pairs) /\ sorted pairs /\
     pairs ≡ₚ zip_with mkLabelPair (variable_labels desc) values ++ const_label_pairs desc) /\
  (length (variable_labels desc) <> length values ->
   make_label_pairs desc values = Ret (Err "inconsistent cardinality")).
Proof.
  intros Hd. unfold make_label_pairs. split; intros Hl.
  2: { by destruct (Nat.eqb_spec (length (variable_labels desc)) (length values)). }
  rewrite Hl, Nat.eqb_refl. simpl.
  destruct (Nat.eqb_spec (length values + length (const_label_pairs desc)) 0) as [H0|H0].
  { destruct values; [|done]. destruct (const_label_pairs desc); [|done].
    destruct (variable_labels desc); [|done]. eexists; split_and!; [done|constructor|done]. }
  destruct (Nat.eqb_spec (length values) 0) as [Hv|Hv].
  { destruct values; [|done]. destruct (variable_labels desc); [|done].
    eexists. split_and!; [done|by eapply describe_sorted|done]. }
  rewrite push_labels_ok by lia. simpl. rewrite drop_0.
  eexists. split_and!; [done|apply sort_sorted|apply sort_perm].
Qed.

(** a metric that was made is one family of one metric, typed as its value
    is, under its descriptor's name and its sorted labels; every collection runs
    the closure once, so what a gathering sees is the value of that moment. *)
Theorem collect_spec (describer : Describer) (vt : ValueType) (f : comp W T)
    (values : list string) (self : ClosureMetric) (w w' : W) (v : T) :
  ClosureMetric_new describer vt f values = Ret (Ok self) ->
  f w = (Ret v, w') ->
  exists pairs desc,
    describe describer = Ok desc /\ make_label_pairs desc values = Ret (Ok pairs) /\
    collector_desc self = [desc] /\
    collector_collect self w =
      (Ret [mkMetricFamily (fq_name desc) (desc_help desc) (metric_type vt)
              [match metric_type vt with
               | COUNTER => mkProtoMetric pairs (Some (into_f64 v)) None
               | GAUGE => mkProtoMetric pairs None (Some (into_f64 v))
               end]], w').
Proof.
  unfold ClosureMetric_new. intros Hnew Hf.
  destruct (describe describer) as [desc|]; [|done].
  destruct (make_label_pairs desc values) as [[pairs|]|] eqn:Hp; simplify_eq.
  exists pairs, desc. split_and!; try done.
  unfold collector_collect, metric, bind. simpl. rewrite Hf. simpl. by destruct vt.
Qed.

End closure_metric.
