(* ===== verification/StreamExample.v ===== *)
(** * A supervised component (component/examples/stream_example.rs)

    The example of the component crate: a task that listens on a mock stream
    whose very first read fails, under the supervisor of Component.v.  The body
    of the task, arbitrary there, is concrete here; the theorem follows the whole
    program from its start to the state it stays in. *)
From stdpp Require Import relations.
From S2P Require Import Prelude Bytes Component ComponentTheorems.
Open Scope nat_scope.

(** ** The mock stream *)

(** The statics [SHOULD_FAIL] and [FIXER]. *)
Record statics : Type := mkStatics {
  SHOULD_FAIL : bool;
  FIXER_done : bool;
}.

Definition statics_init : statics := mkStatics true false.

(** [FIXER.call_once(|| SHOULD_FAIL = false)]. *)
Definition fix_stream : comp statics unit :=
  modify (fun s => if FIXER_done s then s else mkStatics false true).

Record MockTcpStream : Type := mkMockTcpStream { read_data : bytes }.

Definition MockTcpStream_new : MockTcpStream := mkMockTcpStream [].

(** The number of bytes read, and the buffer after the read. *)
Definition mock_read (self : MockTcpStream) (buf : bytes) :
    comp statics (result (nat * bytes) Report) :=
  failing <- gets SHOULD_FAIL ;;
  if failing : bool then fix_stream ;; ret (Err "Could not read from stream.")
  else
    let size := Nat.min (length (read_data self)) (length buf) in
    ret (Ok (size, take size (read_data self) ++ drop size buf)).

(** ** The task *)

Definition missing_something : Report := "missing something required".

(** Where [listen] is: in its loop, sending the error, in
    [wait_for_cancellation], or returned. *)
Inductive position : Type := Listening | Sending | Waiting | Returned.

Definition empty_buf : bytes := replicate 10 Byte.x00.

(** One turn of the loop. *)
Definition listen_turn : comp statics position :=
  let m_tcp := MockTcpStream_new in
  r <- mock_read m_tcp empty_buf ;;
  ret match r with Ok _ => Listening | Err _ => Sending end.

(** ** The component and the program *)

Inductive MockTcpStreamComponent : Type := mkMockTcpStreamComponent.

#[export] Instance MockTcpStreamComponent_Manageable : Manageable MockTcpStreamComponent := {|
  handle_irrecoverable self irrecoverable := (Ok tt, self);
|}.

(** The supervisor and the channels, the statics, the position of each task
    ([start] spawns it at the beginning of [listen]). *)
Record program : Type := mkProgram {
  pr_phase : phase (Mg := MockTcpStreamComponent);
  pr_system : System;
  pr_statics : statics;
  pr_position : gmap nat position;
}.

Definition position_of (p : program) (h : nat) : position :=
  default Listening (pr_position p !! h).

(** A task that returns or panics drops its sender. *)
Definition end_task (h : nat) (t : task) (sy : System) : System :=
  let sy' := (drop_sender (task_tx t) sy).2 in
  set_tasks (<[h := mkTask (task_tx t) (task_rx t) true]> (sy_tasks sy')) sy'.

(** Who moves: the supervisor, or a task. *)
Inductive actor : Type := TheSupervisor | TheTask (h : nat).

#[export] Instance actor_eq_dec : EqDecision actor.
Proof. solve_decision. Defined.

Inductive actor_step : actor -> program -> program -> Prop :=
| run_spawn self self' sy sy' st l :
    spawn self sy = (Ret self', sy') ->
    actor_step TheSupervisor (mkProgram (Spawning self) sy st l) (mkProgram (Running self') sy' st l)
| run_select b self p sy sy' st l :
    run_turn b self sy = (Ret (Some p), sy') ->
    actor_step TheSupervisor (mkProgram (Running self) sy st l) (mkProgram p sy' st l)
| run_restart self self' sy sy' st l :
    restart self sy = (Ret self', sy') ->
    actor_step TheSupervisor (mkProgram (Restarting self) sy st l) (mkProgram (Running self') sy' st l)
| task_listen p h t pos st' :
    sy_tasks (pr_system p) !! h = Some t -> position_of p h = Listening ->
    listen_turn (pr_statics p) = (Ret pos, st') ->
    actor_step (TheTask h) p (mkProgram (pr_phase p) (pr_system p) st'
                      (match pos with Listening => pr_position p | _ => <[h := pos]> (pr_position p) end))
| task_sends p h t ch :
    sy_tasks (pr_system p) !! h = Some t -> position_of p h = Sending ->
    sy_channels (pr_system p) !! task_tx t = Some ch -> ch_receiver ch = true ->
    length (ch_buffer ch) < CHANNEL_SIZE ->
    actor_step (TheTask h) p (mkProgram (pr_phase p)
      (set_channels (<[task_tx t := mkChannel (ch_buffer ch ++ [missing_something]) true true]>
         (sy_channels (pr_system p))) (pr_system p))
      (pr_statics p) (<[h := Waiting]> (pr_position p)))
| task_cannot_send p h t ch :
    sy_tasks (pr_system p) !! h = Some t -> position_of p h = Sending ->
    sy_channels (pr_system p) !! task_tx t = Some ch -> ch_receiver ch = false ->
    actor_step (TheTask h) p (mkProgram (pr_phase p) (end_task h t (pr_system p)) (pr_statics p)
      (<[h := Returned]> (pr_position p)))
| task_cancelled p h t :
    sy_tasks (pr_system p) !! h = Some t -> position_of p h = Waiting ->
    sy_cancel (pr_system p) !! task_rx t = Some false ->
    actor_step (TheTask h) p (mkProgram (pr_phase p) (end_task h t (pr_system p)) (pr_statics p)
      (<[h := Returned]> (pr_position p))).

Definition program_step (p p' : program) : Prop := exists a, actor_step a p p'.

(** *** Endless runs *)

(** A run of the program with who made each step. *)
Record endless : Type := mkEndless { state_at : nat -> program; mover : nat -> actor }.

Definition runs_from (p : program) (r : endless) : Prop :=
  state_at r 0 = p /\
  forall n, actor_step (mover r n) (state_at r n) (state_at r (S n)).

Definition enabled (a : actor) (p : program) : Prop := exists p', actor_step a p p'.

(** The scheduler is weakly fair: again and again every actor moves, or cannot. *)
Definition fair (r : endless) : Prop :=
  forall a n, exists m, n <= m /\ (mover r m = a \/ ~ enabled a (state_at r m)).

(** [main]: the supervisor is made and spawned. *)
Definition main : program :=
  mkProgram (initial mkMockTcpStreamComponent).1 (initial mkMockTcpStreamComponent).2 statics_init ∅.

(** ** The life of the program *)

Abbreviation supervising c k h :=
  (mkSupervisor c (Some k) (Some h) mkMockTcpStreamComponent).

(** The first task has channel 1, cancellation 2 and handle 3; the second 4, 5, 6. *)
Definition first_task : gmap nat task := <[3 := mkTask 1 2 false]> ∅.
Definition channels_of (b : list Report) : gmap nat channel :=
  <[1 := mkChannel b true true]> (<[0 := mkChannel [] false false]> ∅).
Definition broken : statics := mkStatics true false.
Definition fixed : statics := mkStatics false true.

Definition spawned : program :=
  mkProgram (Running (supervising 1 2 3))
    (mkSystem (channels_of []) (<[2 := true]> ∅) first_task 4 [Started 3]) broken ∅.
Definition failed : program :=
  mkProgram (pr_phase spawned) (pr_system spawned) fixed (<[3 := Sending]> ∅).
Definition reported : program :=
  mkProgram (pr_phase spawned)
    (mkSystem (channels_of [missing_something]) (<[2 := true]> ∅) first_task 4 [Started 3])
    fixed (<[3 := Waiting]> ∅).
Definition handled : program :=
  mkProgram (Restarting (supervising 1 2 3))
    (mkSystem (channels_of []) (<[2 := true]> ∅) first_task 4
       [Started 3; Handled missing_something true])
    fixed (<[3 := Waiting]> ∅).
Definition restarted_system (sender_alive finished : bool) : System :=
  mkSystem
    (<[1 := mkChannel [] sender_alive false]> (<[4 := mkChannel [] true true]>
       (<[0 := mkChannel [] false false]> ∅)))
    (<[2 := false]> (<[5 := true]> ∅))
    (<[6 := mkTask 4 5 false]> (<[3 := mkTask 1 2 finished]> ∅)) 7
    [Started 3; Handled missing_something true; Started 6].
Definition restarted : program :=
  mkProgram (Running (supervising 4 5 6)) (restarted_system true false) fixed (<[3 := Waiting]> ∅).
Definition recovered : program :=
  mkProgram (Running (supervising 4 5 6)) (restarted_system false true) fixed (<[3 := Returned]> ∅).

Definition life : list program :=
  [main; spawned; failed; reported; handled; restarted; recovered].

(** ** Theorems *)

(** The tasks of the states of the program. *)
Lemma first_task_lookup h t : first_task !! h = Some t -> h = 3 /\ t = mkTask 1 2 false.
Proof.
  unfold first_task. rewrite lookup_insert_Some, lookup_empty. intros [[<- <-]|[_ ?]]; done.
Qed.

Lemma restarted_task_lookup b f h t :
  sy_tasks (restarted_system b f) !! h = Some t ->
  (h = 6 /\ t = mkTask 4 5 false) \/ (h = 3 /\ t = mkTask 1 2 f).
Proof.
  simpl. rewrite !lookup_insert_Some, lookup_empty.
  intros [[<- <-]|[_ [[<- <-]|[_ ?]]]]; [by left|by right|done].
Qed.

(** A step from a concrete state: find the task that moves, evaluate what it or
    the supervisor does. *)
Ltac find_task :=
  match goal with
  | H : sy_tasks (pr_system main) !! _ = Some _ |- _ => discriminate H
  | H : sy_tasks (pr_system restarted) !! _ = Some _ |- _ =>
      apply (restarted_task_lookup true false) in H as [[-> ->]|[-> ->]]
  | H : sy_tasks (pr_system recovered) !! _ = Some _ |- _ =>
      apply (restarted_task_lookup false true) in H as [[-> ->]|[-> ->]]
  | H : sy_tasks _ !! _ = Some _ |- _ => apply first_task_lookup in H as [-> ->]
  end.

Ltac run_step H :=
  destruct H as [? H]; inversion H; subst; clear H;
  repeat match goal with b : branch |- _ => destruct b end;
  try find_task;
  try match goal with
  | H : position_of _ _ = _ |- _ => vm_compute in H; discriminate H
  | H : sy_cancel _ !! _ = Some _ |- _ => vm_compute in H; discriminate H
  end;
  repeat match goal with
  | H : _ = (Ret _, _) |- _ => vm_compute in H; simplify_eq H; clear H; intros; subst
  | H : sy_channels _ !! _ = Some _ |- _ => vm_compute in H; injection H as <-
  | H : ch_receiver _ = _ |- _ => vm_compute in H; try discriminate H; clear H
  end.

Lemma step_main p : program_step main p -> p = spawned.
Proof. intros H. run_step H. by vm_compute. Qed.

Lemma step_spawned p : program_step spawned p -> p = failed.
Proof. intros H. run_step H. by vm_compute. Qed.

Lemma step_failed p : program_step failed p -> p = reported.
Proof. intros H. run_step H. by vm_compute. Qed.

Lemma step_reported p : program_step reported p -> p = handled.
Proof. intros H. run_step H. by vm_compute. Qed.

Lemma step_handled p : program_step handled p -> p = restarted.
Proof. intros H. run_step H. by vm_compute. Qed.

Lemma step_restarted p : program_step restarted p -> p = restarted \/ p = recovered.
Proof. intros H. run_step H; [left|right]; by vm_compute. Qed.

Lemma step_recovered p : program_step recovered p -> p = recovered.
Proof. intros H. run_step H. by vm_compute. Qed.

Lemma main_steps : program_step main spawned.
Proof. exists TheSupervisor. eapply run_spawn. by vm_compute. Qed.

Lemma spawned_steps : program_step spawned failed.
Proof. exists (TheTask 3). apply (task_listen spawned 3 (mkTask 1 2 false) Sending fixed); by vm_compute. Qed.

Lemma failed_steps : program_step failed reported.
Proof.
  exists (TheTask 3). apply (task_sends failed 3 (mkTask 1 2 false) (mkChannel [] true true)); try (by vm_compute).
  simpl. unfold CHANNEL_SIZE. lia.
Qed.

Lemma reported_steps : program_step reported handled.
Proof. exists TheSupervisor. eapply (run_select BranchRecv). by vm_compute. Qed.

Lemma handled_steps : program_step handled restarted.
Proof. exists TheSupervisor. eapply run_restart. by vm_compute. Qed.

Lemma restarted_cancelled : actor_step (TheTask 3) restarted recovered.
Proof.
  replace recovered with
    (mkProgram (pr_phase restarted) (end_task 3 (mkTask 1 2 false) (pr_system restarted))
       (pr_statics restarted) (<[3 := Returned]> (pr_position restarted))) by (by vm_compute).
  by apply task_cancelled; vm_compute.
Qed.

Lemma restarted_steps : program_step restarted recovered.
Proof. exists (TheTask 3). apply restarted_cancelled. Qed.

Lemma recovered_listens : actor_step (TheTask 6) recovered recovered.
Proof. apply (task_listen recovered 6 (mkTask 4 5 false) Listening fixed); by vm_compute. Qed.

Lemma life_next i p p' : life !! i = Some p -> life !! S i = Some p' -> program_step p p'.
Proof.
  destruct i as [|[|[|[|[|[|[|i]]]]]]]; simpl; intros; simplify_eq.
  - apply main_steps.
  - apply spawned_steps.
  - apply failed_steps.
  - apply reported_steps.
  - apply handled_steps.
  - apply restarted_steps.
Qed.

Lemma life_only i p p' :
  life !! i = Some p -> program_step p p' ->
  life !! S i = Some p' \/ (p' = p /\ SHOULD_FAIL (pr_statics p) = false /\ 5 <= i).
Proof.
  destruct i as [|[|[|[|[|[|[|i]]]]]]]; [intros [= <-] Hs..|done].
  - left. by rewrite (step_main p').
  - left. by rewrite (step_spawned p').
  - left. by rewrite (step_failed p').
  - left. by rewrite (step_reported p').
  - left. by rewrite (step_handled p').
  - destruct (step_restarted p' Hs) as [-> | ->]; [right|by left]. split_and!; [done|done|lia].
  - right. rewrite (step_recovered p' Hs). split_and!; [done|done|lia].
Qed.

(** The program is an instance of the supervised system of Component.v. *)
Definition supervised (p : program) : Prop :=
  reachable mkMockTcpStreamComponent (pr_phase p, pr_system p).

Lemma life_supervised i p : life !! i = Some p -> supervised p.
Proof.
  unfold supervised, reachable.
  assert (H0 : rtc step (initial mkMockTcpStreamComponent) (pr_phase main, pr_system main)).
  { apply rtc_refl. }
  assert (H1 : rtc step (initial mkMockTcpStreamComponent) (pr_phase spawned, pr_system spawned)).
  { eapply rtc_r; [exact H0|]. eapply step_spawn. by vm_compute. }
  assert (H3 : rtc step (initial mkMockTcpStreamComponent) (pr_phase reported, pr_system reported)).
  { eapply rtc_r; [exact H1|]. apply (step_task 3).
    apply (task_send 3 (pr_system spawned) (mkTask 1 2 false) (mkChannel [] true true) missing_something);
      [done..|]. simpl. unfold CHANNEL_SIZE. lia. }
  assert (H4 : rtc step (initial mkMockTcpStreamComponent) (pr_phase handled, pr_system handled)).
  { eapply rtc_r; [exact H3|]. eapply (step_turn BranchRecv). by vm_compute. }
  assert (H5 : rtc step (initial mkMockTcpStreamComponent) (pr_phase restarted, pr_system restarted)).
  { eapply rtc_r; [exact H4|]. eapply step_restart. by vm_compute. }
  assert (H6 : rtc step (initial mkMockTcpStreamComponent) (pr_phase recovered, pr_system recovered)).
  { eapply rtc_r; [eapply rtc_r; [exact H5|]|].
    - apply (step_task 3), (task_drop_sender 3 (pr_system restarted) (mkTask 1 2 false)). done.
    - apply (step_task 3).
      replace (pr_system recovered) with (end_task 3 (mkTask 1 2 false) (pr_system restarted))
        by (by vm_compute).
      by apply (task_finish 3). }
  destruct i as [|[|[|[|[|[|[|i]]]]]]]; [intros [= <-]; assumption..|done].
Qed.

(** *** Every fair run recovers *)

Lemma run_in_life r n : runs_from main r -> exists i, life !! i = Some (state_at r n).
Proof.
  intros [H0 Hs]. induction n as [|n [i Hi]]; [exists 0; by rewrite H0|].
  destruct (life_only i _ (state_at r (S n)) Hi) as [?|[-> _]]; [by exists (mover r n)|by exists (S i)|by exists i].
Qed.

(** Until the second task listens alone, or the first is cancelled, every step
    leads on. *)
Lemma run_to_restarted r : runs_from main r -> state_at r 5 = restarted.
Proof.
  intros [H0 Hs].
  assert (Hn : forall n, program_step (state_at r n) (state_at r (S n))) by (intros n; by exists (mover r n)).
  pose proof (Hn 0) as H1. rewrite H0 in H1. apply step_main in H1.
  pose proof (Hn 1) as H2. rewrite H1 in H2. apply step_spawned in H2.
  pose proof (Hn 2) as H3. rewrite H2 in H3. apply step_failed in H3.
  pose proof (Hn 3) as H4. rewrite H3 in H4. apply step_reported in H4.
  pose proof (Hn 4) as H5. rewrite H4 in H5. by apply step_handled in H5.
Qed.

(** The first task can move only to its end. *)
Lemma first_task_ends p : actor_step (TheTask 3) restarted p -> p = recovered.
Proof.
  intros H. inversion H; subst; clear H;
    match goal with
    | H : position_of _ _ = _ |- _ => try (vm_compute in H; discriminate H)
    end.
  match goal with
  | H : sy_tasks _ !! _ = Some _ |- _ => vm_compute in H; injection H as <-
  end. by vm_compute.
Qed.

Lemma run_stays r n : runs_from main r -> state_at r n = recovered ->
  forall m, n <= m -> state_at r m = recovered.
Proof.
  intros [_ Hs] Hn m Hm. induction Hm as [|m _ IH]; [done|].
  apply step_recovered. rewrite <- IH. by exists (mover r m).
Qed.

Lemma run_waits r m : runs_from main r -> 5 <= m ->
  state_at r m = restarted \/ state_at r m = recovered.
Proof.
  intros Hr Hm. induction Hm as [|m Hm IH]; [left; by apply run_to_restarted|].
  assert (Hs : program_step (state_at r m) (state_at r (S m))) by (exists (mover r m); apply Hr).
  destruct IH as [E|E]; rewrite E in Hs; [by apply step_restarted|right; by apply step_recovered].
Qed.

(** The first task could always move until it has; when it does, it ends. *)
Lemma fair_run_recovers r : runs_from main r -> fair r -> exists n, state_at r n = recovered.
Proof.
  intros Hr Hfair. destruct (Hfair (TheTask 3) 5) as (m & Hm & Hmv).
  destruct (run_waits r m Hr Hm) as [E|E]; [|by exists m]. exists (S m).
  destruct Hmv as [Hmv|Hno].
  - pose proof (proj2 Hr m) as Hstep. rewrite Hmv, E in Hstep. by apply first_task_ends.
  - destruct Hno. rewrite E. exists recovered. apply restarted_cancelled.
Qed.

(** From then on the second task can always read, and does again and again. *)
Lemma fair_run_listens r n : runs_from main r -> fair r -> state_at r n = recovered ->
  exists m, n <= m /\ mover r m = TheTask 6.
Proof.
  intros Hr Hfair Hn. destruct (Hfair (TheTask 6) n) as (m & Hm & [Hmv|Hno]); [by exists m|].
  destruct Hno. rewrite (run_stays r n Hr Hn m Hm). exists recovered. apply recovered_listens.
Qed.

(** C21: the life of the example.  Whatever the scheduling, the program passes
    through exactly these states in this order: started, the first read fails,
    the error is reported, handled, the component restarted, and then the first
    task is cancelled and returns; a state is left for the next one only, the
    last two also stay as they are while the stream is read, and each has a
    step.  So the failure is handled once, the component is restarted once and
    supervision never ends.  In every endless run whose scheduler is weakly fair
    the last state is reached, is kept for ever, and the second task goes on
    listening in it.  The program is an instance of the supervised system, whose
    theorems hold of it. *)
Theorem stream_example_recovers :
  (forall p, rtc program_step main p -> p ∈ life /\ supervised p) /\
  (forall i p p', life !! i = Some p -> life !! S i = Some p' -> program_step p p') /\
  (forall i p p', life !! i = Some p -> program_step p p' ->
     life !! S i = Some p' \/ (p' = p /\ SHOULD_FAIL (pr_statics p) = false /\ 5 <= i)) /\
  sy_log (pr_system recovered) = [Started 3; Handled missing_something true; Started 6] /\
  (exists t, sy_tasks (pr_system recovered) !! 3 = Some t /\ task_finished t = true) /\
  (exists t, sy_tasks (pr_system recovered) !! 6 = Some t /\ task_finished t = false) /\
  program_step recovered recovered /\
  (forall r, runs_from main r -> fair r -> exists n,
     (forall m, n <= m -> state_at r m = recovered) /\
     (forall k, n <= k -> exists m, k <= m /\ mover r m = TheTask 6)).
Proof.
  split; [|split; [exact life_next|split; [exact life_only|]]].
  - intros p Hp. assert (exists i, life !! i = Some p) as [i Hi].
    { apply rtc_ind_r with (P := fun p => exists i, life !! i = Some p) in Hp as [i Hi].
      - by exists i.
      - by exists 0.
      - intros q q' _ Hs [i Hi]. destruct (life_only i q q' Hi Hs) as [?|[-> _]]; [by exists (S i)|by exists i]. }
    split; [by apply list_elem_of_lookup; exists i|by eapply life_supervised].
  - split_and!; [done|by eexists..| |].
    + exists (TheTask 6). apply recovered_listens.
    + intros r Hr Hfair. destruct (fair_run_recovers r Hr Hfair) as [n Hn]. exists n.
      pose proof (run_stays r n Hr Hn) as Hstay. split; [done|].
      intros k Hk. apply (fair_run_listens r k Hr Hfair). by apply Hstay.
Qed.

(** A fair run: the six steps, and then the second task. *)
Definition ex_run : endless := {|
  state_at n := default recovered (life !! n);
  mover n :=
    match n with
    | 0 | 3 | 4 => TheSupervisor
    | 1 | 2 | 5 => TheTask 3
    | _ => TheTask 6
    end;
|}.

Lemma ex_run_from : runs_from main ex_run.
Proof.
  split; [done|]. intros [|[|[|[|[|[|n]]]]]]; cbn.
  - eapply run_spawn. by vm_compute.
  - apply (task_listen spawned 3 (mkTask 1 2 false) Sending fixed); by vm_compute.
  - apply (task_sends failed 3 (mkTask 1 2 false) (mkChannel [] true true)); try (by vm_compute).
    simpl. unfold CHANNEL_SIZE. lia.
  - eapply (run_select BranchRecv). by vm_compute.
  - eapply run_restart. by vm_compute.
  - apply restarted_cancelled.
  - destruct n; apply recovered_listens.
Qed.

(** In the last state nobody else can move. *)
Lemma recovered_mover a p : actor_step a recovered p -> a = TheTask 6.
Proof.
  intros H. inversion H; subst; clear H;
    repeat match goal with b : branch |- _ => destruct b end;
    try find_task; try done;
    match goal with
    | H : _ = (Ret _, _) |- _ => vm_compute in H; discriminate H
    | H : position_of _ _ = _ |- _ => vm_compute in H; discriminate H
    end.
Qed.

Lemma ex_run_fair : fair ex_run.
Proof.
  intros a n. exists (7 + n). split; [lia|]. destruct (decide (a = TheTask 6)) as [->|Ha]; [by left|].
  right. intros [p Hp]. by apply recovered_mover in Hp.
Qed.

Lemma stream_example_recovers_witness :
  (main ∈ life /\ supervised main) /\ runs_from main ex_run /\ fair ex_run /\
  exists n, forall k, n <= k -> exists m, k <= m /\ mover ex_run m = TheTask 6.
Proof.
  split; [apply (proj1 stream_example_recovers); apply rtc_refl|].
  split; [exact ex_run_from|]. split; [exact ex_run_fair|].
  pose proof stream_example_recovers as H. destruct H as (_ & _ & _ & _ & _ & _ & _ & H).
  destruct (H ex_run ex_run_from ex_run_fair) as (n & _ & Hn). by exists n.
Defined.
