(* ===== verification/NameVariant.v ===== *)
(** * The [NamedVariant] derive macro (name-variant/src/lib.rs)

    The macro writes a method [variant_name] whose match has one arm per variant
    of the enum.  Here are the arms it writes, the meaning of such a match on a
    value of the enum, and that the result is the name of the value's variant. *)
From S2P Require Import Prelude.
Open Scope nat_scope.

(** The part of [syn]'s syntax the macro looks at. *)
Inductive Fields : Type :=
| Unnamed (types : list string)
| Unit
| Named (fields : list (string * string)).

Record Variant : Type := mkVariant {
  variant_ident : string;
  variant_fields : Fields;
}.

Inductive Data : Type :=
| DataEnum (variants : list Variant)
| DataStruct
| DataUnion.

Record DeriveInput : Type := mkDeriveInput {
  input_ident : string;
  input_data : Data;
}.

(** A generated arm: [name::variant(..) => string], [name::variant => string] or
    [name::variant{..} => string]. *)
Inductive fields_pattern : Type := TupleRest | NoPattern | StructRest.

Record arm : Type := mkArm {
  arm_enum : string;
  arm_variant : string;
  arm_fields : fields_pattern;
  arm_string : string;
}.

Definition fields_in_variant (f : Fields) : fields_pattern :=
  match f with
  | Unnamed _ => TupleRest
  | Unit => NoPattern
  | Named _ => StructRest
  end.

Definition match_enum_to_string (name : string) (variants : list Variant) : list arm :=
  map (fun variant =>
    mkArm name (variant_ident variant) (fields_in_variant (variant_fields variant))
      (variant_ident variant)) variants.

(** The generated [impl]: the type and the match of [variant_name]; or a compile
    error. *)
Definition derive_named_variant (input : DeriveInput) : result (string * list arm) string :=
  let name := input_ident input in
  match input_data input with
  | DataEnum variants => Ok (name, match_enum_to_string name variants)
  | _ => Err "NamedVariant is only implemented for enums"
  end.

(** ** The generated method *)

(** A value of an enum: the variant it was built with; what it holds does not
    matter to a pattern that ignores it. *)
Record enum_value : Type := mkEnumValue {
  value_enum : string;
  value_variant : Variant;
}.

(** Whether a pattern is of the form of its variant: the compiler refuses it
    otherwise. *)
Definition pattern_typed (p : fields_pattern) (f : Fields) : bool :=
  match p, f with
  | TupleRest, Unnamed _ | NoPattern, Unit | StructRest, Named _ => true
  | _, _ => false
  end.

Definition arm_matches (a : arm) (v : enum_value) : bool :=
  bool_decide (arm_enum a = value_enum v) &&
  bool_decide (arm_variant a = variant_ident (value_variant v)) &&
  pattern_typed (arm_fields a) (variant_fields (value_variant v)).

(** [match self { arms }]: the first arm that matches. *)
Fixpoint variant_name (arms : list arm) (self : enum_value) : option string :=
  match arms with
  | [] => None
  | a :: arms' => if arm_matches a self then Some (arm_string a) else variant_name arms' self
  end.

(** What rustc requires of the match: each arm names a variant of the enum in
    the form it has, and every variant has an arm. *)
Definition arm_well_typed (name : string) (variants : list Variant) (a : arm) : Prop :=
  arm_enum a = name /\
  exists v, v ∈ variants /\ arm_variant a = variant_ident v /\
    pattern_typed (arm_fields a) (variant_fields v) = true.

Lemma variant_arm_typed f : pattern_typed (fields_in_variant f) f = true.
Proof. by destruct f. Qed.

Lemma variant_name_arms name variants v :
  NoDup (map variant_ident variants) -> v ∈ variants ->
  variant_name (match_enum_to_string name variants) (mkEnumValue name v) = Some (variant_ident v).
Proof.
  induction variants as [|x variants IH]; simpl; [by intros _ ?%elem_of_nil|].
  intros [Hx Hnd]%NoDup_cons [->|Hv]%elem_of_cons; unfold arm_matches; simpl.
  - by rewrite !bool_decide_true, variant_arm_typed.
  - rewrite (bool_decide_false (variant_ident x = variant_ident v)).
    + rewrite andb_false_r. simpl. by apply IH.
    + intros E. apply Hx. rewrite E. by apply list_elem_of_fmap_2.
Qed.

(** the macro is defined on enums only, and the match it writes for one is
    well typed and total: every arm fits the form of its variant, and every
    value of the enum, whatever its variant holds, gets the name its variant is
    declared with. *)
Theorem named_variant_spec (input : DeriveInput) :
  match input_data input with
  | DataEnum variants =>
      NoDup (map variant_ident variants) ->
      exists arms,
        derive_named_variant input = Ok (input_ident input, arms) /\
        Forall (arm_well_typed (input_ident input) variants) arms /\
        forall v, v ∈ variants ->
          variant_name arms (mkEnumValue (input_ident input) v) = Some (variant_ident v)
  | _ => exists e, derive_named_variant input = Err e
  end.
Proof.
  unfold derive_named_variant. destruct (input_data input) as [variants| |]; [|by eexists..].
  intros Hnd. eexists. split; [done|]. split.
  - apply Forall_fmap, Forall_forall. intros v Hv. split; [done|]. exists v.
    split; [done|]. split; [done|]. apply variant_arm_typed.
  - intros v Hv. by apply variant_name_arms.
Qed.
