(* ===== verification/Lints.v ===== *)
(** * The lint command (crates/x: main.rs, lint.rs)

    The workspace's own [cargo xlint]: it parses its command line and runs the
    linters of nexlint over the repository.  clap and nexlint are parameters:
    the linters, the engine and the report of its results.  What is modelled is
    which linters run, with which configuration, and which failure ends the
    command. *)
From S2P Require Import Prelude.

(** What lint.rs takes from nexlint and nexlint-lints, over the state [W] of the
    repository and the terminal. *)
Class Nexlint (W : Type) : Type := {
  Error : Type;                               (* anyhow::Error *)
  ProjectLinter : Type;
  PackageLinter : Type;
  FilePathLinter : Type;
  ContentLinter : Type;
  DirectDepDups_new : list string -> ProjectLinter;      (* the config's [allow] *)
  CrateNamesPaths : PackageLinter;
  IrrelevantBuildDeps : PackageLinter;
  PublishedPackagesDontDependOnUnpublishedPackages : PackageLinter;
  OnlyPublishToCratesIo : PackageLinter;
  CratesInCratesDirectory : PackageLinter;
  CratesOnlyInCratesDirectory : PackageLinter;
  DEFAULT_ALLOWED_PATHS_REGEX : string;
  AllowedPaths_new : string -> result FilePathLinter Error;
  GlobSet : Type;
  build_exceptions : list string -> result GlobSet Error;
  LicenseHeader_new : string -> ContentLinter;
  RootToml : ContentLinter;
  EofNewline_new : GlobSet -> ContentLinter;
  TrailingWhitespace_new : GlobSet -> ContentLinter;
  NexLintContext : Type;
  NexLintContext_from_current_dir : comp W (result NexLintContext Error);
  LintEngineConfig : Type;
  LintEngineConfig_new : NexLintContext -> LintEngineConfig;
  with_project_linters : list ProjectLinter -> LintEngineConfig -> LintEngineConfig;
  with_package_linters : list PackageLinter -> LintEngineConfig -> LintEngineConfig;
  with_file_path_linters : list FilePathLinter -> LintEngineConfig -> LintEngineConfig;
  with_content_linters : list ContentLinter -> LintEngineConfig -> LintEngineConfig;
  with_fail_fast : bool -> LintEngineConfig -> LintEngineConfig;
  LintEngine : Type;
  build : LintEngineConfig -> LintEngine;
  LintResults : Type;
  engine_run : LintEngine -> comp W (result LintResults Error);
  handle_lint_results : LintResults -> comp W (result unit Error);
}.

Section lints.
Context {W : Type} {NL : Nexlint W}.
Abbreviation Error := (Error (W:=W)).

(** ** lint.rs *)

Definition newline : string := String (Ascii.ascii_of_nat 10) "".

Definition LICENSE_HEADER : string :=
  "Copyright (c) 2022, Mysten Labs, Inc." +:+ newline +:+
  "SPDX-License-Identifier: Apache-2.0" +:+ newline.

Record LintArgs : Type := mkLintArgs { fail_fast : bool }.

Definition package_linters : list PackageLinter :=
  [CrateNamesPaths; IrrelevantBuildDeps; PublishedPackagesDontDependOnUnpublishedPackages;
   OnlyPublishToCratesIo; CratesInCratesDirectory; CratesOnlyInCratesDirectory].

Definition content_linters (whitespace_exceptions : GlobSet) : list ContentLinter :=
  [LicenseHeader_new LICENSE_HEADER; RootToml; EofNewline_new whitespace_exceptions;
   TrailingWhitespace_new whitespace_exceptions].

(** The engine of the builder's chain. *)
Definition lint_engine (args : LintArgs) (allowed_paths : FilePathLinter)
    (whitespace_exceptions : GlobSet) (nexlint_context : NexLintContext) : LintEngine :=
  build (with_fail_fast (fail_fast args)
    (with_content_linters (content_linters whitespace_exceptions)
    (with_file_path_linters [allowed_paths]
    (with_package_linters package_linters
    (with_project_linters [DirectDepDups_new []]
    (LintEngineConfig_new nexlint_context)))))).

Definition lint_run (args : LintArgs) : comp W (result unit Error) :=
  allowed_paths <-? ret (AllowedPaths_new DEFAULT_ALLOWED_PATHS_REGEX) ;;
  whitespace_exceptions <-? ret (build_exceptions []) ;;
  nexlint_context <-? NexLintContext_from_current_dir ;;
  results <-? engine_run (lint_engine args allowed_paths whitespace_exceptions nexlint_context) ;;
  handle_lint_results results.

(** ** main.rs *)

Inductive Command : Type := Lint (args : LintArgs).

Record Args : Type := mkArgs { cmd : Command }.

(** [Args::parse()], clap's, gives the arguments or ends the process with a
    status; an error of [main] is printed and the status is 1. *)
Definition main (parse : list string -> Args + Z) (argv : list string) :
    comp W (Z + result unit Error) :=
  match parse argv with
  | inr status => ret (inl status)
  | inl args =>
      r <- (match cmd args with Lint args => lint_run args end) ;;
      ret (inr r)
  end.

(** ** Theorems *)

(** The command succeeds exactly when everything it does succeeds: its patterns
    compile, the workspace loads, the engine with all the linters runs, and its
    results are accepted.  The first failure is the command's, and nothing runs
    after it. *)
Lemma lint_run_ok (args : LintArgs) (w w' : W) :
  lint_run args w = (Ret (Ok tt), w') <->
  exists paths exceptions ctx w1 results w2,
    AllowedPaths_new DEFAULT_ALLOWED_PATHS_REGEX = Ok paths /\
    build_exceptions [] = Ok exceptions /\
    NexLintContext_from_current_dir w = (Ret (Ok ctx), w1) /\
    engine_run (lint_engine args paths exceptions ctx) w1 = (Ret (Ok results), w2) /\
    handle_lint_results results w2 = (Ret (Ok tt), w').
Proof.
  unfold lint_run, try_bind, bind, ret. split.
  - destruct (AllowedPaths_new _) as [paths|e]; [|done].
    destruct (build_exceptions []) as [exceptions|e]; [|done].
    destruct (NexLintContext_from_current_dir w) as [[[ctx|e]|msg] w1]; [|done..].
    destruct (engine_run _ w1) as [[[results|e]|msg] w2] eqn:Hrun; [|done..].
    intros Hh. by exists paths, exceptions, ctx, w1, results, w2.
  - intros (paths & exceptions & ctx & w1 & results & w2 & -> & -> & -> & -> & Hh). exact Hh.
Qed.

(** A bad pattern is reported before anything is read. *)
Lemma lint_run_pattern (args : LintArgs) (w : W) (e : Error) :
  (AllowedPaths_new DEFAULT_ALLOWED_PATHS_REGEX = Err e \/
   (exists paths, AllowedPaths_new DEFAULT_ALLOWED_PATHS_REGEX = Ok paths) /\ build_exceptions [] = Err e) ->
  lint_run args w = (Ret (Err e), w).
Proof.
  unfold lint_run, try_bind, bind, ret. by intros [->|[[paths ->] ->]].
Qed.

End lints.
