(* ===== verification/MemPlatform.v ===== *)
(** * A platform in memory

    A concrete platform whose operations are functions on finite maps.  It
    satisfies the documented behaviour the theorems assume, so the assumptions
    can hold together, and the examples run on it. *)
From stdpp Require Import pretty.
From S2P Require Import Prelude Bytes Platform MetricsData World Sampling Metrics Rocks.
Open Scope nat_scope.

#[export] Instance os_str_eq_dec : EqDecision os_str.
Proof. solve_decision. Defined.
#[export] Instance path_component_eq_dec : EqDecision path_component.
Proof. solve_decision. Defined.

Record mem_options : Type := mkMemOptions {
  mo_write_buffer : Z;
  mo_wal : Z;
  mo_create : bool;
  mo_create_cfs : bool;
  mo_open_files : Z;
}.

Record mem_db : Type := mkMemDb { mem_path : path; mem_contents : contents }.

Definition mem_fs : Type := list (path * contents).

Fixpoint mem_find (p : path) (l : mem_fs) : option contents :=
  match l with
  | [] => None
  | (q, c) :: l' => if decide (p = q) then Some c else mem_find p l'
  end.

Definition mem_list_cf (_ : mem_options) (p : path) (l : mem_fs) : result (list string) string :=
  match mem_find p l with
  | Some c => Ok (map_to_list c).*1
  | None => Err "IO error: No such file or directory"
  end.

Definition mem_open (o : mem_options) (p : path) (cfs : list (string * mem_options)) (l : mem_fs) :
    result mem_db string * mem_fs :=
  match mem_find p l, mo_create o with
  | None, false => (Err "Invalid argument: does not exist (create_if_missing is false)", l)
  | oc, _ =>
      let add (c : contents) (kv : string * mem_options) :=
        if c !! kv.1 is Some _ then c else <[kv.1 := ∅]> c in
      let c := foldl add (<["default" := default ∅ (default ∅ oc !! "default")]> (default ∅ oc)) cfs in
      (Ok (mkMemDb p c), (p, c) :: l)
  end.

Definition mem_update (cf : string) (op : batch_op) (d : mem_db) : result unit string * mem_db :=
  match mem_contents d !! cf with
  | Some _ => (Ok tt, mkMemDb (mem_path d) (apply_op (mem_contents d) op))
  | None => (Err "Invalid column family specified in write batch", d)
  end.

Definition mem_get (d : mem_db) (cf : string) (k : bytes) : result (option bytes) string :=
  match mem_contents d !! cf with
  | Some t => Ok (t !! k)
  | None => Err "Invalid column family"
  end.

Definition mem_current (c : cursor) : option entry := i ← c.2; c.1 !! i.

#[export] Instance mem_platform : Platform := {|
  overflow_checks := false;
  bincode_display := fun e => match e with BkCustom s => s | _ => "bincode error" end;
  registry := gset string;
  prom_register := fun n r =>
    if decide (n ∈ r) then (Err "Duplicate metrics collector registration attempted", r)
    else (Ok tt, {[n]} ∪ r);
  perf_metric := fun _ _ => 0%Z;
  options := mem_options;
  options_default := mkMemOptions 0 0 false false 0;
  set_db_write_buffer_size := fun z o =>
    mkMemOptions z (mo_wal o) (mo_create o) (mo_create_cfs o) (mo_open_files o);
  set_max_total_wal_size := fun z o =>
    mkMemOptions (mo_write_buffer o) z (mo_create o) (mo_create_cfs o) (mo_open_files o);
  create_if_missing := fun b o =>
    mkMemOptions (mo_write_buffer o) (mo_wal o) b (mo_create_cfs o) (mo_open_files o);
  create_missing_column_families := fun b o =>
    mkMemOptions (mo_write_buffer o) (mo_wal o) (mo_create o) b (mo_open_files o);
  set_max_open_files := fun z o =>
    mkMemOptions (mo_write_buffer o) (mo_wal o) (mo_create o) (mo_create_cfs o) z;
  fs := mem_fs;
  db := mem_db;
  list_cf := mem_list_cf;
  open_cf_descriptors := mem_open;
  open_cf_descriptors_as_secondary := fun o p _ cfs l => mem_open o p cfs l;
  tempdir := fun l => (Ok [RootDir; Normal (Utf8 "tmp"); Normal (Utf8 (pretty (length l)))], l);
  db_path := mem_path;
  cf_handle := fun d cf => bool_decide (is_Some (mem_contents d !! cf));
  property_int_value_cf := fun _ _ _ => Ok (Some 0%Z);
  get_memory_usage_stats := fun _ =>
    Ok {| mem_table_total := 0; mem_table_unflushed := 0; mem_table_readers_total := 0;
          cache_total := 0 |}%Z;
  key_may_exist_cf := fun d cf k => bool_decide (is_Some ((mem_contents d !!! cf) !! k));
  get_pinned_cf := mem_get;
  multi_get_cf := fun d ks => map (fun ck => mem_get d ck.1 ck.2) ks;
  put_cf := fun cf k v => mem_update cf (BatchPut cf k v);
  delete_cf := fun cf k => mem_update cf (BatchDelete cf k);
  write_batch := fun ops d => (Ok tt, mkMemDb (mem_path d) (apply_ops (mem_contents d) ops));
  batch_size_in_bytes := fun ops => (12 + Z.of_nat (length ops))%Z;
  drop_cf := fun cf d => (Ok tt, mkMemDb (mem_path d) (delete cf (mem_contents d)));
  create_cf := fun cf _ d =>
    match mem_contents d !! cf with
    | Some _ => (Err "Invalid argument: Column family already exists", d)
    | None => (Ok tt, mkMemDb (mem_path d) (<[cf := ∅]> (mem_contents d)))
    end;
  db_try_catch_up_with_primary := fun d => (Ok tt, d);
  raw_iter := cursor;
  raw_iterator_cf := fun d cf => (entries (mem_contents d !!! cf), None);
  seek_to_first := fun c => (c.1, valid_pos c.1 0);
  seek_to_last := fun c => (c.1, match length c.1 with O => None | S n => Some n end);
  seek := fun k c => (c.1, valid_pos c.1 (first_ge k c.1));
  seek_for_prev := fun k c =>
    (c.1, match length (filter (fun x : entry => bytes_le x.1 k) c.1) with
          | O => None | S n => Some n end);
  raw_next := fun c => match c.2 with Some i => (c.1, valid_pos c.1 (S i)) | None => c end;
  raw_prev := fun c => match c.2 with Some (S i) => (c.1, Some i) | _ => (c.1, None) end;
  raw_valid := fun c => bool_decide (is_Some c.2);
  raw_key := fun c => fst <$> mem_current c;
  raw_value := fun c => snd <$> mem_current c;
|}.

Lemma mem_update_frame cf op r d d' :
  (exists f, apply_op (mem_contents d) op = alter f cf (mem_contents d)) ->
  mem_update cf op d = (r, d') ->
  delete cf (mem_contents d') = delete cf (mem_contents d) /\
  (is_Some (mem_contents d !! cf) -> is_Some (mem_contents d' !! cf)).
Proof.
  intros [f Hf]. unfold mem_update. destruct (mem_contents d !! cf) eqn:Hcf; intros [= _ <-];
    [|by rewrite Hcf]. simpl. rewrite Hf. split.
  - by rewrite delete_alter_eq.
  - intros _. by rewrite lookup_alter_eq, Hcf.
Qed.

#[export] Program Instance mem_rocks_laws : RocksLaws :=
  {| db_contents := (mem_contents : db -> _); iter_cursor := fun c : raw_iter => c |}.
Next Obligation. intros d cf. simpl. by rewrite bool_decide_eq_true. Qed.
Next Obligation.
  intros d cf k. simpl. rewrite bool_decide_eq_false. apply eq_None_not_Some.
Qed.
Next Obligation.
  intros d cf k r _. simpl. unfold mem_get. rewrite lookup_total_alt.
  destruct (mem_contents d !! cf); simpl; congruence.
Qed.
Next Obligation. done. Qed.
Next Obligation.
  intros cf k v d d'. simpl. unfold mem_update. destruct (_ !! cf); [|done]. by intros [= <-].
Qed.
Next Obligation.
  intros cf k d d'. simpl. unfold mem_update. destruct (_ !! cf); [|done]. by intros [= <-].
Qed.
Next Obligation. intros cf k v r d d'. simpl. apply mem_update_frame. by eexists. Qed.
Next Obligation. intros cf k r d d'. simpl. apply mem_update_frame. by eexists. Qed.
Next Obligation. intros ops d d'. simpl. by intros [= <-]. Qed.
Next Obligation. done. Qed.
Next Obligation. intros cf d r d'. simpl. intros [= <- <-]. simpl. by rewrite delete_delete_eq. Qed.
Next Obligation.
  intros cf o d d'. simpl. destruct (_ !! cf); [done|]. by intros [= <-].
Qed.
Next Obligation.
  intros cf o d d' e. simpl. destruct (_ !! cf); [by intros [= _ <-]|done].
Qed.
Next Obligation.
  intros o p descs f d f' name opt. simpl. unfold mem_open.
  assert (forall descs (c : contents), (name, opt) ∈ descs \/ is_Some (c !! name) ->
    is_Some (foldl (fun (c : contents) (kv : string * mem_options) =>
      if c !! kv.1 is Some _ then c else <[kv.1 := ∅]> c) c descs !! name)) as Hall.
  { clear. induction descs as [|[n o] descs IH]; intros c Hc; simpl.
    - destruct Hc as [Hc|Hc]; [by apply not_elem_of_nil in Hc|done].
    - apply IH. destruct Hc as [Hc|Hc].
      + apply elem_of_cons in Hc as [[= -> ->]|Hc]; [right|by left].
        destruct (c !! n) eqn:Hn; [by rewrite Hn|rewrite lookup_insert_eq; by eexists].
      + right. destruct (c !! n) eqn:Hn; [done|].
        rewrite lookup_insert_ne; [done|]. intros ->. rewrite Hn in Hc. by destruct Hc. }
  intros Hopen Hin. apply bool_decide_eq_true.
  destruct (mem_find p f), (mo_create o); try discriminate Hopen;
    injection Hopen as <- <-; simpl; apply Hall; by left.
Qed.
Next Obligation. done. Qed.
Next Obligation. done. Qed.
Next Obligation. done. Qed.
Next Obligation. done. Qed.
Next Obligation. done. Qed.
Next Obligation. intros it i Hi. simpl in *. by rewrite Hi. Qed.
Next Obligation. intros it i Hi. simpl in *. rewrite Hi. by destruct i. Qed.
Next Obligation. done. Qed.
Next Obligation. intros [l [i|]]; done. Qed.
Next Obligation. intros [l [i|]]; done. Qed.

#[export] Program Instance mem_prom_laws : PromLaws :=
  {| registered := fun r : registry => (r : gset string) |}.
Next Obligation.
  intros n r Hn. simpl. rewrite decide_False by done. by eexists.
Qed.
Next Obligation.
  intros n r Hn. simpl. rewrite decide_True by done. by eexists.
Qed.

(** ** Cells: a type whose encoding is its bytes and can fail *)

Definition cell : Type := option bytes.
#[export] Instance cell_eq_dec : EqDecision cell := _.
#[export] Instance cell_countable : Countable cell := _.

Definition cell_ser (c : cell) : result bytes bincode_error :=
  match c with Some ((_ :: _) as b) => Ok b | _ => Err BkSizeLimit end.
Definition cell_de (b : bytes) : result cell bincode_error :=
  match b with [] => Err (BkCustom "empty cell") | _ => Ok (Some b) end.

#[export] Instance cell_serde : Serde cell :=
  {| ser_key := cell_ser; de_key := cell_de; ser_val := cell_ser; de_val := cell_de |}.

Lemma cell_round_trip c b : cell_ser c = Ok b -> cell_de b = Ok c.
Proof. destruct c as [[|x l]|]; intros [=]; by subst. Qed.

#[export] Instance cell_laws : SerdeLaws cell.
Proof. split; apply cell_round_trip. Qed.

(** ** A world with one open database *)

Definition b1 : bytes := [Byte.x01].
Definition b2 : bytes := [Byte.x02].
Definition b3 : bytes := [Byte.x03].

Definition ex_table : gmap bytes bytes := <[b1 := b2]> (<[b3 := b1]> ∅).
(** The value of the first key does not deserialize. *)
Definition bad_table : gmap bytes bytes := <[b1 := []]> (<[b3 := b1]> ∅).

Definition ex_path : path := [RootDir; Normal (Utf8 "data")].
Definition ex_db : db :=
  mkMemDb ex_path (<["t" := ex_table]> (<["bad" := bad_table]> (<["default" := ∅]> ∅))).

Definition ex_env : gmap string os_str := <[ENV_VAR_DB_WAL_SIZE := Utf8 "64"]> ∅.

Definition ex_world : World :=
  mkWorld ([(ex_path, mem_contents ex_db)] : fs) ex_env (<[0 := ex_db]> ∅) 10 ∅
    (<[default_registry := (∅ : registry)]> ∅) (Some db_handles) [] [].

Definition ex_interval : SamplingInterval := mkSamplingInterval (from_secs 60) 0 5.

Definition ex_map (cf : string) : DBMap cell cell :=
  mkDBMap 0 cf db_handles ex_interval ex_interval ex_interval ex_interval 9.
