(* ===== verification/Witnesses.v ===== *)
(** * The theorems at work on a concrete store

    Each statement applies one theorem of the library on the in-memory
    platform, where its hypotheses hold by evaluation. *)
From stdpp Require Import pretty.
From S2P Require Import Prelude Bytes Platform MetricsData World Sampling Metrics Errors Traits Rocks RocksIter RocksMap RocksSpec MapTheorems BatchTheorems IterTheorems MapContract Derive DeriveTheorems Store StoreTheorems MemPlatform Component ComponentTheorems.
Open Scope nat_scope.

Lemma ex_interval_ok : sampling_ok ex_interval.
Proof. by left. Qed.

Lemma ex_open (c : string) :
  is_Some (mem_contents ex_db !! c) -> open_at (ex_map c) ex_world ex_db.
Proof.
  intros Hc. split_and!; [by repeat split; apply ex_interval_ok|done|].
  simpl. by apply bool_decide_eq_true.
Qed.

Lemma ex_open_t : open_at (ex_map "t") ex_world ex_db.
Proof. apply ex_open. eexists. reflexivity. Qed.

Lemma ex_open_bad : open_at (ex_map "bad") ex_world ex_db.
Proof. apply ex_open. eexists. reflexivity. Qed.

Definition ex_dflt : DBOptions := mkDBOptions (mkMemOptions (512 * 2 ^ 20) (64 * 2 ^ 20) false false 0).

Lemma ex_default_options : default_db_options ex_world = (Ret ex_dflt, ex_world).
Proof. reflexivity. Qed.

(** ** Maps *)

Lemma insert_get_roundtrip_witness :
  open_at (ex_map "t") ex_world ex_db /\
  exists r w', (before <-? DBMap_get (ex_map "t") (Some b2) ;;
    _ <-? DBMap_insert (ex_map "t") (Some b2) (Some b3) ;;
    after <-? DBMap_get (ex_map "t") (Some b2) ;;
    ret (Ok (before, after))) ex_world = (Ret r, w') /\
  forall before after, r = Ok (before, after) -> after = Some (Some b3).
Proof.
  split; [apply ex_open_t|].
  destruct (insert_get_roundtrip (ex_map "t") ex_world ex_db (Some b2) (Some b2) (Some b3) ex_open_t)
    as (r & Hr & H).
  eexists r, _. split; [rewrite <- Hr; apply surjective_pairing|].
  intros before after Hba. by apply (H before after Hba).
Defined.

Lemma DBMap_get_spec_witness :
  open_at (ex_map "t") ex_world ex_db /\
  exists r, (DBMap_get (ex_map "t") (Some b1) ex_world).1 = Ret r.
Proof.
  split; [apply ex_open_t|].
  destruct (DBMap_get_spec (ex_map "t") ex_world ex_db (Some b1) ex_open_t) as (_ & r & Hr & _).
  by exists r.
Defined.

Lemma DBMap_insert_spec_witness :
  open_at (ex_map "t") ex_world ex_db /\
  exists d', same_store (put_db 0 d' ex_world)
    (DBMap_insert (ex_map "t") (Some b2) (Some b3) ex_world).2.
Proof.
  split; [apply ex_open_t|].
  destruct (DBMap_insert_spec (ex_map "t") ex_world ex_db (Some b2) (Some b3) ex_open_t)
    as (d' & Hs & _).
  by exists d'.
Defined.

Lemma DBMap_remove_spec_witness :
  open_at (ex_map "t") ex_world ex_db /\
  exists d', same_store (put_db 0 d' ex_world) (DBMap_remove (ex_map "t") (Some b1) ex_world).2.
Proof.
  split; [apply ex_open_t|].
  destruct (DBMap_remove_spec (ex_map "t") ex_world ex_db (Some b1) ex_open_t) as (d' & Hs & _).
  by exists d'.
Defined.

Lemma DBMap_contains_key_spec_witness :
  open_at (ex_map "bad") ex_world ex_db /\
  exists r, (DBMap_contains_key (ex_map "bad") (Some b1) ex_world).1 = Ret r.
Proof.
  split; [apply ex_open_bad|].
  destruct (DBMap_contains_key_spec (ex_map "bad") ex_world ex_db (Some b1) ex_open_bad)
    as (_ & r & Hr & _).
  by exists r.
Defined.

(** The partial function the example table stands for. *)
Definition ex_model (k : cell) : option cell :=
  match k with Some kb => (fun vb => Some vb) <$> ex_table !! kb | None => None end.

Lemma ex_models : DBMap_models (ex_map "t") ex_world ex_model.
Proof.
  exists ex_db. split; [apply ex_open_t|].
  change (table (ex_map "t") ex_db) with ex_table. split.
  - intros kb vb Hl. unfold ex_model. exists (Some kb), (Some vb).
    rewrite Hl. unfold ex_table in Hl.
    apply lookup_insert_Some in Hl as [[<- <-]|[_ Hl]]; [done|].
    apply lookup_insert_Some in Hl as [[<- <-]|[_ Hl]]; [done|]. by rewrite lookup_empty in Hl.
  - intros [kb|] v; [|done]. unfold ex_model. intros (vb & Hl & ->)%fmap_Some.
    exists kb, vb. unfold ex_table in Hl |- *. rewrite Hl.
    apply lookup_insert_Some in Hl as [[<- <-]|[_ Hl]]; [done|].
    apply lookup_insert_Some in Hl as [[<- <-]|[_ Hl]]; [done|]. by rewrite lookup_empty in Hl.
Qed.

Lemma get_or_insert_unsafe_DBMap_witness :
  DBMap_models (ex_map "t") ex_world ex_model /\
  exists r, (get_or_insert_unsafe (ex_map "t") (Some b2) (ret (Some b3)) ex_world).1 = Ret r /\
    forall x, r = Ok x -> x = Some b3.
Proof.
  split; [apply ex_models|].
  destruct (get_or_insert_unsafe_DBMap (ex_map "t") ex_world ex_model (Some b2) (Some b3) ex_models)
    as (r & Hr & H).
  exists r. split; [done|]. intros x Hx. by destruct (H x Hx) as [-> _].
Defined.

(** ** Batches *)

Definition ex_batch : DBBatch :=
  mkDBBatch 0 [BatchPut "t" b2 b3; BatchDelete "bad" b1] db_handles ex_interval.

Lemma DBBatch_write_atomic_witness :
  w_dbs ex_world !! 0 = Some ex_db /\
  exists d', same_store (put_db 0 d' ex_world) (DBBatch_write ex_batch ex_world).2.
Proof.
  split; [done|].
  destruct (DBBatch_write_atomic ex_batch ex_world ex_db ex_interval_ok eq_refl) as (d' & Hs & _).
  by exists d'.
Defined.

Lemma batch_cross_db_witness :
  0 <> 1 /\
  insert_batch (mkDBBatch 1 [] db_handles ex_interval) (ex_map "t") [(Some b1, Some b2)] ex_world
    = (Ret (Err CrossDBBatch), ex_world).
Proof.
  split; [done|].
  apply (batch_cross_db (mkDBBatch 1 [] db_handles ex_interval) (ex_map "t")
    [(Some b1, Some b2)] [] None None ex_world). done.
Defined.

Lemma multi_insert_equiv_witness :
  open_at (ex_map "t") ex_world ex_db /\
  (DBMap_multi_insert (ex_map "t") [(Some b1, Some b3); (Some b1, Some b1)] ex_world).1 = Ret (Ok tt) /\
  exists d1 d2,
    w_dbs (DBMap_multi_insert (ex_map "t") [(Some b1, Some b3); (Some b1, Some b1)] ex_world).2 !! 0
      = Some d1 /\
    w_dbs (multi_insert_default (ex_map "t") [(Some b1, Some b3); (Some b1, Some b1)] ex_world).2 !! 0
      = Some d2 /\
    db_contents d1 = db_contents d2.
Proof.
  split; [apply ex_open_t|]. split; [by vm_compute|].
  apply (multi_insert_equiv (ex_map "t") ex_world ex_db [(Some b1, Some b3); (Some b1, Some b1)]
    ex_open_t); by vm_compute.
Defined.

Lemma multi_insert_all_or_nothing_witness :
  open_at (ex_map "t") ex_world ex_db /\
  (DBMap_multi_insert (ex_map "t") [(Some b1, Some b3); (None, Some b1)] ex_world).1
    = Ret (Err (SerializationError "bincode error")).
Proof.
  split; [apply ex_open_t|].
  apply (multi_insert_all_or_nothing (ex_map "t") ex_world ex_db [(Some b1, Some b3)] []
    (None, Some b1) [BatchPut "t" b1 b3] (SerializationError "bincode error") ex_open_t);
    reflexivity.
Defined.

Lemma multi_get_equiv_witness :
  open_at (ex_map "t") ex_world ex_db /\
  exists r, wp (DBMap_multi_get (ex_map "t") [Some b1; Some b2])
    (fun o w' => o = Ret r /\ same_store ex_world w') ex_world.
Proof.
  split; [apply ex_open_t|].
  destruct (multi_get_equiv (ex_map "t") ex_world ex_db [Some b1; Some b2] ex_open_t)
    as (r & _ & Hr & _).
  by exists r.
Defined.

Lemma delete_range_write_spec_witness :
  open_at (ex_map "t") ex_world ex_db /\
  exists d', same_store (put_db 0 d' ex_world)
    ((b <-? delete_range (DBMap_batch (ex_map "t")) (ex_map "t") (Some b1) (Some b2) ;;
      DBBatch_write b) ex_world).2.
Proof.
  split; [apply ex_open_t|].
  destruct (delete_range_write_spec (ex_map "t") ex_world ex_db (Some b1) (Some b2) ex_open_t)
    as (d' & Hs & _).
  by exists d'.
Defined.

Lemma clear_spec_witness :
  open_at (ex_map "t") ex_world ex_db /\
  exists d', same_store (put_db 0 d' ex_world) (DBMap_clear (ex_map "t") ex_world).2.
Proof.
  split; [apply ex_open_t|].
  destruct (clear_spec (ex_map "t") ex_world ex_db ex_dflt ex_open_t ex_default_options)
    as (d' & Hs & _).
  by exists d'.
Defined.

(** ** Iteration *)

Lemma ex_ser_b2 : ser_key (Some b2 : cell) = Ok b2.
Proof. reflexivity. Qed.

Lemma iter_yields_sorted_witness :
  open_at (ex_map "t") ex_world ex_db /\ length (rows (ex_map "t") ex_db) < 3 /\
  ((it <- DBMap_iter (ex_map "t") ;; drain Iter_next 3 it) ex_world).1 =
    Ret (Some [(Some b1, Some b2); (Some b3, Some b1)]).
Proof.
  split; [apply ex_open_t|]. split; [by vm_compute; lia|].
  destruct (iter_yields_sorted (ex_map "t") ex_world ex_db 3 ex_open_t) as ([_ ->] & _).
  { by vm_compute; lia. }
  by vm_compute.
Defined.

Lemma skip_to_spec_witness :
  open_at (ex_map "t") ex_world ex_db /\
  exists it, Iter_skip_to (first_iter (ex_map "t") ex_db) (Some b2) = Ok it /\
    (drain Iter_next 3 it ex_world).1 = Ret (Some [(Some b3, Some b1)]).
Proof.
  split; [apply ex_open_t|].
  destruct (skip_to_spec (ex_map "t") ex_world ex_db (Some b2) b2 3 ex_open_t ex_ser_b2)
    as (it & Hit & _ & Hr).
  { by vm_compute; lia. }
  exists it. split; [done|]. rewrite Hr. by vm_compute.
Defined.

Lemma skip_prior_to_reverse_witness :
  open_at (ex_map "t") ex_world ex_db /\
  exists it, Iter_skip_prior_to (first_iter (ex_map "t") ex_db) (Some b2) = Ok it /\
    (drain RevIter_next 3 (Iter_reverse it) ex_world).1 = Ret (Some [(Some b1, Some b2)]).
Proof.
  split; [apply ex_open_t|].
  destruct (skip_prior_to_reverse (ex_map "t") ex_world ex_db (Some b2) b2 3 ex_open_t ex_ser_b2)
    as (it & Hit & _ & Hr).
  { by vm_compute; lia. }
  exists it. split; [done|]. rewrite Hr. by vm_compute.
Defined.

Lemma reverse_spec_witness :
  open_at (ex_map "t") ex_world ex_db /\
  ((it <- DBMap_iter (ex_map "t") ;; drain RevIter_next 3 (Iter_reverse it)) ex_world).1 =
    Ret (Some [(Some b1, Some b2)]).
Proof.
  split; [apply ex_open_t|].
  destruct (reverse_spec (ex_map "t") ex_world ex_db 3 ex_open_t) as (_ & _ & ->).
  { by vm_compute; lia. }
  by vm_compute.
Defined.

Lemma keys_values_agree_witness :
  open_at (ex_map "t") ex_world ex_db /\
  ((it <- DBMap_keys (ex_map "t") ;; drain Keys_next 3 it) ex_world).1 = Ret (Some [Some b1; Some b3]).
Proof.
  split; [apply ex_open_t|].
  destruct (keys_values_agree (ex_map "t") ex_world ex_db [(Some b1, Some b2); (Some b3, Some b1)] 3
    ex_open_t) as ([_ ->] & _).
  { vm_compute. by repeat constructor. }
  { by vm_compute; lia. }
  by vm_compute.
Defined.

Lemma is_empty_spec_witness :
  open_at (ex_map "bad") ex_world ex_db /\
  (DBMap_is_empty (ex_map "bad") ex_world).1 = Ret true.
Proof.
  split; [apply ex_open_bad|].
  destruct (is_empty_spec (ex_map "bad") ex_world ex_db ex_open_bad) as (_ & b & -> & H).
  f_equal. apply H. right. eexists _, _. split; by vm_compute.
Defined.

(** ** The store actor over the example map *)

Definition c1 : cell := Some b1.
Definition c2 : cell := Some b2.
Definition c3 : cell := Some b3.

Definition ex_store : store_system (T:=DBMap cell cell) (K:=cell) (V:=cell) := Store_new ex_world.

(** A reader of an absent key waits; a write answers it. *)
Definition ex_waiting : obligations cell := <[c2 := [7; 8]]> ∅.

Lemma store_replies_once_witness :
  store_reachable 5 (ex_map "t") ex_world (serve 5 (ex_map "t") ex_store) /\
  NoDup (st_replies (serve 5 (ex_map "t") ex_store)).*1.
Proof.
  assert (store_reachable 5 (ex_map "t") ex_world (serve 5 (ex_map "t") ex_store)) as Hr.
  { eapply reach_step; [apply reach_new|]. apply step_serve. }
  split; [exact Hr|]. exact (proj1 (store_replies_once 5 (ex_map "t") ex_world _ Hr)).
Defined.


Lemma write_notifies_fifo_witness :
  DBMap_models (ex_map "t") ex_world ex_model /\
  (handle 5 (ex_map "t") ex_waiting (Write c2 c3 None) ex_world).1 =
    Ret (delete c2 ex_waiting,
         [(7, ReadReply (Ok (Some c3))); (8, ReadReply (Ok (Some c3)))]).
Proof.
  split; [apply ex_models|].
  destruct (write_notifies_fifo (MapLaws0:=DBMap_MapLaws) (ex_map "t") ex_waiting c2 c3 None ex_world ex_model 5
    ex_models) as (r & Hr).
  destruct r as [[]|e]; [destruct Hr as [_ Hr]; rewrite Hr; reflexivity|].
  apply (f_equal (fun o => match o with Ret (_, out) => length out | _ => 0 end)) in Hr.
  vm_compute in Hr. discriminate Hr.
Defined.

Lemma write_all_notifies_none_witness :
  DBMap_models (ex_map "t") ex_world ex_model /\
  exists obl' out,
    (handle 5 (ex_map "t") ex_waiting (WriteAll [(c2, c3)] 9) ex_world).1 = Ret (obl', out) /\
    (8, ReadReply (Ok None)) ∈ out.
Proof.
  split; [apply ex_models|].
  destruct (write_all_notifies_none (MapLaws0:=DBMap_MapLaws) (ex_map "t") ex_waiting [(c2, c3)] 9 c2 8 [7; 8]
    ex_world ex_model 5 ex_models) as (obl' & out & Ho & Hin & _).
  - by vm_compute.
  - by left.
  - reflexivity.
  - by right; left.
  - exists obl', out. by split.
Defined.

Lemma store_hides_errors_witness :
  (remove (ex_map "t") (None : cell) ex_world).1 = Ret (Err (SerializationError "bincode error")) /\
  (handle 5 (ex_map "t") (<[None : cell := [7]]> ∅) (Delete None) ex_world).1 =
    Ret (delete (None : cell) (<[None := [7]]> ∅), [(7, ReadReply (Ok None))]).
Proof.
  split; [reflexivity|].
  destruct (store_hides_errors (ex_map "t") (<[None : cell := [7]]> ∅) None 3 ex_world 5) as [H _].
  by rewrite (H (SerializationError "bincode error") (remove (ex_map "t") (None : cell) ex_world).2).
Defined.

(** ** Opening *)

Definition ex_options : options := mkMemOptions 0 0 false false 0.

Definition ex_asked : list (string * options) := [("t"%string, mkMemOptions 1 2 false false 3)].

Lemma open_cf_opts_covers_witness :
  NoDup ex_asked.*1 /\
  exists descs, NoDup descs.*1 /\
    open_cf_opts ex_path (Some ex_options) ex_asked ex_world =
      opened ex_world (open_cf_descriptors
        (create_missing_column_families true (create_if_missing true ex_options))
        ex_path descs (w_fs ex_world)).
Proof.
  assert (NoDup ex_asked.*1) as Hnd by (apply (bool_decide_unpack _); by vm_compute).
  split; [done|].
  destruct (open_cf_opts_covers ex_path ex_options ex_asked ex_world
    ex_dflt Hnd ex_default_options) as (descs & Hd & _ & H).
  exists descs. split; [exact Hd|exact H].
Defined.

Lemma open_cf_opts_secondary_covers_witness :
  NoDup ex_asked.*1 /\
  exists descs, NoDup descs.*1 /\
    open_cf_opts_secondary ex_path None (Some ex_options) ex_asked ex_world =
      opened (emit_pure FdLimitRaised ex_world)
        (open_cf_descriptors_as_secondary
          (create_missing_column_families true
            (create_if_missing true (set_max_open_files (-1) ex_options)))
          ex_path (path_push (path_pop ex_path) "SECONDARY") descs (w_fs ex_world)).
Proof.
  assert (NoDup ex_asked.*1) as Hnd by (apply (bool_decide_unpack _); by vm_compute).
  split; [done|].
  destruct (open_cf_opts_secondary_covers ex_path None ex_options
    ex_asked ex_world ex_dflt Hnd ex_default_options) as (descs & Hd & _ & H).
  exists descs. split; [exact Hd|exact H].
Defined.

Lemma DBMap_reopen_spec_witness :
  w_dbs ex_world !! 0 = Some ex_db /\ w_once ex_world = Some db_handles /\
  DBMap_reopen (K:=cell) (V:=cell) 0 (Some "none"%string) ex_world =
    (Ret (Err (UnregisteredColumn "none")), ex_world).
Proof.
  split; [done|]. split; [done|].
  apply (DBMap_reopen_spec (K:=cell) (V:=cell) 0 (Some "none"%string) ex_world ex_db db_handles);
    reflexivity.
Defined.

Lemma read_size_from_env_roundtrip_witness :
  w_env ex_world !! ENV_VAR_DB_WAL_SIZE = Some (Utf8 (pretty 64%N)) /\
  read_size_from_env ENV_VAR_DB_WAL_SIZE ex_world = (Ret (Some 64%Z), ex_world).
Proof.
  split; [reflexivity|].
  apply (read_size_from_env_roundtrip ENV_VAR_DB_WAL_SIZE 64 ex_world); [reflexivity|].
  by vm_compute.
Defined.

Lemma default_db_options_sizes_witness :
  default_db_options ex_world =
    (Ret (mkDBOptions (mkMemOptions (512 * 2 ^ 20) (64 * 2 ^ 20) false false 0)), ex_world).
Proof.
  destruct (default_db_options_sizes ex_world) as [H _]. rewrite H; [reflexivity|].
  split; reflexivity.
Defined.

Lemma report_metrics_gauges_witness :
  w_dbs ex_world !! 0 = Some ex_db /\
  (report_metrics 0 "t" db_handles ex_world).1 = Ret tt.
Proof.
  split; [done|].
  destruct (report_metrics_gauges 0 "t" db_handles ex_world ex_db eq_refl eq_refl) as [H _].
  rewrite H; [done|]. intros p v. simpl. intros [= <-]. by vm_compute.
Defined.

(** ** The derive macro *)

Definition ex_field (name : string) (attrs : list Attribute) : Field :=
  mkField (Some name) attrs (TypePath [("DBMap"%string, AngleBracketed ["u32"; "String"])]).

Definition ex_attr : Attribute :=
  mkAttribute DB_OPTIONS_CUSTOM_FUNCTION
    (Ok (MetaNameValue DB_OPTIONS_CUSTOM_FUNCTION (LitStr "my_options"))).

Lemma extract_struct_info_spec_witness :
  extract_struct_info [ex_field "a" []; ex_field "b" [ex_attr]] ["DBMap"; "Store"] tt =
    (Ret (["a"; "b"], [["u32"; "String"]; ["u32"; "String"]],
          [GeneralTableOptions_default; OverrideFunction "my_options"], "DBMap"%string), tt).
Proof.
  apply (extract_struct_info_spec [ex_field "a" []; ex_field "b" [ex_attr]] ["DBMap"; "Store"]
    ["a"; "b"] [["u32"; "String"]; ["u32"; "String"]]
    [GeneralTableOptions_default; OverrideFunction "my_options"] "DBMap").
  split; [done|]. split; [by left|].
  exists [("a"%string, ["u32"; "String"], GeneralTableOptions_default);
     ("b"%string, ["u32"; "String"], OverrideFunction "my_options")].
  split; [|done]. repeat constructor; try (by eexists); by exists "my_options"%string.
Defined.

Definition ex_debug (c : cell) : string := match c with Some [b] => String (Ascii.ascii_of_byte b) "" | _ => "" end.

Definition ex_hash : option (KeyHash cell) := Some (mkKeyHash cell cell_eq_dec cell_countable).

Definition ex_tables : list Table :=
  [mkTable "t" cell cell cell_serde cell_serde ex_hash ex_debug ex_debug "Cell" "Cell" default_db_options].

Definition ex_open_table : OpenTable := mkOpenTable (mkTable "t" cell cell cell_serde cell_serde ex_hash ex_debug ex_debug
  "Cell" "Cell" default_db_options) (ex_map "t").

Lemma ex_ready : ready [ex_open_table] "t" ex_open_table ex_world ex_db ex_db.
Proof. split; [done|apply ex_open_t|done|]. apply ex_open_t. Qed.

Lemma dump_pages_witness :
  ready [ex_open_table] "t" ex_open_table ex_world ex_db ex_db /\
  (dump [ex_open_table] "t" 1 1 ex_world).1 =
    Ret (Ok (collect_btree (map (shown ex_open_table) (page (items ex_open_table ex_db) 1 1)))).
Proof.
  split; [apply ex_ready|].
  destruct (dump_pages [ex_open_table] "t" ex_open_table ex_world ex_db ex_db 1 1 ex_ready)
    as [[_ H] _]; [done|done|done|]. exact H.
Defined.

Lemma count_keys_spec_witness :
  ready [ex_open_table] "t" ex_open_table ex_world ex_db ex_db /\
  (count_keys 3 [ex_open_table] "t" ex_world).1 = Ret (Ok 2%Z).
Proof.
  split; [apply ex_ready|].
  destruct (count_keys_spec [ex_open_table] "t" ex_open_table ex_world ex_db ex_db 3 ex_ready)
    as [_ ->]; [by vm_compute; lia|]. by vm_compute.
Defined.

Lemma open_tables_spec_witness :
  map_m (table_options None) ex_tables ex_world = (Ret [("t"%string, db_opts ex_dflt)], ex_world) /\
  exists descs opt, ("t"%string, opt) ∈ descs /\
    match open_cf_descriptors (create_missing_column_families true (create_if_missing true ex_options))
            ex_path descs (w_fs ex_world) with
    | (Ok d, _) => exists ots w',
        open_tables_read_write ex_tables ex_path (Some ex_options) None ex_world = (Ret ots, w')
    | (Err e, _) =>
        (open_tables_read_write ex_tables ex_path (Some ex_options) None ex_world).1
          = Panicked "Cannot open DB."
    end.
Proof.
  split; [reflexivity|].
  destruct (open_tables_spec ex_tables ex_path ex_options None ex_world ex_dflt
    [("t"%string, db_opts ex_dflt)] db_handles ex_default_options) as (descs & Hdescs & H).
  - reflexivity.
  - reflexivity.
  - apply NoDup_singleton.
  - reflexivity.
  - destruct (Hdescs (ot_table ex_open_table)) as [opt Hopt]; [by left|].
    exists descs, opt. split; [exact Hopt|].
    destruct (open_cf_descriptors _ ex_path descs (w_fs ex_world)) as [[d|e] fs']; [|exact H].
    destruct H as (ots & w' & H & _). exists ots, w'. exact H.
Defined.

Open Scope Z_scope.
(** ** Sampling and metrics *)

Lemma timed_hits_bounded_witness :
  sampler_run 5 0 sampler_init [Sampled false; Loaded; Stored; Sampled true] (mkSampler 1 Asleep) /\
  (count_label is_hit [Sampled false; Loaded; Stored; Sampled true] <= 1)%Z.
Proof.
  assert (sampler_run 5 0 sampler_init [Sampled false; Loaded; Stored; Sampled true]
    (mkSampler 1 Asleep)) as Hrun.
  { apply (run_snoc _ _ _ [Sampled false; Loaded; Stored] (mkSampler 0 Asleep));
      [|by apply (step_sample 5 0 (mkSampler 0 Asleep))].
    apply (run_snoc _ _ _ [Sampled false; Loaded] (mkSampler 2 AtStore)); [|constructor].
    apply (run_snoc _ _ _ [Sampled false] (mkSampler 2 AtLoad)); [|apply (step_load 5 0 2)].
    apply (run_snoc _ _ _ [] sampler_init); [constructor|].
    by apply (step_sample 5 0 sampler_init). }
  split; [done|]. apply (timed_hits_bounded 5 0 _ _ ltac:(done) Hrun). by vm_compute.
Defined.

Lemma counted_rate_witness :
  (0 <= 2 < u64_modulus - 1)%Z /\
  exists bs w', (s <- SamplingInterval_new 0 2 ;; samples s 7%nat) ex_world = (Ret bs, w') /\
    Z.of_nat (length (filter (fun b => b = true) bs)) = 2%Z.
Proof. split; [by vm_compute|]. apply (counted_rate 2 7%nat ex_world); split || idtac; by vm_compute. Defined.

Lemma sample_panics_iff_witness :
  u64 (u64_modulus - 1) /\
  exists msg, (sample (mkSamplingInterval 0 (u64_modulus - 1) 5%nat) ex_world).1 = Panicked msg.
Proof.
  split; [by vm_compute|].
  apply (sample_panics_iff (mkSamplingInterval 0 (u64_modulus - 1) 5%nat) ex_world); by vm_compute.
Defined.

(** A world in which the metrics are not initialised yet. *)
Definition fresh_world : World :=
  mkWorld ([] : fs) ∅ ∅ 10%nat ∅ (<[default_registry := (∅ : registry)]> ∅) None [] [].

Lemma DBMetrics_init_once_witness :
  w_once fresh_world = None /\
  exists w', DBMetrics_init default_registry fresh_world = (Ret db_handles, w') /\
    DBMetrics_get w' = (Ret db_handles, w').
Proof.
  split; [done|].
  destruct (DBMetrics_init_once fresh_world default_registry (∅ : registry) eq_refl eq_refl)
    as (w' & H & _ & _ & _ & Hget).
  { intros n _. simpl. apply not_elem_of_empty. }
  exists w'. split; [exact H|exact Hget].
Defined.

Lemma DBMetrics_new_twice_panics_witness :
  w_registries fresh_world !! default_registry = Some (∅ : registry) /\
  exists e w', (DBMetrics_new default_registry ;; DBMetrics_new default_registry) fresh_world
    = (Panicked e, w').
Proof.
  split; [done|].
  apply (DBMetrics_new_twice_panics fresh_world default_registry (∅ : registry) eq_refl).
  intros n _. simpl. apply not_elem_of_empty.
Defined.

(** ** The supervisor: a component that gives up after two failures *)

Definition limited (n : nat) (m : Report) : result unit Report * nat :=
  if (n <? 2)%nat then (Ok tt, S n) else (Err m, n).

#[local] Instance limited_manageable : Manageable nat := {| handle_irrecoverable := limited |}.

Definition ex_new : Supervisor (Mg:=nat) := mkSupervisor 0 None None 0%nat.

Definition ex_new_sys : System := (Supervisor_new 0%nat System_init).2.

(** Its task is started and then ends. *)
Definition ex_running : Supervisor (Mg:=nat) := restarted ex_new ex_new_sys.

Definition ex_ended_sys : System :=
  Component.set_tasks {[ 3%nat := mkTask 1 2 true ]} (restarted_sys ex_new ex_new_sys).

Lemma ex_reachable : reachable 0%nat (Running ex_running, ex_ended_sys).
Proof.
  eapply (rtc_l _ _ (Running ex_running, restarted_sys ex_new ex_new_sys)).
  - apply step_spawn, spawn_eq.
  - apply rtc_once, (step_task 3).
    exact (task_finish 3 (restarted_sys ex_new ex_new_sys) (mkTask 1 2 false) eq_refl).
Qed.

Lemma supervisor_invariant_witness :
  reachable 0%nat (Running ex_running, ex_ended_sys) /\
  exists h0 hs, sy_log ex_ended_sys = life h0 hs.
Proof.
  split; [exact ex_reachable|].
  destruct (supervisor_invariant 0%nat (Running ex_running) ex_ended_sys ex_reachable)
    as (h0 & hs & H & _).
  exists h0, hs. exact H.
Defined.

Lemma supervisor_restarts_witness :
  offered ex_running ex_ended_sys unexpected_shutdown /\
  exists b sy1, select b ex_running ex_ended_sys = (Ret (Some unexpected_shutdown), sy1).
Proof.
  assert (H : offered ex_running ex_ended_sys unexpected_shutdown).
  { left. exists 3%nat, (mkTask 1 2 true). split_and!; reflexivity. }
  split; [exact H|].
  destruct (proj2 (supervisor_restarts 0%nat ex_running ex_ended_sys unexpected_shutdown ex_reachable) H)
    as (b & sy1 & Hs & _).
  exists b, sy1. exact Hs.
Defined.
