(* ===== verification/GroupWitnesses.v ===== *)
(** * Instances of the theorems on several tables and stores

    Two stores over two families of the platform in memory. *)
From S2P Require Import Prelude Bytes Platform MetricsData World Sampling Metrics Errors Traits Rocks RocksIter RocksMap RocksSpec MapTheorems BatchTheorems IterTheorems MapContract Isolation Derive DeriveTheorems Store StoreTheorems StoreGroup MemPlatform Witnesses.
Open Scope nat_scope.

Lemma ex_apart : apart (ex_map "t") (ex_map "bad").
Proof. by intros [_ ?]. Qed.

Lemma tables_isolated_witness :
  open_at (ex_map "t") ex_world ex_db /\
  exists d1, open_at (ex_map "bad") (run_op (ex_map "t") (OpInsert c1 c3) ex_world).2 d1 /\
    table (ex_map "bad") d1 = bad_table.
Proof.
  split; [apply ex_open_t|].
  destruct (tables_isolated (ex_map "t") (ex_map "bad") (OpInsert c1 c3) ex_world ex_db ex_db
    ex_open_t ex_open_bad ex_apart) as (d1 & Ho & Ht); [discriminate|].
  exists d1. split; [exact Ho|]. rewrite Ht. reflexivity.
Defined.

(** ** A struct of two stores *)

Definition two_family (i : bool) : string := if i then "t" else "default".

Definition two_field (i : bool) : StoreField :=
  mkStoreField
    (mkOpenTable (mkTable (two_family i) cell cell cell_serde cell_serde ex_hash ex_debug ex_debug
       "Cell" "Cell" default_db_options) (ex_map (two_family i)))
    (mkKeyHash cell cell_eq_dec cell_countable).

Lemma two_opened : opened_struct two_field ex_world.
Proof.
  split.
  - intros i. exists ex_db. destruct i; [exact ex_open_t|]. apply ex_open. by eexists.
  - intros [] [] Hne [_ Hc]; by try done.
Qed.

Definition move_first (g : Stores two_field) (s : field_store (two_field false)) : Stores two_field :=
  mkStores two_field (st_world s)
    (fun i => match i with true => ss_store two_field g true | false => s end).

Definition move_second (g : Stores two_field) (s : field_store (two_field true)) : Stores two_field :=
  mkStores two_field (st_world s)
    (fun i => match i with true => s | false => ss_store two_field g false end).

Lemma moves_first (R : field_store (two_field false) -> field_store (two_field false) -> Prop) g s :
  R (view two_field g false) s -> moves two_field false R g (move_first g s).
Proof. intros HR. split_and!; [done..|]. by intros []. Qed.

Lemma moves_second (R : field_store (two_field true) -> field_store (two_field true) -> Prop) g s :
  R (view two_field g true) s -> moves two_field true R g (move_second g s).
Proof. intros HR. split_and!; [done..|]. by intros []. Qed.

Definition two_new : Stores two_field := new_stores two_field ex_world.
(** One store is asked to write and does. *)
Definition two_asked : Stores two_field :=
  move_first two_new (sync_write c2 c3 (view two_field two_new false)).2.
Definition two_written : Stores two_field :=
  move_first two_asked (serve 5 (ex_map "default") (view two_field two_asked false)).
(** The other is asked to read and does. *)
Definition two_reading : Stores two_field :=
  move_second two_written (read c1 (view two_field two_written true)).2.
Definition two_read : Stores two_field :=
  move_second two_reading (serve 5 (ex_map "t") (view two_field two_reading true)).

Definition two_turns : list (turn (two_field true)) :=
  turn_of 5 (two_field true) (view two_field two_reading true).

Lemma two_run : run two_field ex_world true two_read two_turns.
Proof.
  apply (run_serve two_field ex_world true 5 two_reading two_read []);
    [|by apply (moves_second (fun s s' => s' = serve 5 (sf_map (two_field true)) s))].
  apply (run_client two_field ex_world true two_written two_reading).
  2: { apply moves_second. eapply (step_call _ _ (read c1)); [constructor|vm_compute; lia|reflexivity]. }
  apply (run_elsewhere two_field ex_world true false 5 two_asked); [|done|].
  2: { apply (moves_first (store_step 5 (sf_map (two_field false)))). apply step_serve. }
  apply (run_elsewhere two_field ex_world true false 5 two_new); [constructor|done|].
  apply (moves_first (store_step 5 (sf_map (two_field false)))). apply step_client.
  eapply (step_call _ _ (sync_write c2 c3)); [constructor|vm_compute; lia|reflexivity].
Qed.

Lemma one_read_accepted (l : list (turn (two_field true))) :
  match l with [tn] => tn_command _ tn = Read c1 0 | _ => False end ->
  Forall (accepted two_field true) l.
Proof.
  destruct l as [|tn [|]]; [done| |done]. intros Hc. apply Forall_singleton.
  unfold accepted. by rewrite Hc.
Qed.

Lemma two_accepted : Forall (accepted two_field true) two_turns.
Proof. apply one_read_accepted. vm_compute. reflexivity. Qed.

Lemma two_alive : st_alive (ss_store two_field two_read true) = true.
Proof. vm_compute. reflexivity. Qed.

Lemma struct_stores_atomic_witness :
  opened_struct two_field ex_world /\
  DBMap_models (ex_map "t") (ss_world two_field two_read) ex_model.
Proof.
  split; [exact two_opened|].
  destruct (struct_stores_atomic two_field true ex_world ex_model two_read two_turns two_opened
    ex_models two_run) as (_ & _ & H).
  exact (proj1 (proj2 (H two_accepted) two_alive)).
Defined.

Lemma open_stores_spec_witness :
  default_db_options ex_world = (Ret ex_dflt, ex_world) /\
  exists descs : list (string * options),
    match open_cf_descriptors (create_missing_column_families true (create_if_missing true ex_options))
            ex_path descs (w_fs ex_world) with
    | (Ok d, _) => exists fields w',
        open_stores_read_write ex_tables ex_path (Some ex_options) None ex_world =
          (Ret (Some (mkStoreStruct fields (new_stores (field_at fields) w'))), w') /\
        map (fun f => ot_table (sf_table f)) fields = ex_tables
    | (Err _, _) => (open_stores_read_write ex_tables ex_path (Some ex_options) None ex_world).1
          = Panicked "Cannot open DB."
    end.
Proof.
  split; [exact ex_default_options|].
  destruct (open_stores_spec ex_tables ex_path ex_options None ex_world ex_dflt
    [("t"%string, db_opts ex_dflt)] db_handles ex_default_options) as (descs & H).
  - reflexivity.
  - reflexivity.
  - apply NoDup_singleton.
  - reflexivity.
  - apply Forall_singleton. by eexists.
  - exists descs. destruct (open_cf_descriptors _ ex_path descs (w_fs ex_world)) as [[d|e] fs']; [|exact H].
    destruct H as (fields & w' & H1 & H2 & _). exists fields, w'. split; [exact H1|exact H2].
Defined.
