(* ===== verification/LifeWitnesses.v ===== *)
(** * Instances of the theorems on lives and threads

    A store that is asked once and released, a map whose metrics task reports
    and ends, two threads that race, an iterator whose table is cleared. *)
From S2P Require Import Prelude Bytes Platform MetricsData World Sampling Metrics Errors Traits Rocks MetricsTask RocksIter RocksMap RocksSpec MapTheorems BatchTheorems IterTheorems MapContract Isolation Threads Store StoreTheorems StoreHistory StoreGroup StoreLife MemPlatform Witnesses.
Open Scope nat_scope.

(** ** A store *)

Abbreviation cell_life := (store_life (T:=DBMap cell cell) (K:=cell) (V:=cell)).

Definition life_asked : store_system (T:=DBMap cell cell) (K:=cell) (V:=cell) := (read c1 ex_store).2.

(** Asked, dropped by its only holder, served, ended. *)
Definition ex_life (n : nat) : cell_life :=
  match n with
  | 0 => store_started ex_world
  | 1 => mkLife life_asked 1
  | 2 => mkLife life_asked 0
  | 3 => mkLife (serve 5 (ex_map "t") life_asked) 0
  | _ => mkLife (task_returned (serve 5 (ex_map "t") life_asked)) 0
  end.

Lemma ex_life_serves : task_step (covers_table (ex_map "t")) (ex_map "t") (ex_life 2) (ex_life 3).
Proof.
  apply (task_serve _ _ 5 life_asked 0); [reflexivity|discriminate|].
  intros d Hd. injection Hd as <-. change (2 < 5). lia.
Qed.

Lemma ex_life_ends : task_step (covers_table (ex_map "t")) (ex_map "t") (ex_life 3) (ex_life 4).
Proof. apply (task_return _ _ (serve 5 (ex_map "t") life_asked)); vm_compute; reflexivity. Qed.

Lemma ex_life_run : life_run (covers_table (ex_map "t")) (ex_map "t") ex_life.
Proof.
  intros [|[|[|[|n]]]].
  - left. apply (holder_call ex_store life_asked 1); [lia|].
    eapply (step_call _ _ (read c1)); [constructor|vm_compute; lia|reflexivity].
  - left. apply (holder_drop life_asked 0).
  - right; left. exact ex_life_serves.
  - right; left. exact ex_life_ends.
  - right; right. reflexivity.
Qed.

Lemma ex_life_fair : task_fair (covers_table (ex_map "t")) (ex_map "t") ex_life.
Proof.
  intros n. exists (4 + n). split; [lia|]. right. intros [Hal _].
  revert Hal. change (false = true -> False). discriminate.
Qed.

Lemma store_answers_and_ends_witness :
  (Read c1 0 : StoreCommand (K:=cell) (V:=cell)) ∈ st_queue (lf_system (ex_life 2)) /\
  exists m, 2 <= m /\ 0 ∈ (st_replies (lf_system (ex_life m))).*1.
Proof.
  assert ((Read c1 0 : StoreCommand (K:=cell) (V:=cell)) ∈ st_queue (lf_system (ex_life 2))) as Hq
    by (vm_compute; left).
  split; [exact Hq|].
  destruct (store_answers_and_ends (ex_map "t") ex_life ex_world (ex_intro _ ex_db ex_open_t)
    eq_refl ex_life_run ex_life_fair) as (_ & H & _ & _).
  exact (H 2 (Read c1 0) 0 Hq eq_refl (list_elem_of_here 0 [])).
Defined.

(** ** A history *)

(** A client asks for an absent key and waits, another writes it. *)
Definition hist_waits := (notify_read c2 ex_store).2.
Definition hist_parked := serve 5 (ex_map "t") hist_waits.
Definition hist_writes := (sync_write c2 c3 hist_parked).2.
Definition hist_told := serve 5 (ex_map "t") hist_writes.

Definition ex_history : list (event (T:=DBMap cell cell) (K:=cell) (V:=cell)) :=
  (([Called (NotifyRead c2 0)] ++ map (uncurry Answered) (turn_replies 5 (ex_map "t") hist_waits))
    ++ [Called (Write c2 c3 (Some 1))])
  ++ map (uncurry Answered) (turn_replies 5 (ex_map "t") hist_writes).

Lemma ex_history_ok : history (MapLaws0:=DBMap_MapLaws) (ex_map "t") ex_world hist_told ex_history.
Proof.
  apply history_serve; [|vm_compute; reflexivity].
  apply (history_call _ _ hist_parked); [|eapply (step_call _ _ (sync_write c2 c3));
    [constructor|vm_compute; lia|reflexivity]|reflexivity].
  apply history_serve; [|vm_compute; reflexivity].
  apply (history_call _ _ ex_store _ _ []); [constructor| |reflexivity].
  eapply (step_call _ _ (notify_read c2)); [constructor|vm_compute; lia|reflexivity].
Qed.

(** The waiting reader is told the value first. *)
Example ex_history_answers : (answers ex_history).*1 = [0; 1].
Proof. vm_compute. reflexivity. Qed.

Lemma store_linearizable_witness :
  DBMap_models (ex_map "t") ex_world ex_model /\
  exists lin, calls ex_history = lin ++ st_queue hist_told /\
    DBMap_models (ex_map "t") (st_world hist_told) (StoreHistory.after ex_model lin).
Proof.
  split; [exact ex_models|].
  destruct (store_linearizable (MapLaws0:=DBMap_MapLaws) (ex_map "t") ex_world ex_model hist_told
    ex_history ex_models ex_history_ok) as (_ & lin & Hc & _ & Hm).
  exists lin. split; [exact Hc|exact (Hm eq_refl)].
Defined.

(** ** A metrics task *)

(** The only clone is dropped during a report. *)
Definition ex_reporting : map_life := mkMapLife ex_world 0 0 Reporting.

Lemma ex_reporting_run : rtc (life_move 0 "t" db_handles) (map_started ex_world 0) ex_reporting.
Proof.
  eapply rtc_l; [right; by apply metrics_tick|].
  eapply rtc_l; [left; apply (owner_drop_map 0 ex_world 0 0 Reporting)|]. apply rtc_refl.
Qed.

Lemma metrics_task_life_witness :
  0 < owners ex_reporting /\ is_Some (w_dbs (ml_world ex_reporting) !! 0) /\
  exists k l', k <= 2 /\ nsteps (metrics_step 0 "t" db_handles) k ex_reporting l' /\
    ml_task l' = Returned /\ w_dbs (ml_world l') !! 0 = None.
Proof.
  destruct (metrics_task_life 0 "t" db_handles ex_world 0 ex_reporting
    (ex_intro _ ex_db eq_refl) ex_reporting_run) as (Ho & _ & H).
  assert (0 < owners ex_reporting) as H0 by (vm_compute; lia).
  split; [exact H0|]. split; [exact (proj1 Ho H0)|].
  destruct (H eq_refl) as (k & l' & Hk & Hs & Ht & _ & Hd).
  exists k, l'. split; [exact Hk|]. split; [exact Hs|]. split; [exact Ht|]. exact (proj2 Hd eq_refl).
Defined.

(** ** Threads *)

Definition race_threads : list (cell * cell) := [(c2, c1); (c2, c3)].

(** Both read before either writes. *)
Definition race_schedule : list nat := [0; 1; 0; 0; 0; 1; 1; 1].

Definition race_end :=
  interleave race_schedule (get_or_insert_pool (ex_map "t") race_threads, ex_world).

Lemma get_or_insert_concurrent_witness :
  DBMap_models (ex_map "t") ex_world ex_model /\
  exists o, race_end.1 !! 1 = Some (Ended o).
Proof.
  split; [exact ex_models|].
  destruct (get_or_insert_concurrent (MapLaws0:=DBMap_MapLaws) (ex_map "t") ex_world ex_model
    race_threads race_schedule ex_models) as [H _].
  apply (H 1); vm_compute; lia.
Defined.

(** The value or the panic a thread has ended with. *)
Definition ended_with (p : thread (result cell TypedStoreError)) : option (cell + string) :=
  match p with
  | Ended (Ret (Ok x)) => Some (inl x)
  | Ended (Panicked msg) => Some (inr msg)
  | _ => None
  end.

(** Two callers on one key may get different values, each its own default. *)
Example get_or_insert_race : map ended_with race_end.1 = [Some (inl c1); Some (inl c3)].
Proof. vm_compute. reflexivity. Qed.

(** Next to a thread that removes the key, the [expect] may fire. *)
Definition removing : list (thread (result cell TypedStoreError)) :=
  [get_or_insert_calls (ex_map "t") c2 (ret c1);
   Calls (remove (ex_map "t") c2) (fun _ => Ended (Ret (Ok c2)))].

Example get_or_insert_panics_beside_remove :
  map ended_with (interleave [0; 0; 0; 1; 0] (removing, ex_world)).1 =
    [Some (inr "default just inserted"%string); Some (inl c2)].
Proof. vm_compute. reflexivity. Qed.

(** The table is cleared before the first item is asked for. *)
Definition clearing : list (World -> World) :=
  [(fun w => (DBMap_clear (ex_map "t") w).2); id; id].

Lemma iter_is_snapshot_witness :
  length (rows (ex_map "t") ex_db) < length clearing /\
  wp (it <- DBMap_iter (ex_map "t") ;; drain_among Iter_next clearing it)
    (fun o _ => o = Ret (Some (decode_prefix decode_entry (rows (ex_map "t") ex_db)))) ex_world.
Proof.
  assert (length (rows (ex_map "t") ex_db) < length clearing) as Hlen by (vm_compute; lia).
  split; [exact Hlen|].
  exact (iter_is_snapshot (ex_map "t") ex_world ex_db clearing ex_open_t Hlen).
Defined.
