(* ===== verification/Codecs.v ===== *)
(** * Codecs of the types the repository's tests store

    [Serde] instances for [i32], [u32], [u8], [String] and [Vec<u8>], after the
    format bincode documents: fixed-width integers, big-endian in keys and
    little-endian in values, and a length of eight bytes before a sequence.  A
    key that is read must end with its bytes; a value may be followed by more.
    Each instance keeps the round-trip law. *)
From coqutil Require Import Byte Word.LittleEndianList.
From S2P Require Import Prelude Bytes Platform.
Open Scope Z_scope.

(** ** Integers as bytes *)

Definition le_bytes (n : nat) (z : Z) : bytes := le_split n z.
Definition of_le (b : bytes) : Z := le_combine b.
Definition be_bytes (n : nat) (z : Z) : bytes := reverse (le_split n z).
Definition of_be (b : bytes) : Z := le_combine (reverse b).

(** Read [n] bytes; what follows them. *)
Definition split_at (n : nat) (b : bytes) : option (bytes * bytes) :=
  if decide (n <= length b)%nat then Some (take n b, drop n b) else None.

Lemma split_at_app n x y : length x = n -> split_at n (x ++ y) = Some (x, y).
Proof.
  intros <-. unfold split_at. rewrite length_app, decide_True by lia.
  by rewrite take_app_length, drop_app_length.
Qed.

Lemma be_bytes_length n z : length (be_bytes n z) = n.
Proof. unfold be_bytes. by rewrite length_reverse, length_le_split. Qed.

Lemma of_be_bytes n z : of_be (be_bytes n z) = z mod 2 ^ (Z.of_nat n * 8).
Proof. unfold of_be, be_bytes. by rewrite reverse_involutive, le_combine_split. Qed.

Lemma of_le_bytes n z : of_le (le_bytes n z) = z mod 2 ^ (Z.of_nat n * 8).
Proof. apply le_combine_split. Qed.

(** Big-endian bytes of one length compare as the integers do: the reason keys
    are written so. *)
Lemma bytes_compare_snoc a b x y :
  length a = length b ->
  bytes_compare (a ++ [x]) (b ++ [y]) =
    match bytes_compare a b with Eq => N.compare (Byte.to_N x) (Byte.to_N y) | c => c end.
Proof.
  revert b. induction a as [|c a IH]; intros [|d b] Hlen; try discriminate; simpl.
  - by destruct (N.compare (Byte.to_N x) (Byte.to_N y)).
  - destruct (N.compare (Byte.to_N c) (Byte.to_N d)); [|reflexivity..]. apply IH. by injection Hlen.
Qed.

Lemma byte_of_Z_compare x y :
  N.compare (Byte.to_N (byte.of_Z x)) (Byte.to_N (byte.of_Z y)) = (x mod 2 ^ 8 ?= y mod 2 ^ 8).
Proof.
  pose proof (byte.unsigned_of_Z x) as Hx. pose proof (byte.unsigned_of_Z y) as Hy.
  unfold byte.wrap in *. rewrite <- Hx, <- Hy. unfold byte.unsigned. by rewrite N2Z.inj_compare.
Qed.

Lemma le_split_S n z : le_split (S n) z = byte.of_Z z :: le_split n (Z.shiftr z 8).
Proof. reflexivity. Qed.

Lemma be_bytes_order n x y :
  0 <= x < 2 ^ (Z.of_nat n * 8) -> 0 <= y < 2 ^ (Z.of_nat n * 8) ->
  bytes_compare (be_bytes n x) (be_bytes n y) = (x ?= y).
Proof.
  unfold be_bytes. revert x y. induction n as [|n IH]; intros x y Hx Hy.
  - simpl in *. assert (x = 0) as -> by lia. assert (y = 0) as -> by lia. done.
  - rewrite !le_split_S, !reverse_cons, bytes_compare_snoc by by rewrite !length_reverse, !length_le_split.
    rewrite !Z.shiftr_div_pow2 by lia.
    replace (Z.of_nat (S n) * 8) with (Z.of_nat n * 8 + 8) in * by lia.
    rewrite Z.pow_add_r in Hx, Hy by lia.
    rewrite IH by (split; [apply Z.div_pos; lia|apply Z.div_lt_upper_bound; lia]).
    rewrite byte_of_Z_compare.
    change (2 ^ 8) with 256 in *.
    destruct (Z.compare_spec (x / 256) (y / 256)), (Z.compare_spec x y); try done;
      try destruct (Z.compare_spec (x mod 256) (y mod 256)); try done;
      exfalso; Z.div_mod_to_equations; lia.
Qed.

(** The errors bincode answers to too few and too many bytes. *)
Definition eof : bincode_error := BkIo "failed to fill whole buffer".
Definition trailing : bincode_error := BkCustom "Slice had bytes remaining after deserialization".

(** What a type's reader leaves must be empty in a key, and is ignored in a value. *)
Definition strict {T} (r : result (T * bytes) bincode_error) : result T bincode_error :=
  res_bind r (fun p => if p.2 is [] then Ok p.1 else Err trailing).
Definition lenient {T} (r : result (T * bytes) bincode_error) : result T bincode_error :=
  map_ok fst r.

(** The two encodings of integers. *)
Inductive endian : Type := Big | Little.

Definition put_int (e : endian) (n : nat) (z : Z) : bytes :=
  match e with Big => be_bytes n z | Little => le_bytes n z end.

Definition get_int (e : endian) (n : nat) (b : bytes) : result (Z * bytes) bincode_error :=
  match split_at n b with
  | Some (x, rest) => Ok (match e with Big => of_be x | Little => of_le x end, rest)
  | None => Err eof
  end.

Lemma get_put_int e n z rest :
  0 <= z < 2 ^ (Z.of_nat n * 8) -> get_int e n (put_int e n z ++ rest) = Ok (z, rest).
Proof.
  intros Hz. unfold get_int. rewrite split_at_app.
  - destruct e; simpl; [rewrite of_be_bytes|rewrite of_le_bytes]; by rewrite Z.mod_small.
  - destruct e; [apply be_bytes_length|apply length_le_split].
Qed.

(** ** Types by a writer and a reader, one for each encoding *)

Class Codec (T : Type) : Type := {
  put : endian -> T -> result bytes bincode_error;
  take_one : endian -> bytes -> result (T * bytes) bincode_error;
  take_put e t b rest : put e t = Ok b -> take_one e (b ++ rest) = Ok (t, rest);
}.

#[export] Instance codec_serde {T} `{!Codec T} : Serde T := {|
  ser_key := put Big;
  de_key b := strict (take_one Big b);
  ser_val := put Little;
  de_val b := lenient (take_one Little b);
|}.

#[export] Instance codec_laws {T} `{!Codec T} : SerdeLaws T.
Proof.
  split; intros t b Hb; simpl; rewrite <- (app_nil_r b);
    by erewrite take_put by exact Hb.
Qed.

(** [u8], [u32], [i32] and [u64] as the integers in their range. *)
Record int_type : Type := mkIntType { width : nat; signed : bool }.
Definition modulus (t : int_type) : Z := 2 ^ (Z.of_nat (width t) * 8).
Definition int_min (t : int_type) : Z := if signed t then - (modulus t / 2) else 0.
Definition int_max (t : int_type) : Z := int_min t + modulus t.

Record int (t : int_type) : Type := mkInt { int_val : Z }.
Arguments mkInt {t} int_val.
Arguments int_val {t}.

#[export] Instance int_eq_dec t : EqDecision (int t).
Proof. intros [x] [y]. destruct (decide (x = y)) as [->|]; [left|right]; congruence. Defined.
#[export] Instance int_countable t : Countable (int t).
Proof. by refine (inj_countable' int_val mkInt _); intros []. Defined.

Definition put_fixed (t : int_type) (e : endian) (x : int t) : result bytes bincode_error :=
  if decide (int_min t <= int_val x < int_max t) then
    Ok (put_int e (width t) (int_val x mod modulus t))
  else Err (BkCustom "no such integer").

Definition from_unsigned (t : int_type) (z : Z) : int t :=
  mkInt (if z <? int_max t then z else z - modulus t).

Definition take_fixed (t : int_type) (e : endian) (b : bytes) :
    result (int t * bytes) bincode_error :=
  map_ok (fun zr : Z * bytes => (from_unsigned t zr.1, zr.2)) (get_int e (width t) b).

Lemma from_unsigned_mod t x :
  int_min t <= x < int_max t -> from_unsigned t (x mod modulus t) = mkInt x.
Proof.
  unfold from_unsigned, int_max, int_min. intros Hx.
  assert (0 < modulus t) as Hm by (unfold modulus; lia).
  assert (0 <= modulus t / 2 <= modulus t).
  { split; [apply Z.div_pos; lia|]. apply Z.div_le_upper_bound; lia. }
  f_equal. destruct (Z.le_gt_cases 0 x) as [H0|H0].
  - assert (x < modulus t) by (destruct (signed t); lia).
    rewrite Z.mod_small by lia. by rewrite (proj2 (Z.ltb_lt _ _)) by lia.
  - destruct (signed t); [|lia].
    rewrite <- (Z.mod_unique x (modulus t) (-1) (x + modulus t)) by lia.
    rewrite (proj2 (Z.ltb_ge _ _)) by lia. lia.
Qed.

#[export] Program Instance int_codec t : Codec (int t) :=
  {| put := put_fixed t; take_one := take_fixed t |}.
Next Obligation.
  intros t e [x] b rest. unfold put_fixed, take_fixed. case_decide as Hx; [|done].
  intros [= <-]. simpl in *. rewrite get_put_int by (apply Z.mod_pos_bound; unfold modulus; lia).
  simpl. by rewrite from_unsigned_mod.
Qed.

Definition U8 : int_type := mkIntType 1 false.
Definition U32 : int_type := mkIntType 4 false.
Definition I32 : int_type := mkIntType 4 true.
Abbreviation u8 := (int U8).
Abbreviation u32 := (int U32).
Abbreviation i32 := (int I32).
Definition U64 : int_type := mkIntType 8 false.
(** On a machine of 64 bits. *)
Abbreviation usize := (int U64).

(** [Vec<u8>] and [String]: a length, then the bytes. *)
Definition put_slice (e : endian) (b : bytes) : result bytes bincode_error :=
  if decide (Z.of_nat (length b) < 2 ^ 64) then
    Ok (put_int e 8 (Z.of_nat (length b)) ++ b)
  else Err BkSizeLimit.

Definition take_slice (e : endian) (b : bytes) : result (bytes * bytes) bincode_error :=
  res_bind (get_int e 8 b) (fun nr => ok_or (split_at (Z.to_nat nr.1) nr.2) eof).

Lemma take_put_slice e b out rest : put_slice e b = Ok out -> take_slice e (out ++ rest) = Ok (b, rest).
Proof.
  unfold put_slice. case_decide as Hlen; [|done]. intros [= <-]. unfold take_slice.
  rewrite <- (assoc_L _). rewrite get_put_int by lia. simpl.
  by rewrite Nat2Z.id, split_at_app.
Qed.

Record Vec_u8 : Type := mkVec_u8 { vec_bytes : bytes }.
#[export] Instance Vec_u8_eq_dec : EqDecision Vec_u8.
Proof. solve_decision. Defined.
#[export] Instance Vec_u8_countable : Countable Vec_u8.
Proof. by refine (inj_countable' vec_bytes mkVec_u8 _); intros []. Defined.

#[export] Program Instance Vec_u8_codec : Codec Vec_u8 := {|
  put e v := put_slice e (vec_bytes v);
  take_one e b := map_ok (fun x : bytes * bytes => (mkVec_u8 x.1, x.2)) (take_slice e b);
|}.
Next Obligation. intros e [v] b rest H. by erewrite take_put_slice by exact H. Qed.

(** Strings as the bytes of their UTF-8 form: the tests read only what they wrote. *)
#[export] Program Instance string_codec : Codec string := {|
  put e s := put_slice e (String.list_byte_of_string s);
  take_one e b :=
    map_ok (fun x : bytes * bytes => (String.string_of_list_byte x.1, x.2)) (take_slice e b);
|}.
Next Obligation.
  intros e s b rest H. cbn in H |- *. erewrite take_put_slice by exact H. simpl.
  by rewrite String.string_of_list_byte_of_string.
Qed.

(** The layout on concrete inputs. *)
Example i32_key : ser_key (mkInt 456 : i32) = Ok [Byte.x00; Byte.x00; Byte.x01; Byte.xc8].
Proof. reflexivity. Qed.

Example i32_minus_one_key : ser_key (mkInt (-1) : i32) = Ok [Byte.xff; Byte.xff; Byte.xff; Byte.xff].
Proof. reflexivity. Qed.

Example string_val :
  ser_val "456" =
    Ok [Byte.x03; Byte.x00; Byte.x00; Byte.x00; Byte.x00; Byte.x00; Byte.x00; Byte.x00;
        Byte.x34; Byte.x35; Byte.x36].
Proof. reflexivity. Qed.

(** Keys of an unsigned type are kept in the order of their numbers; those of
    [i32] are too on each side of zero, but the negative ones come last. *)
Lemma int_key_order t x y bx by_ :
  ser_key (mkInt x : int t) = Ok bx -> ser_key (mkInt y : int t) = Ok by_ ->
  bytes_compare bx by_ = (x mod modulus t ?= y mod modulus t).
Proof.
  simpl. unfold put_fixed. simpl. case_decide; [|done]. intros [= <-].
  case_decide; [|done]. intros [= <-].
  apply be_bytes_order; apply Z.mod_pos_bound; unfold modulus; lia.
Qed.

Lemma u32_key_order (x y : Z) bx by_ :
  ser_key (mkInt x : u32) = Ok bx -> ser_key (mkInt y : u32) = Ok by_ ->
  bytes_lt bx by_ <-> x < y.
Proof.
  intros Hx Hy. unfold bytes_lt. rewrite (int_key_order _ _ _ _ _ Hx Hy).
  simpl in Hx, Hy. unfold put_fixed in Hx, Hy. simpl in Hx, Hy.
  destruct (decide (int_min U32 <= x < int_max U32)) as [Hrx|]; [|done].
  destruct (decide (int_min U32 <= y < int_max U32)) as [Hry|]; [|done].
  unfold int_max, int_min in Hrx, Hry. simpl in Hrx, Hry.
  by rewrite !Z.mod_small by lia.
Qed.

Example i32_negative_keys_last :
  (ser_key (mkInt (-1) : i32), ser_key (mkInt 1 : i32)) =
    (Ok [Byte.xff; Byte.xff; Byte.xff; Byte.xff], Ok [Byte.x00; Byte.x00; Byte.x00; Byte.x01]) /\
  bytes_lt [Byte.x00; Byte.x00; Byte.x00; Byte.x01] [Byte.xff; Byte.xff; Byte.xff; Byte.xff].
Proof. by vm_compute. Qed.
