(* ===== verification/Assertions.v ===== *)
(** * What the repository's tests assert with

    The macros and methods of a Rust test, in a program over any state: an
    assertion that fails is a panic, and a test passes when it ends without
    one. *)
From S2P Require Import Prelude.

Section assertions.
Context {W : Type}.

Definition assert (b : bool) : comp W unit := when (negb b) (panic "assertion failed").
Definition assert_eq {A} `{!EqDecision A} (x y : A) : comp W unit :=
  assert (bool_decide (x = y)).
Definition unwrap_option {A} (o : option A) : comp W A :=
  expect "called `Option::unwrap()` on a `None` value" o.
Definition unwrap_result {A E} (r : result A E) : comp W A :=
  unwrap "called `Result::unwrap()` on an `Err` value" r.

(** A test run from a state. *)
Definition passes_from (w : W) (test : comp W unit) : bool :=
  match (test w).1 with Ret _ => true | Panicked _ => false end.

End assertions.

(** Evaluate a list of tests. *)
Ltac run_tests := vm_compute; reflexivity.
