(* ===== verification/RocksTests.v ===== *)
(** * The tests of the maps (typed-store/src/rocks/tests.rs)

    Each test of the repository is a program over the model, written as its
    source is: a failed assertion panics.  [passes] runs a program on the
    in-memory platform, from a process in which nothing has been opened.  The
    test of the secondary mode is left out: databases of that platform do not
    share files. *)
From stdpp Require Import pretty.
From S2P Require Import Prelude Bytes Platform MetricsData World Sampling Metrics Errors Rocks RocksIter RocksMap MemPlatform Codecs Assertions.
Open Scope Z_scope.

(** ** Tests as programs *)

(** [lo..hi] over the integers of a type, and [i.to_string()]. *)
Definition range (lo hi : Z) : list Z := map (fun i => lo + Z.of_nat i) (seq 0 (Z.to_nat (hi - lo))).
Definition to_string (i : Z) : string := pretty i.
Definition int_pairs {t} (l : list Z) : list (int t * string) :=
  map (fun i => (mkInt i, to_string i)) l.

(** More entries than any of the tests writes. *)
Definition test_fuel : nat := 250.

Section tests.
Context {PF : Platform}.

Definition temp_dir : M path :=
  r <- with_fs tempdir ;; unwrap "Failed to open temporary directory" r.

(** [DBMap::open(temp_dir(), None, opt_cf).expect(..)] *)
Definition open_temp (K V : Type) (opt_cf : option string) : M (DBMap K V) :=
  p <- temp_dir ;; r <- DBMap_open p None opt_cf ;; unwrap "Failed to open storage" r.

(** [open_cf(temp_dir(), None, cfs).unwrap()] *)
Definition open_cf_temp (cfs : list string) : M arc :=
  p <- temp_dir ;; r <- open_cf p None cfs ;; unwrap_result r.

(** What a [for] loop, [collect] or [count] sees. *)
Definition all_of {I A} (next : I -> M (option A * I)) (it : I) : M (list A) :=
  l <- drain next test_fuel it ;; expect "out of fuel" l.

Section typed.
Context {K V : Type} `{!Serde K, !Serde V, !EqDecision K, !EqDecision V}.

Definition test_insert (db : DBMap K V) (k : K) (v : V) : M unit :=
  r <- DBMap_insert db k v ;; unwrap "Failed to insert" r.
Definition test_get_is (db : DBMap K V) (k : K) (v : option V) : M unit :=
  r <- DBMap_get db k ;; got <- unwrap "Failed to get" r ;; assert_eq v got.
Definition test_contains (db : DBMap K V) (k : K) (b : bool) : M unit :=
  r <- DBMap_contains_key db k ;; got <- unwrap "Failed to call contains key" r ;; assert_eq b got.
(** [for (k, v) in keys_vals { assert_eq!(Some(v), db.get(&k).expect(..)) }] *)
Definition all_present (db : DBMap K V) (kvs : list (K * V)) : M unit :=
  for_each (fun kv : K * V => test_get_is db kv.1 (Some kv.2)) kvs.
Definition count_is (db : DBMap K V) (p : nat -> bool) : M unit :=
  it <- DBMap_iter db ;; l <- all_of Iter_next it ;; assert (p (length l)).
Definition write_batch_expect (b : DBBatch) : M unit :=
  r <- DBBatch_write b ;; unwrap "Failed to execute batch" r.
Definition insert_batch_expect (b : DBBatch) (db : DBMap K V) (kvs : list (K * V)) : M DBBatch :=
  r <- insert_batch b db kvs ;; unwrap "Failed to batch insert" r.

End typed.

Definition key : Z -> i32 := mkInt.

Definition test_open : M unit := _ <- open_temp u32 string None ;; ret tt.

Definition test_reopen : M unit :=
  arc <- (db <- open_temp u32 string None ;;
          test_insert db (mkInt 123456789) "123456789" ;; ret db) ;;
  r <- DBMap_reopen (rocksdb arc) None ;;
  db <- unwrap "Failed to re-open storage" r ;;
  test_contains (V:=string) db (mkInt 123456789 : u32) true.

Definition test_reopen_macro : M unit :=
  let FIRST_CF := "First_CF" in
  let SECOND_CF := "Second_CF" in
  rocks <- open_cf_temp [FIRST_CF; SECOND_CF] ;;
  maps <- reopen rocks [mkTypedCf FIRST_CF i32 string; mkTypedCf SECOND_CF i32 string] ;;
  let '(db_map_1, (db_map_2, _)) := maps in
  let keys_vals_cf1 := int_pairs (range 1 100) in
  let keys_vals_cf2 := int_pairs (range 1 100) in
  assert_eq (dbmap_cf db_map_1) FIRST_CF ;;
  assert_eq (dbmap_cf db_map_2) SECOND_CF ;;
  r1 <- DBMap_multi_insert db_map_1 keys_vals_cf1 ;; assert (is_ok r1) ;;
  r2 <- DBMap_multi_insert db_map_2 keys_vals_cf2 ;; assert (is_ok r2).

Definition test_wrong_reopen : M unit :=
  rocks <- open_cf_temp ["foo"; "bar"; "baz"] ;;
  db <- DBMap_reopen (K:=u8) (V:=u8) rocks (Some "quux") ;;
  assert (negb (is_ok db)).

Definition test_contains_key : M unit :=
  db <- open_temp i32 string None ;;
  test_insert db (key 123456789) "123456789" ;;
  test_contains db (key 123456789) true ;;
  test_contains db (key 0) false.

Definition test_get : M unit :=
  db <- open_temp i32 string None ;;
  test_insert db (key 123456789) "123456789" ;;
  test_get_is db (key 123456789) (Some "123456789") ;;
  test_get_is db (key 0) None.

Definition test_get_raw : M unit :=
  db <- open_temp i32 string None ;;
  test_insert db (key 123456789) "123456789" ;;
  r <- DBMap_get_raw_bytes db (key 123456789) ;;
  o <- unwrap "Failed to get_raw_bytes" r ;;
  val_bytes <- unwrap_option o ;;
  expected <- unwrap_result (ser_val "123456789") ;;
  assert_eq expected val_bytes ;;
  r <- DBMap_get_raw_bytes db (key 0) ;;
  o <- unwrap "Failed to get_raw_bytes" r ;;
  assert_eq None o.

Definition test_multi_get : M unit :=
  db <- open_temp i32 string None ;;
  test_insert db (key 123) "123" ;;
  test_insert db (key 456) "456" ;;
  r <- DBMap_multi_get db [key 123; key 456; key 789] ;;
  result <- unwrap "Failed to multi get" r ;;
  assert_eq (length result) 3%nat ;;
  assert_eq (result !! 0%nat) (Some (Some "123")) ;;
  assert_eq (result !! 1%nat) (Some (Some "456")) ;;
  assert_eq (result !! 2%nat) (Some (None : option string)).

(** The three entries that the two [skip] tests write. *)
Definition three_entries : M (DBMap i32 string) :=
  db <- open_temp i32 string None ;;
  test_insert db (key 123) "123" ;;
  test_insert db (key 456) "456" ;;
  test_insert db (key 789) "789" ;;
  ret db.

(** [db.iter().skip(&k).expect(..).collect()], and the same for keys. *)
Definition skipped_pairs (skip : Iter i32 string -> i32 -> result (Iter i32 string) TypedStoreError)
    (db : DBMap i32 string) (k : i32) : M (list (i32 * string)) :=
  it <- DBMap_iter db ;; it <- unwrap "Seek failed" (skip it k) ;; all_of Iter_next it.
Definition skipped_keys (skip : Keys i32 -> i32 -> result (Keys i32) TypedStoreError)
    (db : DBMap i32 string) (k : i32) : M (list i32) :=
  it <- DBMap_keys db ;; it <- unwrap "Seek failed" (skip it k) ;; all_of Keys_next it.

Definition test_skip : M unit :=
  db <- three_entries ;;
  key_vals <- skipped_pairs Iter_skip_to db (key 456) ;;
  assert_eq (length key_vals) 2%nat ;;
  assert_eq (key_vals !! 0%nat) (Some (key 456, "456")) ;;
  assert_eq (key_vals !! 1%nat) (Some (key 789, "789")) ;;
  keys <- skipped_keys Keys_skip_to db (key 456) ;;
  assert_eq (length keys) 2%nat ;;
  assert_eq (keys !! 0%nat) (Some (key 456)) ;;
  assert_eq (keys !! 1%nat) (Some (key 789)) ;;
  l <- skipped_pairs Iter_skip_to db (key 999) ;; assert_eq (length l) 0%nat ;;
  l <- skipped_keys Keys_skip_to db (key 999) ;; assert_eq (length l) 0%nat ;;
  it <- DBMap_iter db ;; x <- Iter_next (Iter_skip_to_last it) ;;
  assert_eq x.1 (Some (key 789, "789")) ;;
  it <- DBMap_keys db ;; x <- Keys_next (Keys_skip_to_last it) ;;
  assert_eq x.1 (Some (key 789)) ;;
  l <- skipped_pairs Iter_skip_to db (key 0) ;; assert_eq (length l) 3%nat ;;
  l <- skipped_keys Keys_skip_to db (key 0) ;; assert_eq (length l) 3%nat.

Definition test_skip_to_previous_simple : M unit :=
  db <- three_entries ;;
  key_vals <- skipped_pairs Iter_skip_prior_to db (key 999) ;;
  assert_eq (length key_vals) 1%nat ;;
  assert_eq (key_vals !! 0%nat) (Some (key 789, "789")) ;;
  keys <- skipped_keys Keys_skip_prior_to db (key 999) ;;
  assert_eq (length keys) 1%nat ;;
  assert_eq (keys !! 0%nat) (Some (key 789)) ;;
  l <- skipped_pairs Iter_skip_prior_to db (key 0) ;; assert_eq (length l) 0%nat ;;
  l <- skipped_keys Keys_skip_prior_to db (key 0) ;; assert_eq (length l) 0%nat.

Definition test_iter_skip_to_previous_gap : M unit :=
  db <- open_temp i32 string None ;;
  for_each (fun i => when (negb (i =? 50)) (test_insert db (key i) (to_string i))) (range 1 100) ;;
  let around := range 49 50 ++ range 51 100 in
  l <- skipped_pairs Iter_skip_prior_to db (key 50) ;; assert_eq (int_pairs around) l ;;
  l <- skipped_keys Keys_skip_prior_to db (key 50) ;; assert_eq (map key around) l.

Definition test_remove : M unit :=
  db <- open_temp i32 string None ;;
  test_insert db (key 123456789) "123456789" ;;
  r <- DBMap_get db (key 123456789) ;; got <- unwrap "Failed to get" r ;;
  assert (bool_decide (is_Some got)) ;;
  r <- DBMap_remove db (key 123456789) ;; unwrap "Failed to remove" r ;;
  r <- DBMap_get db (key 123456789) ;; got <- unwrap "Failed to get" r ;;
  assert (negb (bool_decide (is_Some got))).

(** [assert_eq!(Some(a), iter.next())] for each [a] in turn, then [None]. *)
Fixpoint yields {I A} `{!EqDecision A} (next : I -> M (option A * I)) (it : I) (l : list A) : M unit :=
  r <- next it ;;
  match l with
  | [] => assert_eq None r.1
  | a :: l' => assert_eq (Some a) r.1 ;; yields next r.2 l'
  end.

Definition test_iter : M unit :=
  db <- open_temp i32 string None ;;
  test_insert db (key 123456789) "123456789" ;;
  iter <- DBMap_iter db ;;
  yields Iter_next iter [(key 123456789, "123456789")].

Definition test_iter_reverse : M unit :=
  db <- open_temp i32 string None ;;
  test_insert db (key 1) "1" ;;
  test_insert db (key 2) "2" ;;
  test_insert db (key 3) "3" ;;
  it <- DBMap_iter db ;;
  yields RevIter_next (Iter_reverse (Iter_skip_to_last it)) [(key 3, "3"); (key 2, "2"); (key 1, "1")] ;;
  it <- DBMap_iter db ;;
  it <- unwrap_result (Iter_skip_to it (key 2)) ;;
  yields RevIter_next (Iter_reverse it) [(key 2, "2"); (key 1, "1")].

Definition test_keys : M unit :=
  db <- open_temp i32 string None ;;
  test_insert db (key 123456789) "123456789" ;;
  keys <- DBMap_keys db ;;
  yields Keys_next keys [key 123456789].

Definition test_values : M unit :=
  db <- open_temp i32 string None ;;
  test_insert db (key 123456789) "123456789" ;;
  values <- DBMap_values db ;;
  yields Values_next values ["123456789"].

(** [try_extend] takes the iterator by [&mut], so nothing of [keys_vals] is left
    for the loop. *)
Definition test_try_extend : M unit :=
  db <- open_temp i32 string None ;;
  let keys_vals := int_pairs (range 1 100) in
  r <- try_extend db keys_vals ;;
  unwrap "Failed to extend the DB with (k, v) pairs" r ;;
  all_present db [].

(** The check the loop means to make. *)
Definition test_try_extend_meant : M unit :=
  db <- open_temp i32 string None ;;
  let keys_vals := int_pairs (range 1 100) in
  r <- try_extend db keys_vals ;;
  unwrap "Failed to extend the DB with (k, v) pairs" r ;;
  all_present db keys_vals.

Definition test_try_extend_from_slice : M unit :=
  db <- open_temp i32 string None ;;
  let keys_vals := int_pairs (range 1 100) in
  r <- try_extend_from_slice db keys_vals ;;
  unwrap "Failed to extend the DB with (k, v) pairs" r ;;
  all_present db keys_vals.

Definition test_insert_batch : M unit :=
  db <- open_temp i32 string None ;;
  let keys_vals := int_pairs (range 1 100) in
  insert_batch <- insert_batch_expect (DBMap_batch db) db keys_vals ;;
  write_batch_expect insert_batch ;;
  all_present db keys_vals.

Definition test_insert_batch_across_cf : M unit :=
  rocks <- open_cf_temp ["First_CF"; "Second_CF"] ;;
  r <- DBMap_reopen (K:=i32) (V:=string) rocks (Some "First_CF") ;;
  db_cf_1 <- unwrap "Failed to open storage" r ;;
  let keys_vals_1 := int_pairs (range 1 100) in
  r <- DBMap_reopen (K:=i32) (V:=string) rocks (Some "Second_CF") ;;
  db_cf_2 <- unwrap "Failed to open storage" r ;;
  let keys_vals_2 := int_pairs (range 1000 1100) in
  batch <- insert_batch_expect (DBMap_batch db_cf_1) db_cf_1 keys_vals_1 ;;
  batch <- insert_batch_expect batch db_cf_2 keys_vals_2 ;;
  write_batch_expect batch ;;
  all_present db_cf_1 keys_vals_1 ;;
  all_present db_cf_2 keys_vals_2.

Definition test_insert_batch_across_different_db : M unit :=
  rocks <- open_cf_temp ["First_CF"; "Second_CF"] ;;
  rocks2 <- open_cf_temp ["First_CF"; "Second_CF"] ;;
  r <- DBMap_reopen (K:=i32) (V:=string) rocks (Some "First_CF") ;;
  db_cf_1 <- unwrap "Failed to open storage" r ;;
  let keys_vals_1 := int_pairs (range 1 100) in
  r <- DBMap_reopen (K:=i32) (V:=string) rocks2 (Some "Second_CF") ;;
  db_cf_2 <- unwrap "Failed to open storage" r ;;
  let keys_vals_2 := int_pairs (range 1000 1100) in
  batch <- insert_batch_expect (DBMap_batch db_cf_1) db_cf_1 keys_vals_1 ;;
  r <- insert_batch batch db_cf_2 keys_vals_2 ;;
  assert (negb (is_ok r)).

Definition test_delete_batch : M unit :=
  db <- open_temp i32 string None ;;
  let keys_vals := int_pairs (range 1 100) in
  insert_batch <- insert_batch_expect (DBMap_batch db) db keys_vals ;;
  let deletion_keys := map key (filter (fun i => Z.odd i = true) (range 1 100)) in
  r <- delete_batch insert_batch db deletion_keys ;;
  delete_batch <- unwrap "Failed to batch delete" r ;;
  write_batch_expect delete_batch ;;
  it <- DBMap_keys db ;;
  ks <- all_of Keys_next it ;;
  for_each (fun k : i32 => assert_eq (Z.rem (int_val k) 2) 0) ks.

Definition test_delete_range : M unit :=
  db <- open_temp i32 string None ;;
  let keys_vals := int_pairs (range 0 101) in
  insert_batch <- insert_batch_expect (DBMap_batch db) db keys_vals ;;
  r <- delete_range insert_batch db (key 50) (key 100) ;;
  delete_range_batch <- unwrap "Failed to delete range" r ;;
  write_batch_expect delete_range_batch ;;
  for_each (fun k => test_contains db (key k) true) (range 0 50) ;;
  for_each (fun k => test_contains db (key k) false) (range 50 100) ;;
  test_contains db (key 100) true.

Definition test_clear : M unit :=
  db <- open_temp i32 string (Some "table") ;;
  _ <- DBMap_clear db ;;
  let keys_vals := int_pairs (range 0 101) in
  insert_batch <- insert_batch_expect (DBMap_batch db) db keys_vals ;;
  write_batch_expect insert_batch ;;
  count_is db (fun n => bool_decide (1 < n)%nat) ;;
  _ <- DBMap_clear db ;;
  count_is db (Nat.eqb 0) ;;
  _ <- DBMap_clear db ;;
  count_is db (Nat.eqb 0) ;;
  _ <- DBMap_insert db (key 1) "e" ;;
  count_is db (Nat.eqb 1) ;;
  _ <- DBMap_clear db ;;
  count_is db (Nat.eqb 0).

Definition test_is_empty : M unit :=
  db <- open_temp i32 string (Some "table") ;;
  b <- DBMap_is_empty db ;; assert b ;;
  _ <- DBMap_clear db ;;
  b <- DBMap_is_empty db ;; assert b ;;
  let keys_vals := int_pairs (range 0 101) in
  insert_batch <- insert_batch_expect (DBMap_batch db) db keys_vals ;;
  write_batch_expect insert_batch ;;
  count_is db (fun n => bool_decide (1 < n)%nat) ;;
  b <- DBMap_is_empty db ;; assert (negb b) ;;
  _ <- DBMap_clear db ;;
  count_is db (Nat.eqb 0) ;;
  b <- DBMap_is_empty db ;; assert b.

Definition test_multi_insert : M unit :=
  db <- open_temp i32 string (Some "table") ;;
  let keys_vals := int_pairs (range 0 101) in
  r <- DBMap_multi_insert db keys_vals ;; unwrap "Failed to multi-insert" r ;;
  all_present db keys_vals.

Definition test_multi_remove : M unit :=
  db <- open_temp i32 string (Some "table") ;;
  let keys_vals := int_pairs (range 0 101) in
  r <- DBMap_multi_insert db keys_vals ;; unwrap "Failed to multi-insert" r ;;
  all_present db keys_vals ;;
  r <- DBMap_multi_remove db (take 50 keys_vals.*1) ;; unwrap "Failed to multi-remove" r ;;
  count_is db (Nat.eqb (101 - 50)) ;;
  all_present db (drop 50 keys_vals).

End tests.

(** ** Running them *)

(** A process before it opens anything. *)
Definition fresh_world : World :=
  mkWorld ([] : fs) ∅ ∅ 10%nat ∅ (<[default_registry := (∅ : registry)]> ∅) None [] [].

(** The tests of a process share its metrics, which the first to open a map
    registers: that one runs in [fresh_world], the others here. *)
Definition later_world : World := set_once (Some db_handles) fresh_world.

Definition passes : M unit -> bool := passes_from later_world.

Example first_test_passes : passes_from fresh_world test_open = true.
Proof. run_tests. Qed.

Example first_test_registers : w_once (test_open fresh_world).2 = Some db_handles.
Proof. vm_compute. reflexivity. Qed.

Example open_tests_pass :
  map passes [test_open; test_reopen; test_reopen_macro; test_wrong_reopen] =
    [true; true; true; true].
Proof. run_tests. Qed.

Example read_tests_pass :
  map passes [test_contains_key; test_get; test_get_raw; test_multi_get] =
    [true; true; true; true].
Proof. run_tests. Qed.

Example skip_tests_pass :
  map passes [test_skip; test_skip_to_previous_simple; test_iter_skip_to_previous_gap] =
    [true; true; true].
Proof. run_tests. Qed.

Example iter_tests_pass :
  map passes [test_remove; test_iter; test_iter_reverse; test_keys; test_values] =
    [true; true; true; true; true].
Proof. run_tests. Qed.

Example extend_tests_pass :
  map passes [test_try_extend; test_try_extend_meant; test_try_extend_from_slice] =
    [true; true; true].
Proof. run_tests. Qed.

Example batch_tests_pass :
  map passes [test_insert_batch; test_insert_batch_across_cf;
              test_insert_batch_across_different_db; test_delete_batch; test_delete_range] =
    [true; true; true; true; true].
Proof. run_tests. Qed.

Example clear_tests_pass :
  map passes [test_clear; test_is_empty; test_multi_insert; test_multi_remove] =
    [true; true; true; true].
Proof. run_tests. Qed.
