(* ===== verification/StoreTests.v ===== *)
(** * The tests of the store and of sampling (typed-store/src/tests/store_tests.rs,
      the sampling tests of typed-store/tests/macro_tests.rs)

    Programs of the clients of a store over a map that was opened for the test.
    To await a reply is to let the task serve what is in the channel: the
    test's runtime has one thread.  Where the source spawns a second client, the
    test takes the schedule as its argument and passes under each. *)
From S2P Require Import Prelude Bytes Platform MetricsData World Sampling Metrics Errors Traits Rocks RocksIter RocksMap Store MemPlatform Codecs Assertions RocksTests.
Open Scope nat_scope.

Section store_tests.
Context {PF : Platform}.

Section typed.
Context {K V : Type} `{!Serde K, !Serde V, !EqDecision K, !Countable K}.

Abbreviation system := (store_system (T:=DBMap K V) (K:=K) (V:=V)).
Abbreviation answer := (reply (T:=DBMap K V) (K:=K) (V:=V)).

(** The task runs until the channel is empty. *)
Definition run_task (db : DBMap K V) : comp system unit :=
  modify (fun s => Nat.iter (length (st_queue s)) (serve test_fuel db) s).

(** The rest of a client call after its first half: the reply. *)
Definition await (db : DBMap K V) (call : comp system ticket) : comp system answer :=
  t <- call ;; run_task db ;;
  fun s =>
    match receive "" t s with
    | Some o => (o, s)
    | None => (Panicked "no reply", s)
    end.

(** What each method takes out of its reply. *)
Definition unit_of (r : answer) : comp system (result unit TypedStoreError) :=
  match r with UnitReply x => ret x | _ => panic "unexpected reply" end.
Definition read_of (r : answer) : comp system (result (option V) TypedStoreError) :=
  match r with ReadReply x => ret x | _ => panic "unexpected reply" end.
Definition raw_of (r : answer) : comp system (result (option bytes) TypedStoreError) :=
  match r with RawReply x => ret x | _ => panic "unexpected reply" end.
Definition read_all_of (r : answer) : comp system (result (list (option V)) TypedStoreError) :=
  match r with ReadAllReply x => ret x | _ => panic "unexpected reply" end.
Definition iter_of (r : answer) : comp system (gmap K V) :=
  match r with IterReply x => ret x | _ => panic "unexpected reply" end.

(** [DBMap::open(temp_dir(), None, None).unwrap()], [Store::new(db)], and the
    clients' program. *)
Definition with_store (clients : DBMap K V -> comp system unit) : M unit :=
  db <- open_temp K V None ;;
  fun w => let (o, s) := clients db (Store_new w) in (o, st_world s).

End typed.

Definition vec (l : list byte) : Vec_u8 := mkVec_u8 l.
Definition key0123 : Vec_u8 := vec [Byte.x00; Byte.x01; Byte.x02; Byte.x03].
Definition value4567 : Vec_u8 := vec [Byte.x04; Byte.x05; Byte.x06; Byte.x07].

(** [assert!(result.is_ok()); ..; assert_eq!(read_value.unwrap(), value)] *)
Definition reads {K V} `{!Serde K, !Serde V, !EqDecision K, !Countable K, !EqDecision V}
    (db : DBMap K V) (k : K) (expected : option V) :
    comp (store_system (T:=DBMap K V) (K:=K) (V:=V)) unit :=
  r <- await db (read k) ;; result <- read_of r ;;
  read_value <- unwrap_result result ;;
  assert_eq expected read_value.

Definition create_store : M unit := with_store (K:=usize) (V:=string) (fun _ => ret tt).

Definition read_async_write_value : M unit :=
  with_store (K:=Vec_u8) (V:=Vec_u8) (fun db =>
    async_write key0123 value4567 ;;
    reads db key0123 (Some value4567)).

Definition read_sync_write_value : M unit :=
  with_store (K:=Vec_u8) (V:=Vec_u8) (fun db =>
    r <- await db (sync_write key0123 value4567) ;; r <- unit_of r ;; unwrap_result r ;;
    reads db key0123 (Some value4567)).

Definition read_raw_write_value : M unit :=
  with_store (K:=Vec_u8) (V:=string) (fun db =>
    let value : string := "123456" in
    async_write key0123 value ;;
    r <- await db (read_raw_bytes key0123) ;; result <- raw_of r ;;
    read_value <- unwrap_result result ;;
    expected <- unwrap_result (ser_val value) ;;
    assert_eq (Some expected) read_value).

Definition read_unknown_key : M unit :=
  with_store (K:=Vec_u8) (V:=Vec_u8) (fun db => reads db key0123 None).

(** The reader is a task of its own: it or the writer may be first, and the
    store's task may run between the two. *)
Definition test_read_notify (reader_first between : bool) : M unit :=
  with_store (K:=Vec_u8) (V:=Vec_u8) (fun db =>
    let run := if between then run_task db else ret tt in
    t <- (if reader_first then t <- notify_read key0123 ;; run ;; async_write key0123 value4567 ;; ret t
          else async_write key0123 value4567 ;; run ;; notify_read key0123) ;;
    r <- await db (ret t) ;; result <- read_of r ;;
    match result with
    | Ok (Some v) => assert_eq v value4567
    | _ => panic "Failed to read from store"
    end).

Definition remove_all_successfully : M unit :=
  with_store (K:=Vec_u8) (V:=Vec_u8) (fun db =>
    let keys := map (fun b => vec [Byte.x00; Byte.x01; Byte.x02; b]) [Byte.x01; Byte.x02; Byte.x03] in
    for_each (fun key => async_write key value4567) keys ;;
    r <- await db (remove_all_keys keys) ;; result <- unit_of r ;;
    assert (is_ok result) ;;
    for_each (fun key => reads db key None) keys).

Definition write_and_read_all_successfully : M unit :=
  with_store (K:=Vec_u8) (V:=Vec_u8) (fun db =>
    let key_values :=
      map (fun b => (vec [Byte.x00; Byte.x01; Byte.x02; b], value4567)) [Byte.x01; Byte.x02; Byte.x03] in
    r <- await db (sync_write_all key_values) ;; result <- unit_of r ;;
    assert (is_ok result) ;;
    r <- await db (read_all key_values.*1) ;; result <- read_all_of r ;;
    values <- unwrap_result result ;;
    assert_eq (length values) 3 ;;
    assert_eq values (Some <$> key_values.*2)).

(** The first [n] of the entries that the two tests of [iter] write. *)
Definition iter_entries (n : nat) : list (Vec_u8 * Vec_u8) :=
  take n
    [(vec [Byte.x00; Byte.x01], vec [Byte.x04; Byte.x04]);
     (vec [Byte.x00; Byte.x02], vec [Byte.x04; Byte.x05]);
     (vec [Byte.x00; Byte.x03], vec [Byte.x04; Byte.x06]);
     (vec [Byte.x00; Byte.x04], vec [Byte.x04; Byte.x07]);
     (vec [Byte.x00; Byte.x05], vec [Byte.x04; Byte.x00]);
     (vec [Byte.x00; Byte.x06], vec [Byte.x04; Byte.x01])].

Definition same_ends (v1 v : Vec_u8) : bool :=
  bool_decide (head (vec_bytes v1) = head (vec_bytes v)) &&
  bool_decide (last (vec_bytes v1) = last (vec_bytes v)).

Definition iter_successfully : M unit :=
  with_store (K:=Vec_u8) (V:=Vec_u8) (fun db =>
    let key_values := iter_entries 3 in
    r <- await db (sync_write_all key_values) ;; result <- unit_of r ;;
    assert (is_ok result) ;;
    r <- await db (store_iter None) ;; output <- iter_of r ;;
    for_each (fun kv : Vec_u8 * Vec_u8 =>
      v1 <- unwrap_option (output !! kv.1) ;; assert (same_ends v1 kv.2)) key_values ;;
    assert_eq (size output) (length key_values)).

(** [u16::from_le_bytes(k[..2].try_into().unwrap()) % 2 == 0] *)
Definition even_key (k : Vec_u8) : bool := (Z.rem (of_le (take 2 (vec_bytes k))) 2 =? 0)%Z.

Definition iter_and_filter (db : DBMap Vec_u8 Vec_u8) :
    comp (store_system (T:=DBMap Vec_u8 Vec_u8) (K:=Vec_u8) (V:=Vec_u8)) unit :=
  let key_values := iter_entries 6 in
  r <- await db (sync_write_all key_values) ;; result <- unit_of r ;;
  assert (is_ok result) ;;
  r <- await db (store_iter (Some (fun kv => even_key kv.1))) ;; output <- iter_of r ;;
  for_each (fun kv : Vec_u8 * Vec_u8 =>
    if even_key kv.1 then v1 <- unwrap_option (output !! kv.1) ;; assert (same_ends v1 kv.2)
    else assert (bool_decide (output !! kv.1 = None))) key_values ;;
  assert_eq (size output) (length key_values).

Definition iter_and_filter_successfully : M unit := with_store iter_and_filter.

(** ** Sampling *)

(** [assert!(b == interval.sample())], [n] times. *)
Fixpoint samples_are (interval : SamplingInterval) (n : nat) (b : bool) : M unit :=
  match n with
  | O => ret tt
  | S n' => got <- sample interval ;; assert_eq b got ;; samples_are interval n' b
  end.

Definition test_sampling : M unit :=
  interval <- SamplingInterval_new 0%Z 10%Z ;;
  samples_are interval 10 false ;;
  samples_are interval 1 true ;;
  samples_are interval 10 false ;;
  samples_are interval 1 true.

End store_tests.

(** ** Running them *)

Example store_tests_pass :
  map passes [create_store; read_async_write_value; read_sync_write_value; read_raw_write_value;
              read_unknown_key] =
    [true; true; true; true; true].
Proof. run_tests. Qed.

Example read_notify_passes :
  map passes [test_read_notify true true; test_read_notify true false;
              test_read_notify false true; test_read_notify false false] =
    [true; true; true; true].
Proof. run_tests. Qed.

Example store_bulk_tests_pass :
  map passes [remove_all_successfully; write_and_read_all_successfully; iter_successfully;
              iter_and_filter_successfully] =
    [true; true; true; true].
Proof. run_tests. Qed.

(** The filter of the last one keeps every entry: the byte that differs is the
    high one. *)
Example filter_keeps_all : map (fun kv => even_key kv.1) (iter_entries 6) = replicate 6 true.
Proof. reflexivity. Qed.

Example sampling_tests_pass : passes test_sampling = true.
Proof. run_tests. Qed.
