(* ===== verification/DeriveTests.v ===== *)
(** * The tests of the derive macro (typed-store/tests/macro_tests.rs)

    The structs of the tests as the tables the macro generates code for.  Two
    things differ from the source, and the programs say where: the pages are
    asked of the handle that wrote them, because databases of the platform in
    memory do not share files; and [set_write_buffer_size], which the repository
    calls only here, is left out of the configuration. *)
From stdpp Require Import pretty.
From S2P Require Import Prelude Bytes Platform MetricsData World Sampling Metrics Errors Traits Rocks RocksIter RocksMap Derive Store MemPlatform Codecs Assertions RocksTests StoreTests.
Open Scope Z_scope.

(** [format!("{:?}")] of a string of letters and digits, and of a number. *)
Definition quotes : string := String (Ascii.ascii_of_nat 34) EmptyString.
Definition debug_string (s : string) : string := quotes +:+ s +:+ quotes.
Definition debug_i32 (i : i32) : string := to_string (int_val i).
Definition debug_vec (v : Vec_u8) : string := "[..]".

Section tests.
Context {PF : Platform}.

Definition string_table (name : string) (options_fn : M DBOptions) : Table :=
  mkTable name string string _ _ None debug_string debug_string "String" "String" options_fn.
Definition i32_table (name : string) (options_fn : M DBOptions) : Table :=
  mkTable name i32 string _ _ None debug_i32 debug_string "i32" "String" options_fn.
Definition vec_table (name : string) : Table :=
  mkTable name Vec_u8 Vec_u8 _ _ None debug_vec debug_vec "Vec<u8>" "Vec<u8>" default_db_options.

Definition Tables : list Table :=
  [string_table "table1" default_db_options; i32_table "table2" default_db_options].

(** A field of the opened struct, at the types it is declared with. *)
Definition typed_field (K V : Type) (self : OpenTables) (name : string) : M (DBMap K V) :=
  o <- unwrap_option (find_table self name) ;;
  let m := ot_map o in
  ret (mkDBMap (rocksdb m) (dbmap_cf m) (db_metrics m) (read_sample_interval m)
    (write_sample_interval m) (iter_latency_sample_interval m) (iter_bytes_sample_interval m)
    (metrics_task_cancel_handle m)).

Definition count_keys_is (self : OpenTables) (name : string) (n : Z) : M unit :=
  r <- count_keys test_fuel self name ;; c <- unwrap_result r ;; assert_eq n c.

(** [*m.get(&k).unwrap()] is [v], for each pair. *)
Definition page_holds (m : gmap string string) (kvs : list (string * string)) : M unit :=
  for_each (fun kv : string * string =>
    v <- unwrap_option (m !! kv.1) ;; assert_eq kv.2 v) kvs.

Definition strings (l : list Z) : list (string * string) :=
  map (fun i => (to_string i, to_string i)) l.
Definition quoted (l : list Z) : list (string * string) :=
  map (fun i => (debug_string (to_string i), debug_string (to_string i))) l.

Definition macro_test : M unit :=
  primary_path <- temp_dir ;;
  tbls_primary <- open_tables_read_write Tables primary_path None None ;;
  table1 <- typed_field string string tbls_primary "table1" ;;
  r <- DBMap_multi_insert table1 (strings (range 1 10)) ;; unwrap "Failed to multi-insert" r ;;
  table2 <- typed_field i32 string tbls_primary "table2" ;;
  r <- DBMap_multi_insert table2 (int_pairs (range 3 10)) ;; unwrap "Failed to multi-insert" r ;;
  (* the read-only handle: here the struct itself *)
  let tbls_secondary := tbls_primary in
  r <- list_tables primary_path ;; actual_table_names <- unwrap_result r ;;
  let observed_table_names := (map_to_list (describe_tables Tables)).*1 in
  let exp : gset string := list_to_set ["table1"; "table2"] in
  assert_eq (list_to_set actual_table_names) exp ;;
  assert_eq (list_to_set observed_table_names) exp ;;
  count_keys_is tbls_secondary "table1" 9 ;;
  count_keys_is tbls_secondary "table2" 7 ;;
  r <- dump tbls_secondary "table1" 100 0 ;; m <- unwrap_result r ;;
  page_holds m (quoted (range 1 10)) ;;
  r <- dump tbls_secondary "table2" 100 0 ;; m <- unwrap_result r ;;
  page_holds m (map (fun i => (to_string i, debug_string (to_string i))) (range 3 10)) ;;
  r <- DBMap_multi_insert table1 (strings (range 100 110)) ;; unwrap "Failed to multi-insert" r ;;
  count_keys_is tbls_secondary "table1" 19 ;;
  r <- dump tbls_secondary "table1" 2 0 ;; m <- unwrap_result r ;;
  assert_eq 2%nat (size m) ;;
  page_holds m (quoted [1; 2]) ;;
  r <- dump tbls_secondary "table1" 3 2 ;; m <- unwrap_result r ;;
  assert_eq 3%nat (size m) ;;
  page_holds m (quoted [7; 8]).

(** [TABLE1_OPTIONS_SET_FLAG] and [TABLE2_OPTIONS_SET_FLAG]: the length of each
    vector, as a shared counter. *)
Definition set_flag_1 : arc := 1%nat.
Definition set_flag_2 : arc := 2%nat.
Definition flags_len (a : arc) : M Z := gets (fun w => counter_at (w_counters w) a).

Definition custom_fn_name : M DBOptions := _ <- fetch_add set_flag_1 ;; ret DBOptions_default.
Definition another_custom_fn_name : M DBOptions :=
  _ <- fetch_add set_flag_2 ;; _ <- fetch_add set_flag_2 ;; _ <- fetch_add set_flag_2 ;;
  ret DBOptions_default.

Definition TablesCustomOptions : list Table :=
  [string_table "table1" another_custom_fn_name; i32_table "table2" default_db_options;
   i32_table "table3" custom_fn_name; i32_table "table4" another_custom_fn_name].

(** [config.table1 = DBOptions::default()] with [create_if_missing(true)];
    [config.table2 = config.table1.clone()] with [create_if_missing(false)]. *)
Definition configured (names : list string) : DBMapTableConfigMap :=
  let o1 := mkDBOptions (create_if_missing true options_default) in
  let o2 := mkDBOptions (create_if_missing false (db_opts o1)) in
  Configurator_build (zip names [o1; o2]).

Definition macro_test_configure : M unit :=
  primary_path <- temp_dir ;;
  config <- Configurator_init Tables ;;
  _ <- open_tables_read_write Tables primary_path None (Some (configured config.*1)) ;;
  primary_path <- temp_dir ;;
  n <- flags_len set_flag_1 ;; assert_eq n 0 ;;
  _ <- open_tables_read_write TablesCustomOptions primary_path None None ;;
  n <- flags_len set_flag_1 ;; assert_eq n 1 ;;
  n <- flags_len set_flag_2 ;; assert_eq n 6.

(** A struct of stores: after the tables are opened a store is made of each. *)
Definition StoreTables : list Table := [vec_table "table1"; i32_table "table2" default_db_options].

Definition store_iter_and_filter_successfully : M unit :=
  config <- Configurator_init StoreTables ;;
  path <- temp_dir ;;
  str <- open_tables_read_write StoreTables path None (Some (configured config.*1)) ;;
  table1 <- typed_field Vec_u8 Vec_u8 str "table1" ;;
  fun w => let (o, s) := iter_and_filter table1 (Store_new w) in (o, st_world s).

End tests.

Example macro_tests_pass :
  map passes [macro_test; macro_test_configure; store_iter_and_filter_successfully] =
    [true; true; true].
Proof. run_tests. Qed.
