(* ===== verification/SizeTests.v ===== *)
(** * The tests of heap sizes (mysten-util-mem: the tests modules of malloc_size.rs
      and lib.rs, tests/derive.rs)

    A test measures values that it builds with containers of other crates: the
    values are given with the capacities those crates document.  Numbers are a
    type per width, on which [malloc_size_of_is_0!] was used.  No test asks the
    allocator, so they pass whatever it answers. *)
From S2P Require Import Prelude MallocSize MallocMore Assertions.
Open Scope Z_scope.

(** Tests are built with overflow checks. *)
#[local] Instance test_profile : Profile := {| checks := true |}.

(** An integer of so many bytes. *)
Inductive num (width : N) : Type := mkNum (z : Z).
Arguments mkNum {width}.
#[export] Instance num_mem w : SizeOf (num w) := {| mem_size := w |}.
#[export] Instance num_size w : MallocSizeOf (num w) :=
  {| size_of _ := ret 0; constant_size := Some 0 |}.
Abbreviation u8 := (num 1).

(** Sizes of the handles on a machine of 64 bits. *)
#[export] Instance Box_mem A : SizeOf (Box A) := {| mem_size := 8 |}.
#[export] Instance Vec_mem A : SizeOf (Vec A) := {| mem_size := 24 |}.
#[export] Instance string_mem : SizeOf rust_string := {| mem_size := 24 |}.

(** [vec![x; n]] has room for [n]; ["..".into()] for its bytes. *)
Definition vec_of {A} (x : A) (n : N) : Vec A :=
  mkVec A (mkStorage A (replicate (N.to_nat n) x) n 4096).
Definition into (s : string) : rust_string := mkString s (N.of_nat (String.length s)).

(** [SmallVec<[A; inline]>]: pushing onto a full one moves it to the heap with
    room for the next power of two. *)
Definition smallvec_new {A} (inline : N) : SmallVec A :=
  mkSmallVec A (mkStorage A [] inline 4096) false.
Definition push {A} (x : A) (v : SmallVec A) : SmallVec A :=
  let '(mkSmallVec _ s spilled) := v in
  let n := N.of_nat (length (items A s)) in
  if (n <? capacity A s)%N then
    mkSmallVec A (mkStorage A (items A s ++ [x]) (capacity A s) 4096) spilled
  else
    mkSmallVec A (mkStorage A (items A s ++ [x]) (2 ^ N.log2_up (N.succ n)) 4096) true.
Definition is_spilled {A} (v : SmallVec A) : bool := let '(mkSmallVec _ _ spilled) := v in spilled.

Section tests.
Context (malloc_usable_size : Z -> Z).

Definition fresh_ops : Ms unit := modify (fun _ => new_malloc_size_ops malloc_usable_size).

(** [assert!(p(v.size_of(&mut ops)))] *)
Definition size_is {A} `{!MallocSizeOf A} (v : A) (p : Z -> bool) : Ms unit :=
  n <- size_of v ;; assert (p n).

Definition test_smallvec_stack_allocated_type : Ms unit :=
  let v : SmallVec u8 := smallvec_new 3 in
  fresh_ops ;;
  size_is v (Z.eqb 0) ;;
  let v := push (mkNum 3) (push (mkNum 2) (push (mkNum 1) v)) in
  size_is v (Z.eqb 0) ;;
  assert (negb (is_spilled v)) ;;
  let v := push (mkNum 4) v in
  assert (is_spilled v) ;;
  size_is v (Z.eqb 4).

Definition test_smallvec_boxed_stack_allocated_type : Ms unit :=
  let box (z : Z) : Box u8 := mkBox u8 4096 (mkNum z) in
  let v : SmallVec (Box u8) := smallvec_new 3 in
  fresh_ops ;;
  size_is v (Z.eqb 0) ;;
  let v := push (box 3) (push (box 2) (push (box 1) v)) in
  size_is v (Z.leb 3) ;;
  assert (negb (is_spilled v)) ;;
  let v := push (box 4) v in
  assert (is_spilled v) ;;
  fresh_ops ;;
  let expected_min_allocs := Z.of_N (mem_size (A:=Box u8)) * 4 + 4 in
  size_is v (Z.leb expected_min_allocs).

(** The first byte of the fourth string's first letter, the second of two. *)
Definition owl : string :=
  String (Ascii.ascii_of_nat 195) (String (Ascii.ascii_of_nat 150) "WL").

Definition test_smallvec_heap_allocated_type : Ms unit :=
  let len s := Z.of_nat (String.length s) in
  let v : SmallVec rust_string := smallvec_new 3 in
  fresh_ops ;;
  size_is v (Z.eqb 0) ;;
  let v := push (into "DUCK") (push (into "PIG") (push (into "COW") v)) in
  assert (negb (is_spilled v)) ;;
  size_is v (Z.leb (len "COW" + len "PIG" + len "DUCK")) ;;
  let v := push (into owl) v in
  assert (is_spilled v) ;;
  fresh_ops ;;
  let expected_min_allocs :=
    Z.of_N (mem_size (A:=rust_string)) * 4 + len owl + len "COW" + len "PIG" + len "DUCK" in
  size_is v (Z.leb expected_min_allocs).

Definition test_large_vec : Ms unit :=
  let N := (128 * 1024 * 1024)%N in
  let val : Vec u8 := vec_of (mkNum 1) N in
  fresh_ops ;;
  size_is val (fun n => Z.of_N N <=? n) ;;
  size_is val (fun n => n <? 2 * Z.of_N N).

Definition btree_set : Ms unit :=
  let set : BTreeSet (Vec u8) :=
    mkBTreeSet _ (mkStorage _ (map (fun t => vec_of (mkNum (Z.of_nat t)) 1) (seq 0 100)) 100 4096) in
  fresh_ops ;;
  size_is set (Z.ltb 3000).

(** [struct Data<P> { phantom: PhantomData<P> }] with [malloc_size_of_is_0!(any: Data<P>)];
    nothing is known of [P]. *)
Record Data (P : Type) : Type := mkData { phantom : PhantomData P }.
#[export] Instance Data_size {P} : MallocSizeOf (Data P) :=
  {| size_of _ := ret 0; constant_size := Some 0 |}.

Definition special_malloc_size_of_0 (array : Type) : Ms unit :=
  fresh_ops ;; size_is (mkData array (mkPhantom array)) (Z.eqb 0).

Record AlwaysTwo : Type := mkAlwaysTwo { always_0 : Vec u8 }.
#[export] Instance AlwaysTwo_size : MallocSizeOf AlwaysTwo :=
  {| size_of self := size_of (always_0 self); constant_size := Some 2 |}.

(** [[u8; 32]] is one of the types of size 0. *)
Definition constant_size_test : Ms unit :=
  assert_eq (constant_size (A:=AlwaysTwo)) (Some 2) ;;
  assert_eq (constant_size (A:=Reverse u8)) (Some 0) ;;
  assert_eq (constant_size (A:=RefCell u8)) (Some 0) ;;
  assert_eq (constant_size (A:=Cell u8)) (Some 0) ;;
  assert_eq (constant_size (A:=result unit unit)) (Some 0) ;;
  assert_eq (constant_size (A:=AlwaysTwo * unit * num 32 * AlwaysTwo)) (Some (2 + 2)) ;;
  assert_eq (constant_size (A:=option u8)) (Some 0) ;;
  assert_eq (constant_size (A:=reference rust_string)) (Some 0) ;;
  assert_eq (constant_size (A:=rust_string)) None ;;
  assert_eq (constant_size (A:=Cow rust_string)) None ;;
  assert_eq (constant_size (A:=result unit rust_string)) None ;;
  assert_eq (constant_size (A:=option AlwaysTwo)) None.

(** ** lib.rs *)

Definition test_arc : Ms unit :=
  fresh_ops ;; size_is (mkArc rust_string 4096 (into "test")) (Z.ltb 0).

(** The method table of the trait object is that of [Vec<u8>]. *)
Definition test_dyn : Ms unit :=
  fresh_ops ;; size_is (vec_of (mkNum 0 : u8) 1024) (Z.ltb 1000).

(** ** tests/derive.rs *)

(** [t.malloc_size_of()] of a struct with the derived implementation. *)
Definition derived_is (fields : list (list (result Meta string) * binding)) (p : Z -> bool) : Ms unit :=
  fresh_ops ;;
  match derived_size_of fields with
  | Ret m => n <- m ;; assert (p n)
  | Panicked msg => panic msg
  end.

Definition field {A} `{!MallocSizeOf A} (x : A) : list (result Meta string) * binding :=
  ([], Plain A _ x).

(** A map of the standard library has room for 3 after the first insertion. *)
Definition hm : HashMap (num 8) (Vec u8) :=
  mkHashMap _ _ (mkStorage _ [(mkNum 1, vec_of (mkNum 0) 2048)] 3 4096).

Definition derive_vec : Ms unit :=
  derived_is [field (vec_of (mkNum 0 : u8) 1024)] (Z.ltb 1000).

Definition derive_hashmap : Ms unit := derived_is [field hm] (Z.ltb 2000).

Definition derive_ignore : Ms unit :=
  derived_is [field hm; ([Ok (MetaNameValue IGNORE)], Plain _ _ (vec_of (mkNum 0 : u8) 1024))]
    (fun n => n <? 3000).

Definition derive_morecomplex : Ms unit :=
  let hm : hbHashMap (num 8) (Vec u8) :=
    mkHbHashMap _ _ (mkStorage _ [(mkNum 1, vec_of (mkNum 0) 2048)] 3 4096) in
  let cache : LruCache (num 16) (Vec u8) :=
    mkLruCache _ _ (mkStorage _ [(mkNum 2, vec_of (mkNum 0) 4096); (mkNum 1, vec_of (mkNum 0) 2048)]
                      2 4096) in
  derived_is [field hm; field cache] (Z.ltb 8000).

Definition derive_tuple : Ms unit :=
  let fields := [field tt; field (vec_of (mkNum 7 : u8) 1024, vec_of (mkNum 9 : u8) 1024)] in
  derived_is fields (Z.ltb 2000) ;; derived_is fields (fun n => n <? 3000).

(** ** Running them *)

Definition passes : Ms unit -> bool := passes_from (new_malloc_size_ops malloc_usable_size).

Example smallvec_tests_pass :
  map passes [test_smallvec_stack_allocated_type; test_smallvec_boxed_stack_allocated_type;
              test_smallvec_heap_allocated_type] = [true; true; true].
Proof. run_tests. Qed.

Example std_tests_pass :
  map passes [btree_set; special_malloc_size_of_0 (Vec u8); constant_size_test; test_arc; test_dyn] =
    [true; true; true; true; true].
Proof. run_tests. Qed.

Example derive_tests_pass :
  map passes [derive_vec; derive_hashmap; derive_ignore; derive_morecomplex; derive_tuple] =
    [true; true; true; true; true].
Proof. run_tests. Qed.

(** A vector of bytes is measured without visiting them. *)
Lemma size_of_vec_u8 (x : u8) (n : N) ops :
  u64 (Z.of_N n) -> size_of (vec_of x n) ops = (Ret (Z.of_N n), ops).
Proof.
  unfold u64. intros Hn. unfold vec_of. generalize (replicate (N.to_nat n) x). intros l.
  cbn. unfold bind, add_elements, mul_usize, add_usize. cbn -[u64_modulus Z.mul Z.add Z.of_N].
  rewrite Z.mul_1_r, (proj2 (Z.ltb_lt _ _)) by lia. unfold ret at 1.
  rewrite Z.mul_0_r, (proj2 (Z.ltb_lt _ _)) by lia. unfold ret at 1.
  by rewrite Z.add_0_r, (proj2 (Z.ltb_lt _ _)) by lia.
Qed.

Lemma size_is_vec_u8 (x : u8) (n : N) (p : Z -> bool) ops :
  u64 (Z.of_N n) -> p (Z.of_N n) = true -> size_is (vec_of x n) p ops = (Ret tt, ops).
Proof. intros Hn Hp. unfold size_is, bind. rewrite size_of_vec_u8 by done. by rewrite Hp. Qed.

Example large_vec_test_passes : passes test_large_vec = true.
Proof.
  unfold passes, passes_from, test_large_vec. cbv zeta. unfold bind. cbn -[size_is vec_of].
  by rewrite !size_is_vec_u8 by done.
Qed.

End tests.
