(* ===== verification/NetworkWitnesses.v ===== *)
(** * The network theorems at work on a concrete crate and transport

    Addresses are lists of protocols; an endpoint is its URI with what was set
    on it; a listener is its address, and the network the next free port. *)
From S2P Require Import Prelude Bytes Multiaddr Network NetworkTheorems.
Open Scope Z_scope.

Definition list_replace (a : list Protocol) (i : nat) (by_ : Protocol -> outcome (option Protocol)) :
    outcome (option (list Protocol)) :=
  match a !! i with
  | None => Ret None
  | Some p =>
      match by_ p with
      | Panicked msg => Panicked msg
      | Ret None => Ret None
      | Ret (Some q) => Ret (Some (<[i := q]> a))
      end
  end.

#[local] Instance ListAddr : MultiaddrCrate := {|
  Multiaddr := list Protocol;
  iter a := a;
  replace := list_replace;
  Protocol_display _ := "/other";
|}.

#[local] Instance ListAddr_laws : MultiaddrLaws.
Proof.
  split; simpl; unfold list_replace.
  - by intros a i by_ ->.
  - by intros a i p by_ msg -> ->.
  - by intros a i p by_ -> ->.
  - intros a i p q by_ -> ->. eauto.
Qed.

Definition pick_port (a : ToSocketAddrs) (n : Z) : SocketAddr :=
  match a with
  | HostPort _ p => SocketAddr_new (V4 (mkIpv4 (127, 0, 0, 1))) (if p =? 0 then n else p)
  | Addr (SocketAddr_new i p) => SocketAddr_new i (if p =? 0 then n else p)
  end.

#[local] Instance ToyTransport : Transport := {|
  net := Z;
  Uri := string;
  parse_uri s := Ok s;
  Endpoint := string * list Z;
  Endpoint_from u := (u, []);
  ep_concurrency_limit l e := (e.1, l :: e.2);
  ep_timeout d e := (e.1, d :: e.2);
  ep_connect_timeout d e := (e.1, d :: e.2);
  ep_tcp_nodelay _ e := e;
  ep_http2_keep_alive_interval d e := (e.1, d :: e.2);
  ep_keep_alive_timeout d e := (e.1, d :: e.2);
  ep_rate_limit l d e := (e.1, l :: d :: e.2);
  ep_initial_stream_window_size _ e := e;
  ep_initial_connection_window_size _ e := e;
  ep_tcp_keepalive _ e := e;
  UnixStream := string;
  UnixStream_connect path n := (Ok path, n);
  Channel := string;
  ep_connect e n := (Ok e.1, n);
  ep_connect_lazy e := e.1;
  ep_connect_with_connector _ e n := (Ok e.1, n);
  ep_connect_with_connector_lazy _ e := e.1;
  Builder := list layer;
  server_builder := [];
  sb_concurrency_limit_per_connection _ b := b;
  sb_timeout _ b := b;
  sb_tcp_nodelay _ b := b;
  sb_initial_stream_window_size _ b := b;
  sb_initial_connection_window_size _ b := b;
  sb_http2_keepalive_interval _ b := b;
  sb_http2_keepalive_timeout _ b := b;
  sb_max_concurrent_streams _ b := b;
  sb_tcp_keepalive _ b := b;
  sb_layer l b := l ++ b;
  Svc := unit;
  Router := list layer * list unit;
  builder_add_service s b := (b, [s]);
  router_add_service s r := (r.1, r.2 ++ [s]);
  HealthReporter := unit;
  health_reporter := (tt, tt);
  TcpListener := SocketAddr;
  TcpListener_bind a n := (Ok (pick_port a n), n + 1);
  listener_local_addr l := Ok l;
  UnixListener := string;
  UnixListener_bind path n := (Ok path, n);
|}.

Definition localhost : Ipv4Addr := mkIpv4 (127, 0, 0, 1).

(** /ip4/127.0.0.1/tcp/0/http, bound where the next free port is 40000. *)
Definition any_port : Multiaddr := [Ip4 localhost; Tcp 0; Http].

Definition ex_net : net := 40000.

Definition ex_target : target := TIp4 localhost 0 SchemeHttp.

Lemma endpoint_from_multiaddr_spec_witness :
  iter any_port = target_protocols ex_target /\
  endpoint_from_multiaddr any_port = Ok (mkMyEndpoint ("http://127.0.0.1:0", []) None).
Proof.
  split; [reflexivity|].
  destruct (proj1 (endpoint_from_multiaddr_spec any_port) ex_target eq_refl) as [H _].
  rewrite H. vm_compute. reflexivity.
Defined.

Lemma bind_local_addr_witness :
  iter any_port = target_protocols ex_target /\
  exists r n', ServerBuilder_bind (from_config Config_new) any_port ex_net = (Ret r, n') /\
    match r with
    | Ok srv => exists t', endpoint_from_multiaddr (local_addr srv) = target_endpoint t'
    | Err e => refuses ex_target e ex_net n'
    end.
Proof.
  split; [reflexivity|].
  destruct (bind_local_addr (from_config Config_new) any_port ex_net) as (r & n' & H & _ & Hr).
  exists r, n'. split; [exact H|]. specialize (Hr ex_target eq_refl). destruct r as [srv|e].
  - destruct Hr as (l & t' & _ & _ & _ & _ & Hr). exists t'. exact Hr.
  - exact Hr.
Defined.

(** The port the listener got is the one the client dials. *)
Example bound_port :
  match (ServerBuilder_bind (from_config Config_new) any_port ex_net).1 with
  | Ret (Ok srv) =>
      match endpoint_from_multiaddr (local_addr srv) with
      | Ok e => (endpoint e).1 = "http://127.0.0.1:40000"
      | Err _ => False
      end
  | _ => False
  end.
Proof. vm_compute. reflexivity. Qed.
