(* ===== verification/MallocWitnesses.v ===== *)
(** * The heap size theorems at work *)
From S2P Require Import Prelude MallocSize MallocTheorems.
Open Scope Z_scope.

#[local] Instance debug_profile : Profile := {| checks := true |}.

#[local] Instance is_0_mem : SizeOf is_0 := {| mem_size := 8 |}.
#[local] Instance rust_string_mem : SizeOf rust_string := {| mem_size := 24 |}.
#[local] Instance is_0_small : SmallType is_0.
Proof. reflexivity. Qed.
#[local] Instance rust_string_small : SmallType rust_string.
Proof. reflexivity. Qed.

Definition ex_ops : MallocSizeOfOps := new_malloc_size_ops (fun _ => 0).

Lemma ex_fit : constants_fit (K:=is_0) (V:=rust_string).
Proof. intros k v H. discriminate H. Qed.

(** Two entries, in a table with room for four. *)
Definition ex_entries : storage (is_0 * rust_string) :=
  mkStorage _ [(mkIs0 "u64", mkString "one" 3); (mkIs0 "u64", mkString "three" 8)] 4 4096.

Lemma containers_measured_witness :
  constants_fit (K:=is_0) (V:=rust_string) /\
  size_of (mkHashMap _ _ ex_entries) ex_ops = (Ret 171, ex_ops).
Proof.
  split; [exact ex_fit|].
  assert (H : Measured (HashMap is_0 rust_string)).
  { pose proof (containers_measured (A:=is_0) (B:=rust_string) ex_fit) as H. by destruct_and! H. }
  assert (E : deep (mkHashMap _ _ ex_entries) = 171) by reflexivity. rewrite <- E.
  apply (size_of_deep (mkHashMap _ _ ex_entries) ex_ops); [reflexivity|].
  rewrite E. split; [discriminate|reflexivity].
Defined.

(** The table of 4 slots of 48 bytes is counted twice: 384 instead of 192. *)
Lemma indexmap_double_counts_witness :
  constants_fit (K:=is_0) (V:=rust_string) /\
  size_of (mkIndexMap _ _ ex_entries) ex_ops = (Ret (384 + 11), ex_ops).
Proof.
  split; [exact ex_fit|].
  pose proof (indexmap_double_counts ex_fit ex_entries ex_ops eq_refl) as H.
  apply H. vm_compute. split; [discriminate|reflexivity].
Defined.

(** Three [Arc]s of two strings. *)
Definition ex_heap (p : Z) : rust_string := if p =? 4096 then mkString "one" 3 else mkString "three" 8.

Definition ex_arcs : list (Arc rust_string) :=
  [mkArc _ 4096 (ex_heap 4096); mkArc _ 8192 (ex_heap 8192); mkArc _ 4096 (ex_heap 4096)].

Lemma arcs_counted_once_witness :
  allocations ex_heap ex_arcs /\
  (fold_size conditional_size_of 0 ex_arcs (with_seen ∅ ex_ops)).1 = Ret 59.
Proof.
  assert (H : allocations ex_heap ex_arcs) by (repeat constructor).
  split; [exact H|].
  assert (E : sum_over ex_heap [4096; 8192] = 59) by reflexivity. rewrite <- E.
  apply (arcs_counted_once ex_heap ex_arcs [4096; 8192] ex_ops eq_refl H).
  - apply NoDup_cons_2; [set_solver|apply NoDup_singleton].
  - intros p. simpl. set_solver.
  - rewrite E. split; [discriminate|reflexivity].
Defined.
