(* ===== verification/RccheckWitnesses.v ===== *)
(** * The certificate theorems at work

    A toy infrastructure with the DER headers of real keys: a certificate is
    the key it is signed with, so that it verifies under an anchor with that
    key. *)
From S2P Require Import Prelude Bytes Rccheck Certgen.
Open Scope nat_scope.

Definition toy_raw (contents : bytes) : bytes :=
  der_sequence_tag ::
  (if length contents <? 128 then [byte_of_nat (length contents)] else [Byte.x81; Byte.x00]) ++ contents.

Definition toy_from_der (b : bytes) : result (bytes * bytes) string :=
  match b with
  | Byte.x30 :: n :: cs =>
      let n := N.to_nat (Byte.to_N n) in
      if (n <? 128) && (n <=? length cs) then Ok (drop n cs, take n cs) else Err "length"
  | _ => Err "not a sequence"
  end.

Definition toy_verify (cert : bytes) (_ : list unit) (anchors : list TrustAnchor) (_ : list bytes)
    (_ : Z) : result unit webpki_error :=
  if existsb (fun a => bool_decide (anchor_spki a = cert)) anchors then Ok tt
  else Err InvalidSignatureForPublicKey.

#[local] Instance ToyPki : Pki := {|
  SubjectPublicKeyInfo := bytes;
  spki_eq_dec := bytes_eq_dec;
  spki_from_der := toy_from_der;
  spki_raw := toy_raw;
  EndEntityCert := bytes;
  EndEntityCert_try_from b := Ok b;
  try_from_cert_der _ := Ok (mkTrustAnchor [] [] None);
  SystemTime := Z;
  Time := Z;
  Time_try_from t := Ok t;
  DnsNameRef := string;
  try_from_ascii_str s := Ok s;
  SignatureAlgorithm := unit;
  ECDSA_P256_SHA256 := tt;
  ED25519 := tt;
  verify_is_valid_tls_client_cert := toy_verify;
  verify_is_valid_tls_server_cert := toy_verify;
  verify_is_valid_for_dns_name _ _ := Ok tt;
|}.

Lemma byte_of_nat_to_N n : byte_of_nat (N.to_nat (Byte.to_N n)) = n.
Proof. by destruct n. Qed.

#[local] Instance ToyPki_laws : PkiLaws.
Proof.
  refine (Build_PkiLaws ToyPki _ (fun s => s) _ _).
  - intros b rest s. simpl. unfold toy_from_der.
    destruct b as [|t [|n cs]]; [done|by destruct t|].
    destruct t; try done. set (k := N.to_nat (Byte.to_N n)).
    destruct (Nat.ltb_spec k 128); [|done]. destruct (Nat.leb_spec k (length cs)); [|done].
    intros [= <- <-]. unfold toy_raw. rewrite length_take, Nat.min_l by lia.
    rewrite (proj2 (Nat.ltb_lt _ _)) by lia. unfold k at 1. rewrite byte_of_nat_to_N. simpl.
    by rewrite take_drop.
  - intros s H. simpl. unfold toy_raw. by rewrite (proj2 (Nat.ltb_lt _ _)).
  - intros s H. simpl. unfold toy_raw. rewrite (proj2 (Nat.ltb_ge _ _)) by lia.
    by exists Byte.x81, [Byte.x00].
Defined.

Definition ex_key : bytes := [Byte.x30; Byte.x02; Byte.x0a; Byte.x0b].
Definition ex_cert : bytes := [Byte.x0a; Byte.x0b].
Definition ex_psk : Psk := mkPsk ex_key ex_cert.
Definition ex_set : PskSet := mkPskSet {[ ex_key := ex_psk ]}.

Lemma psk_is_its_bytes_witness : valid_psk ex_psk /\ Psk_clone ex_psk = Ret ex_psk.
Proof.
  assert (H : valid_psk ex_psk) by reflexivity.
  split; [exact H|]. apply (psk_is_its_bytes ex_psk ex_psk H H).
Defined.

Lemma pskset_accepts_only_members_witness :
  PskSet_from_der [ex_key] = Ok ex_set /\
  (PskSet_verify_client_cert ex_set ex_key ex_cert [] 0%Z = Ret (Ok tt) <->
   ex_key ∈ [ex_key] /\ client_checked ex_cert ex_cert [] 0%Z).
Proof.
  assert (H : PskSet_from_der [ex_key] = Ok ex_set) by reflexivity.
  split; [exact H|].
  apply (pskset_accepts_only_members [ex_key] ex_set ex_key ex_cert [] (DnsName "peer") 0%Z H)
    with (rest := []) (s := ex_cert).
  reflexivity.
Defined.

Example member_accepted :
  PskSet_verify_client_cert ex_set ex_key ex_cert [] 0%Z = Ret (Ok tt).
Proof. reflexivity. Qed.

Example other_certificate_refused :
  PskSet_verify_client_cert ex_set ex_key [Byte.x0c] [] 0%Z = Ret (Err InvalidCertificateSignature).
Proof. reflexivity. Qed.

(** ** Certificates

    Two public keys; what is signed is the secret and the names. *)

Definition toy_key (k : bool) : bytes := replicate 32 (if k then Byte.x01 else Byte.x02).

#[local] Instance ToyCerts : CertCrates := {|
  DalekSecret := bytes;
  DalekPublic := bool;
  secret_to_bytes s := s;
  public_as_bytes := toy_key;
  to_pkcs8_der kb := Ok (secret_key kb);
  RcgenAlgorithm := unit;
  PKCS_ED25519 := tt;
  RcgenKeyPair := bytes;
  KeyPair_from_der_and_sign_algo der _ := Ok der;
  RcgenCertificate := bytes;
  Certificate_from_params p := match params_key_pair p with Some kp => Ok kp | None => Err "no key" end;
  serialize_der c := Ok c;
  serialize_request_der c := Ok c;
  RcgenCsr := bytes;
  Csr_from_der b := Ok b;
  serialize_der_with_signer csr c := Ok (csr ++ c);
  ObjectIdentifier := unit;
  ED25519_OID := tt;
  spki_to_vec i := Ok (ed25519_spki_header ++ info_key _ i);
|}.

#[local] Instance ToyCerts_laws : CertLaws.
Proof.
  refine {| key_alg _ := tt |}; simpl; try done.
  - by intros der [].
  - intros p kp -> _. by eexists.
  - by intros [] [].
Defined.

Lemma toy_parses : parses_ed25519.
Proof.
  intros key Hl. do 32 (destruct key as [|? key]; [done|]). destruct key; [|done].
  eexists. reflexivity.
Defined.

Definition ex_public : DalekPublic := true.

Lemma pskset_of_public_keys_witness :
  parses_ed25519 /\
  exists set root, public_key_to_spki ex_public = Ret root /\
    (PskSet_verify_client_cert set root (ed25519_contents ex_public) [] 0%Z = Ret (Ok tt) <->
     ex_public ∈ [ex_public] /\
     client_checked (ed25519_contents ex_public) (ed25519_contents ex_public) [] 0%Z).
Proof.
  split; [exact toy_parses|].
  destruct (pskset_of_public_keys (CC := ToyCerts) (PK := ToyPki) [ex_public] ex_public (ed25519_contents ex_public) [] (DnsName "peer") 0%Z toy_parses)
    as (_ & set & root & _ & _ & Hr & Hc & _).
  exists set, root. split; [exact Hr|exact Hc].
Defined.

Example certificate_of_names :
  keypair_to_certificate ["localhost"%string] (mkKeypair [Byte.x0a] true) = Ret (Ok [Byte.x0a]).
Proof. reflexivity. Qed.
