(* ===== verification/TelemetryWitnesses.v ===== *)
(** * The telemetry theorems at work

    Levels are numbers, from 1 for errors to 5 for traces; a filter is its
    directives, which parse when they are not empty; the default build has the
    jaeger and chrome features. *)
From S2P Require Import Prelude Bytes Platform World MemPlatform Telemetry TelemetryTheorems.
Open Scope Z_scope.

Definition parse_filter (s : string) : result string string :=
  if bool_decide (s = "") then Err "empty" else Ok s.

Definition parse_level (s : string) : option Z :=
  if bool_decide (s = "info") then Some 3 else if bool_decide (s = "debug") then Some 4 else None.

#[local] Instance SimpleTracing : Tracing := {|
  feature_tokio_console := false;
  feature_chrome := true;
  feature_jaeger := true;
  Level := Z;
  INFO := 3;
  level_le := Z.leb;
  Level_from_str := parse_level;
  Metadata := bool * Z * string;
  is_span m := m.1.1;
  meta_level m := m.1.2;
  meta_name m := m.2;
  EnvFilter := string;
  EnvFilter_try_new := parse_filter;
  EnvFilter_new s := s;
  EnvFilter_try_from_default_env env :=
    match env_lookup "RUST_LOG" env with Some s => parse_filter s | None => Err "unset" end;
  EnvFilter_from_env_lossy _ env := default "info" (env_lookup "RUST_LOG" env);
  EnvFilter_to_string s := s;
  stderr_is_tty := false;
  install_batch _ _ _ := Ok tt;
  powf a _ := a;
  exponential_buckets _ _ _ := Ok [f64_of_Z 500];
|}.

Definition ex_process : Process :=
  mkProcess {[ "TOKIO_JAEGER" := Utf8 "1"; "RUST_LOG" := Utf8 "warn" ]}
    {[ 0%nat := (∅ : gset string) ]} ∅ None StdHook false Unforced.

Definition ex_config : TelemetryConfig :=
  with_prom_registry (with_span_level (TelemetryConfig_new "my_app") 4) 0%nat.

Lemma ex_init_ready : init_ready ex_config ex_process [f64_of_Z 500].
Proof.
  split; [reflexivity|]. split; [|reflexivity].
  intros reg [= <-]. split; [reflexivity|]. eexists. split; [reflexivity|].
  eexists _, _. reflexivity.
Qed.

Lemma init_spec_witness :
  init_ready ex_config ex_process [f64_of_Z 500] /\
  exists p' h, init ex_config ex_process = (Ret (mkTelemetryGuards Stderr None, h), p') /\
    FilterHandle_get h p' = (Ret (Ok "warn"%string), p').
Proof.
  split; [exact ex_init_ready|].
  destruct (init_spec ex_config ex_process [f64_of_Z 500] ex_init_ready) as (p' & h & Hi & _ & Hg & _).
  exists p', h. split; [exact Hi|exact Hg].
Defined.

(** The same process after [init]. *)
Definition ex_running : Process := (init ex_config ex_process).2.

Lemma init_once_witness :
  is_Some (p_default ex_running) /\
  exists msg p', init (TelemetryConfig_new "again") ex_running = (Panicked msg, p').
Proof.
  assert (H : is_Some (p_default ex_running)) by (eexists; reflexivity).
  split; [exact H|].
  destruct (init_once (TelemetryConfig_new "again") ex_running H) as [(msg & p' & Hi & _) _].
  exists msg, p'. exact Hi.
Defined.

Lemma filter_handle_spec_witness :
  p_filters ex_running !! 0%nat = Some "warn"%string /\
  FilterHandle_get 0%nat
    (set_p_filters (<[0%nat := "debug"%string]> (p_filters ex_running)) ex_running) =
    (Ret (Ok "debug"%string),
     set_p_filters (<[0%nat := "debug"%string]> (p_filters ex_running)) ex_running).
Proof.
  assert (H : p_filters ex_running !! 0%nat = Some "warn"%string) by reflexivity.
  split; [exact H|].
  exact (proj1 (proj2 (filter_handle_spec 0%nat "warn"%string ["debug"%string; ""%string] ex_running H))).
Defined.

(** Two spans, the inner one closed first, and one above the span level. *)
Definition outer : Metadata := (true, 3, "outer"%string).
Definition inner : Metadata := (true, 4, "inner"%string).
Definition ex_filter : Metadata -> bool := span_filter 4.

Lemma span_latency_spec_witness :
  sp_open (spans_after ex_filter [New 1 outer; Pass 10] no_spans) !! 2%nat = None /\
  exists after,
    run_spans ex_filter [New 1 outer; Pass 10; New 2 inner; Pass 7; Close 2] no_spans = (Ret tt, after) /\
    sp_observed after = [("inner"%string, f64_of_Z 7)].
Proof.
  assert (H : sp_open (spans_after ex_filter [New 1 outer; Pass 10] no_spans) !! 2%nat = None)
    by reflexivity.
  split; [exact H|].
  destruct (span_latency_spec ex_filter [New 1 outer; Pass 10] [Pass 7] 2 inner H)
    as (after & _ & Ha & Ho & _).
  { intros [? | []%elem_of_nil]%elem_of_cons. discriminate. }
  exists after. split; [exact Ha|exact Ho].
Defined.

Example nested_spans :
  sp_observed (run_spans ex_filter
    [New 1 outer; Pass 10; New 2 inner; Pass 7; Close 2; New 3 (true, 5, "trace"%string);
     Pass 1; Close 3; Pass 2; Close 1] no_spans).2 =
    [("inner"%string, f64_of_Z 7); ("outer"%string, f64_of_Z 20)].
Proof. vm_compute. reflexivity. Qed.

Lemma with_env_example :
  exists c, with_env ex_config ex_process = (Ret c, ex_process) /\ enable_jaeger c = true.
Proof.
  pose proof (with_env_spec ex_config ex_process) as (c & Hc & _ & _ & _ & _ & _ & _ & _ & Hj & _).
  exists c. split; [exact Hc|]. by rewrite Hj.
Qed.
