(* ===== verification/HttpWitnesses.v ===== *)
(** * The layers, the codec and closure metrics at work

    Requests and responses are a path or a status with a map of headers, and the
    layers do what their documentation says; buffers hand out at most four bytes
    at a time; label pairs are ordered by the length of their names. *)
From Stdlib Require Import Sorting.Sorted.
From S2P Require Import Prelude Bytes Platform Multiaddr Network MemPlatform HttpLayers Codec ClosureMetric.
Open Scope Z_scope.

Definition headers : Type := gmap string string.

Definition toy_request : Type := string * headers.
Definition toy_response : Type := Z * headers.

Definition toy_service (W : Type) : Type := toy_request -> comp W (result toy_response string).

Definition toy_set_header {W} (n : string) (make : toy_request -> outcome (option string))
    (svc : toy_service W) : toy_service W :=
  fun req w =>
    match make req with
    | Ret (Some v) => svc (req.1, <[n := v]> req.2) w
    | Ret None => svc req w
    | Panicked msg => (Panicked msg, w)
    end.

Definition toy_trace {W} (now : W -> Z) (on_request : toy_request -> comp W unit)
    (on_response : toy_response -> Duration -> comp W unit)
    (on_failure : unit -> Duration -> comp W unit) (svc : toy_service W) : toy_service W :=
  fun req =>
    start <- gets now ;;
    on_request req ;;
    r <- svc req ;;
    latency <- gets (fun w => now w - start) ;;
    match r with
    | Ok response => on_response response latency ;; ret tt
    | Err e => on_failure tt latency
    end ;;
    ret r.

Definition toy_propagate {W} (n : string) (svc : toy_service W) : toy_service W :=
  fun req =>
    r <- svc req ;;
    ret (map_ok (fun response : toy_response =>
           match req.2 !! n with
           | Some v => (response.1, <[n := v]> response.2)
           | None => response
           end) r).

#[local] Instance ToyHttp : Http := {|
  HeaderValue := string;
  HeaderValue_from_str s := Ok s;
  HeaderValue_to_str v := Ok v;
  HeaderMap := headers;
  header_get n m := m !! n;
  Request := toy_request;
  uri_path r := r.1;
  Response := toy_response;
  response_headers r := r.2;
  response_status r := r.1;
  ServiceError := string;
  Code := string;
  Code_Ok := "0";
  Status_from_header_map m := m !! "grpc-status";
  GrpcFailureClass := unit;
  set_request_header_overriding W := @toy_set_header W;
  trace_for_grpc W := @toy_trace W;
  propagate_header W := @toy_propagate W;
  concurrency_limit _ _ svc := svc;
  load_shedding _ svc := svc;
|}.

#[local] Instance ToyHttp_laws : HttpLaws.
Proof.
  refine {|
    request_header n (r : Request) := (r : toy_request).2 !! n;
    with_header n v (r : Request) := ((r : toy_request).1, <[n := v]> (r : toy_request).2);
    with_response_header n v (r : Response) := ((r : toy_response).1, <[n := v]> (r : toy_response).2);
    grpc_failure _ := None;
    service_failure _ := tt;
  |}; try done.
  - intros n v r. apply lookup_insert_eq.
  - intros n v r. apply lookup_insert_eq.
  - intros n v r Hn _ _. by apply lookup_insert_ne.
Defined.

(** A service that takes five units of time and answers 200, not found. *)
Definition ex_service : Service (ServerState unit) :=
  fun req s =>
    (Ret (Ok (200, {[ "grpc-status" := "5" ]})),
     mkServerState (ss_calls s) (ss_lifetimes s) (ss_now s + 5) (ss_inner s)).

Definition ex_request : Request := ("/grpc.health.v1.Health/Check"%string, ∅ : headers).

Definition ex_server : ServerState unit := mkServerState [] (add_lifetime None no_lifetimes) 100 tt.

Lemma layers_report_request_witness :
  header_path (uri_path ex_request) "/grpc.health.v1.Health/Check"%string /\
  ss_calls (layered 0 (config_layers Config_new) ex_service ex_request ex_server).2 =
    [MRequest "/grpc.health.v1.Health/Check"; MResponse "/grpc.health.v1.Health/Check" 5 200 "5"%string].
Proof.
  assert (H : header_path (uri_path ex_request) "/grpc.health.v1.Health/Check"%string) by (by split).
  split; [exact H|].
  rewrite (layers_report_request Config_new 0 ex_service ex_request "/grpc.health.v1.Health/Check"%string
    ex_server _ _ eq_refl eq_refl H eq_refl).
  reflexivity.
Defined.

(** ** The codec *)

#[local] Instance ByteSerde : Serde byte := {|
  ser_key x := Ok [x];
  de_key b := match b with [x] => Ok x | _ => Err BkSizeLimit end;
  ser_val x := Ok [x];
  de_val b := match b with x :: _ => Ok x | [] => Err (BkIo "unexpected end of file") end;
|}.

#[local] Instance ByteInto : SerializeInto byte := {| serialize_into x out := (Ok tt, out ++ [x]) |}.

#[local] Instance ByteBincode : BincodeLaws byte.
Proof. split; try done; by intros ? ? ? [= <-]. Qed.

#[local] Instance ChunkBuf : DecodeBuf bytes := {|
  has_remaining b := match b with [] => false | _ => true end;
  chunk b := take 4 b;
  advance n b := drop (Z.to_nat n) b;
|}.

#[local] Instance ChunkBuf_laws : DecodeBufLaws bytes.
Proof.
  refine {| remaining b := b |}; simpl; try done.
  - by intros [].
  - intros b. exists (drop 4 b). by rewrite take_drop.
  - by intros [].
Defined.

Definition ex_buffer : bytes := [Byte.x01; Byte.x02; Byte.x03; Byte.x04; Byte.x05].

Lemma decode_terminates_witness :
  (length (remaining ex_buffer) < 6)%nat /\
  exists items err b', decode_all (U := byte) 6 ex_buffer = (Ret (Some (items, err)), b').
Proof.
  assert (H : (length (remaining ex_buffer) < 6)%nat) by (simpl; lia).
  split; [exact H|].
  destruct (decode_terminates (T := byte) ex_buffer 6 H) as (items & err & b' & Hd & _).
  exists items, err, b'. exact Hd.
Defined.

Lemma codec_roundtrip_witness :
  chunk [Byte.x07; Byte.x08] = remaining [Byte.x07; Byte.x08] /\
  exists b', decode (U := byte) [Byte.x07; Byte.x08] = (Ret (Ok (Some Byte.x07)), b') /\ b' = [].
Proof.
  assert (H : chunk [Byte.x07; Byte.x08] = remaining [Byte.x07; Byte.x08]) by reflexivity.
  split; [exact H|].
  destruct (codec_roundtrip Byte.x07 [] [Byte.x07; Byte.x08] [Byte.x08] H) as (_ & Hd & _).
  destruct (Hd eq_refl) as (b' & Hb & He & _); [done|]. exists b'. split; [exact Hb|exact He].
Defined.

(** ** Closure metrics *)

#[local] Instance ToyProm : PromCore := {|
  label_le a b := (String.length (lp_name a) <=? String.length (lp_name b))%nat;
  Describer := list string;
  describe labels := Ok (mkDesc "queue_size" "help" [mkLabelPair "zone" "eu"] labels);
|}.

#[local] Instance ToyProm_laws : PromCoreLaws.
Proof.
  split; simpl.
  - intros a b. rewrite !Nat.leb_le. lia.
  - intros a b c. rewrite !Nat.leb_le. lia.
  - intros d desc [= <-]. repeat constructor.
Qed.

Lemma make_label_pairs_spec_witness :
  describe ["service"%string; "id"%string] =
    Ok (mkDesc "queue_size" "help" [mkLabelPair "zone" "eu"] ["service"%string; "id"%string]) /\
  exists pairs,
    make_label_pairs (mkDesc "queue_size" "help" [mkLabelPair "zone" "eu"] ["service"%string; "id"%string])
      ["api"%string; "7"%string] = Ret (Ok pairs) /\
    pairs ≡ₚ [mkLabelPair "service" "api"; mkLabelPair "id" "7"; mkLabelPair "zone" "eu"].
Proof.
  split; [reflexivity|].
  destruct (make_label_pairs_spec (PC := ToyProm) ["service"%string; "id"%string]
    (mkDesc "queue_size" "help" [mkLabelPair "zone" "eu"] ["service"%string; "id"%string])
    ["api"%string; "7"%string] eq_refl) as [Hok _].
  destruct (Hok eq_refl) as (pairs & Hp & _ & Hperm). exists pairs. split; [exact Hp|exact Hperm].
Defined.

Example sorted_labels :
  make_label_pairs (mkDesc "queue_size" "help" [mkLabelPair "zone" "eu"] ["service"%string; "id"%string])
    ["api"%string; "7"%string] =
    Ret (Ok [mkLabelPair "id" "7"; mkLabelPair "zone" "eu"; mkLabelPair "service" "api"]).
Proof. reflexivity. Qed.
