(* ===== verification/OtherTests.v ===== *)
(** * The tests of the smaller crates

    The tests modules of mysten-network/src/multiaddr.rs and of the two files of
    telemetry-subscribers, the tests of name-variant, prometheus-closure-metric
    and telemetry-subscribers (the handle of reload.rs), and the sampling test in
    time of typed-store/tests/macro_tests.rs, which is a run of the interval and
    its task.  The crates they call are the small ones of the witnesses. *)
From S2P Require Import Prelude Bytes Platform World Sampling MemPlatform Multiaddr NetworkWitnesses Telemetry TelemetryWitnesses ClosureMetric NameVariant Assertions.
Open Scope Z_scope.

#[local] Existing Instances ListAddr SimpleTracing.

(** ** multiaddr.rs *)

Definition test_to_socket_addr_basic : comp unit unit :=
  let multi_addr_ipv4 : Multiaddr := [Ip4 (mkIpv4 (127, 0, 0, 1)); Tcp 10500] in
  socket_addr_ipv4 <- unwrap "Couldn't convert to socket addr" (to_socket_addr multi_addr_ipv4) ;;
  assert_eq (SocketAddr_display socket_addr_ipv4) "127.0.0.1:10500" ;;
  let multi_addr_ipv6 : Multiaddr := [Ip6 (mkIpv6 [172; 0; 0; 1; 1; 1; 1; 1]); Tcp 10500] in
  socket_addr_ipv6 <- unwrap "Couldn't convert to socket addr" (to_socket_addr multi_addr_ipv6) ;;
  assert_eq (SocketAddr_display socket_addr_ipv6) "[ac::1:1:1:1:1]:10500".

Definition test_to_socket_addr_unsupported_protocol : comp unit unit :=
  let multi_addr_dns : Multiaddr := [OtherProtocol 56 "mysten.sui"; Tcp 10500] in
  assert (negb (is_ok (to_socket_addr multi_addr_dns))).

Example multiaddr_tests_pass :
  map (passes_from tt) [test_to_socket_addr_basic; test_to_socket_addr_unsupported_protocol] =
    [true; true].
Proof. run_tests. Qed.

(** ** name-variant *)

Definition TestEnum : DeriveInput :=
  mkDeriveInput "TestEnum" (DataEnum
    [mkVariant "A" Unit; mkVariant "B" (Unnamed []); mkVariant "C" (Unnamed ["i32"; "i32"]);
     mkVariant "D" (Named [("_name", "String"); ("_age", "i32")]); mkVariant "VariantTest" Unit]).

(** [x.variant_name()] of a value of each variant, in the order of the test. *)
Definition smoke_test : comp unit unit :=
  generated <- unwrap_result (derive_named_variant TestEnum) ;;
  for_each (fun v : Variant =>
    name <- unwrap_option (variant_name generated.2 (mkEnumValue "TestEnum" v)) ;;
    assert_eq name (variant_ident v))
    [mkVariant "C" (Unnamed ["i32"; "i32"]); mkVariant "A" Unit; mkVariant "B" (Unnamed []);
     mkVariant "D" (Named [("_name", "String"); ("_age", "i32")]); mkVariant "VariantTest" Unit].

Example name_variant_test_passes : passes_from tt smoke_test = true.
Proof. run_tests. Qed.

(** ** prometheus-closure-metric *)

(** [prometheus::opts!(name, help).variable_label(label)]. *)
#[local] Instance OptsProm : PromCore := {|
  label_le a b := (String.length (lp_name a) <=? String.length (lp_name b))%nat;
  Describer := string * string * string;
  describe o := Ok (mkDesc o.1.1 o.1.2 [] [o.2]);
|}.

(** To register the metric and gather is to collect it. *)
Definition closure_metric_basic : comp unit unit :=
  let opts : Describer := ("my_closure_metric", "A test closure metric", "my_label") in
  let fn_42 := ret 42 in
  r <- (fun w => (ClosureMetric_new opts Gauge fn_42 ["forty_two"], w)) ;;
  metric0 <- unwrap_result r ;;
  metric_families <- collector_collect f64_of_Z metric0 ;;
  assert_eq 1%nat (length metric_families) ;;
  metric_family <- unwrap_option (head metric_families) ;;
  assert_eq "my_closure_metric" (mf_name metric_family) ;;
  assert_eq 1%nat (length (mf_metric metric_family)) ;;
  metric <- unwrap_option (head (mf_metric metric_family)) ;;
  got <- unwrap_option (pm_gauge metric) ;;
  assert (SpecFloat.SFeqb (f64_of_Z 42) got) ;;
  assert_eq [("my_label", "forty_two")]
    (map (fun l => (lp_name l, lp_value l)) (pm_label metric)).

Example closure_metric_test_passes : passes_from tt closure_metric_basic = true.
Proof. run_tests. Qed.

(** ** telemetry-subscribers *)

(** A process with one empty registry and nothing in its environment. *)
Definition test_process : Process :=
  mkProcess ∅ {[ 0%nat := (∅ : gset string) ]} ∅ None StdHook false Unforced.

Definition test_prom_span_latency_init : comp Process unit :=
  res <- try_new 0%nat 0 ;;
  assert (match res with Err ZeroOrNegativeNumBuckets => true | _ => false end).

(** The two tests share a process, whichever is first. *)
Definition testing_logger : comp Process unit := init_for_testing ;; init_for_testing.

(** The handle of the reload test, up to what is logged. *)
Definition reload : comp Process unit :=
  let config := with_log_file (TelemetryConfig_new "test") "out.log" in
  gh <- init config ;;
  r <- FilterHandle_update gh.2 "debug" ;; unwrap_result r ;;
  r <- FilterHandle_get gh.2 ;; filter <- unwrap_result r ;;
  assert_eq filter "debug".

Example telemetry_tests_pass :
  map (passes_from test_process) [test_prom_span_latency_init; testing_logger; reload] =
    [true; true; true].
Proof. run_tests. Qed.

(** The spans of [test_telemetry_init]: under a level of DEBUG the first is
    recorded with its 100 ms, the second, a TRACE span, is not. *)
Definition telemetry_spans : list span_event :=
  [New 1 (true, 4, "yo span yo"); Pass 100000000; Close 1;
   New 2 (true, 5, "this span should not be created"); Pass 100000000; Close 2].

Example telemetry_init_spans :
  sp_observed (run_spans (span_filter 4) telemetry_spans no_spans).2 =
    [("yo span yo", f64_of_Z 100000000)].
Proof. vm_compute. reflexivity. Qed.

(** ** Sampling in time *)

(** The task runs only when the test waits.  At each wait it is woken, finds
    more than ten operations and resets the counter. *)
Definition eleven : list sampler_label := replicate 11 (Sampled false).
Definition test_sampling_time : list sampler_label :=
  eleven ++ [Loaded; Stored; Sampled true] ++
  replicate 10 (Sampled false) ++ [Sampled false] ++ [Woken; Loaded; Stored; Sampled true].

(** What a label does, as a function. *)
Definition sampler_next (d : Duration) (n : Z) (s : sampler) (l : sampler_label) : option sampler :=
  match l, s_pc s with
  | Sampled b, pc =>
      if decide (sample_test d n (s_counter s) = Some b)
      then Some (mkSampler (fetch_add_1 (s_counter s)).2 pc) else None
  | Loaded, AtLoad => Some (mkSampler (s_counter s) (if n <? s_counter s then AtStore else Asleep))
  | Stored, AtStore => Some (mkSampler 0 Asleep)
  | Woken, Asleep => Some (mkSampler (s_counter s) AtLoad)
  | _, _ => None
  end.

Lemma sampler_next_step d n s l s' : sampler_next d n s l = Some s' -> sampler_step d n s l s'.
Proof.
  destruct s as [c pc]. unfold sampler_next. destruct l, pc; simpl; try done;
    try (case_decide; [|done]); intros [= <-];
    first [by apply (step_sample d n (mkSampler c _))|constructor].
Qed.

Lemma sampler_run_fold d n ls s0 : forall s1 ls1 s,
  sampler_run d n s0 ls1 s1 ->
  foldl (fun os l => s ← os; sampler_next d n s l) (Some s1) ls = Some s ->
  sampler_run d n s0 (ls1 ++ ls) s.
Proof.
  induction ls as [|l ls IH]; simpl; intros s1 ls1 s Hrun Hf.
  - rewrite app_nil_r. by injection Hf as <-.
  - destruct (sampler_next d n s1 l) as [s2|] eqn:E.
    + rewrite cons_middle, (assoc_L (++)). eapply IH; [|exact Hf].
      eapply run_snoc; [exact Hrun|]. by apply sampler_next_step.
    + exfalso. clear -Hf. induction ls; simpl in Hf; [done|auto].
Qed.

Example sampling_time_test_passes :
  sampler_run (from_secs 1) 10 sampler_init test_sampling_time (mkSampler 1 Asleep).
Proof.
  apply (sampler_run_fold _ _ test_sampling_time _ sampler_init []); [constructor|].
  vm_compute. reflexivity.
Qed.
